(** * Foundation: spec resolution and policy evaluation core

    A shallow embedding of the TypeScript sources

    - [packages/psl-runtime/src/policy/conditions.ts]  (expression evaluator)
    - [packages/psl-runtime/src/policy/rate-limit.ts]  (rate limiter)
    - [packages/psl-runtime/src/policy/engine.ts]      (policy engine)
    - [packages/psl-runtime/src/audit/logger.ts]       (audit log)
    - [tools/fd/src/core/spec-linker.ts]               (spec linker)
    - [tools/fd/src/core/spec-validator.ts]            (spec validator)
    - [tools/fd/src/commands/validate.ts], [generate.ts] (commands)

    followed by the properties established about them.

    Conventions of the embedding.

    - A JavaScript string is a [string]; each character stands for one
      UTF-16 code unit in the range U+0000..U+00FF.
    - A JavaScript object used as a dictionary ([Record<string, T>]) is the
      list of its own entries in enumeration order, which is insertion order
      for keys that are not array indices.  Reading a property that is not
      an own property goes up the prototype chain: where the sources test
      [d[k]] or [k in d] on a dictionary, the names of the members of
      [Object.prototype] are found ([JsValue.objectPrototype]); where they
      read a path given by the caller, what the chain holds is given by an
      [Engine], and the properties hold for every engine.  A [Map] is a
      [gmap], a [Set] is a duplicate-free list in insertion order.
    - An optional property is an [option]; [None] is [undefined].
    - A function that can throw returns an [option]; [None] is the
      exception.  A [try] block with its [catch] is written out.
    - [Date.now()] and [new Date()] are explicit arguments.
    - Numbers are exact decimals (plus NaN and the infinities); the rounding
      of binary64 is outside the model. *)

From Stdlib Require Import ZArith NArith Ascii String List Bool Lia Sorted.
From stdpp Require Import base option list gmap strings sorting.

Set Warnings "-register-all".
Local Open Scope Z_scope.

(* ===================================================================== *)
(** * The JavaScript string library used by the sources *)
(* ===================================================================== *)

Module JsString.

(** White space of [String.prototype.trim] among the code units below 256:
    TAB, LF, VT, FF, CR, SP and NBSP. *)
Definition isWhiteSpace (c : ascii) : bool :=
  let n := nat_of_ascii c in
  ((9 <=? n) && (n <=? 13) || (n =? 32) || (n =? 160))%nat.

Definition isDigit (c : ascii) : bool :=
  let n := nat_of_ascii c in ((48 <=? n) && (n <=? 57))%nat.

Definition isEmpty (s : string) : bool :=
  match s with EmptyString => true | String _ _ => false end.

(** [s.startsWith(p)] *)
Fixpoint startsWith (p s : string) : bool :=
  match p with
  | EmptyString => true
  | String a p' =>
      match s with
      | EmptyString => false
      | String b s' => Ascii.eqb a b && startsWith p' s'
      end
  end.

(** [s.slice(n)] for [0 <= n] *)
Fixpoint drop (n : nat) (s : string) : string :=
  match n with
  | O => s
  | S n' => match s with EmptyString => EmptyString | String _ s' => drop n' s' end
  end.

(** [s.slice(0, n)] for [0 <= n] *)
Fixpoint take (n : nat) (s : string) : string :=
  match n with
  | O => EmptyString
  | S n' => match s with EmptyString => EmptyString | String c s' => String c (take n' s') end
  end.

(** [s.endsWith(p)] *)
Definition endsWith (p s : string) : bool :=
  (String.length p <=? String.length s)%nat &&
  String.eqb (drop (String.length s - String.length p) s) p.

(** [s.includes(sub)] *)
Fixpoint includes (sub s : string) : bool :=
  startsWith sub s ||
  match s with
  | EmptyString => false
  | String _ s' => includes sub s'
  end.

(** [s.split(sep)] for a non-empty separator: the pieces between the
    successive non-overlapping occurrences of [sep], scanning from the left.
    [skip] counts the characters of a matched separator still to be passed
    over, [cur] holds the current piece reversed. *)
Fixpoint split_go (sep : string) (skip : nat) (cur : string) (s : string) : list string :=
  match s with
  | EmptyString => [String.rev cur]
  | String c s' =>
      match skip with
      | S k => split_go sep k cur s'
      | O =>
          if startsWith sep s
          then String.rev cur :: split_go sep (String.length sep - 1) EmptyString s'
          else split_go sep O (String c cur) s'
      end
  end.

Definition split (sep s : string) : list string := split_go sep O EmptyString s.

(** [s.replace(pat, "")] with a string pattern: the first occurrence of
    [pat] is removed. *)
Fixpoint removeFirst (pat s : string) : string :=
  if startsWith pat s then drop (String.length pat) s
  else match s with
       | EmptyString => EmptyString
       | String c s' => String c (removeFirst pat s')
       end.

Fixpoint trimStart (s : string) : string :=
  match s with
  | EmptyString => EmptyString
  | String c s' => if isWhiteSpace c then trimStart s' else s
  end.

Fixpoint trimEnd (s : string) : string :=
  match s with
  | EmptyString => EmptyString
  | String c s' =>
      let t := trimEnd s' in
      if isWhiteSpace c && isEmpty t then EmptyString else String c t
  end.

(** [s.trim()] *)
Definition trim (s : string) : string := trimEnd (trimStart s).

(** [s.slice(1, -1)] *)
Definition slice_1_m1 (s : string) : string :=
  take (String.length s - 2) (drop 1 s).

Fixpoint allb (f : ascii -> bool) (s : string) : bool :=
  match s with
  | EmptyString => true
  | String c s' => f c && allb f s'
  end.

(** [/^\d+$/] *)
Definition isDigits (s : string) : bool := negb (isEmpty s) && allb isDigit s.

(** The position of the first character of [s] that satisfies [f]. *)
Fixpoint indexWhere (f : ascii -> bool) (s : string) : option nat :=
  match s with
  | EmptyString => None
  | String c s' => if f c then Some O else S <$> indexWhere f s'
  end.

Definition isDot (c : ascii) : bool := Ascii.eqb c "."%char.

(** [/^-?\d+(\.\d+)?$/.test(s)] *)
Definition isNumberLiteral (s : string) : bool :=
  let body := if startsWith "-" s then drop 1 s else s in
  match indexWhere isDot body with
  | None => isDigits body
  | Some i => isDigits (take i body) && isDigits (drop (S i) body)
  end.

(** The single quote (39) and the double quote (34). *)
Definition isQuote (c : ascii) : bool :=
  let n := nat_of_ascii c in ((n =? 39) || (n =? 34))%nat.

(** [s.replace(/^['"]|['"]$/g, "")]: a quote at the start is removed, and so
    is a quote at the end of what follows it. *)
Definition stripQuotes (s : string) : string :=
  let s1 := match s with
            | String c s' => if isQuote c then s' else s
            | EmptyString => s
            end in
  match String.rev s1 with
  | String c r => if isQuote c then String.rev r else s1
  | EmptyString => s1
  end.

(** [s.toLowerCase()] on the code units below 256: A-Z and the Latin-1
    capitals other than the multiplication sign. *)
Definition lowerChar (c : ascii) : ascii :=
  let n := nat_of_ascii c in
  if ((65 <=? n) && (n <=? 90)
      || (192 <=? n) && (n <=? 222) && negb (n =? 215))%nat
  then ascii_of_nat (n + 32) else c.

Fixpoint toLowerCase (s : string) : string :=
  match s with
  | EmptyString => EmptyString
  | String c s' => String (lowerChar c) (toLowerCase s')
  end.

(** [parts.join(sep)] *)
Fixpoint join (sep : string) (parts : list string) : string :=
  match parts with
  | [] => EmptyString
  | [p] => p
  | p :: rest => p +:+ sep +:+ join sep rest
  end.

End JsString.

(* ===================================================================== *)
(** * Numbers *)
(* ===================================================================== *)

Module JsNumber.
Import JsString.

(** [Dec m e] is the number [m / 10^e]. *)
Inductive number : Type :=
  | NaN
  | Inf (negative : bool)
  | Dec (m : Z) (e : nat).

Definition zero : number := Dec 0 0.
Definition one : number := Dec 1 0.
Definition ofZ (z : Z) : number := Dec z 0.
Definition ofNat (n : nat) : number := Dec (Z.of_nat n) 0.

(** Both mantissas over the common denominator. *)
Definition align (m1 : Z) (e1 : nat) (m2 : Z) (e2 : nat) : Z * Z :=
  (m1 * 10 ^ Z.of_nat e2, m2 * 10 ^ Z.of_nat e1).

(** [x === y] on numbers *)
Definition strictEquals (x y : number) : bool :=
  match x, y with
  | Dec m1 e1, Dec m2 e2 => let '(a, b) := align m1 e1 m2 e2 in a =? b
  | Inf n1, Inf n2 => Bool.eqb n1 n2
  | _, _ => false
  end.

(** SameValueZero, the comparison of [Array.prototype.includes] *)
Definition sameValueZero (x y : number) : bool :=
  match x, y with
  | NaN, NaN => true
  | _, _ => strictEquals x y
  end.

(** [x < y]; false when either side is NaN *)
Definition lessThan (x y : number) : bool :=
  match x, y with
  | NaN, _ | _, NaN => false
  | Inf n1, Inf n2 => n1 && negb n2
  | Inf n1, Dec _ _ => n1
  | Dec _ _, Inf n2 => negb n2
  | Dec m1 e1, Dec m2 e2 => let '(a, b) := align m1 e1 m2 e2 in a <? b
  end.

Definition isNaN (x : number) : bool :=
  match x with NaN => true | _ => false end.

(** [x <= y] is [!(y < x)] unless a side is NaN *)
Definition lessEqual (x y : number) : bool :=
  negb (isNaN x) && negb (isNaN y) && negb (lessThan y x).

(** [Boolean(x)] *)
Definition toBoolean (x : number) : bool :=
  match x with
  | NaN => false
  | Inf _ => true
  | Dec m _ => negb (m =? 0)
  end.

(** [- x] *)
Definition opp (x : number) : number :=
  match x with
  | NaN => NaN
  | Inf n => Inf (negb n)
  | Dec m e => Dec (- m) e
  end.

(** [x + y] *)
Definition add (x y : number) : number :=
  match x, y with
  | NaN, _ | _, NaN => NaN
  | Inf n1, Inf n2 => if Bool.eqb n1 n2 then Inf n1 else NaN
  | Inf n, Dec _ _ | Dec _ _, Inf n => Inf n
  | Dec m1 e1, Dec m2 e2 => let '(a, b) := align m1 e1 m2 e2 in Dec (a + b) (e1 + e2)
  end.

(** [x - y] *)
Definition sub (x y : number) : number := add x (opp y).

(** [Math.max(x, y)] *)
Definition max (x y : number) : number :=
  match x, y with
  | NaN, _ | _, NaN => NaN
  | _, _ => if lessThan x y then y else x
  end.

Definition digitValue (c : ascii) : Z := Z.of_nat (nat_of_ascii c) - 48.

(** The value of a string of decimal digits. *)
Fixpoint digitsValue (acc : Z) (s : string) : Z :=
  match s with
  | EmptyString => acc
  | String c s' => digitsValue (10 * acc + digitValue c) s'
  end.

(** [parseFloat(s)] on a string that [isNumberLiteral] accepts. *)
Definition parseFloat (s : string) : number :=
  let neg := startsWith "-" s in
  let body := if neg then drop 1 s else s in
  let '(int, frac) :=
    match indexWhere isDot body with
    | None => (body, EmptyString)
    | Some i => (take i body, drop (S i) body)
    end in
  let m := digitsValue 0 (int +:+ frac) in
  Dec (if neg then - m else m) (String.length frac).

(** The decimal digits of a natural number, most significant first. *)
Fixpoint digitsOf (fuel : nat) (n : N) (acc : string) : string :=
  match fuel with
  | O => acc
  | S fuel' =>
      let acc' := String (ascii_of_N (48 + n mod 10)) acc in
      if (n / 10 =? 0)%N then acc' else digitsOf fuel' (n / 10)%N acc'
  end.

Definition natToString (n : N) : string :=
  digitsOf (S (N.to_nat (N.log2 n))) n EmptyString.

Fixpoint repeatChar (c : ascii) (n : nat) : string :=
  match n with O => EmptyString | S n' => String c (repeatChar c n') end.

(** A digit string without its trailing zeros. *)
Definition stripTrailingZeros (s : string) : string :=
  String.rev ((fix go (r : string) : string :=
                 match r with
                 | String c r' => if Ascii.eqb c "0"%char then go r' else r
                 | EmptyString => EmptyString
                 end) (String.rev s)).

(** [String(x)], that is Number::toString with radix 10: with [s] the [k]
    significant digits and [n] the decimal exponent (the value is
    [0.s * 10^n]), plain notation is used when [-6 < n <= 21] and exponent
    notation otherwise. *)
Definition toString (x : number) : string :=
  match x with
  | NaN => "NaN"
  | Inf true => "-Infinity"
  | Inf false => "Infinity"
  | Dec m e =>
      if m =? 0 then "0" else
      let sign := if m <? 0 then "-" else ""%string in
      let all := natToString (Z.to_N (Z.abs m)) in
      let n := Z.of_nat (String.length all) - Z.of_nat e in
      let s := stripTrailingZeros all in
      let k := Z.of_nat (String.length s) in
      sign +:+
      (if (k <=? n) && (n <=? 21) then
         s +:+ repeatChar "0" (Z.to_nat (n - k))
       else if (0 <? n) && (n <=? 21) then
         take (Z.to_nat n) s +:+ "." +:+ drop (Z.to_nat n) s
       else if (-6 <? n) && (n <=? 0) then
         "0." +:+ repeatChar "0" (Z.to_nat (- n)) +:+ s
       else
         let ex := n - 1 in
         let exs := (if ex <? 0 then "-" else "+"%string)
                    +:+ natToString (Z.to_N (Z.abs ex)) in
         if k =? 1 then s +:+ "e" +:+ exs
         else take 1 s +:+ "." +:+ drop 1 s +:+ "e" +:+ exs)
  end.

(** The value [m * 10^t] as a [number]. *)
Definition scaled (m t : Z) : number :=
  if 0 <=? t then Dec (m * 10 ^ t) 0 else Dec m (Z.to_nat (- t)).

Definition isExpMark (c : ascii) : bool :=
  Ascii.eqb c "e"%char || Ascii.eqb c "E"%char.

Definition allDigitsOrEmpty (s : string) : bool := allb isDigit s.

(** An unsigned StrDecimalLiteral other than [Infinity]:
    digits, an optional fraction, an optional exponent. *)
Definition unsignedDecimal (s : string) : option (Z * Z) :=
  let '(mant, ex) :=
    match indexWhere isExpMark s with
    | None => (s, None)
    | Some i => (take i s, Some (drop (S i) s))
    end in
  let exv : option Z :=
    match ex with
    | None => Some 0
    | Some t =>
        let neg := startsWith "-" t in
        let body := if neg || startsWith "+" t then drop 1 t else t in
        if isDigits body
        then Some (if neg then - digitsValue 0 body else digitsValue 0 body)
        else None
    end in
  let parts : option (string * string) :=
    match indexWhere isDot mant with
    | None => if isDigits mant then Some (mant, EmptyString) else None
    | Some i =>
        let int := take i mant in
        let frac := drop (S i) mant in
        if allDigitsOrEmpty int && allDigitsOrEmpty frac
           && negb (isEmpty int && isEmpty frac)
        then Some (int, frac) else None
    end in
  match parts, exv with
  | Some (int, frac), Some e =>
      Some (digitsValue 0 (int +:+ frac), e - Z.of_nat (String.length frac))
  | _, _ => None
  end.

Definition radixDigit (radix : Z) (c : ascii) : option Z :=
  let n := Z.of_nat (nat_of_ascii c) in
  let v := if (48 <=? n) && (n <=? 57) then n - 48
           else if (97 <=? n) && (n <=? 102) then n - 87
           else if (65 <=? n) && (n <=? 70) then n - 55
           else 99 in
  if v <? radix then Some v else None.

Fixpoint radixValue (radix : Z) (acc : Z) (s : string) : option Z :=
  match s with
  | EmptyString => Some acc
  | String c s' =>
      match radixDigit radix c with
      | Some v => radixValue radix (radix * acc + v) s'
      | None => None
      end
  end.

(** A NonDecimalIntegerLiteral: [0x], [0o] or [0b] (either case) followed
    by at least one digit of that radix. *)
Definition nonDecimal (s : string) : option Z :=
  let radix : option Z :=
    if startsWith "0x" s || startsWith "0X" s then Some 16
    else if startsWith "0o" s || startsWith "0O" s then Some 8
    else if startsWith "0b" s || startsWith "0B" s then Some 2
    else None in
  match radix with
  | Some r => if isEmpty (drop 2 s) then None else radixValue r 0 (drop 2 s)
  | None => None
  end.

(** [Number(s)] for a string: StringToNumber. *)
Definition ofString (s : string) : number :=
  let t := trim s in
  if isEmpty t then zero else
  match nonDecimal t with
  | Some v => Dec v 0
  | None =>
      let neg := startsWith "-" t in
      let body := if neg || startsWith "+" t then drop 1 t else t in
      if String.eqb body "Infinity" then Inf neg else
      match unsignedDecimal body with
      | Some (m, ex) => scaled (if neg then - m else m) ex
      | None => NaN
      end
  end.

End JsNumber.

(* ===================================================================== *)
(** * JavaScript values ([unknown]) *)
(* ===================================================================== *)

Module JsValue.
Import JsString.

Inductive value : Type :=
  | VUndefined
  | VNull
  | VBool (b : bool)
  | VNum (n : JsNumber.number)
  | VStr (s : string)
  | VArr (items : list value)
  | VObj (props : list (string * value)).

(** Own-property lookup in the entries of an object. *)
Fixpoint lookup {A : Type} (k : string) (props : list (string * A)) : option A :=
  match props with
  | [] => None
  | (k', v) :: rest => if String.eqb k k' then Some v else lookup k rest
  end.

(** The names that every plain object inherits from [Object.prototype]. *)
Definition objectPrototype : list string :=
  ["constructor"; "__defineGetter__"; "__defineSetter__"; "hasOwnProperty";
   "__lookupGetter__"; "__lookupSetter__"; "isPrototypeOf";
   "propertyIsEnumerable"; "toString"; "valueOf"; "__proto__"; "toLocaleString"].

(** [k] names a member of [Object.prototype]: on a plain object that has no
    own property [k], [obj[k]] is that member, a function or (for
    [__proto__]) [Object.prototype] itself, and so it is truthy. *)
Definition isInherited (k : string) : bool := existsb (String.eqb k) objectPrototype.

(** A canonical array index: a digit string without a leading zero. *)
Definition arrayIndex (k : string) : option nat :=
  if isDigits k && (String.eqb k "0" || negb (startsWith "0" k))
  then Some (Z.to_nat (JsNumber.digitsValue 0 k))
  else None.

Fixpoint charAt (i : nat) (s : string) : option ascii :=
  match s with
  | EmptyString => None
  | String c s' => match i with O => Some c | S i' => charAt i' s' end
  end.

(** The own property [k] of a value, if it has one: an entry of an object,
    an element or the length of an array, a character or the length of a
    string. *)
Definition own (v : value) (k : string) : option value :=
  match v with
  | VObj props => lookup k props
  | VArr items =>
      if String.eqb k "length" then Some (VNum (JsNumber.ofNat (length items)))
      else match arrayIndex k with
           | Some i => nth_error items i
           | None => None
           end
  | VStr s =>
      if String.eqb k "length" then Some (VNum (JsNumber.ofNat (String.length s)))
      else match arrayIndex k with
           | Some i => (fun c => VStr (String c EmptyString)) <$> charAt i s
           | None => None
           end
  | _ => None
  end.

(** ** The objects of the engine

    A property that is not an own property is looked up along the prototype
    chain, which ends in objects of the engine: the prototypes
    ([Object.prototype], [Array.prototype], ...), their methods, the
    constructors.  Which names they carry depends on the engine and on its
    version.  The sources read such objects, compare them and convert them,
    and never call them.  An [Engine] says what these operations give; an
    object of the engine is known by the name that the engine gives it, one
    name for one object. *)

Definition builtin : Type := string.

(** A value of the data together with the property path it was read from.
    Objects and arrays are compared by identity; the data of a context is a
    tree, so two of them are the same object exactly when they were read
    from the same path. *)
Record located : Type := Located { the_value : value; the_path : list string }.

(** What an expression resolves to: a value of the data or an object of the
    engine. *)
Inductive operand : Type :=
  | Data (x : located)
  | Native (b : builtin).

(** What reading a property gives: nothing ([undefined]), an exception
    (an accessor that throws), or a value. *)
Inductive slot : Type :=
  | Absent
  | Throws
  | Holds (x : operand).

(** The values that have a prototype. *)
Inductive kind : Type := KObject | KArray | KString | KNumber | KBoolean.

Class Engine : Type := {
  (** [v[k]] for a value [v] of the given kind that has no own property
      [k]: what the prototype chain of [v] gives. *)
  inherited : kind -> string -> slot;
  (** [b[k]] for an object [b] of the engine. *)
  member : builtin -> string -> slot;
  (** [String(b)]; [None] when the conversion throws. *)
  nativeText : builtin -> option string;
  (** [Number(b)]; [None] when the conversion throws. *)
  nativeNumber : builtin -> option JsNumber.number;
  (** The elements of [b] when [Array.isArray(b)]. *)
  nativeElements : builtin -> option (list operand);
}.

Definition literal (v : value) : operand := Data (Located v []).

Definition kindOf (v : value) : option kind :=
  match v with
  | VObj _ => Some KObject
  | VArr _ => Some KArray
  | VStr _ => Some KString
  | VNum _ => Some KNumber
  | VBool _ => Some KBoolean
  | VUndefined | VNull => None
  end.

(** [String(v)] for a value of the data; [None] stands for the [TypeError]
    of the conversion.  An object is converted by its [toString] method:
    the one of [Object.prototype], which gives [[object Object]], unless the
    object has an own property [toString]; that property is data, so it
    cannot be called, and neither can [valueOf] give a primitive: the
    conversion throws.  An array is converted by [join]. *)
Fixpoint toString (v : value) : option string :=
  match v with
  | VUndefined => Some "undefined"
  | VNull => Some "null"
  | VBool true => Some "true"
  | VBool false => Some "false"
  | VNum n => Some (JsNumber.toString n)
  | VStr s => Some s
  | VArr items =>
      join "," <$>
      (fix each (l : list value) : option (list string) :=
         match l with
         | [] => Some []
         | x :: rest =>
             match (match x with
                    | VUndefined | VNull => Some EmptyString
                    | _ => toString x
                    end) with
             | Some s => cons s <$> each rest
             | None => None
             end
         end) items
  | VObj props =>
      match lookup "toString" props with
      | Some _ => None
      | None => Some "[object Object]"
      end
  end.

(** [Number(v)] for a value of the data; [None] stands for the [TypeError]
    of the conversion.  An object or an array is first converted to a
    primitive: [valueOf] gives the object back, so the text of [toString]
    is taken. *)
Definition toNumber (v : value) : option JsNumber.number :=
  match v with
  | VUndefined => Some JsNumber.NaN
  | VNull => Some JsNumber.zero
  | VBool true => Some JsNumber.one
  | VBool false => Some JsNumber.zero
  | VNum n => Some n
  | VStr s => Some (JsNumber.ofString s)
  | VArr _ | VObj _ => JsNumber.ofString <$> toString v
  end.

(** [Boolean(v)] *)
Definition toBoolean (v : value) : bool :=
  match v with
  | VUndefined | VNull => false
  | VBool b => b
  | VNum n => JsNumber.toBoolean n
  | VStr s => negb (isEmpty s)
  | VArr _ | VObj _ => true
  end.

Definition isNullish (v : value) : bool :=
  match v with VUndefined | VNull => true | _ => false end.

Definition samePath (p q : list string) : bool :=
  bool_decide (p = q).

(** The elements of an array read from [path], each with its own path. *)
Definition elements (path : list string) (items : list value) : list operand :=
  imap (fun i x => Data (Located x (path ++ [JsNumber.natToString (N.of_nat i)]))) items.

(** [Boolean(x)]: an object of the engine is truthy. *)
Definition isTruthy (x : operand) : bool :=
  match x with
  | Data d => toBoolean (the_value d)
  | Native _ => true
  end.

(** [x === null || x === undefined] *)
Definition nullish (x : operand) : bool :=
  match x with
  | Data d => isNullish (the_value d)
  | Native _ => false
  end.

(** The path that a value of the data was read from; objects of the engine
    have none. *)
Definition the_path_of (x : operand) : list string :=
  match x with
  | Data d => the_path d
  | Native _ => []
  end.

(** [l === r] *)
Definition strictEquals (l r : operand) : bool :=
  match l, r with
  | Data l, Data r =>
      match the_value l, the_value r with
      | VUndefined, VUndefined => true
      | VNull, VNull => true
      | VBool a, VBool b => Bool.eqb a b
      | VNum a, VNum b => JsNumber.strictEquals a b
      | VStr a, VStr b => String.eqb a b
      | VArr _, VArr _ | VObj _, VObj _ => samePath (the_path l) (the_path r)
      | _, _ => false
      end
  | Native a, Native b => String.eqb a b
  | _, _ => false
  end.

(** SameValueZero *)
Definition sameValueZero (l r : operand) : bool :=
  match l, r with
  | Data (Located (VNum a) _), Data (Located (VNum b) _) => JsNumber.sameValueZero a b
  | _, _ => strictEquals l r
  end.

Section WithEngine.
Context {engine : Engine}.

(** [x[k]] for an [x] that is neither [null] nor [undefined]: the own
    property, else what the prototype chain gives. *)
Definition getProp (x : operand) (k : string) : slot :=
  match x with
  | Data d =>
      match own (the_value d) k with
      | Some v => Holds (Data (Located v (the_path d ++ [k])))
      | None =>
          match kindOf (the_value d) with
          | Some kd => inherited kd k
          | None => Absent
          end
      end
  | Native b => member b k
  end.

(** [String(x)] and [Number(x)] *)
Definition textOf (x : operand) : option string :=
  match x with
  | Data d => toString (the_value d)
  | Native b => nativeText b
  end.

Definition numberOf (x : operand) : option JsNumber.number :=
  match x with
  | Data d => toNumber (the_value d)
  | Native b => nativeNumber b
  end.

End WithEngine.

End JsValue.

(* ===================================================================== *)
(** * conditions.ts *)
(* ===================================================================== *)

Module Conditions.
Import JsString JsValue.

Record ConditionContext : Type := {
  user : list (string * value);
  resource : list (string * value);
  request : list (string * value);
}.

(** The context as the object [{ user, resource, request }]. *)
Definition ctxObject (ctx : ConditionContext) : value :=
  VObj [("user", VObj (user ctx));
        ("resource", VObj (resource ctx));
        ("request", VObj (request ctx))].

Definition isQuoted (q : string) (s : string) : bool :=
  startsWith q s && endsWith q s.

Definition singleQuote : string := String (ascii_of_nat 39) EmptyString.
Definition doubleQuote : string := String (ascii_of_nat 34) EmptyString.

Inductive operator : Type := OpNe | OpLe | OpGe | OpEq | OpLt | OpGt.

Definition operators : list operator := [OpNe; OpLe; OpGe; OpEq; OpLt; OpGt].

Definition symbol (op : operator) : string :=
  match op with
  | OpNe => "!=" | OpLe => "<=" | OpGe => ">="
  | OpEq => "=" | OpLt => "<" | OpGt => ">"
  end.

(** [parts.every(f)] and [parts.some(f)], left to right, stopping at the
    first element that decides. *)
Fixpoint every {A : Type} (f : A -> option bool) (l : list A) : option bool :=
  match l with
  | [] => Some true
  | x :: rest =>
      match f x with
      | Some true => every f rest
      | other => other
      end
  end.

Fixpoint some {A : Type} (f : A -> option bool) (l : list A) : option bool :=
  match l with
  | [] => Some false
  | x :: rest =>
      match f x with
      | Some false => some f rest
      | other => other
      end
  end.

(** The [catch] block of [evaluateCondition]: if evaluation fails, deny by
    default.  [None] is an exception thrown in the [try] block. *)
Definition caught (attempt : option bool) : bool := default false attempt.

Section WithEngine.
Context {engine : Engine}.

(** The loop of [resolveValue] over the segments of a property path; [None]
    when reading a property throws. *)
Fixpoint walk (parts : list string) (x : operand) : option operand :=
  match parts with
  | [] => Some x
  | part :: rest =>
      if nullish x then Some (literal VUndefined)
      else match getProp x part with
           | Holds y => walk rest y
           | Absent => walk rest (literal VUndefined)
           | Throws => None
           end
  end.

Definition resolveValue (expr : string) (ctx : ConditionContext) : option operand :=
  let trimmed := trim expr in
  (* String literal *)
  if isQuoted singleQuote trimmed || isQuoted doubleQuote trimmed
  then Some (literal (VStr (slice_1_m1 trimmed)))
  (* Number literal *)
  else if isNumberLiteral trimmed
  then Some (literal (VNum (JsNumber.parseFloat trimmed)))
  (* Boolean literals *)
  else if String.eqb trimmed "true" then Some (literal (VBool true))
  else if String.eqb trimmed "false" then Some (literal (VBool false))
  else if String.eqb trimmed "null" then Some (literal VNull)
  (* Array literal *)
  else if startsWith "(" trimmed && endsWith ")" trimmed
  then Some (literal (VStr trimmed))
  (* Property path *)
  else walk (split "." trimmed) (literal (ctxObject ctx)).

(** [None] when [Number(left)] or [Number(right)] throws. *)
Definition compareValues (left right : operand) (op : operator) : option bool :=
  match op with
  | OpEq => Some (strictEquals left right)
  | OpNe => Some (negb (strictEquals left right))
  | OpLt => l ← numberOf left; r ← numberOf right; Some (JsNumber.lessThan l r)
  | OpGt => l ← numberOf left; r ← numberOf right; Some (JsNumber.lessThan r l)
  | OpLe => l ← numberOf left; r ← numberOf right; Some (JsNumber.lessEqual l r)
  | OpGe => l ← numberOf left; r ← numberOf right; Some (JsNumber.lessEqual r l)
  end.

(** The [IN] case, after both sides have been resolved; [None] when
    [String(leftValue)] throws. *)
Definition evalIn (leftValue rightValue : operand) : option bool :=
  match rightValue with
  | Data (Located (VArr items) path) =>
      Some (existsb (fun x => sameValueZero x leftValue) (elements path items))
  | Data (Located (VStr s) _) =>
      (* Parse array literal: ('a', 'b', 'c') *)
      if startsWith "(" s then
        let items := map (fun t => stripQuotes (trim t)) (split "," (slice_1_m1 s)) in
        t ← textOf leftValue; Some (existsb (String.eqb t) items)
      else Some false
  | Data _ => Some false
  | Native b =>
      match nativeElements b with
      | Some xs => Some (existsb (fun x => sameValueZero x leftValue) xs)
      | None => Some false
      end
  end.

(** The comparison case: the first operator of [ops], in that order, that
    occurs in [expr] surrounded by blanks decides; [None] when none
    occurs. *)
Fixpoint evalComparison (ops : list operator) (expr : string)
    (ctx : ConditionContext) : option bool :=
  match ops with
  | [] => None
  | op :: rest =>
      let sep := " " +:+ symbol op +:+ " " in
      if includes sep expr then
        match map trim (split sep expr) with
        | l :: r :: _ =>
            Some (caught (leftValue ← resolveValue l ctx;
                          rightValue ← resolveValue r ctx;
                          compareValues leftValue rightValue op))
        | _ => Some false
        end
      else evalComparison rest expr ctx
  end.

(** The body of [evaluateCondition] with its [catch].  The recursion is on
    strictly shorter strings; [fuel] bounds its depth and [None] means that
    the bound was reached. *)
Fixpoint evaluateCondition_fuel (fuel : nat) (expression : string)
    (ctx : ConditionContext) : option bool :=
  match fuel with
  | O => None
  | S fuel' =>
      let expr := trim expression in
      (* Handle logical operators *)
      if includes " AND " expr then
        every (fun part => evaluateCondition_fuel fuel' (trim part) ctx)
              (split " AND " expr)
      else if includes " OR " expr then
        some (fun part => evaluateCondition_fuel fuel' (trim part) ctx)
             (split " OR " expr)
      else if startsWith "NOT " expr then
        negb <$> evaluateCondition_fuel fuel' (trim (drop 4 expr)) ctx
      (* Handle IS NULL / IS NOT NULL *)
      else if includes " IS NOT NULL" expr then
        let field := trim (removeFirst " IS NOT NULL" expr) in
        Some (caught (value ← resolveValue field ctx; Some (negb (nullish value))))
      else if includes " IS NULL" expr then
        let field := trim (removeFirst " IS NULL" expr) in
        Some (caught (value ← resolveValue field ctx; Some (nullish value)))
      (* Handle IN operator *)
      else if includes " IN " expr then
        match map trim (split " IN " expr) with
        | l :: r :: _ =>
            Some (caught (leftValue ← resolveValue l ctx;
                          rightValue ← resolveValue r ctx;
                          evalIn leftValue rightValue))
        | _ => Some false
        end
      else
        (* Handle comparisons *)
        match evalComparison operators expr ctx with
        | Some b => Some b
        | None =>
            (* Fallback: treat as boolean field *)
            Some (caught (value ← resolveValue expr ctx; Some (isTruthy value)))
        end
  end.

(** [evaluateCondition(expression, ctx)]: the depth of the recursion is at
    most the length of the expression. *)
Definition evaluateCondition (expression : string) (ctx : ConditionContext) : bool :=
  default false
    (evaluateCondition_fuel (S (String.length expression)) expression ctx).

End WithEngine.

(** ** Vocabulary of the properties *)

(** None of the operators of the expression language occurs in [e]. *)
Definition plain (e : string) : bool :=
  negb (includes " AND " e) && negb (includes " OR " e)
  && negb (startsWith "NOT " e)
  && negb (includes " IS NOT NULL" e) && negb (includes " IS NULL" e)
  && negb (includes " IN " e)
  && forallb (fun op => negb (includes (" " +:+ symbol op +:+ " ") e)) operators.

(** [e] is none of the literals of the expression language: it is read as a
    property path. *)
Definition isPath (e : string) : bool :=
  negb (isQuoted singleQuote e) && negb (isQuoted doubleQuote e)
  && negb (isNumberLiteral e)
  && negb (String.eqb e "true") && negb (String.eqb e "false")
  && negb (String.eqb e "null")
  && negb (startsWith "(" e && endsWith ")" e).

Section Paths.
Context {engine : Engine}.

(** Reading the properties [parts] one after the other, from [x], gives [y]:
    each is there, as an own property or up the prototype chain, and none of
    the values on the way is [null] or [undefined]. *)
Inductive reaches : operand -> list string -> operand -> Prop :=
  | reaches_here x : reaches x [] x
  | reaches_further x k y rest z :
      nullish x = false -> getProp x k = Holds y -> reaches y rest z ->
      reaches x (k :: rest) z.

(** [x] has no property [k]: it is an object or a primitive value, [k] is
    not among its own properties and its prototype chain has none. *)
Definition lacks (x : operand) (k : string) : Prop :=
  nullish x = false /\ getProp x k = Absent.

(** Reading the property [k] of [x] throws: [k] is an accessor, own or
    inherited, whose getter throws. *)
Definition raises (x : operand) (k : string) : Prop :=
  nullish x = false /\ getProp x k = Throws.

End Paths.

(** The operators that [evaluateCondition] tries before [op]. *)
Definition before (op : operator) : list operator :=
  match op with
  | OpNe => []
  | OpLe => [OpNe]
  | OpGe => [OpNe; OpLe]
  | OpEq => [OpNe; OpLe; OpGe]
  | OpLt => [OpNe; OpLe; OpGe; OpEq]
  | OpGt => [OpNe; OpLe; OpGe; OpEq; OpLt]
  end.

(** [op] surrounded by blanks, as [evaluateCondition] looks for it. *)
Definition spaced (op : operator) : string := " " +:+ symbol op +:+ " ".

(** None of the cases that come before the comparisons applies to [e]. *)
Definition noLogic (e : string) : bool :=
  negb (includes " AND " e) && negb (includes " OR " e)
  && negb (startsWith "NOT " e)
  && negb (includes " IS NOT NULL" e) && negb (includes " IS NULL" e)
  && negb (includes " IN " e).

(** [item] between single quotes. *)
Definition quoted (item : string) : string := singleQuote +:+ item +:+ singleQuote.

(** The list literal [('a','b',...)] of the items. *)
Definition listLiteral (items : list string) : string :=
  "(" +:+ join "," (map quoted items) +:+ ")".

(** None of the cases that come before [IN] applies to [e]. *)
Definition beforeIn (e : string) : bool :=
  negb (includes " AND " e) && negb (includes " OR " e)
  && negb (startsWith "NOT " e)
  && negb (includes " IS NOT NULL" e) && negb (includes " IS NULL" e).

End Conditions.

(* ===================================================================== *)
(** * [JSON.stringify] *)
(* ===================================================================== *)

Module Json.
Import JsString JsValue.

Definition hexDigit (n : Z) : ascii :=
  ascii_of_N (Z.to_N (if n <? 10 then 48 + n else 87 + n)).

(** One code unit inside a JSON string literal (QuoteJSONString). *)
Definition escapeChar (c : ascii) : string :=
  let n := Z.of_nat (nat_of_ascii c) in
  let bs := String (ascii_of_nat 92) EmptyString in
  if n =? 34 then bs +:+ String c EmptyString
  else if n =? 92 then bs +:+ bs
  else if n =? 8 then bs +:+ "b"
  else if n =? 12 then bs +:+ "f"
  else if n =? 10 then bs +:+ "n"
  else if n =? 13 then bs +:+ "r"
  else if n =? 9 then bs +:+ "t"
  else if n <? 32 then
    bs +:+ "u00" +:+ String (hexDigit (n / 16)) (String (hexDigit (n mod 16)) EmptyString)
  else String c EmptyString.

Fixpoint escape (s : string) : string :=
  match s with
  | EmptyString => EmptyString
  | String c s' => escapeChar c +:+ escape s'
  end.

Definition quote (s : string) : string :=
  String (ascii_of_nat 34) (escape s +:+ String (ascii_of_nat 34) EmptyString).

(** [JSON.stringify(v, null, 0)] for a value [v] other than [undefined]:
    no indentation, the properties of an object in enumeration order, a
    property whose value is [undefined] left out, an [undefined] array
    element written as [null]. *)
Fixpoint stringify (v : value) : string :=
  match v with
  | VUndefined | VNull => "null"
  | VBool true => "true"
  | VBool false => "false"
  | VNum (JsNumber.Dec m e) => JsNumber.toString (JsNumber.Dec m e)
  | VNum _ => "null"
  | VStr s => quote s
  | VArr items => "[" +:+ join "," (map stringify items) +:+ "]"
  | VObj props =>
      "{" +:+
      join "," ((fix members (ps : list (string * value)) : list string :=
                   match ps with
                   | [] => []
                   | (_, VUndefined) :: rest => members rest
                   | (k, x) :: rest => (quote k +:+ ":" +:+ stringify x) :: members rest
                   end) props)
      +:+ "}"
  end.

(** Deep equality of two values that ignores the order of object keys. *)
Fixpoint deepEqual (fuel : nat) (a b : value) : bool :=
  match fuel with
  | O => false
  | S fuel' =>
      match a, b with
      | VUndefined, VUndefined | VNull, VNull => true
      | VBool x, VBool y => Bool.eqb x y
      | VNum x, VNum y => JsNumber.sameValueZero x y
      | VStr x, VStr y => String.eqb x y
      | VArr xs, VArr ys =>
          (length xs =? length ys)%nat &&
          forallb (fun p => deepEqual fuel' (fst p) (snd p)) (combine xs ys)
      | VObj ps, VObj qs =>
          (length ps =? length qs)%nat &&
          forallb (fun p => match lookup (fst p) qs with
                            | Some y => deepEqual fuel' (snd p) y
                            | None => false
                            end) ps
      | _, _ => false
      end
  end.

End Json.

(* ===================================================================== *)
(** * SHA-256 ([crypto.createHash('sha256')]) *)
(* ===================================================================== *)

Module Sha256.

Definition w32 (x : Z) : Z := x mod 2 ^ 32.
Definition add32 (x y : Z) : Z := w32 (x + y).
Definition rotr (n x : Z) : Z :=
  w32 (Z.lor (Z.shiftr x n) (Z.shiftl x (32 - n))).
Definition not32 (x : Z) : Z := 2 ^ 32 - 1 - x.

Definition Ch (x y z : Z) : Z := Z.lxor (Z.land x y) (Z.land (not32 x) z).
Definition Maj (x y z : Z) : Z :=
  Z.lxor (Z.lxor (Z.land x y) (Z.land x z)) (Z.land y z).
Definition Sigma0 (x : Z) : Z := Z.lxor (Z.lxor (rotr 2 x) (rotr 13 x)) (rotr 22 x).
Definition Sigma1 (x : Z) : Z := Z.lxor (Z.lxor (rotr 6 x) (rotr 11 x)) (rotr 25 x).
Definition sigma0 (x : Z) : Z := Z.lxor (Z.lxor (rotr 7 x) (rotr 18 x)) (Z.shiftr x 3).
Definition sigma1 (x : Z) : Z := Z.lxor (Z.lxor (rotr 17 x) (rotr 19 x)) (Z.shiftr x 10).

(** The constants of FIPS 180-4: the first 32 bits of the fractional parts
    of the cube roots ([K]) and of the square roots ([H0]) of the first
    primes. *)
Definition isPrime (n : nat) : bool :=
  forallb (fun d => negb (n mod d =? 0)%nat) (seq 2 (n - 2)).

Definition primes : list Z :=
  map Z.of_nat (List.filter isPrime (seq 2 310)).

(** The integer cube root of [n], by bisection between [lo] and [hi]. *)
Fixpoint cubeRoot (fuel : nat) (lo hi n : Z) : Z :=
  match fuel with
  | O => lo
  | S fuel' =>
      let mid := (lo + hi) / 2 in
      if mid =? lo then lo
      else if mid * mid * mid <=? n then cubeRoot fuel' mid hi n
      else cubeRoot fuel' lo mid n
  end.

Definition K : list Z :=
  Eval vm_compute in
    map (fun p => w32 (cubeRoot 64 0 (2 ^ 36) (p * 2 ^ 96))) primes.

Definition H0 : list Z :=
  Eval vm_compute in
    map (fun p => w32 (Z.sqrt (p * 2 ^ 64))) (firstn 8 primes).

(** The message followed by the bit 1, zeros, and its length in bits as a
    64-bit big-endian integer, a multiple of 64 bytes in all. *)
Definition pad (msg : list Z) : list Z :=
  let len := Z.of_nat (length msg) in
  let zeros := Z.to_nat ((55 - len) mod 64) in
  let bits := 8 * len in
  msg ++ [0x80] ++ repeat 0 zeros
      ++ map (fun i => Z.shiftr bits (8 * (7 - Z.of_nat i)) mod 256) (seq 0 8).

(** Big-endian 32-bit words of a byte list. *)
Fixpoint words (n : nat) (bytes : list Z) : list Z :=
  match n with
  | O => []
  | S n' =>
      match bytes with
      | a :: b :: c :: d :: rest =>
          (((a * 256 + b) * 256 + c) * 256 + d) :: words n' rest
      | _ => []
      end
  end.

(** The message schedule, most recent word first. *)
Fixpoint schedule (n : nat) (w : list Z) : list Z :=
  match n with
  | O => w
  | S n' =>
      let new := add32 (add32 (sigma1 (nth 1 w 0)) (nth 6 w 0))
                       (add32 (sigma0 (nth 14 w 0)) (nth 15 w 0)) in
      schedule n' (new :: w)
  end.

Record regs : Type := Regs { ra : Z; rb : Z; rc : Z; rd : Z; re : Z; rf : Z; rg : Z; rh : Z }.

Definition round (s : regs) (kw : Z * Z) : regs :=
  let '(k, w) := kw in
  let t1 := add32 (add32 (add32 (rh s) (Sigma1 (re s))) (Ch (re s) (rf s) (rg s)))
                  (add32 k w) in
  let t2 := add32 (Sigma0 (ra s)) (Maj (ra s) (rb s) (rc s)) in
  Regs (add32 t1 t2) (ra s) (rb s) (rc s) (add32 (rd s) t1) (re s) (rf s) (rg s).

Definition toRegs (h : list Z) : regs :=
  Regs (nth 0 h 0) (nth 1 h 0) (nth 2 h 0) (nth 3 h 0)
       (nth 4 h 0) (nth 5 h 0) (nth 6 h 0) (nth 7 h 0).

Definition compress (h : list Z) (block : list Z) : list Z :=
  let w := rev (schedule 48 (rev (words 16 block))) in
  let s := fold_left round (combine K w) (toRegs h) in
  [add32 (nth 0 h 0) (ra s); add32 (nth 1 h 0) (rb s);
   add32 (nth 2 h 0) (rc s); add32 (nth 3 h 0) (rd s);
   add32 (nth 4 h 0) (re s); add32 (nth 5 h 0) (rf s);
   add32 (nth 6 h 0) (rg s); add32 (nth 7 h 0) (rh s)].

Fixpoint blocks (n : nat) (h : list Z) (bytes : list Z) : list Z :=
  match n with
  | O => h
  | S n' => blocks n' (compress h (firstn 64 bytes)) (skipn 64 bytes)
  end.

Definition digest (msg : list Z) : list Z :=
  let p := pad msg in
  blocks (length p / 64) H0 p.

Definition hexWord (x : Z) : string :=
  fold_right (fun i acc => String (Json.hexDigit (Z.shiftr x (4 * (7 - Z.of_nat i)) mod 16)) acc)
             EmptyString (seq 0 8).

(** [.digest('hex')] *)
Definition hex (h : list Z) : string :=
  fold_right (fun x acc => hexWord x +:+ acc) EmptyString h.

(** The UTF-8 encoding of a string of code units below 256. *)
Fixpoint utf8 (s : string) : list Z :=
  match s with
  | EmptyString => []
  | String c s' =>
      let n := Z.of_nat (nat_of_ascii c) in
      if n <? 128 then n :: utf8 s'
      else (192 + n / 64) :: (128 + n mod 64) :: utf8 s'
  end.

(** [crypto.createHash('sha256').update(content).digest('hex')] *)
Definition sha256hex (content : string) : string := hex (digest (utf8 content)).

End Sha256.

(* ===================================================================== *)
(** * rate-limit.ts *)
(* ===================================================================== *)

Module RateLimit.

Inductive Scope : Type := ScopeUser | ScopeTenant | ScopeIp | ScopeGlobal.

Record RateLimitConfig : Type := {
  requestsPerMinute : JsNumber.number;
  burst : option JsNumber.number;
  scope : Scope;
}.

(** [resetAt] is the [Date] given by its time value in milliseconds. *)
Record RateLimitResult : Type := {
  allowed : bool;
  remaining : JsNumber.number;
  resetAt : Z;
  retryAfter : option Z;
}.

(** [count] is a whole number: it is set to 0 or 1 and incremented by one
    (exactly, as long as it is below 2^53); [resetAt] is a time value in
    milliseconds. *)
Record RateLimitEntry : Type := {
  count : Z;
  entry_resetAt : Z;
}.

Record RateLimiter : Type := {
  store : gmap string RateLimitEntry;
  config : RateLimitConfig;
}.

Definition windowMs : Z := 60000. (* 1 minute *)

Definition new (config : RateLimitConfig) : RateLimiter :=
  {| store := ∅; config := config |}.

(** [burst || 0] *)
Definition burstOrZero (config : RateLimitConfig) : JsNumber.number :=
  match burst config with
  | Some b => if JsNumber.toBoolean b then b else JsNumber.zero
  | None => JsNumber.zero
  end.

(** [this.config.requestsPerMinute + (this.config.burst || 0)] *)
Definition maxRequests (config : RateLimitConfig) : JsNumber.number :=
  JsNumber.add (requestsPerMinute config) (burstOrZero config).

(** [Math.ceil(x / 1000)] for an integer [x] *)
Definition ceilSeconds (x : Z) : Z := - ((- x) / 1000).

(** The entry of [key] as [check] and [consume] see it at time [now]:
    [None] when there is none or its window has expired. *)
Definition liveEntry (this : RateLimiter) (now : Z) (key : string) : option RateLimitEntry :=
  match store this !! key with
  | Some entry => if now >? entry_resetAt entry then None else Some entry
  | None => None
  end.

(** [check(key)], with [now] the value of [Date.now()]. *)
Definition check (this : RateLimiter) (now : Z) (key : string) : RateLimitResult :=
  let maxRequests := maxRequests (config this) in
  (* Reset if window expired *)
  let entry :=
    match liveEntry this now key with
    | Some entry => entry
    | None => {| count := 0; entry_resetAt := now + windowMs |}
    end in
  let remaining :=
    JsNumber.max JsNumber.zero (JsNumber.sub maxRequests (JsNumber.ofZ (count entry))) in
  let resetAt := entry_resetAt entry in
  (* entry.count >= maxRequests *)
  if JsNumber.lessEqual maxRequests (JsNumber.ofZ (count entry)) then
    let retryAfter := ceilSeconds (entry_resetAt entry - now) in
    {| allowed := false; remaining := JsNumber.zero; resetAt := resetAt;
       retryAfter := Some retryAfter |}
  else
    {| allowed := true; remaining := JsNumber.sub remaining JsNumber.one;
       resetAt := resetAt; retryAfter := None |}.

(** [consume(key)]: [now1] is the clock as read by [check], [now2] as read
    afterwards by [consume] itself. *)
Definition consume (this : RateLimiter) (now1 now2 : Z) (key : string)
    : RateLimitResult * RateLimiter :=
  let result := check this now1 key in
  if allowed result then
    let entry :=
      match liveEntry this now2 key with
      | None => {| count := 1; entry_resetAt := now2 + windowMs |}
      | Some entry => {| count := count entry + 1; entry_resetAt := entry_resetAt entry |}
      end in
    (result, {| store := <[key := entry]> (store this); config := config this |})
  else (result, this).

Definition reset (this : RateLimiter) (key : string) : RateLimiter :=
  {| store := delete key (store this); config := config this |}.

(** [x || fallback] for an optional string *)
Definition orElse (x : option string) (fallback : string) : string :=
  match x with
  | Some s => if JsString.isEmpty s then fallback else s
  | None => fallback
  end.

Definition getKey (scope : Scope) (userId tenantId ip : option string) : string :=
  match scope with
  | ScopeUser => "rate:user:" +:+ orElse userId "anonymous"
  | ScopeTenant => "rate:tenant:" +:+ orElse tenantId "default"
  | ScopeIp => "rate:ip:" +:+ orElse ip "unknown"
  | ScopeGlobal => "rate:global"
  end.

(** Cleanup expired entries *)
Definition cleanup (this : RateLimiter) (now : Z) : RateLimiter :=
  {| store := filter (fun kv => ¬ (now > entry_resetAt (snd kv))) (store this);
     config := config this |}.

(** Successive calls [consume(key)]; [clock] gives the two clock readings
    of each call. *)
Fixpoint consumeAll (this : RateLimiter) (key : string) (clock : list (Z * Z))
    : list RateLimitResult * RateLimiter :=
  match clock with
  | [] => ([], this)
  | (now1, now2) :: rest =>
      let '(result, this') := consume this now1 now2 key in
      let '(results, final) := consumeAll this' key rest in
      (result :: results, final)
  end.


(** ** Vocabulary of the properties *)

(** Every clock reading of [clock] is at most [limit]. *)
Definition within (limit : Z) (clock : list (Z * Z)) : Prop :=
  Forall (fun t => fst t <= limit /\ snd t <= limit) clock.

(** The configuration asks for whole numbers of requests: [quota] in all. *)
Definition wholeQuota (config : RateLimitConfig) (quota : Z) : Prop :=
  exists rpm extra : Z,
    requestsPerMinute config = JsNumber.ofZ rpm
    /\ (burst config = None /\ extra = 0 \/ burst config = Some (JsNumber.ofZ extra))
    /\ quota = rpm + extra.

(** [n] is [x / 1000] rounded up to a whole number. *)
Definition roundedUp (x n : Z) : Prop := 1000 * (n - 1) < x <= 1000 * n.

(** Every stored count is at least 1 and was reached from a count below the
    quota. *)
Definition bounded (this : RateLimiter) : Prop :=
  map_Forall (fun _ e =>
                1 <= count e
                /\ JsNumber.lessThan (JsNumber.ofZ (count e - 1)) (maxRequests (config this))
                   = true)
             (store this).

(** Two limiters that no call made at [now] or later can tell apart. *)
Definition sameFrom (now : Z) (a b : RateLimiter) : Prop :=
  config a = config b
  /\ forall t key, now <= t -> liveEntry a t key = liveEntry b t key.

End RateLimit.

(* ===================================================================== *)
(** * engine.ts *)
(* ===================================================================== *)

Module Policy.
Import JsValue.

Record PolicyContext : Type := {
  userId : option string;
  tenantId : option string;
  roles : list string;
  resource : option string;
  action : option string;
  resourceData : option (list (string * value));
  requestData : option (list (string * value));
}.

Record PolicyResult : Type := {
  allowed : bool;
  reason : option string;
  filters : option (list string);
}.

Inductive ConditionType : Type := allow_if | deny_if | require.
Inductive Effect : Type := allow | deny.

Record Condition : Type := {
  type : ConditionType;
  expression : string;
  message : option string;
}.

Record PolicyRule : Type := {
  name : string;
  rule_resource : string;
  rule_action : option string;
  effect : Effect;
  conditions : option (list Condition);
  filter : option string;
  priority : option Z;
}.

Record RoleDefinition : Type := {
  role_name : string;
  inherits : option (list string);
  permissions : option (list string);
  can : option (list string);
}.

Record PolicyEngine : Type := {
  policies : list PolicyRule;
  role_map : gmap string RoleDefinition;
}.

(** Truthiness of an optional string: present and not empty. *)
Definition truthy (x : option string) : bool :=
  match x with
  | Some s => negb (JsString.isEmpty s)
  | None => false
  end.

(** [x || fallback] *)
Definition orElse (x : option string) (fallback : string) : string :=
  if truthy x then default fallback x else fallback.

(** [l.includes(x)] on an array of strings *)
Definition includes (x : string) (l : list string) : bool :=
  existsb (String.eqb x) l.

(** [policies.sort((a, b) => (b.priority || 0) - (a.priority || 0))]:
    a stable sort by decreasing priority. *)
Definition prio (p : PolicyRule) : Z := default 0 (priority p).

Fixpoint insertByPriority (p : PolicyRule) (sorted : list PolicyRule) : list PolicyRule :=
  match sorted with
  | [] => [p]
  | q :: rest =>
      if prio q >=? prio p then q :: insertByPriority p rest
      else p :: sorted
  end.

Definition sortByPriority (l : list PolicyRule) : list PolicyRule :=
  fold_left (fun sorted p => insertByPriority p sorted) l [].

(** The constructor. *)
Definition new (config_policies : option (list PolicyRule))
    (config_roles : option (list (string * RoleDefinition))) : PolicyEngine :=
  {| policies := match config_policies with
                 | Some ps => sortByPriority ps
                 | None => []
                 end;
     role_map := match config_roles with
                 | Some rs => fold_left (fun m nr => <[fst nr := snd nr]> m) rs ∅
                 | None => ∅
                 end |}.

Definition addPolicy (this : PolicyEngine) (policy : PolicyRule) : PolicyEngine :=
  {| policies := sortByPriority (policies this ++ [policy]);
     role_map := role_map this |}.

Definition addRole (this : PolicyEngine) (name : string) (role : RoleDefinition) : PolicyEngine :=
  {| policies := policies this; role_map := <[name := role]> (role_map this) |}.

(** [set.add(x)] on a [Set<string>] kept in insertion order. *)
Definition setAdd (x : string) (set : list string) : list string :=
  if includes x set then set else set ++ [x].

Definition setAddAll (xs : list string) (set : list string) : list string :=
  fold_left (fun s x => setAdd x s) xs set.

(** The state that [processRole] updates: the [visited] set that is passed
    along and the [permissions] set of the enclosing call. *)
Record Traversal : Type := {
  visited : list string;
  collected : list string;
}.

(** A [for] loop whose body may run out of fuel. *)
Fixpoint forEach {A S : Type} (body : A -> S -> option S) (l : list A) (s : S) : option S :=
  match l with
  | [] => Some s
  | x :: rest =>
      match body x s with
      | Some s' => forEach body rest s'
      | None => None
      end
  end.

(** [processRole(roleName, visited)]; [fuel] bounds the depth of the
    recursion and [None] means that the bound was reached. *)
Fixpoint processRole (this : PolicyEngine) (fuel : nat) (roleName : string)
    (st : Traversal) : option Traversal :=
  match fuel with
  | O => None
  | S fuel' =>
      if includes roleName (visited st) then Some st
      else
        let st := {| visited := visited st ++ [roleName]; collected := collected st |} in
        match role_map this !! roleName with
        | None => Some st
        | Some role =>
            (* Add direct permissions *)
            let perms := setAddAll (default [] (permissions role)) (collected st) in
            (* Add can actions *)
            let perms := setAddAll (default [] (can role)) perms in
            (* Process inherited roles *)
            forEach (processRole this fuel') (default [] (inherits role))
                    {| visited := visited st; collected := perms |}
        end
  end.

(** The whole traversal of [getEffectivePermissions]. *)
Definition traverse (this : PolicyEngine) (fuel : nat) (roleNames : list string)
    : option Traversal :=
  forEach (processRole this fuel) roleNames {| visited := []; collected := [] |}.

(** [getEffectivePermissions(roleNames)]: a call of [processRole] that goes
    deeper has added a new key of the role map to [visited], so the depth is
    at most the size of the map plus one. *)
Definition getEffectivePermissions (this : PolicyEngine) (roleNames : list string)
    : list string :=
  match traverse this (S (size (role_map this))) roleNames with
  | Some st => collected st
  | None => []
  end.

(** [checkRolePermissions(ctx)], called when [ctx.action] is [action]. *)
Definition checkRolePermissions (this : PolicyEngine) (ctx : PolicyContext)
    (action : string) : bool :=
  let effectivePermissions := getEffectivePermissions this (roles ctx) in
  includes action effectivePermissions || includes "*" effectivePermissions.

Definition optString (x : option string) : value :=
  match x with Some s => VStr s | None => VUndefined end.

Definition conditionCtx (ctx : PolicyContext) : Conditions.ConditionContext :=
  {| Conditions.user :=
       [("id", optString (userId ctx));
        ("tenant_id", optString (tenantId ctx));
        ("roles", VArr (map VStr (roles ctx)))];
     Conditions.resource := default [] (resourceData ctx);
     Conditions.request := default [] (requestData ctx) |}.

(** [p.resource === ctx.resource] and the like. *)
Definition sameAs (s : string) (x : option string) : bool :=
  match x with Some t => String.eqb s t | None => false end.

Definition applicable (ctx : PolicyContext) (p : PolicyRule) : bool :=
  (String.eqb (rule_resource p) "*" || sameAs (rule_resource p) (resource ctx)) &&
  (negb (truthy (rule_action p))
   || sameAs "*" (rule_action p)
   || bool_decide (rule_action p = action ctx)).

(** One evaluated condition: the policy, the condition and its result. *)
Definition Evaluated : Type := PolicyRule * Condition * bool.

(** The variables of the evaluation loop, and the conditions evaluated so
    far (oldest first). *)
Record Vars : Type := {
  v_filters : list string;
  explicitAllow : bool;
  explicitDeny : bool;
  denyReason : string;
  conditionsPassed : bool;
  evaluated : list Evaluated;
}.

Section WithEngine.
Context {engine : Engine}.

(** One iteration of the loop over the conditions, up to its [break]. *)
Definition stepCondition (ctx : PolicyContext) (policy : PolicyRule)
    (condition : Condition) (s : Vars) : Vars :=
  let result := Conditions.evaluateCondition (expression condition) (conditionCtx ctx) in
  let log := evaluated s ++ [(policy, condition, result)] in
  match type condition with
  | deny_if =>
      if result then
        {| v_filters := v_filters s; explicitAllow := explicitAllow s;
           explicitDeny := true;
           denyReason := orElse (message condition) (name policy);
           conditionsPassed := false; evaluated := log |}
      else
        {| v_filters := v_filters s; explicitAllow := explicitAllow s;
           explicitDeny := explicitDeny s; denyReason := denyReason s;
           conditionsPassed := conditionsPassed s; evaluated := log |}
  | allow_if =>
      {| v_filters := v_filters s; explicitAllow := explicitAllow s;
         explicitDeny := explicitDeny s; denyReason := denyReason s;
         conditionsPassed := if result then conditionsPassed s else false;
         evaluated := log |}
  | require =>
      if result then
        {| v_filters := v_filters s; explicitAllow := explicitAllow s;
           explicitDeny := explicitDeny s; denyReason := denyReason s;
           conditionsPassed := conditionsPassed s; evaluated := log |}
      else
        {| v_filters := v_filters s; explicitAllow := explicitAllow s;
           explicitDeny := true;
           denyReason := orElse (message condition)
                                ("Requirement not met: " +:+ name policy);
           conditionsPassed := false; evaluated := log |}
  end.

(** [for (const condition of policy.conditions || [])] *)
Fixpoint conditionLoop (ctx : PolicyContext) (policy : PolicyRule)
    (cs : list Condition) (s : Vars) : Vars :=
  match cs with
  | [] => s
  | condition :: rest =>
      let s' := stepCondition ctx policy condition s in
      if explicitDeny s' then s' (* break *)
      else conditionLoop ctx policy rest s'
  end.

(** What follows the conditions in the body of the loop over the policies. *)
Definition applyEffect (policy : PolicyRule) (s : Vars) : Vars :=
  if conditionsPassed s then
    match effect policy with
    | allow =>
        {| v_filters := if truthy (filter policy)
                        then v_filters s ++ [default EmptyString (filter policy)]
                        else v_filters s;
           explicitAllow := true;
           explicitDeny := explicitDeny s; denyReason := denyReason s;
           conditionsPassed := conditionsPassed s; evaluated := evaluated s |}
    | deny =>
        {| v_filters := v_filters s; explicitAllow := explicitAllow s;
           explicitDeny := true; denyReason := name policy;
           conditionsPassed := conditionsPassed s; evaluated := evaluated s |}
    end
  else s.

(** [for (const policy of applicablePolicies)] *)
Fixpoint policyLoop (ctx : PolicyContext) (ps : list PolicyRule) (s : Vars) : Vars :=
  match ps with
  | [] => s
  | policy :: rest =>
      let s0 := {| v_filters := v_filters s; explicitAllow := explicitAllow s;
                   explicitDeny := explicitDeny s; denyReason := denyReason s;
                   conditionsPassed := true; evaluated := evaluated s |} in
      let s1 := conditionLoop ctx policy (default [] (conditions policy)) s0 in
      if explicitDeny s1 then s1 (* break *)
      else policyLoop ctx rest (applyEffect policy s1)
  end.

Definition initialVars : Vars :=
  {| v_filters := []; explicitAllow := false; explicitDeny := false;
     denyReason := EmptyString; conditionsPassed := true; evaluated := [] |}.

(** [evaluate(ctx)], together with the conditions it evaluated. *)
Definition evaluate_log (this : PolicyEngine) (ctx : PolicyContext)
    : PolicyResult * list Evaluated :=
  (* Admin bypass *)
  if includes "admin" (roles ctx) || includes "super_admin" (roles ctx) then
    ({| allowed := true; reason := Some "Admin role"; filters := None |}, [])
  (* Check RBAC first *)
  else if truthy (action ctx)
          && negb (checkRolePermissions this ctx (default EmptyString (action ctx))) then
    ({| allowed := false;
        reason := Some ("No role permission for action: "
                        +:+ default EmptyString (action ctx));
        filters := None |}, [])
  else
    (* Find applicable policies *)
    let applicablePolicies := List.filter (applicable ctx) (policies this) in
    (* Evaluate each policy *)
    let s := policyLoop ctx applicablePolicies initialVars in
    if explicitDeny s then
      ({| allowed := false; reason := Some (denyReason s); filters := None |},
       evaluated s)
    else if explicitAllow s || (length applicablePolicies =? 0)%nat then
      ({| allowed := true; reason := None; filters := Some (v_filters s) |},
       evaluated s)
    else
      ({| allowed := false; reason := Some "No matching allow policy";
          filters := None |}, evaluated s).

Definition evaluate (this : PolicyEngine) (ctx : PolicyContext) : PolicyResult :=
  fst (evaluate_log this ctx).

End WithEngine.


(** ** Vocabulary of the properties *)

(** The order in which the engine keeps its policies. *)
Definition byPriority (a b : PolicyRule) : Prop := prio b <= prio a.

(** A [deny_if] condition that evaluated to true. *)
Definition denyHit (e : Evaluated) : Prop :=
  type (snd (fst e)) = deny_if /\ snd e = true.

(** No [deny_if] condition has evaluated to true so far. *)
Definition clean (s : Vars) : Prop := Forall (fun e => ~ denyHit e) (evaluated s).

(** The loop has stopped on the [deny_if] condition [c] of [p]. *)
Definition stoppedOn (s : Vars) (p : PolicyRule) (c : Condition) : Prop :=
  type c = deny_if /\
  explicitDeny s = true /\
  denyReason s = orElse (message c) (name p) /\
  exists before, evaluated s = before ++ [(p, c, true)]
                 /\ Forall (fun e => ~ denyHit e) before.

(** The parents of a role and what it grants; nothing for a name that is not
    in the role map. *)
Definition parents (this : PolicyEngine) (r : string) : list string :=
  match role_map this !! r with
  | Some role => default [] (inherits role)
  | None => []
  end.

Definition grants (this : PolicyEngine) (r : string) : list string :=
  match role_map this !! r with
  | Some role => default [] (permissions role) ++ default [] (can role)
  | None => []
  end.

(** The roles reachable from [roots] along [inherits]. *)
Inductive reach (this : PolicyEngine) (roots : list string) : string -> Prop :=
  | reach_root r : r ∈ roots -> reach this roots r
  | reach_step r p : reach this roots r -> p ∈ parents this r -> reach this roots p.

(** The number of keys of the role map that are not yet visited. *)
Definition unvisited (this : PolicyEngine) (st : Traversal) : nat :=
  size (dom (role_map this) ∖ list_to_set (visited st) : gset string).

(** What a traversal from [roots] that takes [st] to [st'] has done. *)
Definition traversed (this : PolicyEngine) (roots : list string)
    (st st' : Traversal) : Prop :=
  exists new,
    visited st' = visited st ++ new
    /\ (forall r, r ∈ roots -> r ∈ visited st')
    /\ (forall x, x ∈ new -> forall p, p ∈ parents this x -> p ∈ visited st')
    /\ (forall x, x ∈ new -> reach this roots x)
    /\ (forall g, g ∈ collected st' <->
                  g ∈ collected st \/ exists x, x ∈ new /\ g ∈ grants this x)
    /\ (NoDup (visited st) -> NoDup (visited st'))
    /\ (NoDup (collected st) -> NoDup (collected st')).

Section Decision.
Context {engine : Engine}.

(** The value of a condition in a context. *)
Definition holds (ctx : PolicyContext) (c : Condition) : bool :=
  Conditions.evaluateCondition (expression c) (conditionCtx ctx).

(** The condition sets [explicitDeny]: a [deny_if] that holds or a [require]
    that does not. *)
Definition denies (ctx : PolicyContext) (c : Condition) : bool :=
  match type c with
  | deny_if => holds ctx c
  | require => negb (holds ctx c)
  | allow_if => false
  end.

(** The condition leaves [conditionsPassed] as it is. *)
Definition satisfied (ctx : PolicyContext) (c : Condition) : bool :=
  match type c with
  | deny_if => negb (holds ctx c)
  | allow_if | require => holds ctx c
  end.

Definition passes (ctx : PolicyContext) (p : PolicyRule) : bool :=
  forallb (satisfied ctx) (default [] (conditions p)).

(** The policy denies by itself: through one of its conditions, or through
    its effect [deny] when all its conditions are satisfied. *)
Definition vetoes (ctx : PolicyContext) (p : PolicyRule) : bool :=
  existsb (denies ctx) (default [] (conditions p))
  || match effect p with deny => passes ctx p | allow => false end.

(** The policy has the effect [allow] and all its conditions are satisfied. *)
Definition permits (ctx : PolicyContext) (p : PolicyRule) : bool :=
  match effect p with allow => passes ctx p | deny => false end.

(** The filter that a permitting policy contributes. *)
Definition contributed (ctx : PolicyContext) (p : PolicyRule) : list string :=
  if permits ctx p && truthy (filter p) then [default EmptyString (filter p)] else [].

End Decision.

(** The policies of priority [k], in the order of the list. *)
Definition ofPriority (k : Z) (l : list PolicyRule) : list PolicyRule :=
  List.filter (fun p => prio p =? k) l.

End Policy.

(* ===================================================================== *)
(** * types/spec.ts *)
(* ===================================================================== *)

(** Each interface is a record of the properties that the linker or the
    validator reads, typed as in the source, and [rest]: the other own
    properties of the object, as plain values.  [toValue] gives the object
    back, which is what [JSON.stringify] and the schema validator see. *)

Module Obj.
Import JsValue.

(** An optional property: absent when [undefined]. *)
Definition opt {A : Type} (k : string) (f : A -> value) (x : option A)
    : list (string * value) :=
  match x with Some a => [(k, f a)] | None => [] end.

(** A [Record<string, A>] *)
Definition dict {A : Type} (f : A -> value) (d : list (string * A)) : value :=
  VObj (map (fun kv => (fst kv, f (snd kv))) d).

Definition strings (l : list string) : value := VArr (map VStr l).

(** Truthiness of an optional string and [x || fallback]. *)
Definition truthy (x : option string) : bool :=
  match x with Some s => negb (JsString.isEmpty s) | None => false end.

Definition orElse (x : option string) (fallback : string) : string :=
  if truthy x then default fallback x else fallback.

(** Truthiness of an optional boolean. *)
Definition isTrue (x : option bool) : bool := default false x.

End Obj.

Inductive Profile : Type := dev | prod.

Definition Profile_name (p : Profile) : string :=
  match p with dev => "dev" | prod => "prod" end.

#[global] Instance Profile_eq_dec : EqDecision Profile.
Proof. solve_decision. Defined.

Inductive TenancyMode : Type := single | multi.

#[global] Instance TenancyMode_eq_dec : EqDecision TenancyMode.
Proof. solve_decision. Defined.

Definition TenancyMode_name (m : TenancyMode) : string :=
  match m with single => "single" | multi => "multi" end.

Inductive ActionType : Type := command | query.

#[global] Instance ActionType_eq_dec : EqDecision ActionType.
Proof. solve_decision. Defined.

Definition ActionType_name (t : ActionType) : string :=
  match t with command => "command" | query => "query" end.

Module ProfileConfig.
Import JsValue.
Record t : Type := {
  require_idempotency : option bool;
  require_rate_limits : option bool;
  strict_tenancy : option bool;
  rest : list (string * value);
}.
Definition toValue (c : t) : value :=
  VObj (Obj.opt "require_idempotency" VBool (require_idempotency c)
        ++ Obj.opt "require_rate_limits" VBool (require_rate_limits c)
        ++ Obj.opt "strict_tenancy" VBool (strict_tenancy c)
        ++ rest c).
(** [{}] *)
Definition empty : t :=
  {| require_idempotency := None; require_rate_limits := None;
     strict_tenancy := None; rest := [] |}.
End ProfileConfig.

Module ProductSpec.
Import JsValue.
Record Tenancy : Type := {
  mode : TenancyMode;
  tenant_id_column : option string;
  tenancy_rest : list (string * value);
}.
Record Profiles : Type := {
  profiles_dev : option ProfileConfig.t;
  profiles_prod : option ProfileConfig.t;
}.
Record t : Type := {
  name : string;
  version : string;
  tenancy : Tenancy;
  profile : Profile;
  profiles : option Profiles;
  rest : list (string * value);
}.
(** [profiles?.[profile]] *)
Definition profileConfig (p : t) (which : Profile) : option ProfileConfig.t :=
  match profiles p with
  | Some ps => match which with dev => profiles_dev ps | prod => profiles_prod ps end
  | None => None
  end.
Definition toValue (p : t) : value :=
  VObj ([("name", VStr (name p));
         ("version", VStr (version p));
         ("tenancy",
          VObj ([("mode", VStr (TenancyMode_name (mode (tenancy p))))]
                ++ Obj.opt "tenant_id_column" VStr (tenant_id_column (tenancy p))
                ++ tenancy_rest (tenancy p)));
         ("profile", VStr (Profile_name (profile p)))]
        ++ Obj.opt "profiles"
             (fun ps => VObj (Obj.opt "dev" ProfileConfig.toValue (profiles_dev ps)
                              ++ Obj.opt "prod" ProfileConfig.toValue (profiles_prod ps)))
             (profiles p)
        ++ rest p).
End ProductSpec.

Module Reference.
Import JsValue.
Record t : Type := {
  entity : string;
  field : option string;
  rest : list (string * value);
}.
Definition toValue (r : t) : value :=
  VObj ([("entity", VStr (entity r))] ++ Obj.opt "field" VStr (field r) ++ rest r).
End Reference.

Module FieldSpec.
Import JsValue.
Record t : Type := {
  reference : option Reference.t;
  rest : list (string * value);
}.
Definition toValue (f : t) : value :=
  VObj (rest f ++ Obj.opt "reference" Reference.toValue (reference f)).
End FieldSpec.

Module RelationSpec.
Import JsValue.
Record t : Type := {
  target : string;
  through : option string;
  rest : list (string * value);
}.
Definition toValue (r : t) : value :=
  VObj ([("target", VStr (target r))] ++ Obj.opt "through" VStr (through r) ++ rest r).
End RelationSpec.

Module EntitySpec.
Import JsValue.
Record t : Type := {
  description : option string;
  tenant_scoped : option bool;
  immutable : option bool;
  ai_suggest_only : option bool;
  fields : list (string * FieldSpec.t);
  relations : option (list (string * RelationSpec.t));
  rest : list (string * value);
}.
Definition toValue (e : t) : value :=
  VObj (Obj.opt "description" VStr (description e)
        ++ Obj.opt "tenant_scoped" VBool (tenant_scoped e)
        ++ Obj.opt "immutable" VBool (immutable e)
        ++ Obj.opt "ai_suggest_only" VBool (ai_suggest_only e)
        ++ [("fields", Obj.dict FieldSpec.toValue (fields e))]
        ++ Obj.opt "relations" (Obj.dict RelationSpec.toValue) (relations e)
        ++ rest e).
End EntitySpec.

Module ActionSpec.
Import JsValue.
Record Auth : Type := {
  roles : option (list string);
  auth_rest : list (string * value);
}.
Record t : Type := {
  type : ActionType;
  description : option string;
  entity : option string;
  idempotent : option bool;
  auth : option Auth;
  rate_limit : option (list (string * value));
  triggers_job : option string;
  rest : list (string * value);
}.
Definition toValue (a : t) : value :=
  VObj ([("type", VStr (ActionType_name (type a)))]
        ++ Obj.opt "description" VStr (description a)
        ++ Obj.opt "entity" VStr (entity a)
        ++ Obj.opt "idempotent" VBool (idempotent a)
        ++ Obj.opt "auth"
             (fun x => VObj (Obj.opt "roles" Obj.strings (roles x) ++ auth_rest x))
             (auth a)
        ++ Obj.opt "rate_limit" VObj (rate_limit a)
        ++ Obj.opt "triggers_job" VStr (triggers_job a)
        ++ rest a).
End ActionSpec.

Module TransitionSpec.
Import JsValue.
Record t : Type := {
  target : string;
  action : option string;
  rest : list (string * value);
}.
Definition toValue (x : t) : value :=
  VObj ([("target", VStr (target x))] ++ Obj.opt "action" VStr (action x) ++ rest x).
End TransitionSpec.

Module StepSpec.
Import JsValue.
Record OnEnter : Type := {
  action : option string;
  on_enter_rest : list (string * value);
}.
Record t : Type := {
  screen : string;
  transitions : option (list (string * TransitionSpec.t));
  on_enter : option OnEnter;
  rest : list (string * value);
}.
Definition toValue (s : t) : value :=
  VObj ([("screen", VStr (screen s))]
        ++ Obj.opt "transitions" (Obj.dict TransitionSpec.toValue) (transitions s)
        ++ Obj.opt "on_enter"
             (fun x => VObj (Obj.opt "action" VStr (action x) ++ on_enter_rest x))
             (on_enter s)
        ++ rest s).
End StepSpec.

Module FlowSpec.
Import JsValue.
Record t : Type := {
  name : string;
  steps : list (string * StepSpec.t);
  initial_step : option string;
  rest : list (string * value);
}.
Definition toValue (f : t) : value :=
  VObj ([("name", VStr (name f));
         ("steps", Obj.dict StepSpec.toValue (steps f))]
        ++ Obj.opt "initial_step" VStr (initial_step f)
        ++ rest f).
End FlowSpec.

Module RoleSpec.
Import JsValue.
Record t : Type := {
  name : string;
  inherits : option (list string);
  permissions : option (list string);
  can : option (list string);
  rest : list (string * value);
}.
Definition toValue (r : t) : value :=
  VObj ([("name", VStr (name r))]
        ++ Obj.opt "inherits" Obj.strings (inherits r)
        ++ Obj.opt "permissions" Obj.strings (permissions r)
        ++ Obj.opt "can" Obj.strings (can r)
        ++ rest r).
End RoleSpec.

Module PolicySpec.
Import JsValue.
Record t : Type := {
  resource : string;
  rest : list (string * value);
}.
Definition toValue (p : t) : value :=
  VObj ([("resource", VStr (resource p))] ++ rest p).
End PolicySpec.

Module PoliciesSpec.
Import JsValue.
Record AiRules : Type := {
  ai_entities : option (list (string * value));
  ai_actions : option (list (string * value));
  ai_rest : list (string * value);
}.
Record t : Type := {
  roles : option (list (string * RoleSpec.t));
  policies : option (list (string * PolicySpec.t));
  ai_rules : option AiRules;
  rest : list (string * value);
}.
Definition toValue (p : t) : value :=
  VObj (Obj.opt "roles" (Obj.dict RoleSpec.toValue) (roles p)
        ++ Obj.opt "policies" (Obj.dict PolicySpec.toValue) (policies p)
        ++ Obj.opt "ai_rules"
             (fun x => VObj (ai_rest x
                             ++ Obj.opt "entities" VObj (ai_entities x)
                             ++ Obj.opt "actions" VObj (ai_actions x)))
             (ai_rules p)
        ++ rest p).
End PoliciesSpec.

Module ScreenSpec.
Import JsValue.
Record t : Type := {
  entity : option string;
  load_action : option string;
  submit_action : option string;
  rest : list (string * value);
}.
Definition toValue (s : t) : value :=
  VObj (Obj.opt "entity" VStr (entity s)
        ++ Obj.opt "load_action" VStr (load_action s)
        ++ Obj.opt "submit_action" VStr (submit_action s)
        ++ rest s).
End ScreenSpec.

Module UiSpec.
Import JsValue.
Record t : Type := {
  screens : option (list (string * ScreenSpec.t));
  rest : list (string * value);
}.
Definition toValue (u : t) : value :=
  VObj (Obj.opt "screens" (Obj.dict ScreenSpec.toValue) (screens u) ++ rest u).
End UiSpec.

Module JobSpec.
Import JsValue.
Record t : Type := {
  name : string;
  queue : option string;
  triggers : option (list string);
  dead_letter_queue : option string;
  rest : list (string * value);
}.
Definition toValue (j : t) : value :=
  VObj ([("name", VStr (name j))]
        ++ Obj.opt "queue" VStr (queue j)
        ++ Obj.opt "triggers" Obj.strings (triggers j)
        ++ Obj.opt "dead_letter_queue" VStr (dead_letter_queue j)
        ++ rest j).
End JobSpec.

Module JobsSpec.
Import JsValue.
Record t : Type := {
  jobs : option (list (string * JobSpec.t));
  queues : option (list (string * list (string * value)));
}.
Definition toValue (j : t) : value :=
  VObj (Obj.opt "jobs" (Obj.dict JobSpec.toValue) (jobs j)
        ++ Obj.opt "queues" (Obj.dict VObj) (queues j)).
End JobsSpec.

Module Spec.
Import JsValue.
(** Bundle of all specs; [metrics] is read by nobody but the schema
    validator and is kept as the object it is. *)
Record t : Type := {
  product : ProductSpec.t;
  entities : list (string * EntitySpec.t);
  actions : list (string * ActionSpec.t);
  flows : list (string * FlowSpec.t);
  policies : PoliciesSpec.t;
  ui : UiSpec.t;
  metrics : list (string * value);
  jobs : JobsSpec.t;
}.
Definition toValue (s : t) : value :=
  VObj [("product", ProductSpec.toValue (product s));
        ("entities", Obj.dict EntitySpec.toValue (entities s));
        ("actions", Obj.dict ActionSpec.toValue (actions s));
        ("flows", Obj.dict FlowSpec.toValue (flows s));
        ("policies", PoliciesSpec.toValue (policies s));
        ("ui", UiSpec.toValue (ui s));
        ("metrics", VObj (metrics s));
        ("jobs", JobsSpec.toValue (jobs s))].
End Spec.

Module SpecBundle.
Record Meta : Type := {
  version : string;
  generated_at : string;
  hash : string;
}.
(** [{ ...spec, _meta }] *)
Record t : Type := {
  spec : Spec.t;
  _meta : Meta;
}.
End SpecBundle.

(* ===================================================================== *)
(** * spec-linker.ts *)
(* ===================================================================== *)

Module Linker.
Import JsValue.

Inductive LinkErrorType : Type :=
  | missing_reference | circular_reference | invalid_relation | invariant_violation.

Record LinkError : Type := {
  type : LinkErrorType;
  message : string;
  source : string;
  target : option string;
}.

Inductive LinkWarningType : Type := unused | shadowed | deprecated.

Record LinkWarning : Type := {
  w_type : LinkWarningType;
  w_message : string;
  path : string;
}.

Record LinkResult : Type := {
  valid : bool;
  errors : list LinkError;
  warnings : list LinkWarning;
  bundle : option SpecBundle.t;
}.

(** A loop whose iterations push onto the shared [errors] array: [body x]
    is what the iteration for [x] pushes, and the loop pushes these in
    order. *)
Definition forEach {A E : Type} (l : list A) (body : A -> list E) : list E :=
  fold_left (fun pushed x => pushed ++ body x) l [].

(** A loop over an optional collection, skipped when it is absent. *)
Definition forEachOpt {A E : Type} (l : option (list A)) (body : A -> list E) : list E :=
  match l with Some xs => forEach xs body | None => [] end.

(** [if (c) errors.push(e)] *)
Definition pushIf {E : Type} (c : bool) (e : E) : list E := if c then [e] else [].

(** A loop whose iterations push onto the shared [errors] array and may
    throw: [None] is the exception, which ends the loop and leaves the
    method. *)
Fixpoint forEachTry {A E : Type} (l : list A) (body : A -> option (list E))
    : option (list E) :=
  match l with
  | [] => Some []
  | x :: rest =>
      pushed ← body x; later ← forEachTry rest body; Some (pushed ++ later)
  end.

(** [d[k]] is truthy, and also [k in d], for a dictionary [d] whose entries
    are objects: [k] is a key of [d] or, failing that, the name of a member
    of [Object.prototype], which [d] inherits. *)
Definition hasKey {A : Type} (d : list (string * A)) (k : string) : bool :=
  bool_decide (is_Some (lookup k d)) || isInherited k.

(** [d?.[k]] is truthy *)
Definition has {A : Type} (d : option (list (string * A))) (k : string) : bool :=
  match d with
  | Some entries => hasKey entries k
  | None => false
  end.

Definition missing (message source target : string) : LinkError :=
  {| type := missing_reference; message := message; source := source;
     target := Some target |}.

Definition q (s : string) : string :=
  String (ascii_of_nat 34) (s +:+ String (ascii_of_nat 34) EmptyString).

(** [None] is the [TypeError] of [targetEntity.fields[targetField]] when
    [spec.entities[field.reference.entity]] is not an entity but a member of
    [Object.prototype]: such a member, a function or [Object.prototype]
    itself, is truthy and has no property [fields]. *)
Definition validateEntityReferences (spec : Spec.t) : option (list LinkError) :=
  forEachTry (Spec.entities spec) (fun '(entityName, entity) =>
    fieldErrors ←
      forEachTry (EntitySpec.fields entity) (fun '(fieldName, field) =>
        match FieldSpec.reference field with
        | Some reference =>
            match lookup (Reference.entity reference) (Spec.entities spec) with
            | Some targetEntity =>
                let targetField := Obj.orElse (Reference.field reference) "id" in
                Some (pushIf (negb (hasKey (EntitySpec.fields targetEntity) targetField))
                        (missing
                           ("Field " +:+ q targetField +:+ " in entity "
                            +:+ q (Reference.entity reference) +:+ " does not exist")
                           ("entities." +:+ entityName +:+ ".fields." +:+ fieldName)
                           ("entities." +:+ Reference.entity reference
                            +:+ ".fields." +:+ targetField)))
            | None =>
                if isInherited (Reference.entity reference) then None
                else
                  Some [missing
                          ("Entity " +:+ q (Reference.entity reference)
                           +:+ " referenced by field " +:+ q fieldName
                           +:+ " does not exist")
                          ("entities." +:+ entityName +:+ ".fields." +:+ fieldName)
                          ("entities." +:+ Reference.entity reference)]
            end
        | None => Some []
        end);
    Some (fieldErrors
    (* Check relations *)
    ++ forEachOpt (EntitySpec.relations entity) (fun '(relName, relation) =>
         pushIf (negb (hasKey (Spec.entities spec) (RelationSpec.target relation)))
           (missing
              ("Relation target " +:+ q (RelationSpec.target relation)
               +:+ " does not exist")
              ("entities." +:+ entityName +:+ ".relations." +:+ relName)
              ("entities." +:+ RelationSpec.target relation))
         ++
         match RelationSpec.through relation with
         | Some through =>
             pushIf (negb (JsString.isEmpty through)
                     && negb (hasKey (Spec.entities spec) through))
               (missing
                  ("Through table " +:+ q through +:+ " does not exist")
                  ("entities." +:+ entityName +:+ ".relations." +:+ relName)
                  ("entities." +:+ through))
         | None => []
         end))).

(** [if (x && !d[x]) errors.push(e x)] for an optional name [x] *)
Definition checkNamed {E : Type} (x : option string) (exists_ : string -> bool)
    (e : string -> E) : list E :=
  match x with
  | Some n => pushIf (negb (JsString.isEmpty n) && negb (exists_ n)) (e n)
  | None => []
  end.

Definition validateActionReferences (spec : Spec.t) : list LinkError :=
  forEach (Spec.actions spec) (fun '(actionName, action) =>
    (* Check entity reference *)
    checkNamed (ActionSpec.entity action) (hasKey (Spec.entities spec)) (fun entity =>
      missing ("Entity " +:+ q entity +:+ " referenced by action does not exist")
              ("actions." +:+ actionName) ("entities." +:+ entity))
    (* Check job trigger reference *)
    ++ checkNamed (ActionSpec.triggers_job action) (has (JobsSpec.jobs (Spec.jobs spec)))
         (fun job =>
            missing ("Job " +:+ q job +:+ " triggered by action does not exist")
                    ("actions." +:+ actionName) ("jobs." +:+ job))
    (* Check role references *)
    ++ match ActionSpec.auth action with
       | Some auth =>
           forEachOpt (ActionSpec.roles auth) (fun role =>
             pushIf (negb (has (PoliciesSpec.roles (Spec.policies spec)) role))
               (missing ("Role " +:+ q role +:+ " required by action does not exist")
                        ("actions." +:+ actionName) ("policies.roles." +:+ role)))
       | None => []
       end).

Definition validateFlowReferences (spec : Spec.t) : list LinkError :=
  forEach (Spec.flows spec) (fun '(flowName, flow) =>
    forEach (FlowSpec.steps flow) (fun '(stepName, step) =>
      (* Check screen reference *)
      pushIf (negb (has (UiSpec.screens (Spec.ui spec)) (StepSpec.screen step)))
        (missing
           ("Screen " +:+ q (StepSpec.screen step)
            +:+ " referenced by flow step does not exist")
           ("flows." +:+ flowName +:+ ".steps." +:+ stepName)
           ("ui.screens." +:+ StepSpec.screen step))
      (* Check transition targets *)
      ++ forEachOpt (StepSpec.transitions step) (fun '(transName, transition) =>
           pushIf (negb (hasKey (FlowSpec.steps flow) (TransitionSpec.target transition)))
             (missing
                ("Step " +:+ q (TransitionSpec.target transition)
                 +:+ " referenced by transition does not exist")
                ("flows." +:+ flowName +:+ ".steps." +:+ stepName
                 +:+ ".transitions." +:+ transName)
                ("flows." +:+ flowName +:+ ".steps."
                 +:+ TransitionSpec.target transition))
           ++ checkNamed (TransitionSpec.action transition) (hasKey (Spec.actions spec))
                (fun action =>
                   missing
                     ("Action " +:+ q action
                      +:+ " referenced by transition does not exist")
                     ("flows." +:+ flowName +:+ ".steps." +:+ stepName
                      +:+ ".transitions." +:+ transName)
                     ("actions." +:+ action)))
      (* Check on_enter action *)
      ++ match StepSpec.on_enter step with
         | Some on_enter =>
             checkNamed (StepSpec.action on_enter) (hasKey (Spec.actions spec))
               (fun action =>
                  missing
                    ("Action " +:+ q action +:+ " referenced by on_enter does not exist")
                    ("flows." +:+ flowName +:+ ".steps." +:+ stepName +:+ ".on_enter")
                    ("actions." +:+ action))
         | None => []
         end)
    (* Check initial step *)
    ++ checkNamed (FlowSpec.initial_step flow) (hasKey (FlowSpec.steps flow))
         (fun initial_step =>
            missing ("Initial step " +:+ q initial_step +:+ " does not exist")
                    ("flows." +:+ flowName)
                    ("flows." +:+ flowName +:+ ".steps." +:+ initial_step))).

Definition validatePolicyReferences (spec : Spec.t) : list LinkError :=
  let policies := Spec.policies spec in
  (* Check role inheritance *)
  forEachOpt (PoliciesSpec.roles policies) (fun '(roleName, role) =>
    forEachOpt (RoleSpec.inherits role) (fun parent =>
      pushIf (negb (has (PoliciesSpec.roles policies) parent))
        (missing ("Parent role " +:+ q parent +:+ " does not exist")
                 ("policies.roles." +:+ roleName) ("policies.roles." +:+ parent)))
    (* Check action references in can *)
    ++ forEachOpt (RoleSpec.can role) (fun actionName =>
         pushIf (negb (hasKey (Spec.actions spec) actionName))
           (missing
              ("Action " +:+ q actionName +:+ " referenced in role.can does not exist")
              ("policies.roles." +:+ roleName) ("actions." +:+ actionName))))
  (* Check policy resource references *)
  ++ forEachOpt (PoliciesSpec.policies policies) (fun '(policyName, policy) =>
       pushIf (negb (hasKey (Spec.entities spec) (PolicySpec.resource policy)))
         (missing
            ("Entity " +:+ q (PolicySpec.resource policy)
             +:+ " referenced by policy does not exist")
            ("policies.policies." +:+ policyName)
            ("entities." +:+ PolicySpec.resource policy)))
  (* Check AI rules entity references *)
  ++ match PoliciesSpec.ai_rules policies with
     | Some ai_rules =>
         forEachOpt (PoliciesSpec.ai_entities ai_rules) (fun '(entityName, _) =>
           pushIf (negb (hasKey (Spec.entities spec) entityName))
             (missing ("Entity " +:+ q entityName +:+ " in AI rules does not exist")
                      ("policies.ai_rules.entities." +:+ entityName)
                      ("entities." +:+ entityName)))
         (* Check AI rules action references *)
         ++ forEachOpt (PoliciesSpec.ai_actions ai_rules) (fun '(actionName, _) =>
              pushIf (negb (hasKey (Spec.actions spec) actionName))
                (missing ("Action " +:+ q actionName +:+ " in AI rules does not exist")
                         ("policies.ai_rules.actions." +:+ actionName)
                         ("actions." +:+ actionName)))
     | None => []
     end.

Definition validateUiReferences (spec : Spec.t) : list LinkError :=
  forEachOpt (UiSpec.screens (Spec.ui spec)) (fun '(screenName, screen) =>
    (* Check entity reference *)
    checkNamed (ScreenSpec.entity screen) (hasKey (Spec.entities spec)) (fun entity =>
      missing ("Entity " +:+ q entity +:+ " referenced by screen does not exist")
              ("ui.screens." +:+ screenName) ("entities." +:+ entity))
    (* Check load_action reference *)
    ++ checkNamed (ScreenSpec.load_action screen) (hasKey (Spec.actions spec))
         (fun action =>
            missing ("Action " +:+ q action +:+ " referenced by screen does not exist")
                    ("ui.screens." +:+ screenName) ("actions." +:+ action))
    (* Check submit_action reference *)
    ++ checkNamed (ScreenSpec.submit_action screen) (hasKey (Spec.actions spec))
         (fun action =>
            missing ("Action " +:+ q action +:+ " referenced by screen does not exist")
                    ("ui.screens." +:+ screenName) ("actions." +:+ action))).

Definition validateJobReferences (spec : Spec.t) : list LinkError :=
  let queues := JobsSpec.queues (Spec.jobs spec) in
  forEachOpt (JobsSpec.jobs (Spec.jobs spec)) (fun '(jobName, job) =>
    (* Check queue reference *)
    checkNamed (JobSpec.queue job)
      (fun queue => String.eqb queue "default" || has queues queue)
      (fun queue =>
         missing ("Queue " +:+ q queue +:+ " referenced by job does not exist")
                 ("jobs." +:+ jobName) ("jobs.queues." +:+ queue))
    (* Check dead letter queue reference *)
    ++ checkNamed (JobSpec.dead_letter_queue job) (has queues) (fun queue =>
         missing ("Dead letter queue " +:+ q queue +:+ " does not exist")
                 ("jobs." +:+ jobName) ("jobs.queues." +:+ queue))
    (* Check trigger action references *)
    ++ forEachOpt (JobSpec.triggers job) (fun trigger =>
         pushIf (negb (hasKey (Spec.actions spec) trigger))
           (missing ("Trigger action " +:+ q trigger +:+ " does not exist")
                    ("jobs." +:+ jobName) ("actions." +:+ trigger)))).

(** [set.add(x)] on a [Set<string>] kept in insertion order. *)
Definition setAdd (x : string) (set : list string) : list string :=
  if existsb (String.eqb x) set then set else set ++ [x].

Definition addTruthy (x : option string) (set : list string) : list string :=
  if Obj.truthy x then setAdd (default EmptyString x) set else set.

(** The [usedEntities] set of [checkUnused]. *)
Definition usedEntities (spec : Spec.t) : list string :=
  let used := fold_left (fun used kv => addTruthy (ActionSpec.entity (snd kv)) used)
                        (Spec.actions spec) [] in
  let used := fold_left (fun used kv => addTruthy (ScreenSpec.entity (snd kv)) used)
                        (default [] (UiSpec.screens (Spec.ui spec))) used in
  (* Add referenced entities *)
  fold_left (fun used kv =>
    let entity := snd kv in
    let used := fold_left (fun used fv =>
                  match FieldSpec.reference (snd fv) with
                  | Some reference => setAdd (Reference.entity reference) used
                  | None => used
                  end) (EntitySpec.fields entity) used in
    fold_left (fun used rv =>
                 let relation := snd rv in
                 addTruthy (RelationSpec.through relation)
                           (setAdd (RelationSpec.target relation) used))
              (default [] (EntitySpec.relations entity)) used)
    (Spec.entities spec) used.

Definition checkUnused (spec : Spec.t) : list LinkWarning :=
  let used := usedEntities spec in
  forEach (Spec.entities spec) (fun '(entityName, _) =>
    pushIf (negb (existsb (String.eqb entityName) used))
      {| w_type := unused;
         w_message := "Entity " +:+ q entityName
                      +:+ " is not referenced by any action, screen, or relation";
         path := "entities." +:+ entityName |}).

(** [d[a] || d[b]] *)
Definition either {A : Type} (d : list (string * A)) (a b : string) : option A :=
  match lookup a d with
  | Some x => Some x
  | None => lookup b d
  end.

Definition checkInvariants (spec : Spec.t) : list LinkError :=
  (* Check for journal entry balance invariant (LedgerFlow preset) *)
  let journalEntry := either (Spec.entities spec) "JournalEntry" "journal_entry" in
  let journalLine := either (Spec.entities spec) "JournalLine" "journal_line" in
  match journalEntry, journalLine with
  | Some journalEntry, Some journalLine =>
      (* Check that debit/credit fields exist *)
      let hasDebit := hasKey (EntitySpec.fields journalLine) "debit"
                      || hasKey (EntitySpec.fields journalLine) "debit_amount" in
      let hasCredit := hasKey (EntitySpec.fields journalLine) "credit"
                       || hasKey (EntitySpec.fields journalLine) "credit_amount" in
      pushIf (negb hasDebit || negb hasCredit)
        {| type := invariant_violation;
           message := "JournalLine must have both debit and credit fields for balance invariant";
           source := "entities.JournalLine"; target := None |}
      (* Check immutability for posted entries *)
      ++ pushIf (negb (Obj.isTrue (EntitySpec.immutable journalEntry))
                 && bool_decide (ProductSpec.profile (Spec.product spec) = prod))
           {| type := invariant_violation;
              message := "JournalEntry should be immutable in production for audit compliance";
              source := "entities.JournalEntry"; target := None |}
  | _, _ => @nil LinkError
  end.
  (* The multi-tenancy loop that follows in the source pushes nothing. *)

Definition computeHash (spec : Spec.t) : string :=
  let content := Json.stringify (Spec.toValue spec) in
  JsString.take 16 (Sha256.sha256hex content).

(** [link(spec)]; [now] is [new Date().toISOString()].  [None] is the
    [TypeError] that [validateEntityReferences] throws: [link] has no
    [catch], so the exception leaves it. *)
Definition link (now : string) (spec : Spec.t) : option LinkResult :=
  (* Cross-reference validation *)
  entityErrors ← validateEntityReferences spec;
  let errors :=
    entityErrors
    ++ validateActionReferences spec
    ++ validateFlowReferences spec
    ++ validatePolicyReferences spec
    ++ validateUiReferences spec
    ++ validateJobReferences spec in
  (* Check for unused definitions *)
  let warnings := checkUnused spec in
  (* Check invariants *)
  let errors := errors ++ checkInvariants spec in
  if (0 <? length errors)%nat then
    Some {| valid := false; errors := errors; warnings := warnings; bundle := None |}
  else
    (* Create bundle with metadata *)
    let bundle :=
      {| SpecBundle.spec := spec;
         SpecBundle._meta :=
           {| SpecBundle.version := ProductSpec.version (Spec.product spec);
              SpecBundle.generated_at := now;
              SpecBundle.hash := computeHash spec |} |} in
    Some {| valid := true; errors := errors; warnings := warnings;
            bundle := Some bundle |}.


(** ** Vocabulary of the properties *)

#[global] Instance LinkErrorType_eq_dec : EqDecision LinkErrorType.
Proof. solve_decision. Defined.

Definition invariantViolations (errs : list LinkError) : list LinkError :=
  List.filter (fun e => bool_decide (type e = invariant_violation)) errs.

(** [_meta.hash] of the bundle of a result, if it has one. *)
Definition hashOf (r : LinkResult) : option string :=
  (fun b => SpecBundle.hash (SpecBundle._meta b)) <$> bundle r.

(** The errors that the reference checks push. *)
Definition isMissing (e : LinkError) : Prop :=
  type e = missing_reference /\ is_Some (target e).

(** The name [k] finds something in the dictionary [d]: an entry of [d] or,
    failing that, a member of [Object.prototype]. *)
Definition found {A : Type} (d : list (string * A)) (k : string) : Prop :=
  is_Some (lookup k d) \/ In k objectPrototype.

(** The name [k] finds something in the optional dictionary [d]: nothing
    when [d] is absent. *)
Definition foundIn {A : Type} (d : option (list (string * A))) (k : string) : Prop :=
  exists entries, d = Some entries /\ found entries k.

(** No field refers to an entity by a name that is not a key of
    [spec.entities] and names a member of [Object.prototype]. *)
Definition linkable (spec : Spec.t) : Prop :=
  forall E entity F field reference,
    In (E, entity) (Spec.entities spec) ->
    In (F, field) (EntitySpec.fields entity) ->
    FieldSpec.reference field = Some reference ->
    lookup (Reference.entity reference) (Spec.entities spec) = None ->
    ~ In (Reference.entity reference) objectPrototype.

(** Some field refers to an entity by a name that is not a key of
    [spec.entities] and names a member of [Object.prototype]. *)
Definition refersToPrototype (spec : Spec.t) : Prop :=
  exists E entity F field reference,
    In (E, entity) (Spec.entities spec)
    /\ In (F, field) (EntitySpec.fields entity)
    /\ FieldSpec.reference field = Some reference
    /\ lookup (Reference.entity reference) (Spec.entities spec) = None
    /\ In (Reference.entity reference) objectPrototype.

(** The entity that the journal checks take for [name]: the one under the
    key [name] or, when [spec.entities] has no such key, the one under the
    key [fallback]. *)
Definition journalEntity (spec : Spec.t) (name fallback : string)
    (entity : EntitySpec.t) : Prop :=
  lookup name (Spec.entities spec) = Some entity
  \/ (lookup name (Spec.entities spec) = None
      /\ lookup fallback (Spec.entities spec) = Some entity).

(** What [checkUnused] counts as a use of the entity name [x]. *)
Definition referenced (spec : Spec.t) (x : string) : Prop :=
  (exists n action, In (n, action) (Spec.actions spec)
                    /\ ActionSpec.entity action = Some x /\ x <> EmptyString)
  \/ (exists n screen, In (n, screen) (default [] (UiSpec.screens (Spec.ui spec)))
                       /\ ScreenSpec.entity screen = Some x /\ x <> EmptyString)
  \/ (exists E entity F field reference,
        In (E, entity) (Spec.entities spec)
        /\ In (F, field) (EntitySpec.fields entity)
        /\ FieldSpec.reference field = Some reference
        /\ Reference.entity reference = x)
  \/ (exists E entity R relation,
        In (E, entity) (Spec.entities spec)
        /\ In (R, relation) (default [] (EntitySpec.relations entity))
        /\ (RelationSpec.target relation = x
            \/ (RelationSpec.through relation = Some x /\ x <> EmptyString))).

(** The warning for an entity that nothing uses. *)
Definition unusedEntity (entityName : string) : LinkWarning :=
  {| w_type := unused;
     w_message := "Entity " +:+ q entityName
                  +:+ " is not referenced by any action, screen, or relation";
     path := "entities." +:+ entityName |}.

End Linker.

(* ===================================================================== *)
(** * spec-validator.ts *)
(* ===================================================================== *)

Module Validator.
Import JsValue.

Record ValidationError : Type := {
  path : string;
  message : string;
  schemaPath : option string;
}.

Record ValidationWarning : Type := {
  w_path : string;
  w_message : string;
  suggestion : option string;
}.

Record ValidationResult : Type := {
  valid : bool;
  errors : list ValidationError;
  warnings : list ValidationWarning;
}.

(** An error object of the schema validator (Ajv). *)
Record ErrorObject : Type := {
  instancePath : string;
  e_message : option string;
  e_schemaPath : string;
}.

(** A compiled schema: applied to a value it gives the verdict and what it
    leaves in [validate.errors]. *)
Definition ValidateFunction : Type := value -> bool * option (list ErrorObject).

(** The validator after [loadSchemas]: [getSchema name] is the schema that
    was registered under [name], if its file was found. *)
Record SpecValidator : Type := {
  getSchema : string -> option ValidateFunction;
}.

Record Options : Type := {
  strict : option bool;
  opt_profile : option Profile;
}.

Definition validateSchema (this : SpecValidator) (schemaName : string) (data : value)
    (prefix : string) : list ValidationError :=
  match getSchema this schemaName with
  | None => []
  | Some validate =>
      match validate data with
      | (false, Some errs) =>
          map (fun error =>
                 {| path := if negb (JsString.isEmpty prefix)
                            then prefix +:+ instancePath error
                            else JsString.drop 1 (instancePath error);
                    message := Obj.orElse (e_message error) "Validation failed";
                    schemaPath := Some (e_schemaPath error) |}) errs
      | _ => []
      end
  end.

(** [{ [outer]: { [name]: x } }] *)
Definition wrap (outer name : string) (x : value) : value :=
  VObj [(outer, VObj [(name, x)])].

Definition validateProductionRules (spec : Spec.t) (profileConfig : ProfileConfig.t)
    : list ValidationError * list ValidationWarning :=
  (* Check idempotency for commands *)
  let errors :=
    if negb (bool_decide (ProfileConfig.require_idempotency profileConfig = Some false))
    then Linker.forEach (Spec.actions spec) (fun '(name, action) =>
           Linker.pushIf (bool_decide (ActionSpec.type action = command)
                          && negb (Obj.isTrue (ActionSpec.idempotent action)))
             {| path := "actions." +:+ name;
                message := "Commands must be idempotent in production profile";
                schemaPath := None |})
    else [] in
  (* Check rate limits *)
  let warnings :=
    if negb (bool_decide (ProfileConfig.require_rate_limits profileConfig = Some false))
    then Linker.forEach (Spec.actions spec) (fun '(name, action) =>
           Linker.pushIf (negb (bool_decide (is_Some (ActionSpec.rate_limit action)))
                          && bool_decide (ActionSpec.type action = command))
             {| w_path := "actions." +:+ name;
                w_message := "Command should have rate limit defined for production";
                suggestion := Some "Add rate_limit configuration" |})
    else [] in
  (* Check tenant scoping *)
  let warnings := warnings ++
    if negb (bool_decide (ProfileConfig.strict_tenancy profileConfig = Some false))
       && bool_decide (ProductSpec.mode (ProductSpec.tenancy (Spec.product spec)) = multi)
    then Linker.forEach (Spec.entities spec) (fun '(name, entity) =>
           Linker.pushIf (bool_decide (EntitySpec.tenant_scoped entity = Some false))
             {| w_path := "entities." +:+ name;
                w_message := "Entity is not tenant-scoped in multi-tenant mode";
                suggestion := Some "Set tenant_scoped: true or explicitly document why this is global" |})
    else [] in
  (* Check AI rules for financial entities *)
  let warnings := warnings ++
    Linker.forEach (Spec.entities spec) (fun '(name, entity) =>
      let lower := JsString.toLowerCase name in
      let isFinancial := JsString.includes "journal" lower
                         || JsString.includes "ledger" lower
                         || JsString.includes "entry" lower
                         || JsString.includes "posting" lower in
      Linker.pushIf (isFinancial && negb (Obj.isTrue (EntitySpec.ai_suggest_only entity)))
        {| w_path := "entities." +:+ name;
           w_message := "Financial entity should be ai_suggest_only for safety";
           suggestion := Some "Set ai_suggest_only: true" |}) in
  (errors, warnings).

Definition validateStrictRules (spec : Spec.t) : list ValidationWarning :=
  (* All entities should have descriptions *)
  Linker.forEach (Spec.entities spec) (fun '(name, entity) =>
    Linker.pushIf (negb (Obj.truthy (EntitySpec.description entity)))
      {| w_path := "entities." +:+ name;
         w_message := "Entity should have a description"; suggestion := None |})
  (* All actions should have descriptions *)
  ++ Linker.forEach (Spec.actions spec) (fun '(name, action) =>
       Linker.pushIf (negb (Obj.truthy (ActionSpec.description action)))
         {| w_path := "actions." +:+ name;
            w_message := "Action should have a description"; suggestion := None |})
  (* Check for orphaned screens *)
  ++ (let referencedScreens :=
        fold_left (fun set kv =>
                     fold_left (fun set sv => Linker.setAdd (StepSpec.screen (snd sv)) set)
                               (FlowSpec.steps (snd kv)) set)
                  (Spec.flows spec) [] in
      Linker.forEach (default [] (UiSpec.screens (Spec.ui spec))) (fun '(screenName, _) =>
        Linker.pushIf (negb (existsb (String.eqb screenName) referencedScreens))
          {| w_path := "ui.screens." +:+ screenName;
             w_message := "Screen is not referenced by any flow"; suggestion := None |})).

(** [validate(spec, options)], once the schemas are loaded. *)
Definition validate (this : SpecValidator) (spec : Spec.t) (options : Options)
    : ValidationResult :=
  let errors :=
    (* Validate product *)
    validateSchema this "product" (ProductSpec.toValue (Spec.product spec)) EmptyString
    (* Validate entities *)
    ++ Linker.forEach (Spec.entities spec) (fun '(name, entity) =>
         validateSchema this "entity" (wrap "entities" name (EntitySpec.toValue entity))
                        ("entities." +:+ name))
    (* Validate actions *)
    ++ Linker.forEach (Spec.actions spec) (fun '(name, action) =>
         validateSchema this "action" (wrap "actions" name (ActionSpec.toValue action))
                        ("actions." +:+ name))
    (* Validate flows *)
    ++ Linker.forEach (Spec.flows spec) (fun '(name, flow) =>
         validateSchema this "flow" (wrap "flows" name (FlowSpec.toValue flow))
                        ("flows." +:+ name))
    (* Validate policies, UI, metrics, jobs *)
    ++ validateSchema this "policies" (PoliciesSpec.toValue (Spec.policies spec)) "policies"
    ++ validateSchema this "ui" (UiSpec.toValue (Spec.ui spec)) "ui"
    ++ validateSchema this "metrics" (VObj (Spec.metrics spec)) "metrics"
    ++ validateSchema this "jobs" (JobsSpec.toValue (Spec.jobs spec)) "jobs" in
  (* Profile-specific validation *)
  let profile := default (ProductSpec.profile (Spec.product spec)) (opt_profile options) in
  let profileConfig := ProductSpec.profileConfig (Spec.product spec) profile in
  let '(errors, warnings) :=
    if bool_decide (profile = prod) || bool_decide (is_Some profileConfig) then
      let '(es, ws) :=
        validateProductionRules spec (default ProfileConfig.empty profileConfig) in
      (errors ++ es, ws)
    else (errors, []) in
  (* Strict mode additional checks *)
  let warnings :=
    if Obj.isTrue (strict options) then warnings ++ validateStrictRules spec
    else warnings in
  {| valid := (length errors =? 0)%nat; errors := errors; warnings := warnings |}.


(** ** Vocabulary of the properties *)

(** The error of the idempotency rule for the action [name]. *)
Definition notIdempotent (name : string) : ValidationError :=
  {| path := "actions." +:+ name;
     message := "Commands must be idempotent in production profile";
     schemaPath := None |}.

(** A command that is not idempotent. *)
Definition offending (entry : string * ActionSpec.t) : bool :=
  bool_decide (ActionSpec.type (snd entry) = command)
  && negb (Obj.isTrue (ActionSpec.idempotent (snd entry))).

(** What the schemas report, in the order of [validate]. *)
Definition schemaErrors (this : SpecValidator) (spec : Spec.t) : list ValidationError :=
  validateSchema this "product" (ProductSpec.toValue (Spec.product spec)) EmptyString
  ++ Linker.forEach (Spec.entities spec) (fun '(name, entity) =>
       validateSchema this "entity" (wrap "entities" name (EntitySpec.toValue entity))
                      ("entities." +:+ name))
  ++ Linker.forEach (Spec.actions spec) (fun '(name, action) =>
       validateSchema this "action" (wrap "actions" name (ActionSpec.toValue action))
                      ("actions." +:+ name))
  ++ Linker.forEach (Spec.flows spec) (fun '(name, flow) =>
       validateSchema this "flow" (wrap "flows" name (FlowSpec.toValue flow))
                      ("flows." +:+ name))
  ++ validateSchema this "policies" (PoliciesSpec.toValue (Spec.policies spec)) "policies"
  ++ validateSchema this "ui" (UiSpec.toValue (Spec.ui spec)) "ui"
  ++ validateSchema this "metrics" (VObj (Spec.metrics spec)) "metrics"
  ++ validateSchema this "jobs" (JobsSpec.toValue (Spec.jobs spec)) "jobs".

(** [p] is the profile in force: the one of the options or, when the
    options name none, the one of the product. *)
Definition inForce (spec : Spec.t) (options : Options) (p : Profile) : Prop :=
  opt_profile options = Some p
  \/ (opt_profile options = None /\ ProductSpec.profile (Spec.product spec) = p).

(** The product has the configuration block [cfg] for the profile [p]:
    [profiles.dev] or [profiles.prod]. *)
Definition block (spec : Spec.t) (p : Profile) (cfg : ProfileConfig.t) : Prop :=
  exists ps,
    ProductSpec.profiles (Spec.product spec) = Some ps
    /\ ((p = dev /\ ProductSpec.profiles_dev ps = Some cfg)
        \/ (p = prod /\ ProductSpec.profiles_prod ps = Some cfg)).

(** The profile that [validate] applies and its configuration block. *)
Definition effectiveProfile (spec : Spec.t) (options : Options) : Profile :=
  default (ProductSpec.profile (Spec.product spec)) (opt_profile options).

Definition effectiveConfig (spec : Spec.t) (options : Options) : option ProfileConfig.t :=
  ProductSpec.profileConfig (Spec.product spec) (effectiveProfile spec options).

(** The warnings of the strict mode. *)
Definition noDescription (path what : string) : ValidationWarning :=
  {| w_path := path;
     w_message := what +:+ " should have a description"; suggestion := None |}.

Definition orphanScreen (screenName : string) : ValidationWarning :=
  {| w_path := "ui.screens." +:+ screenName;
     w_message := "Screen is not referenced by any flow"; suggestion := None |}.

(** Some step of some flow shows the screen [x]. *)
Definition shown (spec : Spec.t) (x : string) : Prop :=
  exists flowName flow stepName step,
    In (flowName, flow) (Spec.flows spec)
    /\ In (stepName, step) (FlowSpec.steps flow)
    /\ StepSpec.screen step = x.

End Validator.

(* ===================================================================== *)
(** * utils.ts *)
(* ===================================================================== *)

Module Utils.
Import JsString JsValue.

(** [crypto.createHash('sha256').update(input).digest('hex')] *)
Definition hashString (input : string) : string := Sha256.sha256hex input.

(** The indices [0 .. n-1] as property names. *)
Definition indices (n : nat) : list string :=
  map (fun i => JsNumber.natToString (N.of_nat i)) (seq 0 n).

(** [Object.keys(v)]: the own enumerable property names; [None] stands for
    the [TypeError] on [null] and [undefined]. *)
Definition keys (v : value) : option (list string) :=
  match v with
  | VUndefined | VNull => None
  | VBool _ | VNum _ => Some []
  | VStr s => Some (indices (String.length s))
  | VArr items => Some (indices (length items))
  | VObj props => Some (map fst props)
  end.

(** [names.sort()]: the default order of [sort], by code units. *)
Fixpoint insertSorted (x : string) (sorted : list string) : list string :=
  match sorted with
  | [] => [x]
  | y :: rest => if String.leb x y then x :: sorted else y :: insertSorted x rest
  end.

Definition sort (names : list string) : list string :=
  fold_right insertSorted [] names.

(** [JSON.stringify(v, K)] with an array [K] of property names as replacer
    and no indentation: at every depth an object is written with the
    properties that [K] names, in the order of [K], those that are absent
    or [undefined] left out; the elements of an array are all written.
    [None] stands for [undefined]. *)
Fixpoint serialize (K : list string) (v : value) : option string :=
  match v with
  | VUndefined => None
  | VNull => Some "null"
  | VBool true => Some "true"
  | VBool false => Some "false"
  | VNum (JsNumber.Dec m e) => Some (JsNumber.toString (JsNumber.Dec m e))
  | VNum _ => Some "null"
  | VStr s => Some (Json.quote s)
  | VArr items =>
      Some ("[" +:+ join "," (map (fun x => default "null" (serialize K x)) items)
            +:+ "]")
  | VObj props =>
      let table :=
        (fix entries (ps : list (string * value)) : list (string * option string) :=
           match ps with
           | [] => []
           | (k, x) :: rest => (k, serialize K x) :: entries rest
           end) props in
      Some ("{" +:+
            join "," (omap (fun k => match lookup k table with
                                     | Some (Some text) =>
                                         Some (Json.quote k +:+ ":" +:+ text)
                                     | _ => None
                                     end) K)
            +:+ "}")
  end.

(** [objectHash(obj)]; [None] stands for the [TypeError] that [Object.keys]
    throws on [null] and [undefined]. *)
Definition objectHash (obj : value) : option string :=
  match keys obj with
  | None => None
  | Some names =>
      match serialize (sort names) obj with
      | Some normalized => Some (take 16 (hashString normalized))
      | None => None
      end
  end.

(** ** Vocabulary of the properties *)

(** [v] without the properties, at any depth, that [K] does not name. *)
Fixpoint prune (K : list string) (v : value) : value :=
  match v with
  | VArr items => VArr (map (prune K) items)
  | VObj props =>
      VObj ((fix entries (ps : list (string * value)) : list (string * value) :=
               match ps with
               | [] => []
               | (k, x) :: rest =>
                   if existsb (String.eqb k) K then (k, prune K x) :: entries rest
                   else entries rest
               end) props)
  | _ => v
  end.

(** The entries of an object, each written with the replacer [K]. *)
Definition entriesOf (K : list string) (ps : list (string * value))
    : list (string * option string) :=
  map (fun kv => (fst kv, serialize K (snd kv))) ps.

(** The entries of a pruned object. *)
Definition pruned (K : list string) (ps : list (string * value))
    : list (string * value) :=
  map (fun kv => (fst kv, prune K (snd kv)))
      (List.filter (fun kv => existsb (String.eqb (fst kv)) K) ps).

(** The order of [sort] on property names. *)
Definition nameLe (a b : string) : Prop := String.leb a b = true.

End Utils.

(* ===================================================================== *)
(** * commands/validate.ts and commands/generate.ts *)
(* ===================================================================== *)

Module Commands.
Import JsValue.

(** What the [catch] block of a command receives: the error of Ajv when a
    registered schema does not compile, the [TypeError] that left [link], or
    the error of a write that the file system refused. *)
Inductive Thrown : Type := SchemaError | LinkTypeError | WriteRefused.

(** What a command meets outside the spec: whether Ajv compiles the
    registered schemas ([getSchema] throws otherwise), and whether the file
    system accepts [mkdir] and [writeFile]. *)
Record Host : Type := {
  compiles : bool;
  writable : bool;
}.

(** What a run of a command leaves behind, once the spec files are loaded:
    the last message of the spinner, the lines written with [console.log]
    (without their colours), the error written with [console.error], the
    bundle written to [.fd/cache/spec.bundle.json], and the status of
    [process.exit] when it is called. *)
Record Run : Type := {
  spinner : string;
  console : list string;
  reported : option Thrown;
  written : option SpecBundle.t;
  exitCode : option Z;
}.

(** An element of [allErrors] and of [allWarnings]. *)
Definition AnyError : Type := Validator.ValidationError + Linker.LinkError.
Definition AnyWarning : Type := Validator.ValidationWarning + Linker.LinkWarning.

Definition count {A : Type} (l : list A) : string :=
  JsNumber.natToString (N.of_nat (length l)).

(** [`  - ${error.path || error.source}: ${error.message}`] *)
Definition errorLine (error : AnyError) : string :=
  match error with
  | inl e =>
      "  - " +:+ (if JsString.isEmpty (Validator.path e) then "undefined"
                  else Validator.path e)
      +:+ ": " +:+ Validator.message e
  | inr e => "  - " +:+ Linker.source e +:+ ": " +:+ Linker.message e
  end.

(** [`  - ${warning.path}: ${warning.message}`] *)
Definition warningLine (warning : AnyWarning) : string :=
  match warning with
  | inl w => "  - " +:+ Validator.w_path w +:+ ": " +:+ Validator.w_message w
  | inr w => "  - " +:+ Linker.path w +:+ ": " +:+ Linker.w_message w
  end.

(** The lines of a warning when the validation passed: the suggestion, if
    there is one, follows. *)
Definition warningLines (warning : AnyWarning) : list string :=
  warningLine warning ::
  match warning with
  | inl w => if Obj.truthy (Validator.suggestion w)
             then ["    Suggestion: " +:+ default EmptyString (Validator.suggestion w)]
             else []
  | inr _ => []
  end.

(** The [catch] block of [validateCommand]. *)
Definition validationCrashed (error : Thrown) : Run :=
  {| spinner := "Validation failed"; console := []; reported := Some error;
     written := None; exitCode := Some 1 |}.

(** [validateCommand(options)] from the loaded [spec] on; [validator] is the
    validator with its schemas loaded, [now] is the time read by [link], and
    [host] tells what throws outside the spec.  Whatever throws in the [try]
    block ends in the [catch] block. *)
Definition validateCommand (validator : Validator.SpecValidator) (now : string)
    (host : Host) (spec : Spec.t) (options : Validator.Options) : Run :=
  (* Validate against schema *)
  if negb (compiles host) then validationCrashed SchemaError else
  let validationResult :=
    Validator.validate validator spec
      {| Validator.strict := Validator.strict options;
         Validator.opt_profile := Validator.opt_profile options |} in
  (* Cross-reference linking *)
  match Linker.link now spec with
  | None => validationCrashed LinkTypeError
  | Some linkResult =>
      (* Collect all errors and warnings *)
      let allErrors : list AnyError :=
        map inl (Validator.errors validationResult)
        ++ map inr (Linker.errors linkResult) in
      let allWarnings : list AnyWarning :=
        map inl (Validator.warnings validationResult)
        ++ map inr (Linker.warnings linkResult) in
      if (0 <? length allErrors)%nat then
        {| spinner := "Validation failed";
           console :=
             [EmptyString; count allErrors +:+ " error(s) found:"]
             ++ map errorLine allErrors
             ++ [EmptyString]
             ++ (if (0 <? length allWarnings)%nat
                 then (count allWarnings +:+ " warning(s):")
                      :: map warningLine allWarnings
                 else []);
           reported := None;
           written := None;
           exitCode := Some 1 |}
      (* Write bundle to cache *)
      else if bool_decide (is_Some (Linker.bundle linkResult)) && negb (writable host)
      then validationCrashed WriteRefused
      else
        {| spinner := "Validation passed";
           console :=
             (if (0 <? length allWarnings)%nat
              then [EmptyString; count allWarnings +:+ " warning(s):"]
                   ++ flat_map warningLines allWarnings
              else [])
             ++ [EmptyString;
                 "Spec bundle cached at .fd/cache/spec.bundle.json";
                 "Spec hash: "
                 +:+ match Linker.bundle linkResult with
                     | Some bundle => SpecBundle.hash (SpecBundle._meta bundle)
                     | None => "undefined"
                     end];
           reported := None;
           written := Linker.bundle linkResult;
           exitCode := None |}
  end.

(** How [generateCommand] gets the bundle that it hands to the generator:
    the cached one when the cache file was read, else the one of [link] on
    the loaded spec.  [inr run] is the run of a command that stops there. *)
Definition bundleToGenerate (cached : option SpecBundle.t) (now : string)
    (spec : Spec.t) : SpecBundle.t + Run :=
  match cached with
  | Some bundle => inl bundle
  | None =>
      (* No cache, need to load and link *)
      match Linker.link now spec with
      | None =>
          (* the outer [catch] *)
          inr {| spinner := "Generation failed"; console := [];
                 reported := Some LinkTypeError; written := None;
                 exitCode := Some 1 |}
      | Some linkResult =>
          match Linker.bundle linkResult with
          | Some bundle =>
              if Linker.valid linkResult then inl bundle
              else inr {| spinner := "Spec validation failed";
                          console := ["Run `fd spec validate` to see errors"];
                          reported := None; written := None; exitCode := Some 1 |}
          | None =>
              inr {| spinner := "Spec validation failed";
                     console := ["Run `fd spec validate` to see errors"];
                     reported := None; written := None; exitCode := Some 1 |}
          end
      end
  end.

End Commands.

(* ===================================================================== *)
(** * audit/logger.ts *)
(* ===================================================================== *)

Module Audit.
Import JsValue.

(** An audit entry: the properties that the logger reads or writes, and
    [rest], the others ([userId], [status], [error], [metadata], ...).
    [input] and [output] are [VUndefined] when absent. *)
Record AuditEntry : Type := {
  id : option string;
  action : string;
  timestamp : string;
  input : value;
  output : value;
  rest : list (string * value);
}.

(** [onLog] is kept as the fact that a callback is configured. *)
Record AuditConfig : Type := {
  enabled : bool;
  sensitiveFields : option (list string);
  excludeActions : option (list string);
  onLog : bool;
}.

Record AuditLogger : Type := {
  config : AuditConfig;
  buffer : list AuditEntry;
}.

Definition bufferSize : nat := 100.

Definition new (config : AuditConfig) : AuditLogger :=
  {| config := config; buffer := [] |}.

(** [{ ...obj }] for an object or an array. *)
Definition spread (obj : value) : list (string * value) :=
  match obj with
  | VObj props => props
  | VArr items => imap (fun i x => (JsNumber.natToString (N.of_nat i), x)) items
  | _ => []
  end.

(** [field in result], for the plain object [result]: an own property, or
    one inherited from [Object.prototype]. *)
Definition hasProperty (field : string) (result : list (string * value)) : bool :=
  match lookup field result with
  | Some _ => true
  | None => existsb (String.eqb field) objectPrototype
  end.

(** The own property [field] of [result], replaced by [[REDACTED]]. *)
Fixpoint assign (field : string) (result : list (string * value)) : list (string * value) :=
  match result with
  | [] => []
  | (k, x) :: rest =>
      if String.eqb field k then (k, VStr "[REDACTED]") :: rest
      else (k, x) :: assign field rest
  end.

(** [result[field] = '[REDACTED]'] for a [field] that is in [result]: an own
    property is replaced in place; an inherited name becomes an own property,
    the last one, except [__proto__], whose inherited setter ignores a
    string. *)
Definition setRedacted (field : string) (result : list (string * value))
    : list (string * value) :=
  match lookup field result with
  | Some _ => assign field result
  | None =>
      if String.eqb field "__proto__" then result
      else result ++ [(field, VStr "[REDACTED]")]
  end.

Definition redactFields (obj : value) (fields : list string) : value :=
  VObj (fold_left (fun result field =>
                     if hasProperty field result then setRedacted field result
                     else result)
                  fields (spread obj)).

(** The names that [redactFields] adds to an object that lacks them. *)
Definition added (k : string) : bool :=
  existsb (String.eqb k) objectPrototype && negb (String.eqb k "__proto__").

(** [x && typeof x === 'object'] *)
Definition isObject (x : value) : bool :=
  match x with VObj _ | VArr _ => true | _ => false end.

Definition sanitize (this : AuditLogger) (entry : AuditEntry) : AuditEntry :=
  let sensitiveFields := default [] (sensitiveFields (config this)) in
  {| id := id entry; action := action entry; timestamp := timestamp entry;
     input := if isObject (input entry)
              then redactFields (input entry) sensitiveFields else input entry;
     output := if isObject (output entry)
               then redactFields (output entry) sensitiveFields else output entry;
     rest := rest entry |}.

(** [flush()]: the entries of the buffer, and the logger with its buffer
    emptied. *)
Definition flush (this : AuditLogger) : list AuditEntry * AuditLogger :=
  (buffer this, {| config := config this; buffer := [] |}).

(** [log(entry)]: the entry handed to [onLog], if any, and the logger
    afterwards.  [freshId] is the value of [generateAuditId()] and [now] that
    of [new Date().toISOString()]. *)
Definition log (this : AuditLogger) (freshId now : string) (entry : AuditEntry)
    : option AuditEntry * AuditLogger :=
  if negb (enabled (config this)) then (None, this)
  (* Skip excluded actions *)
  else if existsb (String.eqb (action entry)) (default [] (excludeActions (config this)))
  then (None, this)
  else
    (* Sanitize sensitive fields *)
    let sanitized := sanitize this entry in
    (* Add ID and ensure timestamp *)
    let sanitized :=
      {| id := Some (Obj.orElse (id sanitized) freshId);
         action := action sanitized;
         timestamp := if JsString.isEmpty (timestamp sanitized) then now
                      else timestamp sanitized;
         input := input sanitized; output := output sanitized;
         rest := rest sanitized |} in
    (* Buffer or immediate log *)
    if onLog (config this) then (Some sanitized, this)
    else
      let pushed := {| config := config this; buffer := buffer this ++ [sanitized] |} in
      if (bufferSize <=? length (buffer pushed))%nat
      then (None, snd (flush pushed))
      else (None, pushed).

End Audit.


(* ===================================================================== *)
(** * Sample data *)
(* ===================================================================== *)

Module Examples.
Import JsValue.

(** ** An engine

    The objects of the engine that a property path reaches from the data of
    a context, as Node.js 20 has them: the prototypes of objects, functions,
    arrays, strings, numbers and booleans, their constructors, and the
    functions that these carry.  An object is named by the path that leads
    to it from the global object. *)

Definition prototypes : list builtin :=
  ["Object.prototype"; "Function.prototype"; "Array.prototype";
   "String.prototype"; "Number.prototype"; "Boolean.prototype"].

Definition constructors : list builtin :=
  ["Object"; "Function"; "Array"; "String"; "Number"; "Boolean"].

(** The functions that each object has as own properties, each with its
    [length]. *)
Definition methods : list (builtin * list (string * Z)) :=
  [
   ("Object.prototype",
     [("__defineGetter__", 2); ("__defineSetter__", 2); ("hasOwnProperty", 1);
      ("__lookupGetter__", 1); ("__lookupSetter__", 1); ("isPrototypeOf", 1);
      ("propertyIsEnumerable", 1); ("toString", 0); ("valueOf", 0);
      ("toLocaleString", 0)]);
   ("Function.prototype",
     [("apply", 2); ("bind", 1); ("call", 1); ("toString", 0)]);
   ("Array.prototype",
     [("at", 1); ("concat", 1); ("copyWithin", 2); ("fill", 1); ("find", 1);
      ("findIndex", 1); ("findLast", 1); ("findLastIndex", 1); ("lastIndexOf", 1);
      ("pop", 0); ("push", 1); ("reverse", 0); ("shift", 0); ("unshift", 1);
      ("slice", 2); ("sort", 1); ("splice", 2); ("includes", 1); ("indexOf", 1);
      ("join", 1); ("keys", 0); ("entries", 0); ("values", 0); ("forEach", 1);
      ("filter", 1); ("flat", 0); ("flatMap", 1); ("map", 1); ("every", 1);
      ("some", 1); ("reduce", 1); ("reduceRight", 1); ("toLocaleString", 0);
      ("toString", 0); ("toReversed", 0); ("toSorted", 1); ("toSpliced", 2);
      ("with", 2)]);
   ("String.prototype",
     [("anchor", 1); ("at", 1); ("big", 0); ("blink", 0); ("bold", 0); ("charAt", 1);
      ("charCodeAt", 1); ("codePointAt", 1); ("concat", 1); ("endsWith", 1);
      ("fontcolor", 1); ("fontsize", 1); ("fixed", 0); ("includes", 1); ("indexOf", 1);
      ("isWellFormed", 0); ("italics", 0); ("lastIndexOf", 1); ("link", 1);
      ("localeCompare", 1); ("match", 1); ("matchAll", 1); ("normalize", 0);
      ("padEnd", 1); ("padStart", 1); ("repeat", 1); ("replace", 2); ("replaceAll", 2);
      ("search", 1); ("slice", 2); ("small", 0); ("split", 2); ("strike", 0);
      ("sub", 0); ("substr", 2); ("substring", 2); ("sup", 0); ("startsWith", 1);
      ("toString", 0); ("toWellFormed", 0); ("trim", 0); ("trimStart", 0);
      ("trimEnd", 0); ("toLocaleLowerCase", 0); ("toLocaleUpperCase", 0);
      ("toLowerCase", 0); ("toUpperCase", 0); ("valueOf", 0)]);
   ("Number.prototype",
     [("toExponential", 1); ("toFixed", 1); ("toPrecision", 1); ("toString", 1);
      ("valueOf", 0); ("toLocaleString", 0)]);
   ("Boolean.prototype",
     [("toString", 0); ("valueOf", 0)]);
   ("Object",
     [("assign", 2); ("getOwnPropertyDescriptor", 2); ("getOwnPropertyDescriptors", 1);
      ("getOwnPropertyNames", 1); ("getOwnPropertySymbols", 1); ("hasOwn", 2);
      ("is", 2); ("preventExtensions", 1); ("seal", 1); ("create", 2);
      ("defineProperties", 2); ("defineProperty", 3); ("freeze", 1);
      ("getPrototypeOf", 1); ("setPrototypeOf", 2); ("isExtensible", 1);
      ("isFrozen", 1); ("isSealed", 1); ("keys", 1); ("entries", 1);
      ("fromEntries", 1); ("values", 1)]);
   ("Array",
     [("isArray", 1); ("from", 1); ("of", 0)]);
   ("String",
     [("fromCharCode", 1); ("fromCodePoint", 1); ("raw", 1)]);
   ("Number",
     [("isFinite", 1); ("isInteger", 1); ("isNaN", 1); ("isSafeInteger", 1);
      ("parseFloat", 1); ("parseInt", 2)])].

(** An own property that holds a function known under another name. *)
Definition aliases : list (builtin * list (string * builtin)) :=
  [("String.prototype",
    [("trimLeft", "String.prototype.trimStart");
     ("trimRight", "String.prototype.trimEnd")])].

(** The other own properties of [Number]. *)
Definition numberConstants : list (string * JsNumber.number) :=
  [("MAX_VALUE", JsNumber.Dec ((2 ^ 53 - 1) * 2 ^ 971) 0);
   ("MIN_VALUE", JsNumber.Dec (5 ^ 1074) 1074);
   ("NaN", JsNumber.NaN);
   ("NEGATIVE_INFINITY", JsNumber.Inf true);
   ("POSITIVE_INFINITY", JsNumber.Inf false);
   ("MAX_SAFE_INTEGER", JsNumber.Dec (2 ^ 53 - 1) 0);
   ("MIN_SAFE_INTEGER", JsNumber.Dec (- (2 ^ 53 - 1)) 0);
   ("EPSILON", JsNumber.Dec (5 ^ 52) 52)].

Definition isOneOf (b : builtin) (l : list builtin) : bool := existsb (String.eqb b) l.

(** The [name] and the [length] of the object [b] when it is a function. *)
Definition functionInfo (b : builtin) : option (string * Z) :=
  if isOneOf b constructors then Some (b, 1)
  else if String.eqb b "Function.prototype" then Some (EmptyString, 0)
  else
    lookup b (flat_map (fun owner =>
                          map (fun m => (fst owner +:+ "." +:+ fst m, m)) (snd owner))
                       methods).

(** The prototype of an object of the engine; [None] is [null]. *)
Definition prototypeOf (b : builtin) : option builtin :=
  if String.eqb b "Object.prototype" then None
  else if isOneOf b prototypes then Some "Object.prototype"
  else Some "Function.prototype".

Definition prototypeFor (kd : kind) : builtin :=
  match kd with
  | KObject => "Object.prototype"
  | KArray => "Array.prototype"
  | KString => "String.prototype"
  | KNumber => "Number.prototype"
  | KBoolean => "Boolean.prototype"
  end.

(** The own property [k] of the object [b], [__proto__] apart. *)
Definition ownSlot (b : builtin) (k : string) : option slot :=
  match lookup k (default [] (lookup b methods)) with
  | Some _ => Some (Holds (Native (b +:+ "." +:+ k)))
  | None =>
  match lookup k (default [] (lookup b aliases)) with
  | Some f => Some (Holds (Native f))
  | None =>
      if String.eqb b "Function.prototype"
         && (String.eqb k "caller" || String.eqb k "arguments")
      then Some Throws
      else if String.eqb k "constructor" && isOneOf b prototypes
      then Some (Holds (Native (JsString.take (String.length b - 10) b)))
      else if String.eqb k "prototype" && isOneOf b constructors
      then Some (Holds (Native (b +:+ ".prototype")))
      else if String.eqb k "length"
              && (String.eqb b "Array.prototype" || String.eqb b "String.prototype")
      then Some (Holds (literal (VNum JsNumber.zero)))
      else
        match functionInfo b with
        | Some (name, arity) =>
            if String.eqb k "length" then Some (Holds (literal (VNum (JsNumber.ofZ arity))))
            else if String.eqb k "name" then Some (Holds (literal (VStr name)))
            else if String.eqb b "Number"
            then (fun n => Holds (literal (VNum n))) <$> lookup k numberConstants
            else None
        | None => None
        end
  end
  end.

(** The property [k] looked up from the object [holder] along its prototype
    chain, which has at most three objects; [proto] is the prototype of the
    value that is read, which the accessor [__proto__] of [Object.prototype]
    gives. *)
Fixpoint lookupFrom (fuel : nat) (proto : option builtin) (holder : builtin)
    (k : string) : slot :=
  match ownSlot holder k with
  | Some found => found
  | None =>
      if String.eqb holder "Object.prototype" then
        if String.eqb k "__proto__"
        then Holds (match proto with Some p => Native p | None => literal VNull end)
        else Absent
      else
        match fuel, prototypeOf holder with
        | S fuel', Some p => lookupFrom fuel' proto p k
        | _, _ => Absent
        end
  end.

Definition isKnown (b : builtin) : bool :=
  isOneOf b prototypes || bool_decide (is_Some (functionInfo b)).

Definition node : Engine := {|
  inherited := fun kd k => lookupFrom 2 (Some (prototypeFor kd)) (prototypeFor kd) k;
  member := fun b k => if isKnown b then lookupFrom 2 (prototypeOf b) b k else Absent;
  nativeText := fun b =>
    match functionInfo b with
    | Some (name, _) => Some ("function " +:+ name +:+ "() { [native code] }")
    | None =>
        if String.eqb b "Object.prototype" then Some "[object Object]"
        else if String.eqb b "Number.prototype" then Some "0"
        else if String.eqb b "Boolean.prototype" then Some "false"
        else Some EmptyString
    end;
  nativeNumber := fun b =>
    match functionInfo b with
    | Some _ => Some JsNumber.NaN
    | None =>
        if String.eqb b "Object.prototype" then Some JsNumber.NaN
        else Some JsNumber.zero
    end;
  nativeElements := fun b =>
    if String.eqb b "Array.prototype" then Some [] else None
|}.

(** ** A condition context *)

Definition draftOfU1 : Conditions.ConditionContext :=
  {| Conditions.user := [("id", VStr "u1"); ("roles", VArr [VStr "viewer"])];
     Conditions.resource := [("status", VStr "draft")];
     Conditions.request := [] |}.

(** ** A policy engine *)

Definition readAll : Policy.PolicyRule :=
  {| Policy.name := "read-all"; Policy.rule_resource := "Invoice";
     Policy.rule_action := None; Policy.effect := Policy.allow;
     Policy.conditions := None;
     Policy.filter := Some "tenant_id = :tenant_id";
     Policy.priority := Some 10 |}.

Definition postedIsLocked : Policy.Condition :=
  {| Policy.type := Policy.deny_if;
     Policy.expression := "resource.status = 'posted'";
     Policy.message := Some "Posted invoices are locked" |}.

Definition lockPosted : Policy.PolicyRule :=
  {| Policy.name := "lock-posted"; Policy.rule_resource := "Invoice";
     Policy.rule_action := None; Policy.effect := Policy.allow;
     Policy.conditions := Some [postedIsLocked];
     Policy.filter := None;
     Policy.priority := Some 5 |}.

Definition allowRest : Policy.PolicyRule :=
  {| Policy.name := "allow-rest"; Policy.rule_resource := "Invoice";
     Policy.rule_action := None; Policy.effect := Policy.allow;
     Policy.conditions := None; Policy.filter := None;
     Policy.priority := Some 1 |}.

(** [clerk] inherits [staff] and [staff] inherits [clerk]. *)
Definition clerk : Policy.RoleDefinition :=
  {| Policy.role_name := "clerk"; Policy.inherits := Some ["staff"];
     Policy.permissions := None; Policy.can := Some ["update_invoice"] |}.

Definition staff : Policy.RoleDefinition :=
  {| Policy.role_name := "staff"; Policy.inherits := Some ["clerk"];
     Policy.permissions := Some ["read_invoice"; "update_invoice"];
     Policy.can := None |}.

Definition invoicing : Policy.PolicyEngine :=
  Policy.new (Some [allowRest; lockPosted; readAll])
             (Some [("clerk", clerk); ("staff", staff)]).

Definition request (roles : list string) (resource action : string)
    (resourceData : list (string * value)) : Policy.PolicyContext :=
  {| Policy.userId := Some "u1"; Policy.tenantId := Some "t1";
     Policy.roles := roles; Policy.resource := Some resource;
     Policy.action := Some action;
     Policy.resourceData := Some resourceData; Policy.requestData := None |}.

Definition updatePosted : Policy.PolicyContext :=
  request ["clerk"] "Invoice" "update_invoice" [("status", VStr "posted")].

Definition readOrder : Policy.PolicyContext :=
  request ["clerk"] "Order" "read_invoice" [].

Definition adminDeletes : Policy.PolicyContext :=
  request ["admin"] "Invoice" "delete_everything" [("status", VStr "posted")].

(** ** Specs *)

Definition field (type : string) (reference : option Reference.t) : FieldSpec.t :=
  {| FieldSpec.reference := reference; FieldSpec.rest := [("type", VStr type)] |}.

Definition entity (fields : list (string * FieldSpec.t)) : EntitySpec.t :=
  {| EntitySpec.description := None; EntitySpec.tenant_scoped := None;
     EntitySpec.immutable := None; EntitySpec.ai_suggest_only := None;
     EntitySpec.fields := fields; EntitySpec.relations := None;
     EntitySpec.rest := [] |}.

Definition refTo (name : string) : option Reference.t :=
  Some {| Reference.entity := name; Reference.field := None; Reference.rest := [] |}.

Definition product (profile : Profile) : ProductSpec.t :=
  {| ProductSpec.name := "shop"; ProductSpec.version := "1.0.0";
     ProductSpec.tenancy :=
       {| ProductSpec.mode := single; ProductSpec.tenant_id_column := None;
          ProductSpec.tenancy_rest := [("isolation", VStr "row")] |};
     ProductSpec.profile := profile; ProductSpec.profiles := None;
     ProductSpec.rest := [] |}.

(** A spec with the given entities and actions; the other documents are
    empty objects. *)
Definition specOf (profile : Profile) (entities : list (string * EntitySpec.t))
    (actions : list (string * ActionSpec.t)) : Spec.t :=
  {| Spec.product := product profile;
     Spec.entities := entities;
     Spec.actions := actions;
     Spec.flows := [];
     Spec.policies :=
       {| PoliciesSpec.roles := None; PoliciesSpec.policies := None;
          PoliciesSpec.ai_rules := None; PoliciesSpec.rest := [] |};
     Spec.ui := {| UiSpec.screens := None; UiSpec.rest := [] |};
     Spec.metrics := [];
     Spec.jobs := {| JobsSpec.jobs := None; JobsSpec.queues := None |} |}.

Definition customer : EntitySpec.t := entity [("id", field "uuid" None)].

Definition order : EntitySpec.t :=
  entity [("id", field "uuid" None);
          ("customer_id", field "uuid" (refTo "Customer"))].

(** The same content, the two entities inserted in either order. *)
Definition shopCustomerFirst : Spec.t :=
  specOf dev [("Customer", customer); ("Order", order)] [].

Definition shopOrderFirst : Spec.t :=
  specOf dev [("Order", order); ("Customer", customer)] [].

(** [Order.customer_id] refers to an entity that does not exist. *)
Definition shopWithoutCustomer : Spec.t := specOf dev [("Order", order)] [].

(** A ledger in production: [JournalEntry] is not immutable and
    [JournalLine] has neither a debit nor a credit field. *)
Definition journalEntry : EntitySpec.t := entity [("id", field "uuid" None)].

Definition journalLine : EntitySpec.t :=
  entity [("id", field "uuid" None);
          ("entry_id", field "uuid" (refTo "JournalEntry"))].

Definition ledger : Spec.t :=
  specOf prod [("JournalEntry", journalEntry); ("JournalLine", journalLine)] [].

Definition action (type : ActionType) (idempotent : option bool) : ActionSpec.t :=
  {| ActionSpec.type := type; ActionSpec.description := None;
     ActionSpec.entity := Some "Order"; ActionSpec.idempotent := idempotent;
     ActionSpec.auth := None; ActionSpec.rate_limit := None;
     ActionSpec.triggers_job := None; ActionSpec.rest := [] |}.

(** A production spec with one command that is not idempotent. *)
Definition shopInProduction : Spec.t :=
  specOf prod [("Customer", customer); ("Order", order)]
    [("create_order", action command None);
     ("confirm_order", action command (Some true));
     ("list_orders", action query None)].

(** A validator that found no schema file. *)
Definition noSchemas : Validator.SpecValidator :=
  {| Validator.getSchema := fun _ => None |}.

Definition defaults : Validator.Options :=
  {| Validator.strict := None; Validator.opt_profile := None |}.

(** ** A spec that uses every kind of reference *)

Definition orderWithCustomer : EntitySpec.t :=
  {| EntitySpec.description := Some "An order"; EntitySpec.tenant_scoped := None;
     EntitySpec.immutable := None; EntitySpec.ai_suggest_only := None;
     EntitySpec.fields := [("id", field "uuid" None);
                           ("customer_id", field "uuid" (refTo "Customer"))];
     EntitySpec.relations :=
       Some [("customer", {| RelationSpec.target := "Customer";
                             RelationSpec.through := None;
                             RelationSpec.rest := [] |})];
     EntitySpec.rest := [] |}.

Definition createOrder : ActionSpec.t :=
  {| ActionSpec.type := command; ActionSpec.description := None;
     ActionSpec.entity := Some "Order"; ActionSpec.idempotent := Some true;
     ActionSpec.auth := Some {| ActionSpec.roles := Some ["clerk"];
                                ActionSpec.auth_rest := [] |};
     ActionSpec.rate_limit := None;
     ActionSpec.triggers_job := Some "notify"; ActionSpec.rest := [] |}.

Definition cartStep : StepSpec.t :=
  {| StepSpec.screen := "cart";
     StepSpec.transitions :=
       Some [("next", {| TransitionSpec.target := "pay";
                         TransitionSpec.action := Some "create_order";
                         TransitionSpec.rest := [] |})];
     StepSpec.on_enter := None; StepSpec.rest := [] |}.

Definition payStep : StepSpec.t :=
  {| StepSpec.screen := "pay"; StepSpec.transitions := None;
     StepSpec.on_enter := Some {| StepSpec.action := Some "create_order";
                                  StepSpec.on_enter_rest := [] |};
     StepSpec.rest := [] |}.

Definition checkout : FlowSpec.t :=
  {| FlowSpec.name := "Checkout";
     FlowSpec.steps := [("cart", cartStep); ("pay", payStep)];
     FlowSpec.initial_step := Some "cart"; FlowSpec.rest := [] |}.

Definition clerkRole : RoleSpec.t :=
  {| RoleSpec.name := "clerk"; RoleSpec.inherits := Some ["staff"];
     RoleSpec.permissions := None; RoleSpec.can := Some ["create_order"];
     RoleSpec.rest := [] |}.

Definition staffRole : RoleSpec.t :=
  {| RoleSpec.name := "staff"; RoleSpec.inherits := None;
     RoleSpec.permissions := None; RoleSpec.can := None; RoleSpec.rest := [] |}.

Definition cartScreen : ScreenSpec.t :=
  {| ScreenSpec.entity := Some "Order"; ScreenSpec.load_action := None;
     ScreenSpec.submit_action := Some "create_order"; ScreenSpec.rest := [] |}.

Definition payScreen : ScreenSpec.t :=
  {| ScreenSpec.entity := None; ScreenSpec.load_action := None;
     ScreenSpec.submit_action := None; ScreenSpec.rest := [] |}.

Definition notify : JobSpec.t :=
  {| JobSpec.name := "notify"; JobSpec.queue := Some "default";
     JobSpec.triggers := Some ["create_order"];
     JobSpec.dead_letter_queue := Some "dead"; JobSpec.rest := [] |}.

Definition portal : Spec.t :=
  {| Spec.product := product dev;
     Spec.entities := [("Customer", customer); ("Order", orderWithCustomer)];
     Spec.actions := [("create_order", createOrder)];
     Spec.flows := [("checkout", checkout)];
     Spec.policies :=
       {| PoliciesSpec.roles := Some [("clerk", clerkRole); ("staff", staffRole)];
          PoliciesSpec.policies :=
            Some [("orders", {| PolicySpec.resource := "Order";
                                PolicySpec.rest := [] |})];
          PoliciesSpec.ai_rules :=
            Some {| PoliciesSpec.ai_entities := Some [("Order", VObj [])];
                    PoliciesSpec.ai_actions := Some [("create_order", VObj [])];
                    PoliciesSpec.ai_rest := [] |};
          PoliciesSpec.rest := [] |};
     Spec.ui := {| UiSpec.screens := Some [("cart", cartScreen); ("pay", payScreen)];
                   UiSpec.rest := [] |};
     Spec.metrics := [];
     Spec.jobs := {| JobsSpec.jobs := Some [("notify", notify)];
                     JobsSpec.queues := Some [("dead", [])] |} |}.

(** The production shop with the idempotency rule switched off. *)
Definition relaxed : ProfileConfig.t :=
  {| ProfileConfig.require_idempotency := Some false;
     ProfileConfig.require_rate_limits := None;
     ProfileConfig.strict_tenancy := None; ProfileConfig.rest := [] |}.

Definition relaxedShop : Spec.t :=
  {| Spec.product :=
       {| ProductSpec.name := "shop"; ProductSpec.version := "1.0.0";
          ProductSpec.tenancy := ProductSpec.tenancy (product prod);
          ProductSpec.profile := prod;
          ProductSpec.profiles :=
            Some {| ProductSpec.profiles_dev := None;
                    ProductSpec.profiles_prod := Some relaxed |};
          ProductSpec.rest := [] |};
     Spec.entities := Spec.entities shopInProduction;
     Spec.actions := Spec.actions shopInProduction;
     Spec.flows := []; Spec.policies := Spec.policies shopInProduction;
     Spec.ui := Spec.ui shopInProduction; Spec.metrics := [];
     Spec.jobs := Spec.jobs shopInProduction |}.

(** The engine [invoicing] with its policies in the opposite order. *)
Definition invoicingReversed : Policy.PolicyEngine :=
  {| Policy.policies := rev (Policy.policies invoicing);
     Policy.role_map := Policy.role_map invoicing |}.

Definition updateDraft : Policy.PolicyContext :=
  request ["clerk"] "Invoice" "update_invoice" [("status", VStr "draft")].

(** A caller without any role. *)
Definition strangerDeletes : Policy.PolicyContext :=
  request [] "Invoice" "delete_invoice" [].

Definition twoPerMinute : RateLimit.RateLimiter :=
  RateLimit.new {| RateLimit.requestsPerMinute := JsNumber.ofZ 2;
                   RateLimit.burst := Some (JsNumber.ofZ 0);
                   RateLimit.scope := RateLimit.ScopeUser |}.

(** ** An audit logger *)

Definition signup : Audit.AuditEntry :=
  {| Audit.id := None; Audit.action := "signup";
     Audit.timestamp := "2026-01-01T00:00:00.000Z";
     Audit.input := VObj [("email", VStr "a@b.c"); ("password", VStr "hunter2");
                          ("profile", VObj [("password", VStr "hunter2")])];
     Audit.output := VUndefined; Audit.rest := [] |}.

Definition buffering : Audit.AuditConfig :=
  {| Audit.enabled := true; Audit.sensitiveFields := Some ["password"];
     Audit.excludeActions := None; Audit.onLog := false |}.

(** A logger that holds 99 entries. *)
Definition almostFull : Audit.AuditLogger :=
  {| Audit.config := buffering; Audit.buffer := repeat signup 99 |}.

(** ** Further samples *)

(** A clerk asks for an action that neither [clerk] nor [staff] grants. *)
Definition clerkDeletes : Policy.PolicyContext :=
  request ["clerk"] "Invoice" "delete_invoice" [].

(** [Order.maker] refers to [constructor], which is no entity of the spec and
    is the name of a member of [Object.prototype]. *)
Definition orderByMaker : EntitySpec.t :=
  entity [("id", field "uuid" None);
          ("maker", field "string" (refTo "constructor"))].

Definition shopWithMaker : Spec.t := specOf dev [("Order", orderByMaker)] [].

(** A production ledger whose entities have the lower-case names. *)
Definition journalLineLower : EntitySpec.t :=
  entity [("id", field "uuid" None);
          ("entry_id", field "uuid" (refTo "journal_entry"))].

Definition ledgerLower : Spec.t :=
  specOf prod [("journal_entry", journalEntry); ("journal_line", journalLineLower)] [].

(** A production ledger with both a [JournalEntry], which is immutable, and a
    [journal_entry], which is not. *)
Definition sealedEntry : EntitySpec.t :=
  {| EntitySpec.description := None; EntitySpec.tenant_scoped := None;
     EntitySpec.immutable := Some true; EntitySpec.ai_suggest_only := None;
     EntitySpec.fields := [("id", field "uuid" None)];
     EntitySpec.relations := None; EntitySpec.rest := [] |}.

Definition ledgerTwice : Spec.t :=
  specOf prod [("JournalEntry", sealedEntry); ("journal_entry", journalEntry);
               ("JournalLine", journalLine)] [].

(** A relation whose target is [toString]: no entity, and found all the
    same. *)
Definition orderToString : EntitySpec.t :=
  {| EntitySpec.description := None; EntitySpec.tenant_scoped := None;
     EntitySpec.immutable := None; EntitySpec.ai_suggest_only := None;
     EntitySpec.fields := [("id", field "uuid" None)];
     EntitySpec.relations :=
       Some [("text", {| RelationSpec.target := "toString";
                         RelationSpec.through := None;
                         RelationSpec.rest := [] |})];
     EntitySpec.rest := [] |}.

Definition shopToString : Spec.t := specOf dev [("Order", orderToString)] [].

(** A development shop with a configuration block for [dev] that leaves
    [require_idempotency] unset. *)
Definition cautious : ProfileConfig.t :=
  {| ProfileConfig.require_idempotency := None;
     ProfileConfig.require_rate_limits := Some false;
     ProfileConfig.strict_tenancy := None; ProfileConfig.rest := [] |}.

Definition cautiousShop : Spec.t :=
  {| Spec.product :=
       {| ProductSpec.name := "shop"; ProductSpec.version := "1.0.0";
          ProductSpec.tenancy := ProductSpec.tenancy (product dev);
          ProductSpec.profile := dev;
          ProductSpec.profiles :=
            Some {| ProductSpec.profiles_dev := Some cautious;
                    ProductSpec.profiles_prod := None |};
          ProductSpec.rest := [] |};
     Spec.entities := Spec.entities shopInProduction;
     Spec.actions := Spec.actions shopInProduction;
     Spec.flows := []; Spec.policies := Spec.policies shopInProduction;
     Spec.ui := Spec.ui shopInProduction; Spec.metrics := [];
     Spec.jobs := Spec.jobs shopInProduction |}.

(** A limiter whose quota, 2.5, is not a whole number. *)
Definition fivePerTwoMinutes : RateLimit.RateLimiter :=
  RateLimit.new {| RateLimit.requestsPerMinute := JsNumber.Dec 25 1;
                   RateLimit.burst := None;
                   RateLimit.scope := RateLimit.ScopeUser |}.

(** A host on which nothing throws, and one with a read-only disk. *)
Definition healthy : Commands.Host :=
  {| Commands.compiles := true; Commands.writable := true |}.

Definition readOnly : Commands.Host :=
  {| Commands.compiles := true; Commands.writable := false |}.

(** A resource with a property [toString] of its own. *)
Definition shadowed : Conditions.ConditionContext :=
  {| Conditions.user := [("id", VStr "u1")];
     Conditions.resource := [("label", VObj [("toString", VNum (JsNumber.Dec 1 0))]);
                             ("owner", VNull)];
     Conditions.request := [] |}.

End Examples.

(* ===================================================================== *)
(** * Properties *)
(* ===================================================================== *)

Set Warnings "-clear-no-such-hyp".


Section StringFacts.
Import JsString.

Lemma length_rev_app (s1 s2 : string) :
  String.length (String.rev_app s1 s2) = (String.length s1 + String.length s2)%nat.
Proof.
  revert s2. induction s1 as [| c s1 IH]; intros s2; cbn; [done |].
  rewrite IH. cbn. lia.
Qed.

Lemma length_rev (s : string) : String.length (String.rev s) = String.length s.
Proof. unfold String.rev. rewrite length_rev_app. cbn. lia. Qed.

Lemma length_drop (n : nat) (s : string) :
  String.length (drop n s) = (String.length s - n)%nat.
Proof.
  revert s. induction n as [| n IH]; intros s; cbn; [lia |].
  destruct s as [| c s]; cbn; [done | apply IH].
Qed.

Lemma length_trimStart (s : string) :
  (String.length (trimStart s) <= String.length s)%nat.
Proof.
  induction s as [| c s IH]; cbn; [done |].
  destruct (isWhiteSpace c); cbn; lia.
Qed.

Lemma length_trimEnd (s : string) :
  (String.length (trimEnd s) <= String.length s)%nat.
Proof.
  induction s as [| c s IH]; cbn; [done |].
  destruct (isWhiteSpace c && isEmpty (trimEnd s)); cbn; lia.
Qed.

Lemma length_trim (s : string) : (String.length (trim s) <= String.length s)%nat.
Proof.
  unfold trim. pose proof (length_trimEnd (trimStart s)).
  pose proof (length_trimStart s). lia.
Qed.

Lemma startsWith_length (p s : string) :
  startsWith p s = true -> (String.length p <= String.length s)%nat.
Proof.
  revert s. induction p as [| a p IH]; intros s H; cbn; [lia |].
  destruct s as [| b s]; cbn in *; [done |].
  apply andb_true_iff in H as [_ H]. apply IH in H. lia.
Qed.


Lemma split_go_nonempty sep skip cur s : split_go sep skip cur s <> [].
Proof.
  revert skip cur. induction s as [| c s IH]; intros skip cur; cbn; [done |].
  destruct skip; [| apply IH].
  destruct (startsWith sep (String c s)); [done | apply IH].
Qed.

(** The lengths of the pieces of a split, and of the separators between
    them, add up to the length of the string. *)
Lemma split_go_length sep s : forall skip cur,
  (0 < String.length sep)%nat -> (skip <= String.length s)%nat ->
  (list_sum (map String.length (split_go sep skip cur s))
   + String.length sep * (length (split_go sep skip cur s) - 1) + skip
   = String.length cur + String.length s)%nat.
Proof.
  induction s as [| c s IH]; intros skip cur Hsep Hskip.
  - cbn in *. rewrite length_rev. lia.
  - cbn [split_go]. destruct skip as [| k].
    + destruct (startsWith sep (String c s)) eqn:Hp.
      * apply startsWith_length in Hp. cbn [String.length] in *.
        specialize (IH (String.length sep - 1)%nat EmptyString Hsep ltac:(lia)).
        pose proof (split_go_nonempty sep (String.length sep - 1) EmptyString s) as Hne.
        cbn [map list_sum length String.length] in *.
        destruct (split_go sep (String.length sep - 1) EmptyString s) as [| p ps];
          [done |]. cbn [length] in *. rewrite length_rev.
        replace (S (length ps) - 1)%nat with (length ps) in IH by lia.
        replace (S (S (length ps)) - 1)%nat with (S (length ps)) by lia.
        rewrite Nat.mul_succ_r. unfold list_sum in *. cbn [fold_right map] in *. lia.
      * specialize (IH O (String c cur) Hsep ltac:(lia)).
        cbn [String.length] in *. lia.
    + specialize (IH k cur Hsep ltac:(cbn in Hskip; lia)).
      cbn [String.length] in *. lia.
Qed.

Lemma split_go_two sep s : forall cur,
  (0 < String.length sep)%nat ->
  includes sep s = true -> (2 <= length (split_go sep O cur s))%nat.
Proof.
  induction s as [| c s IH]; intros cur Hsep Hinc.
  - destruct sep; cbn in *; [lia | done].
  - cbn [split_go]. cbn [includes] in Hinc.
    destruct (startsWith sep (String c s)) eqn:Hp.
    + cbn [length].
      pose proof (split_go_nonempty sep (String.length sep - 1) EmptyString s).
      destruct (split_go sep (String.length sep - 1) EmptyString s); [done |].
      cbn. lia.
    + cbn [orb] in Hinc. by apply IH.
Qed.

Lemma list_sum_elem_of (n : nat) (l : list nat) : n ∈ l -> (n <= list_sum l)%nat.
Proof.
  induction l as [| m l IH]; intros Hin; [by apply elem_of_nil in Hin |].
  unfold list_sum in *.
  apply elem_of_cons in Hin as [-> | Hin]; cbn [fold_right]; [lia |].
  apply IH in Hin. lia.
Qed.

(** When the separator occurs, every piece is shorter than the string by at
    least the length of the separator. *)
Lemma split_shorter (sep s p : string) :
  (0 < String.length sep)%nat ->
  includes sep s = true ->
  p ∈ split sep s ->
  (String.length p + String.length sep <= String.length s)%nat.
Proof.
  intros Hsep Hinc Hp. unfold split in *.
  pose proof (split_go_length sep s O EmptyString Hsep ltac:(lia)) as Hlen.
  pose proof (split_go_two sep s EmptyString Hsep Hinc) as Htwo.
  cbn [String.length] in Hlen.
  assert (Hle : (String.length p <= list_sum (map String.length (split_go sep 0 EmptyString s)))%nat).
  { apply list_sum_elem_of. by apply list_elem_of_fmap_2. }
  assert (String.length sep * 1 <= String.length sep * (length (split_go sep 0 EmptyString s) - 1))%nat
    by (apply Nat.mul_le_mono_l; lia).
  lia.
Qed.

Lemma trimEnd_idem (s : string) : trimEnd (trimEnd s) = trimEnd s.
Proof.
  induction s as [| c s IH]; [done |]. cbn [trimEnd].
  destruct (isWhiteSpace c && isEmpty (trimEnd s)) eqn:E; [done |].
  cbn [trimEnd]. rewrite IH, E. done.
Qed.

Lemma trimStart_head (s : string) :
  trimStart s = EmptyString
  \/ exists c s', trimStart s = String c s' /\ isWhiteSpace c = false.
Proof.
  induction s as [| c s IH]; [by left |]. cbn [trimStart].
  destruct (isWhiteSpace c) eqn:E; [done |]. right. by exists c, s.
Qed.

Lemma trimStart_trimEnd (c : ascii) (s : string) :
  isWhiteSpace c = false ->
  trimStart (trimEnd (String c s)) = trimEnd (String c s).
Proof. intros Hc. cbn [trimEnd]. rewrite Hc. cbn [andb trimStart]. by rewrite Hc. Qed.

Lemma trim_idem (s : string) : trim (trim s) = trim s.
Proof.
  unfold trim. destruct (trimStart_head s) as [-> | (c & s' & -> & Hc)]; [done |].
  rewrite trimStart_trimEnd by done. apply trimEnd_idem.
Qed.

End StringFacts.

Section ConditionFacts.
Import JsString JsValue Conditions.

Context {engine : Engine}.

Lemma every_total {A : Type} (f : A -> option bool) (l : list A) :
  (forall x, x ∈ l -> is_Some (f x)) -> is_Some (every f l).
Proof.
  induction l as [| x l IH]; intros H; cbn; [done |].
  destruct (H x) as [[|] Hx]; [set_solver | rewrite Hx .. ]; [| done].
  apply IH. set_solver.
Qed.

Lemma some_total {A : Type} (f : A -> option bool) (l : list A) :
  (forall x, x ∈ l -> is_Some (f x)) -> is_Some (some f l).
Proof.
  induction l as [| x l IH]; intros H; cbn; [done |].
  destruct (H x) as [[|] Hx]; [set_solver | rewrite Hx .. ]; [done |].
  apply IH. set_solver.
Qed.

(** The recursion of [evaluateCondition] is on strictly shorter strings: any
    bound above the length of the expression is enough. *)
Lemma evaluateCondition_fuel_total (fuel : nat) : forall expression ctx,
  (String.length expression < fuel)%nat ->
  is_Some (evaluateCondition_fuel fuel expression ctx).
Proof.
  induction fuel as [| fuel IH]; intros expression ctx Hlen; [lia |].
  cbn [evaluateCondition_fuel].
  pose proof (length_trim expression) as Htrim.
  set (expr := trim expression) in *.
  destruct (includes " AND " expr) eqn:Hand.
  { apply every_total. intros part Hpart. apply IH.
    pose proof (split_shorter " AND " expr part ltac:(cbn; lia) Hand Hpart).
    pose proof (length_trim part). cbn in *. lia. }
  destruct (includes " OR " expr) eqn:Hor.
  { apply some_total. intros part Hpart. apply IH.
    pose proof (split_shorter " OR " expr part ltac:(cbn; lia) Hor Hpart).
    pose proof (length_trim part). cbn in *. lia. }
  destruct (startsWith "NOT " expr) eqn:Hnot.
  { apply fmap_is_Some. apply IH.
    apply startsWith_length in Hnot.
    pose proof (length_trim (drop 4 expr)). rewrite length_drop in *.
    cbn in *. lia. }
  destruct (includes " IS NOT NULL" expr); [done |].
  destruct (includes " IS NULL" expr); [done |].
  destruct (includes " IN " expr).
  { by destruct (map trim (split " IN " expr)) as [| ? [| ? ?]]. }
  by destruct (evalComparison operators expr ctx).
Qed.

(** More fuel does not change a result. *)
Lemma every_ext {A : Type} (f g : A -> option bool) (l : list A) b :
  (forall x b, x ∈ l -> f x = Some b -> g x = Some b) ->
  every f l = Some b -> every g l = Some b.
Proof.
  induction l as [| x l IH]; intros H; cbn; [done |].
  destruct (f x) as [[|] |] eqn:Hx; [| | done].
  - rewrite (H x true) by set_solver. apply IH. intros; apply H; set_solver.
  - rewrite (H x false) by set_solver. done.
Qed.

Lemma some_ext {A : Type} (f g : A -> option bool) (l : list A) b :
  (forall x b, x ∈ l -> f x = Some b -> g x = Some b) ->
  some f l = Some b -> some g l = Some b.
Proof.
  induction l as [| x l IH]; intros H; cbn; [done |].
  destruct (f x) as [[|] |] eqn:Hx; [| | done].
  - rewrite (H x true) by set_solver. done.
  - rewrite (H x false) by set_solver. apply IH. intros; apply H; set_solver.
Qed.

Lemma evaluateCondition_fuel_mono (fuel : nat) : forall expression ctx b,
  evaluateCondition_fuel fuel expression ctx = Some b ->
  evaluateCondition_fuel (S fuel) expression ctx = Some b.
Proof.
  induction fuel as [| fuel IH]; intros expression ctx b H; [done |].
  remember (S fuel) as n eqn:Hn.
  cbn [evaluateCondition_fuel]. rewrite Hn in H. cbn [evaluateCondition_fuel] in H.
  subst n.
  set (expr := trim expression) in *.
  destruct (includes " AND " expr).
  { revert H. apply every_ext. intros; by apply IH. }
  destruct (includes " OR " expr).
  { revert H. apply some_ext. intros; by apply IH. }
  destruct (startsWith "NOT " expr); [| done].
  destruct (evaluateCondition_fuel fuel (trim (drop 4 expr)) ctx) as [b' |] eqn:Hb;
    [| done].
  by rewrite (IH _ _ _ Hb).
Qed.

Lemma evaluateCondition_fuel_enough (expression : string) ctx (fuel : nat) :
  (String.length expression < fuel)%nat ->
  evaluateCondition_fuel fuel expression ctx
  = Some (evaluateCondition expression ctx).
Proof.
  intros Hlen. unfold evaluateCondition.
  destruct (evaluateCondition_fuel_total (S (String.length expression)) expression ctx
              ltac:(lia)) as [b Hb].
  rewrite Hb. cbn [default].
  induction Hlen as [| m Hm IHm]; [done |].
  by apply evaluateCondition_fuel_mono.
Qed.


Lemma evalComparison_absent ops expr ctx :
  forallb (fun op => negb (includes (" " +:+ symbol op +:+ " ") expr)) ops = true ->
  evalComparison ops expr ctx = None.
Proof.
  induction ops as [| op ops IH]; intros H; [done |].
  cbn [forallb] in H. apply andb_true_iff in H as [Hop Hrest].
  cbn [evalComparison]. apply negb_true_iff in Hop. rewrite Hop. by apply IH.
Qed.

(** An expression without operator is the fallback case: the truthiness of
    the value it resolves to, and false when resolving it throws. *)
Lemma evaluateCondition_plain (expression : string) ctx :
  plain (trim expression) = true ->
  evaluateCondition expression ctx
  = caught (value ← resolveValue (trim expression) ctx; Some (isTruthy value)).
Proof.
  intros Hplain. unfold evaluateCondition. cbn [evaluateCondition_fuel].
  unfold plain in Hplain.
  repeat (apply andb_true_iff in Hplain as [Hplain ?]).
  repeat match goal with
         | H : negb _ = true |- _ => apply negb_true_iff in H; rewrite H; clear H
         end.
  by rewrite evalComparison_absent.
Qed.

Lemma walk_undefined (parts : list string) :
  walk parts (literal VUndefined) = Some (literal VUndefined).
Proof. by destruct parts. Qed.

(** The loop of [resolveValue] follows the properties that are there. *)
Lemma walk_reaches (x y : operand) (prefix rest : list string) :
  reaches x prefix y -> walk (prefix ++ rest) x = walk rest y.
Proof.
  induction 1 as [| x k y prefix z Hx Hk _ IH]; [done |].
  cbn [app walk]. by rewrite Hx, Hk.
Qed.

(** And it gives [undefined] from the first property that is not there. *)
Lemma walk_lacks (x : operand) (k : string) (rest : list string) :
  lacks x k -> walk (k :: rest) x = Some (literal VUndefined).
Proof.
  intros [Hx Hk]. cbn [walk]. rewrite Hx, Hk. apply walk_undefined.
Qed.

Lemma resolveValue_path (e : string) ctx :
  isPath (trim e) = true ->
  resolveValue e ctx = walk (split "." (trim e)) (literal (ctxObject ctx)).
Proof.
  intros H. unfold resolveValue. unfold isPath in H.
  repeat (apply andb_true_iff in H as [H ?]).
  repeat match goal with
         | H : negb _ = true |- _ => apply negb_true_iff in H; rewrite H; clear H
         end.
  done.
Qed.

(** A path with a segment that is not there resolves to [undefined]. *)
Lemma resolveValue_missing (e : string) ctx (prefix rest : list string)
    (k : string) (x : operand) :
  isPath (trim e) = true ->
  split "." (trim e) = prefix ++ k :: rest ->
  reaches (literal (ctxObject ctx)) prefix x ->
  lacks x k ->
  resolveValue e ctx = Some (literal VUndefined).
Proof.
  intros Hpath Hsplit Hreach Hlacks.
  rewrite resolveValue_path, Hsplit by done.
  rewrite (walk_reaches _ x) by done. by apply walk_lacks.
Qed.

(** A path with a property whose read throws does not resolve. *)
Lemma resolveValue_raises (e : string) ctx (prefix rest : list string)
    (k : string) (x : operand) :
  isPath (trim e) = true ->
  split "." (trim e) = prefix ++ k :: rest ->
  reaches (literal (ctxObject ctx)) prefix x ->
  raises x k ->
  resolveValue e ctx = None.
Proof.
  intros Hpath Hsplit Hreach [Hx Hk].
  rewrite resolveValue_path, Hsplit by done.
  rewrite (walk_reaches _ x) by done. cbn [walk]. by rewrite Hx, Hk.
Qed.

(** C3, as the code has it.  [evaluateCondition] returns a boolean for every
    expression and every context: its recursion ends within any bound above
    the length of the expression, and an exception is caught and gives
    false: so for an expression that is only a property path (no operator of
    the language, no literal) with a property whose read throws.  The
    malformed expression [not.a.valid>>expr] evaluates to false in every
    context, on an engine whose objects inherit no property [not].  A
    property path with a missing segment, that is a name which the value
    reached so far neither has as an own property nor inherits through its
    prototype chain, resolves to [undefined] without any exception, and the
    expression that is only this path evaluates to false. *)
Theorem evaluateCondition_total_and_fail_closed :
  (forall (expression : string) (ctx : ConditionContext) (fuel : nat),
     (String.length expression < fuel)%nat ->
     evaluateCondition_fuel fuel expression ctx
     = Some (evaluateCondition expression ctx))
  /\ (forall (expression : string) (ctx : ConditionContext)
             (prefix rest : list string) (k : string) (x : operand),
        plain (trim expression) = true ->
        isPath (trim expression) = true ->
        split "." (trim expression) = prefix ++ k :: rest ->
        reaches (literal (ctxObject ctx)) prefix x ->
        raises x k ->
        evaluateCondition expression ctx = false)
  /\ (forall ctx : ConditionContext,
        inherited KObject "not" = Absent ->
        evaluateCondition "not.a.valid>>expr" ctx = false)
  /\ (forall (expression : string) (ctx : ConditionContext)
             (prefix rest : list string) (k : string) (x : operand),
        plain (trim expression) = true ->
        isPath (trim expression) = true ->
        split "." (trim expression) = prefix ++ k :: rest ->
        reaches (literal (ctxObject ctx)) prefix x ->
        lacks x k ->
        resolveValue expression ctx = Some (literal VUndefined)
        /\ evaluateCondition expression ctx = false).
Proof.
  split; [| split; [| split]].
  - intros expression ctx fuel Hlen. by apply evaluateCondition_fuel_enough.
  - intros expression ctx prefix rest k x Hplain Hpath Hsplit Hreach Hraises.
    rewrite evaluateCondition_plain by done.
    rewrite (resolveValue_raises (trim expression) ctx prefix rest k x);
      rewrite ?trim_idem; done.
  - intros ctx Hnot.
    rewrite evaluateCondition_plain by reflexivity.
    rewrite (resolveValue_missing _ ctx [] ["a"; "valid>>expr"] "not"
               (literal (ctxObject ctx))); try done.
    constructor.
  - intros expression ctx prefix rest k x Hplain Hpath Hsplit Hreach Hlacks.
    split; [by apply (resolveValue_missing expression ctx prefix rest k x) |].
    rewrite evaluateCondition_plain by done.
    rewrite (resolveValue_missing (trim expression) ctx prefix rest k x);
      rewrite ?trim_idem; done.
Qed.

End ConditionFacts.

Section RateLimitFacts.
Import RateLimit.

Lemma lessEqual_ofZ (a b : Z) :
  JsNumber.lessEqual (JsNumber.ofZ a) (JsNumber.ofZ b) = (a <=? b).
Proof.
  unfold JsNumber.lessEqual, JsNumber.lessThan, JsNumber.ofZ, JsNumber.align.
  cbn [JsNumber.isNaN negb andb]. rewrite !Z.mul_1_r.
  destruct (Z.ltb_spec b a), (Z.leb_spec a b); done || lia.
Qed.

Lemma lessThan_ofZ (a b : Z) :
  JsNumber.lessThan (JsNumber.ofZ a) (JsNumber.ofZ b) = (a <? b).
Proof.
  unfold JsNumber.lessThan, JsNumber.ofZ, JsNumber.align. by rewrite !Z.mul_1_r.
Qed.

(** The quota of a configuration that asks for whole numbers. *)
Lemma maxRequests_whole (config : RateLimitConfig) (quota : Z) :
  wholeQuota config quota -> maxRequests config = JsNumber.ofZ quota.
Proof.
  intros (rpm & extra & Hrpm & Hburst & ->).
  unfold maxRequests, burstOrZero. rewrite Hrpm.
  destruct Hburst as [[-> ->] | ->].
  - unfold JsNumber.add, JsNumber.ofZ, JsNumber.zero, JsNumber.align.
    cbn [Nat.add]. f_equal. lia.
  - unfold JsNumber.toBoolean, JsNumber.ofZ.
    destruct (Z.eqb_spec extra 0) as [-> | Hne]; cbn [negb];
      unfold JsNumber.add, JsNumber.zero, JsNumber.align; cbn [Nat.add]; f_equal; lia.
Qed.

Lemma ceilSeconds_roundedUp (x : Z) : roundedUp x (ceilSeconds x).
Proof.
  unfold roundedUp, ceilSeconds.
  pose proof (Z.div_mod (- x) 1000 ltac:(lia)).
  pose proof (Z.mod_pos_bound (- x) 1000 ltac:(lia)). lia.
Qed.

Lemma liveEntry_Some (this : RateLimiter) now key e :
  store this !! key = Some e -> now <= entry_resetAt e ->
  liveEntry this now key = Some e.
Proof.
  intros Hs Hn. unfold liveEntry. rewrite Hs.
  destruct (Z.gtb_spec now (entry_resetAt e)); [lia | done].
Qed.

Lemma liveEntry_expired (this : RateLimiter) now key e :
  store this !! key = Some e -> entry_resetAt e < now ->
  liveEntry this now key = None.
Proof.
  intros Hs Hn. unfold liveEntry. rewrite Hs.
  destruct (Z.gtb_spec now (entry_resetAt e)); [done | lia].
Qed.

Lemma liveEntry_None (this : RateLimiter) now key :
  store this !! key = None -> liveEntry this now key = None.
Proof. intros Hs. unfold liveEntry. by rewrite Hs. Qed.

(** A call that finds no live entry for the key, under a whole quota. *)
Lemma consume_fresh (this : RateLimiter) (quota : Z) now1 now2 key :
  maxRequests (config this) = JsNumber.ofZ quota ->
  liveEntry this now1 key = None -> liveEntry this now2 key = None ->
  exists result,
    consume this now1 now2 key =
      (result,
       if quota <=? 0 then this
       else {| store := <[key := {| count := 1; entry_resetAt := now2 + windowMs |}]>
                          (store this);
               config := config this |})
    /\ allowed result = negb (quota <=? 0)
    /\ resetAt result = now1 + windowMs
    /\ retryAfter result
       = if quota <=? 0 then Some (ceilSeconds (now1 + windowMs - now1)) else None.
Proof.
  intros Hq H1 H2. unfold consume, check. rewrite H1, Hq. cbn [count entry_resetAt].
  rewrite lessEqual_ofZ.
  destruct (quota <=? 0); cbn [allowed]; [by eexists |].
  rewrite H2. by eexists.
Qed.

(** A call inside the window of the entry [e], under a whole quota. *)
Lemma consume_live (this : RateLimiter) (quota : Z) now1 now2 key e :
  maxRequests (config this) = JsNumber.ofZ quota ->
  store this !! key = Some e ->
  now1 <= entry_resetAt e -> now2 <= entry_resetAt e ->
  exists result,
    consume this now1 now2 key =
      (result,
       if quota <=? count e then this
       else {| store := <[key := {| count := count e + 1;
                                    entry_resetAt := entry_resetAt e |}]> (store this);
               config := config this |})
    /\ allowed result = negb (quota <=? count e)
    /\ resetAt result = entry_resetAt e
    /\ retryAfter result
       = if quota <=? count e then Some (ceilSeconds (entry_resetAt e - now1)) else None.
Proof.
  intros Hq Hs H1 H2. unfold consume, check.
  rewrite (liveEntry_Some _ _ _ _ Hs H1), Hq, lessEqual_ofZ.
  destruct (quota <=? count e); cbn [allowed]; [by eexists |].
  rewrite (liveEntry_Some _ _ _ _ Hs H2). by eexists.
Qed.

(** A denied call reads the clock once: what [consume] would read is of no
    account. *)
Lemma consume_denied (this : RateLimiter) (quota : Z) now1 now2 key e :
  maxRequests (config this) = JsNumber.ofZ quota ->
  store this !! key = Some e ->
  now1 <= entry_resetAt e -> quota <= count e ->
  exists result,
    consume this now1 now2 key = (result, this)
    /\ allowed result = false
    /\ retryAfter result = Some (ceilSeconds (entry_resetAt e - now1)).
Proof.
  intros Hq Hs H1 Hc. unfold consume, check.
  rewrite (liveEntry_Some _ _ _ _ Hs H1), Hq, lessEqual_ofZ.
  destruct (Z.leb_spec quota (count e)); [| lia]. cbn [allowed]. by eexists.
Qed.

(** Inside one window the [i]-th further call is allowed exactly when the
    count it finds is below the quota. *)
Lemma consumeAll_live (quota : Z) (clock : list (Z * Z)) :
  forall (this : RateLimiter) key e,
  maxRequests (config this) = JsNumber.ofZ quota ->
  store this !! key = Some e ->
  within (entry_resetAt e) clock ->
  forall (i : nat) r, fst (consumeAll this key clock) !! i = Some r ->
    allowed r = bool_decide (count e + Z.of_nat i < quota).
Proof.
  induction clock as [| [now1 now2] rest IH]; intros this key e Hq Hs Hw i r Hi.
  - done.
  - inversion Hw as [| ? ? [H1 H2] Hrest]; subst. simpl in H1, H2.
    cbn [consumeAll] in Hi.
    destruct (consume_live _ _ _ _ _ _ Hq Hs H1 H2) as (result & Hc & Ha & _).
    rewrite Hc in Hi.
    destruct (Z.leb_spec quota (count e)) as [Hge | Hlt].
    + destruct (consumeAll this key rest) as [results final] eqn:Hrec.
      destruct i as [| i]; simpl in Hi.
      * inversion Hi; subst. rewrite Ha. rewrite bool_decide_eq_false_2; [done | lia].
      * assert (Hi' : fst (consumeAll this key rest) !! i = Some r) by (by rewrite Hrec).
        rewrite (IH this key e Hq Hs Hrest i r Hi').
        rewrite !bool_decide_eq_false_2; [done | lia | lia].
    + set (this' := {| store := _; config := _ |}) in Hi.
      destruct (consumeAll this' key rest) as [results final] eqn:Hrec.
      destruct i as [| i]; simpl in Hi.
      * inversion Hi; subst. rewrite Ha. rewrite bool_decide_eq_true_2; [done | lia].
      * assert (Hi' : fst (consumeAll this' key rest) !! i = Some r) by (by rewrite Hrec).
        assert (Hs' : store this' !! key
                      = Some {| count := count e + 1; entry_resetAt := entry_resetAt e |})
          by (subst this'; simpl; apply lookup_insert_eq).
        rewrite (IH this' key _ Hq Hs' Hrest i r Hi'). simpl.
        apply bool_decide_ext. lia.
Qed.

(** With a quota that is not positive nothing is ever stored. *)
Lemma consumeAll_no_quota (quota : Z) (clock : list (Z * Z)) :
  forall (this : RateLimiter) key,
  maxRequests (config this) = JsNumber.ofZ quota ->
  store this !! key = None -> quota <= 0 ->
  forall (i : nat) r, fst (consumeAll this key clock) !! i = Some r -> allowed r = false.
Proof.
  induction clock as [| [now1 now2] rest IH]; intros this key Hq Hs Hle i r Hi; [done |].
  cbn [consumeAll] in Hi.
  destruct (consume_fresh _ _ now1 now2 key Hq
              (liveEntry_None _ now1 _ Hs) (liveEntry_None _ now2 _ Hs))
    as (result & Hc & Ha & _).
  rewrite Hc in Hi.
  destruct (Z.leb_spec quota 0); [| lia].
  destruct (consumeAll this key rest) as [results final] eqn:Hrec.
  destruct i as [| i]; simpl in Hi.
  - inversion Hi; subst. by rewrite Ha.
  - apply (IH this key Hq Hs Hle i). by rewrite Hrec.
Qed.

(** The quota of one window, counted from the call that opens it. *)
Lemma quota_per_window (this : RateLimiter) (quota : Z) key (t0 t0' : Z)
    (clock : list (Z * Z)) :
  maxRequests (config this) = JsNumber.ofZ quota ->
  store this !! key = None ->
  within (t0' + windowMs) clock ->
  forall (i : nat) r,
    fst (consumeAll this key ((t0, t0') :: clock)) !! i = Some r ->
    allowed r = bool_decide (Z.of_nat i < quota).
Proof.
  intros Hq Hs Hw i r Hi.
  destruct (Z.le_gt_cases quota 0) as [Hle | Hgt].
  - rewrite (consumeAll_no_quota quota _ _ _ Hq Hs Hle i r Hi).
    rewrite bool_decide_eq_false_2; [done | lia].
  - cbn [consumeAll] in Hi.
    destruct (consume_fresh _ _ t0 t0' key Hq
                (liveEntry_None _ t0 _ Hs) (liveEntry_None _ t0' _ Hs))
      as (result & Hc & Ha & _).
    rewrite Hc in Hi.
    destruct (Z.leb_spec quota 0); [lia |].
    set (this' := {| store := _; config := _ |}) in Hi.
    destruct (consumeAll this' key clock) as [results final] eqn:Hrec.
    destruct i as [| i]; simpl in Hi.
    + inversion Hi; subst. rewrite Ha. rewrite bool_decide_eq_true_2; [done | lia].
    + assert (Hi' : fst (consumeAll this' key clock) !! i = Some r) by (by rewrite Hrec).
      assert (Hs' : store this' !! key
                    = Some {| count := 1; entry_resetAt := t0' + windowMs |})
        by (subst this'; simpl; apply lookup_insert_eq).
      rewrite (consumeAll_live quota clock this' key _ Hq Hs' Hw i r Hi'). simpl.
      apply bool_decide_ext. lia.
Qed.

(** C6, as the code has it.  A limiter with [requestsPerMinute = 2] and
    [burst = 0] that holds nothing for [key]: of three calls [consume(key)]
    made in this order, the third not later than 60000 ms after the first
    one, the first two are allowed and the third is denied.  Its
    [retryAfter] is the time left in the window, in milliseconds, divided by
    1000 and rounded up: it is at most 60, and greater than 0 unless the
    call is made at the very millisecond at which the window ends, where the
    window still counts and [retryAfter] is 0.  A call made after that is
    allowed again and opens a fresh window of 60000 ms.  In general, for a
    configuration that asks for whole numbers, the [i]-th call (from 0) of a
    window is allowed exactly when [i < requestsPerMinute + burst]. *)
Theorem rate_limiter_windowing :
  (forall (this : RateLimiter) (key : string) (t1 t1' t2 t2' t3 t3' t4 t4' : Z),
     requestsPerMinute (config this) = JsNumber.ofZ 2 ->
     burst (config this) = Some (JsNumber.ofZ 0) ->
     store this !! key = None ->
     t1 <= t1' -> t1' <= t2 -> t2 <= t2' -> t2' <= t3 ->
     t3 <= t1' + 60000 ->
     t1' + 60000 < t4 -> t4 <= t4' ->
     exists r1 r2 r3 r4 final n,
       consumeAll this key [(t1, t1'); (t2, t2'); (t3, t3'); (t4, t4')]
         = ([r1; r2; r3; r4], final)
       /\ allowed r1 = true /\ allowed r2 = true /\ allowed r3 = false
       /\ retryAfter r3 = Some n
       /\ roundedUp (t1' + 60000 - t3) n
       /\ 0 <= n <= 60
       /\ (0 < n <-> t3 < t1' + 60000)
       /\ allowed r4 = true
       /\ resetAt r4 = t4 + 60000
       /\ store final !! key = Some {| count := 1; entry_resetAt := t4' + 60000 |})
  /\
  (forall (this : RateLimiter) (key : string) (quota : Z) (t0 t0' : Z)
          (clock : list (Z * Z)) (i : nat) (r : RateLimitResult),
     wholeQuota (config this) quota ->
     store this !! key = None ->
     Forall (fun t => fst t <= t0' + 60000 /\ snd t <= t0' + 60000) clock ->
     fst (consumeAll this key ((t0, t0') :: clock)) !! i = Some r ->
     allowed r = bool_decide (Z.of_nat i < quota)).
Proof.
  split.
  - intros this key t1 t1' t2 t2' t3 t3' t4 t4' Hrpm Hburst Hs
           H1 H2 H3 H4 Hin Hout H5.
    assert (Hmax : maxRequests (config this) = JsNumber.ofZ 2).
    { apply maxRequests_whole. exists 2, 0. auto. }
    cbn [consumeAll].
    destruct (consume_fresh this 2 t1 t1' key Hmax
                (liveEntry_None _ t1 _ Hs) (liveEntry_None _ t1' _ Hs))
      as (r1 & -> & Ha1 & _).
    cbn [Z.leb Z.compare] in *.
    set (e1 := {| count := 1; entry_resetAt := t1' + windowMs |}).
    set (s1 := {| store := <[key := e1]> (store this); config := config this |}).
    assert (Hs1 : store s1 !! key = Some e1) by apply lookup_insert_eq.
    destruct (consume_live s1 2 t2 t2' key e1 Hmax Hs1) as (r2 & -> & Ha2 & _);
      [subst e1; unfold windowMs; cbn [entry_resetAt]; lia .. |].
    change (2 <=? count e1) with false in *. cbn iota in *.
    set (e2 := {| count := count e1 + 1; entry_resetAt := entry_resetAt e1 |}).
    set (s2 := {| store := <[key := e2]> (store s1); config := config s1 |}).
    assert (Hs2 : store s2 !! key = Some e2) by apply lookup_insert_eq.
    destruct (consume_denied s2 2 t3 t3' key e2 Hmax Hs2) as (r3 & -> & Ha3 & Hr3);
      [subst e2 e1; unfold windowMs; cbn [entry_resetAt]; lia
      | subst e2 e1; cbn [count]; lia |].
    destruct (consume_fresh s2 2 t4 t4' key Hmax) as (r4 & -> & Ha4 & Hreset4 & _);
      [apply (liveEntry_expired _ _ _ _ Hs2);
       subst e2 e1; unfold windowMs; cbn [entry_resetAt]; lia .. |].
    cbn [Z.leb Z.compare] in *.
    exists r1, r2, r3, r4. eexists. exists (ceilSeconds (t1' + 60000 - t3)).
    split; [reflexivity |].
    pose proof (ceilSeconds_roundedUp (t1' + 60000 - t3)) as Hup.
    split_and!; try done.
    + unfold roundedUp in Hup. lia.
    + unfold roundedUp in Hup. lia.
    + unfold roundedUp in Hup. lia.
    + cbn [store]. apply lookup_insert_eq.
  - intros this key quota t0 t0' clock i r Hq Hs Hw Hi.
    apply (quota_per_window this quota key t0 t0' clock); try done.
    by apply maxRequests_whole.
Qed.

End RateLimitFacts.

Section PolicyFacts.
Import Policy.

Context {engine : JsValue.Engine}.

Lemma includes_In (x : string) (l : list string) : includes x l = true <-> In x l.
Proof.
  unfold includes. rewrite existsb_exists. split.
  - intros [y [Hy Heq]]. apply String.eqb_eq in Heq. by subst.
  - intros Hx. exists x. split; [done | apply String.eqb_refl].
Qed.

Lemma includes_not_In (x : string) (l : list string) : includes x l = false <-> ~ In x l.
Proof. rewrite <- includes_In. by destruct (includes x l). Qed.

(** The policies of an engine are kept by decreasing priority, and sorting
    loses none. *)
Lemma insertByPriority_elem_of p l q :
  q ∈ insertByPriority p l <-> q = p \/ q ∈ l.
Proof.
  induction l as [| x l IH]; cbn; [set_solver |].
  destruct (prio x >=? prio p); set_solver.
Qed.

Lemma insertByPriority_sorted p l :
  StronglySorted byPriority l -> StronglySorted byPriority (insertByPriority p l).
Proof.
  induction l as [| x l IH]; intros Hs; cbn.
  - repeat constructor.
  - inversion Hs as [| ? ? Hl Hx]; subst.
    destruct (Z.geb_spec (prio x) (prio p)) as [Hge | Hlt].
    + constructor; [by apply IH |].
      apply List.Forall_forall. intros q Hq.
      apply list_elem_of_In, insertByPriority_elem_of in Hq as [-> | Hq].
      * unfold byPriority. lia.
      * rewrite List.Forall_forall in Hx. by apply Hx, list_elem_of_In.
    + constructor; [done |]. constructor; [unfold byPriority; lia |].
      rewrite List.Forall_forall in Hx |- *. intros q Hq.
      specialize (Hx q Hq). unfold byPriority in *. lia.
Qed.

Lemma insertByPriority_perm p l : insertByPriority p l ≡ₚ p :: l.
Proof.
  induction l as [| x l IH]; cbn; [done |].
  destruct (prio x >=? prio p); [| done].
  rewrite IH. apply Permutation_swap.
Qed.

Lemma sortByPriority_spec l :
  StronglySorted byPriority (sortByPriority l) /\ sortByPriority l ≡ₚ l.
Proof.
  unfold sortByPriority.
  assert (H : forall acc, StronglySorted byPriority acc ->
            StronglySorted byPriority (fold_left (fun s p => insertByPriority p s) l acc)
            /\ fold_left (fun s p => insertByPriority p s) l acc ≡ₚ acc ++ l).
  { induction l as [| p l IH]; intros acc Hacc; cbn.
    - by rewrite app_nil_r.
    - destruct (IH (insertByPriority p acc)) as [Hs Hp];
        [by apply insertByPriority_sorted |].
      split; [done |]. rewrite Hp, insertByPriority_perm.
      apply Permutation_middle. }
  destruct (H []) as [Hs Hp]; [constructor | by split].
Qed.
Lemma new_policies_sorted ps rs :
  StronglySorted byPriority (policies (new (Some ps) rs))
  /\ policies (new (Some ps) rs) ≡ₚ ps.
Proof. apply sortByPriority_spec. Qed.

Lemma addPolicy_sorted this p :
  StronglySorted byPriority (policies (addPolicy this p))
  /\ policies (addPolicy this p) ≡ₚ p :: policies this.
Proof.
  destruct (sortByPriority_spec (policies this ++ [p])) as [Hs Hp].
  split; [done |]. cbn [addPolicy policies]. rewrite Hp.
  symmetry. apply Permutation_cons_append.
Qed.

(** C10.  When the roles of the context contain [admin] or [super_admin],
    [evaluate] returns [{ allowed: true, reason: 'Admin role' }] with no
    [filters] property, whatever the engine holds, and it has evaluated no
    condition: the filters of the policies are not applied. *)
Theorem admin_bypass (this : PolicyEngine) (ctx : PolicyContext) :
  In "admin" (roles ctx) \/ In "super_admin" (roles ctx) ->
  evaluate_log this ctx
  = ({| allowed := true; reason := Some "Admin role"; filters := None |}, []).
Proof.
  intros H. unfold evaluate_log.
  assert (Hb : includes "admin" (roles ctx) || includes "super_admin" (roles ctx) = true).
  { apply orb_true_iff. destruct H as [H | H]; [left | right]; by apply includes_In. }
  by rewrite Hb.
Qed.

(** Past the two gates that come before the policies. *)
Lemma evaluate_log_pastGates (this : PolicyEngine) (ctx : PolicyContext) :
  ~ In "admin" (roles ctx) ->
  ~ In "super_admin" (roles ctx) ->
  (forall a, action ctx = Some a ->
     In a (getEffectivePermissions this (roles ctx))
     \/ In "*" (getEffectivePermissions this (roles ctx))) ->
  evaluate_log this ctx =
    let applicablePolicies := List.filter (applicable ctx) (policies this) in
    let s := policyLoop ctx applicablePolicies initialVars in
    if explicitDeny s then
      ({| allowed := false; reason := Some (denyReason s); filters := None |},
       evaluated s)
    else if explicitAllow s || (length applicablePolicies =? 0)%nat then
      ({| allowed := true; reason := None; filters := Some (v_filters s) |},
       evaluated s)
    else
      ({| allowed := false; reason := Some "No matching allow policy";
          filters := None |}, evaluated s).
Proof.
  intros Ha Hs Hperm. unfold evaluate_log.
  apply includes_not_In in Ha, Hs. rewrite Ha, Hs. cbn [orb].
  destruct (truthy (action ctx)) eqn:Ht; [| done].
  destruct (action ctx) as [a |] eqn:Hact; [| done].
  unfold checkRolePermissions. cbn [default]. unfold id. cbv zeta.
  destruct (Hperm a eq_refl) as [H | H]; apply includes_In in H; rewrite H;
    by rewrite ?orb_true_r.
Qed.

(** C2.  A caller that is neither [admin] nor [super_admin], whose action,
    when there is one, is among its effective permissions (or these contain
    the wildcard): if no registered policy is applicable to the context,
    [evaluate] allows, with the (empty) accumulated list of filters. *)
Theorem default_permit_when_unconfigured (this : PolicyEngine) (ctx : PolicyContext) :
  ~ In "admin" (roles ctx) ->
  ~ In "super_admin" (roles ctx) ->
  (forall a, action ctx = Some a ->
     In a (getEffectivePermissions this (roles ctx))
     \/ In "*" (getEffectivePermissions this (roles ctx))) ->
  (forall p, In p (policies this) -> applicable ctx p = false) ->
  evaluate this ctx = {| allowed := true; reason := None; filters := Some [] |}.
Proof.
  intros Ha Hs Hperm Hnone. unfold evaluate.
  rewrite evaluate_log_pastGates by done.
  assert (Hf : List.filter (applicable ctx) (policies this) = []).
  { induction (policies this) as [| p ps IH]; [done |].
    cbn [List.filter]. rewrite (Hnone p (or_introl eq_refl)).
    apply IH. intros q Hq. apply Hnone. by right. }
  rewrite Hf. reflexivity.
Qed.


Lemma stepCondition_spec ctx p c s :
  clean s ->
  clean (stepCondition ctx p c s) \/ stoppedOn (stepCondition ctx p c s) p c.
Proof.
  intros Hc. unfold stepCondition.
  destruct (type c) eqn:Ht;
    destruct (Conditions.evaluateCondition (expression c) (conditionCtx ctx)) eqn:Hr;
    try (left; unfold clean; cbn [evaluated]; apply Forall_app; split;
         [exact Hc | apply Forall_singleton; unfold denyHit; cbn; rewrite Ht;
                     intros [? ?]; congruence]).
  right. unfold stoppedOn. cbn [explicitDeny denyReason evaluated].
  split; [done |]. split; [done |]. split; [done |].
  exists (evaluated s). split; [reflexivity | exact Hc].
Qed.

Lemma conditionLoop_spec ctx p cs : forall s,
  clean s ->
  clean (conditionLoop ctx p cs s)
  \/ exists c, In c cs /\ stoppedOn (conditionLoop ctx p cs s) p c.
Proof.
  induction cs as [| c cs IH]; intros s Hc; [by left |].
  cbn [conditionLoop].
  destruct (stepCondition_spec ctx p c s Hc) as [Hc' | Hstop].
  - destruct (explicitDeny (stepCondition ctx p c s)); [by left |].
    destruct (IH _ Hc') as [? | [c' [Hin Hs]]]; [by left |].
    right. exists c'. split; [by right | done].
  - pose proof Hstop as (_ & Hd & _). rewrite Hd.
    right. exists c. split; [by left | exact Hstop].
Qed.

Lemma applyEffect_evaluated p s : evaluated (applyEffect p s) = evaluated s.
Proof. unfold applyEffect. by destruct (conditionsPassed s), (effect p). Qed.

Lemma policyLoop_spec ctx ps : forall s,
  clean s ->
  clean (policyLoop ctx ps s)
  \/ exists p c, In p ps /\ In c (default [] (conditions p))
                 /\ stoppedOn (policyLoop ctx ps s) p c.
Proof.
  induction ps as [| p ps IH]; intros s Hc; [by left |].
  cbn [policyLoop].
  set (s0 := {| v_filters := _; conditionsPassed := true |}).
  assert (Hc0 : clean s0) by exact Hc.
  destruct (conditionLoop_spec ctx p (default [] (conditions p)) s0 Hc0)
    as [Hc1 | [c [Hin Hstop]]].
  - destruct (explicitDeny (conditionLoop ctx p _ s0)); [by left |].
    destruct (IH (applyEffect p (conditionLoop ctx p (default [] (conditions p)) s0)))
      as [? | (p' & c' & Hp' & Hc' & Hs)].
    + unfold clean. by rewrite applyEffect_evaluated.
    + by left.
    + right. exists p', c'. split; [by right | done].
  - pose proof Hstop as (_ & Hd & _). rewrite Hd.
    right. exists p, c. split; [by left | done].
Qed.

(** C4.  If, during the evaluation, a [deny_if] condition [c] of a policy [p]
    evaluates to true, then [evaluate] denies and the reason is the message
    of [c] or, without one, the name of [p]: whatever the other policies
    are and whatever was allowed before.  (A condition is evaluated only
    past the admin bypass and the RBAC gate.)  [p] is then one of the
    applicable policies, [c] one of its conditions, and it is the last
    condition evaluated. *)
Theorem deny_precedence (this : PolicyEngine) (ctx : PolicyContext)
    (p : PolicyRule) (c : Condition) :
  In (p, c, true) (snd (evaluate_log this ctx)) ->
  type c = deny_if ->
  evaluate this ctx
  = {| allowed := false; reason := Some (orElse (message c) (name p));
       filters := None |}
  /\ In p (List.filter (applicable ctx) (policies this))
  /\ In c (default [] (conditions p))
  /\ last (snd (evaluate_log this ctx)) = Some (p, c, true).
Proof.
  intros Hin Ht. unfold evaluate. unfold evaluate_log in *.
  destruct (includes "admin" (roles ctx) || includes "super_admin" (roles ctx));
    [by destruct Hin |].
  destruct (truthy (action ctx) && _); [by destruct Hin |].
  set (ps := List.filter (applicable ctx) (policies this)) in *.
  set (s := policyLoop ctx ps initialVars) in *.
  match goal with
  | |- context [last (snd ?e)] =>
      assert (Hsnd : snd e = evaluated s)
        by (destruct (explicitDeny s); [done |]; by destruct (_ || _))
  end.
  rewrite Hsnd in *. clear Hsnd. rename Hin into Hlog. subst s.
  destruct (policyLoop_spec ctx ps initialVars) as [Hclean | (p' & c' & Hp' & Hc' & Hstop)].
  { by apply Forall_nil. }
  { exfalso. unfold clean in Hclean. rewrite List.Forall_forall in Hclean.
    apply (Hclean _ Hlog). by split. }
  destruct Hstop as (Ht' & Hd & Hr & before & Hev & Hbefore).
  assert (Heq : (p, c) = (p', c')).
  { rewrite Hev in Hlog. apply in_app_or in Hlog as [Hb | Hl].
    - exfalso. rewrite List.Forall_forall in Hbefore. apply (Hbefore _ Hb). by split.
    - destruct Hl as [Hl | []]. by inversion Hl. }
  inversion Heq; subst p' c'.
  rewrite Hd. cbn [fst]. rewrite Hr, Hev.
  repeat split; try done. apply last_snoc.
Qed.

End PolicyFacts.

Section TraversalFacts.
Import Policy.
Variable this : PolicyEngine.

Lemma includes_elem_of (x : string) (l : list string) : includes x l = true <-> x ∈ l.
Proof.
  rewrite list_elem_of_In. unfold includes. rewrite existsb_exists. split.
  - intros [y [Hy Heq]]. apply String.eqb_eq in Heq. by subst.
  - intros Hx. exists x. split; [done | apply String.eqb_refl].
Qed.

Lemma includes_not_elem_of (x : string) (l : list string) : includes x l = false <-> x ∉ l.
Proof. rewrite <- includes_elem_of. by destruct (includes x l). Qed.

Lemma setAdd_elem_of x y set : y ∈ setAdd x set <-> y ∈ set \/ y = x.
Proof.
  unfold setAdd. destruct (includes x set) eqn:Hx.
  - apply includes_elem_of in Hx. set_solver.
  - set_solver.
Qed.

Lemma setAdd_NoDup x set : NoDup set -> NoDup (setAdd x set).
Proof.
  intros Hnd. unfold setAdd. destruct (includes x set) eqn:Hx; [done |].
  apply includes_not_elem_of in Hx.
  apply NoDup_app. split; [done |]. split; [| apply NoDup_singleton].
  intros y Hy Hy'. apply list_elem_of_singleton in Hy'. by subst.
Qed.

Lemma setAddAll_elem_of xs : forall set y, y ∈ setAddAll xs set <-> y ∈ set \/ y ∈ xs.
Proof.
  induction xs as [| x xs IH]; intros set y; cbn.
  - set_solver.
  - unfold setAddAll in IH. rewrite IH, setAdd_elem_of. set_solver.
Qed.

Lemma setAddAll_NoDup xs : forall set, NoDup set -> NoDup (setAddAll xs set).
Proof.
  induction xs as [| x xs IH]; intros set Hnd; cbn; [done |].
  apply IH. by apply setAdd_NoDup.
Qed.

Lemma setAddAll_app xs ys set :
  setAddAll ys (setAddAll xs set) = setAddAll (xs ++ ys) set.
Proof. unfold setAddAll. by rewrite fold_left_app. Qed.

(** [processRole] in terms of [parents] and [grants]. *)
Lemma processRole_unfold fuel r st :
  processRole this (S fuel) r st =
    if includes r (visited st) then Some st
    else forEach (processRole this fuel) (parents this r)
           {| visited := visited st ++ [r];
              collected := setAddAll (grants this r) (collected st) |}.
Proof.
  cbn [processRole]. destruct (includes r (visited st)); [done |].
  unfold parents, grants. cbn [visited collected].
  destruct (role_map this !! r) as [role |]; [| done].
  by rewrite setAddAll_app.
Qed.

Lemma unvisited_le st : (unvisited this st <= size (role_map this))%nat.
Proof.
  unfold unvisited. rewrite <- size_dom.
  apply subseteq_size. set_solver.
Qed.

Lemma unvisited_mono st st' new :
  visited st' = visited st ++ new -> (unvisited this st' <= unvisited this st)%nat.
Proof.
  intros Hv. unfold unvisited. apply subseteq_size. rewrite Hv. set_solver.
Qed.

Lemma unvisited_visit st r :
  r ∉ visited st -> is_Some (role_map this !! r) ->
  (unvisited this {| visited := visited st ++ [r]; collected := collected st |}
   < unvisited this st)%nat.
Proof.
  intros Hr Hs. unfold unvisited. cbn [visited].
  apply subset_size. apply elem_of_dom in Hs.
  rewrite list_to_set_app_L.
  apply (proj2 (elem_of_subset _ _)). split; [set_solver |].
  intros Hsub. assert (Hin : r ∈ dom (role_map this) ∖ list_to_set (visited st))
    by set_solver.
  apply Hsub in Hin. set_solver.
Qed.

Lemma reach_parents r roots x :
  reach this roots r -> reach this (parents this r) x -> reach this roots x.
Proof.
  intros Hr Hx. induction Hx as [p Hp | y p Hy IH Hp].
  - by eapply reach_step.
  - by eapply reach_step.
Qed.

Lemma reach_weaken roots roots' x :
  (forall r, r ∈ roots -> r ∈ roots') -> reach this roots x -> reach this roots' x.
Proof.
  intros Hsub Hx. induction Hx as [r Hr | y p Hy IH Hp].
  - apply reach_root. by apply Hsub.
  - by eapply reach_step.
Qed.

Lemma traversed_refl roots st :
  (forall r, r ∈ roots -> r ∈ visited st) -> traversed this roots st st.
Proof.
  intros Hr. exists []. rewrite app_nil_r.
  repeat split; try done; set_solver.
Qed.

(** Two traversals in a row. *)
Lemma traversed_seq r rest st st1 st2 :
  traversed this [r] st st1 -> traversed this rest st1 st2 ->
  traversed this (r :: rest) st st2.
Proof.
  intros (n1 & Hv1 & Hr1 & Hc1 & Hs1 & Hg1 & Hn1 & Hm1)
         (n2 & Hv2 & Hr2 & Hc2 & Hs2 & Hg2 & Hn2 & Hm2).
  exists (n1 ++ n2).
  assert (Hsub : forall x, x ∈ visited st1 -> x ∈ visited st2)
    by (intros x; rewrite Hv2; set_solver).
  split; [by rewrite Hv2, Hv1, app_assoc |].
  split; [intros x Hx; apply elem_of_cons in Hx as [-> | Hx];
          [apply Hsub, Hr1; set_solver | by apply Hr2] |].
  split; [intros x Hx p Hp; apply elem_of_app in Hx as [Hx | Hx];
          [apply Hsub; by eapply Hc1 | by eapply Hc2] |].
  split; [intros x Hx; apply elem_of_app in Hx as [Hx | Hx];
          [eapply reach_weaken; [| by apply Hs1]; set_solver
          | eapply reach_weaken; [| by apply Hs2]; set_solver] |].
  split; [| split; [tauto | tauto]].
  intros g. rewrite Hg2, Hg1. split.
  - intros [[? | (x & Hx & Hgx)] | (x & Hx & Hgx)]; [by left | right ..];
      exists x; set_solver.
  - intros [? | (x & Hx & Hgx)]; [by left; left |].
    apply elem_of_app in Hx as [Hx | Hx]; [left; right | right]; by exists x.
Qed.

(** The loop over a list of roles, given what [processRole] does with the
    same fuel. *)
Lemma forEach_traversed fuel :
  (forall r st, (unvisited this st < fuel)%nat ->
     exists st', processRole this fuel r st = Some st' /\ traversed this [r] st st') ->
  forall roots st, (unvisited this st < fuel)%nat ->
    exists st', forEach (processRole this fuel) roots st = Some st'
                /\ traversed this roots st st'.
Proof.
  intros Hbody roots. induction roots as [| r rest IH]; intros st Hfuel.
  - exists st. split; [done |]. apply traversed_refl. set_solver.
  - destruct (Hbody r st Hfuel) as (st1 & Hrun1 & Ht1).
    assert (Hfuel1 : (unvisited this st1 < fuel)%nat).
    { destruct Ht1 as (n1 & Hv1 & _). pose proof (unvisited_mono st st1 n1 Hv1). lia. }
    destruct (IH st1 Hfuel1) as (st2 & Hrun2 & Ht2).
    exists st2. split; [cbn [forEach]; by rewrite Hrun1 |].
    by eapply traversed_seq.
Qed.

Lemma processRole_traversed fuel : forall r st,
  (unvisited this st < fuel)%nat ->
  exists st', processRole this fuel r st = Some st' /\ traversed this [r] st st'.
Proof.
  induction fuel as [| fuel IH]; intros r st Hfuel; [lia |].
  rewrite processRole_unfold.
  destruct (includes r (visited st)) eqn:Hvis.
  - apply includes_elem_of in Hvis. exists st. split; [done |].
    apply traversed_refl. set_solver.
  - apply includes_not_elem_of in Hvis.
    set (st1 := {| visited := visited st ++ [r];
                   collected := setAddAll (grants this r) (collected st) |}).
    assert (Hrun : exists st', forEach (processRole this fuel) (parents this r) st1 = Some st'
                               /\ traversed this (parents this r) st1 st').
    { destruct (role_map this !! r) as [role |] eqn:Hrole.
      - apply (forEach_traversed fuel IH).
        pose proof (unvisited_visit st r Hvis (mk_is_Some _ _ Hrole)) as Hlt.
        subst st1. unfold unvisited in *. cbn [visited] in *. lia.
      - assert (Hp : parents this r = []) by (unfold parents; by rewrite Hrole).
        rewrite Hp. exists st1. split; [done |].
        apply traversed_refl. set_solver. }
    destruct Hrun as (st' & Hrun & (new & Hv & Hr & Hc & Hs & Hg & Hn & Hm)).
    exists st'. split; [done |].
    exists ([r] ++ new). cbn [visited collected] in *.
    assert (Hrin : r ∈ visited st') by (rewrite Hv; set_solver).
    split; [by rewrite Hv, app_assoc |].
    split; [intros x Hx; apply list_elem_of_singleton in Hx; by subst |].
    split; [intros x Hx p Hp; apply elem_of_app in Hx as [Hx | Hx];
            [apply list_elem_of_singleton in Hx; subst; by apply Hr | by eapply Hc] |].
    split; [intros x Hx; apply elem_of_app in Hx as [Hx | Hx];
            [apply list_elem_of_singleton in Hx; subst; apply reach_root; set_solver
            | apply (reach_parents r); [apply reach_root; set_solver | by apply Hs]] |].
    split; [| split].
    + intros g. rewrite Hg. subst st1. cbn [collected]. rewrite setAddAll_elem_of. split.
      * intros [[? | Hgr] | (x & Hx & Hgx)]; [by left | right; exists r; set_solver |].
        right. exists x. set_solver.
      * intros [? | (x & Hx & Hgx)]; [by left; left |].
        apply elem_of_app in Hx as [Hx | Hx].
        -- apply list_elem_of_singleton in Hx; subst. left. by right.
        -- right. by exists x.
    + intros Hnd. apply Hn. apply NoDup_app. split; [done |].
      split; [| apply NoDup_singleton].
      intros y Hy Hy'. apply list_elem_of_singleton in Hy'. by subst.
    + intros Hnd. apply Hm. by apply setAddAll_NoDup.
Qed.

(** The traversal of [getEffectivePermissions] never reaches its bound. *)
Lemma traverse_traversed (roleNames : list string) :
  exists st, traverse this (S (size (role_map this))) roleNames = Some st
             /\ traversed this roleNames {| visited := []; collected := [] |} st.
Proof.
  unfold traverse. apply forEach_traversed.
  - intros r st _. apply processRole_traversed.
    pose proof (unvisited_le st). lia.
  - pose proof (unvisited_le {| visited := []; collected := [] |}). lia.
Qed.


Lemma forEach_mono {A S : Type} (f g : A -> S -> option S) (l : list A) :
  (forall x s s', f x s = Some s' -> g x s = Some s') ->
  forall s s', forEach f l s = Some s' -> forEach g l s = Some s'.
Proof.
  intros Hfg. induction l as [| x l IH]; intros s s' H; cbn in *; [done |].
  destruct (f x s) as [s1 |] eqn:Hx; [| done].
  rewrite (Hfg _ _ _ Hx). by apply IH.
Qed.

(** More fuel does not change a result. *)
Lemma processRole_mono fuel : forall r st st',
  processRole this fuel r st = Some st' ->
  processRole this (S fuel) r st = Some st'.
Proof.
  induction fuel as [| fuel IH]; intros r st st' H; [done |].
  rewrite processRole_unfold in *.
  destruct (includes r (visited st)); [done |].
  revert H. apply forEach_mono. exact IH.
Qed.

Lemma traverse_mono roleNames st fuel fuel' :
  (fuel <= fuel')%nat ->
  traverse this fuel roleNames = Some st -> traverse this fuel' roleNames = Some st.
Proof.
  intros Hle H. induction Hle as [| m Hm IHm]; [done |].
  unfold traverse in *. revert IHm. apply forEach_mono. apply processRole_mono.
Qed.

(** C5.  [getEffectivePermissions] terminates for every role map and every
    list of roles, cyclic inheritance included: the traversal completes
    within any bound above the size of the role map (the depth of
    [processRole] never exceeds it).  The roles it processed, in order, are
    without repetition and are exactly the roles reachable from the requested
    ones along [inherits]; the result is without repetition and holds exactly
    the [permissions] and [can] entries of the reachable roles. *)
Theorem effective_permissions_terminate (roleNames : list string) (fuel : nat) :
  (size (role_map this) < fuel)%nat ->
  exists st,
    traverse this fuel roleNames = Some st
    /\ getEffectivePermissions this roleNames = collected st
    /\ NoDup (visited st)
    /\ (forall r, r ∈ visited st <-> reach this roleNames r)
    /\ NoDup (getEffectivePermissions this roleNames)
    /\ (forall g, g ∈ getEffectivePermissions this roleNames
                  <-> exists r, reach this roleNames r /\ g ∈ grants this r).
Proof.
  intros Hfuel.
  destruct (traverse_traversed roleNames)
    as (st & Hrun & (new & Hv & Hr & Hc & Hs & Hg & Hn & Hm)).
  cbn [visited collected app] in *. subst new.
  assert (Hget : getEffectivePermissions this roleNames = collected st)
    by (unfold getEffectivePermissions; by rewrite Hrun).
  assert (Hreach : forall r, r ∈ visited st <-> reach this roleNames r).
  { intros r. split; [apply Hs |].
    intros Hx. induction Hx as [x Hx | x p Hx IH Hp]; [by apply Hr | by eapply Hc]. }
  exists st. rewrite Hget.
  split; [apply (traverse_mono roleNames st (S (size (role_map this)))); [lia | done] |].
  split; [done |].
  split; [apply Hn, NoDup_nil_2 |].
  split; [done |].
  split; [apply Hm, NoDup_nil_2 |].
  intros g. rewrite Hg. split.
  - intros [Hnil | (x & Hx & Hgx)]; [by apply elem_of_nil in Hnil |].
    exists x. split; [by apply Hreach | done].
  - intros (x & Hx & Hgx). right. exists x. split; [by apply Hreach | done].
Qed.

End TraversalFacts.

Section LinkerFacts.
Import JsValue Linker.

Lemma forEach_flat_map {A E : Type} (l : list A) (body : A -> list E) :
  forEach l body = flat_map body l.
Proof.
  unfold forEach.
  assert (H : forall acc, fold_left (fun pushed x => pushed ++ body x) l acc
                          = acc ++ flat_map body l).
  { induction l as [| x l IH]; intros acc; cbn; [by rewrite app_nil_r |].
    by rewrite IH, app_assoc. }
  apply H.
Qed.

Lemma In_forEach {A E : Type} (l : list A) (body : A -> list E) (x : A) (e : E) :
  In x l -> In e (body x) -> In e (forEach l body).
Proof. intros Hx He. rewrite forEach_flat_map. apply in_flat_map. eauto. Qed.

(** A loop that may throw runs to its end exactly when none of its
    iterations throws; it has then pushed what they pushed, in order. *)
Lemma forEachTry_total {A E : Type} (l : list A) (body : A -> option (list E)) :
  (forall x, In x l -> is_Some (body x)) -> is_Some (forEachTry l body).
Proof.
  induction l as [| x l IH]; intros H; [by eexists |]. cbn [forEachTry].
  destruct (H x ltac:(by left)) as [pushed ->].
  destruct IH as [later ->]; [intros; apply H; by right |]. by eexists.
Qed.

Lemma forEachTry_Some {A E : Type} (l : list A) (body : A -> option (list E))
    (r : list E) :
  forEachTry l body = Some r ->
  (forall x, In x l -> is_Some (body x))
  /\ r = flat_map (fun x => default [] (body x)) l.
Proof.
  revert r. induction l as [| x l IH]; intros r H; cbn [forEachTry] in H.
  - apply (inj Some) in H as <-. by split.
  - destruct (body x) as [pushed |] eqn:Hx; [| done]. cbn in H.
    destruct (forEachTry l body) as [later |] eqn:Hl; [| done]. cbn in H.
    apply (inj Some) in H as <-.
    destruct (IH later eq_refl) as [Hall ->]. split.
    + intros y [<- | Hy]; [by rewrite Hx | by apply Hall].
    + cbn [flat_map]. by rewrite Hx.
Qed.

Lemma In_forEachTry {A E : Type} (l : list A) (body : A -> option (list E))
    (r pushed : list E) (x : A) (e : E) :
  forEachTry l body = Some r -> In x l -> body x = Some pushed -> In e pushed ->
  In e r.
Proof.
  intros H Hx Hb He. apply forEachTry_Some in H as [_ ->].
  apply in_flat_map. exists x. split; [done |]. by rewrite Hb.
Qed.

Lemma append_cons (c : ascii) (a b : string) : String c a +:+ b = String c (a +:+ b).
Proof. reflexivity. Qed.

Lemma startsWith_append (p s : string) : JsString.startsWith p (p +:+ s) = true.
Proof.
  induction p as [| c p IH]; [done |].
  rewrite append_cons. cbn [JsString.startsWith].
  by rewrite Ascii.eqb_refl, IH.
Qed.

Lemma append_assoc (a b c : string) : (a +:+ b) +:+ c = a +:+ (b +:+ c).
Proof.
  induction a as [| x a IH]; [done |].
  by rewrite !append_cons, IH.
Qed.

Lemma isInherited_In (k : string) : isInherited k = true <-> In k objectPrototype.
Proof.
  unfold isInherited. rewrite existsb_exists. split.
  - intros (x & Hx & Heq). apply String.eqb_eq in Heq. by subst.
  - intros H. exists k. split; [done | apply String.eqb_refl].
Qed.

(** What [link] returns, when it returns. *)
Lemma link_Some (now : string) (spec : Spec.t) (r : LinkResult) :
  link now spec = Some r ->
  exists entityErrors,
    validateEntityReferences spec = Some entityErrors
    /\ errors r
       = (entityErrors ++ validateActionReferences spec
          ++ validateFlowReferences spec ++ validatePolicyReferences spec
          ++ validateUiReferences spec ++ validateJobReferences spec)
         ++ checkInvariants spec
    /\ warnings r = checkUnused spec
    /\ valid r = bool_decide (errors r = [])
    /\ bundle r
       = if valid r
         then Some {| SpecBundle.spec := spec;
                      SpecBundle._meta :=
                        {| SpecBundle.version := ProductSpec.version (Spec.product spec);
                           SpecBundle.generated_at := now;
                           SpecBundle.hash := computeHash spec |} |}
         else None.
Proof.
  unfold link. destruct (validateEntityReferences spec) as [entityErrors |]; [| done].
  cbn [mbind option_bind]. set (errs := _ ++ checkInvariants spec).
  intros H. exists entityErrors. split; [done |].
  destruct errs as [| e errs'] eqn:E; cbn in H; apply (inj Some) in H as <-;
    cbn [errors warnings valid bundle]; by rewrite ?E.
Qed.

(** [link] returns a bundle exactly when it found no error. *)
Lemma link_errors_block (now : string) (spec : Spec.t) (r : LinkResult) :
  link now spec = Some r ->
  errors r <> [] -> valid r = false /\ bundle r = None.
Proof.
  intros H Hne. apply link_Some in H as (_ & _ & _ & _ & Hv & Hb).
  rewrite Hb, Hv. by rewrite bool_decide_eq_false_2.
Qed.

(** [validateEntityReferences] runs to its end when no field refers to a
    member of [Object.prototype] that is not an entity. *)
Lemma validateEntityReferences_returns (spec : Spec.t) :
  linkable spec -> is_Some (validateEntityReferences spec).
Proof.
  intros Hok. unfold validateEntityReferences.
  apply forEachTry_total. intros [E entity] HE.
  cbn beta iota.
  match goal with
  | |- is_Some (mbind _ ?loop) => assert (Hfields : is_Some loop)
  end.
  { apply forEachTry_total. intros [F field] HF.
    destruct (FieldSpec.reference field) as [reference |] eqn:Href; [| by eexists].
    destruct (lookup _ _) eqn:Hl; [by eexists |].
    destruct (isInherited _) eqn:Hi; [| by eexists].
    apply isInherited_In in Hi. by destruct (Hok E entity F field reference). }
  destruct Hfields as [fieldErrors ->]. by eexists.
Qed.

(** Nothing throws in [link] after [validateEntityReferences]. *)
Lemma link_returns_after (now : string) (spec : Spec.t) (entityErrors : list LinkError) :
  validateEntityReferences spec = Some entityErrors -> is_Some (link now spec).
Proof.
  intros H. unfold link. rewrite H.
  cbn [mbind option_bind]. by destruct (_ <? _)%nat.
Qed.

Lemma link_returns (now : string) (spec : Spec.t) :
  linkable spec -> is_Some (link now spec).
Proof.
  intros Hok.
  destruct (validateEntityReferences_returns spec Hok) as [entityErrors H].
  by apply (link_returns_after now spec entityErrors).
Qed.

(** Reference integrity, where [link] returns.  If a field [F] of an entity
    [E] has a [reference] whose [entity] names [X], [spec.entities] has no
    entry for [X], and no field of the spec refers to a member of
    [Object.prototype] that is not an entity (so that [X] is none either),
    then [link] returns, and its errors contain a [missing_reference] whose
    source, [entities.E.fields.F], begins with [entities.E] and whose target
    is [entities.X]; and whenever [link] returns errors, [valid] is false and
    [bundle] is null. *)
Theorem missing_entity_reference_reported :
  (forall (now : string) (spec : Spec.t) (E F : string) (entity : EntitySpec.t)
          (field : FieldSpec.t) (reference : Reference.t),
     In (E, entity) (Spec.entities spec) ->
     In (F, field) (EntitySpec.fields entity) ->
     FieldSpec.reference field = Some reference ->
     lookup (Reference.entity reference) (Spec.entities spec) = None ->
     linkable spec ->
     exists r,
       link now spec = Some r
       /\ (exists e, In e (errors r)
                     /\ type e = missing_reference
                     /\ source e = "entities." +:+ E +:+ ".fields." +:+ F
                     /\ JsString.startsWith ("entities." +:+ E) (source e) = true
                     /\ target e = Some ("entities." +:+ Reference.entity reference))
       /\ valid r = false
       /\ bundle r = None)
  /\
  (forall (now : string) (spec : Spec.t) (r : LinkResult),
     link now spec = Some r ->
     errors r <> [] ->
     valid r = false /\ bundle r = None).
Proof.
  split; [| exact link_errors_block].
  intros now spec E F entity field reference HE HF Href Hmiss Hok.
  destruct (link_returns now spec Hok) as [r Hr]. exists r. split; [done |].
  set (X := Reference.entity reference) in *.
  set (e := missing
              ("Entity " +:+ q X +:+ " referenced by field " +:+ q F +:+ " does not exist")
              ("entities." +:+ E +:+ ".fields." +:+ F)
              ("entities." +:+ X)).
  assert (Hnot : isInherited X = false).
  { destruct (isInherited X) eqn:Hi; [| done].
    apply isInherited_In in Hi. by destruct (Hok E entity F field reference). }
  assert (Hin : In e (errors r)).
  { destruct (link_Some _ _ _ Hr) as (entityErrors & Hent & -> & _).
    apply in_or_app. left. apply in_or_app. left.
    unfold validateEntityReferences in Hent.
    destruct (forEachTry_Some _ _ _ Hent) as [Hall _].
    destruct (Hall (E, entity) HE) as [pushed Hpushed].
    apply (In_forEachTry _ _ _ pushed (E, entity) e Hent HE Hpushed).
    cbn beta iota in Hpushed.
    destruct (forEachTry (EntitySpec.fields entity) _) as [fieldErrors |] eqn:Hf;
      [| done].
    cbn [mbind option_bind] in Hpushed. apply (inj Some) in Hpushed as <-.
    apply in_or_app. left.
    apply (In_forEachTry _ _ _ [e] (F, field) e Hf HF); [| by left].
    cbn beta iota. rewrite Href. fold X. by rewrite Hmiss, Hnot. }
  split.
  - exists e. split; [done |]. split; [done |]. split; [done |].
    split; [| done]. cbn [source e missing].
    rewrite <- (append_assoc "entities." E). apply startsWith_append.
  - apply (link_errors_block now spec r Hr). by destruct (errors r).
Qed.

Lemma hasKey_false {A : Type} (d : list (string * A)) (k : string) :
  lookup k d = None -> isInherited k = false -> hasKey d k = false.
Proof.
  intros H Hi. unfold hasKey. rewrite H, Hi.
  by rewrite bool_decide_eq_false_2 by apply is_Some_None.
Qed.

Lemma either_journalEntity (spec : Spec.t) (name fallback : string)
    (entity : EntitySpec.t) :
  journalEntity spec name fallback entity ->
  either (Spec.entities spec) name fallback = Some entity.
Proof. unfold either. by intros [-> | [-> ->]]. Qed.

(** C8, as the code has it.  The JournalEntry entity is the one under the
    key [JournalEntry] or, when there is no such key, the one under
    [journal_entry]; likewise the JournalLine entity.  If the first is not
    flagged [immutable], the second has none of the fields [debit],
    [debit_amount], [credit], [credit_amount], the profile of the product is
    [prod], and no field refers to a member of [Object.prototype] that is
    not an entity, then [link] returns and its errors end with the two
    [invariant_violation] errors, for the balance fields and for the
    immutability: there are at least two of them. *)
Theorem journal_invariants_violated (now : string) (spec : Spec.t)
    (journalEntry journalLine : EntitySpec.t) :
  journalEntity spec "JournalEntry" "journal_entry" journalEntry ->
  EntitySpec.immutable journalEntry <> Some true ->
  journalEntity spec "JournalLine" "journal_line" journalLine ->
  lookup "debit" (EntitySpec.fields journalLine) = None ->
  lookup "debit_amount" (EntitySpec.fields journalLine) = None ->
  lookup "credit" (EntitySpec.fields journalLine) = None ->
  lookup "credit_amount" (EntitySpec.fields journalLine) = None ->
  ProductSpec.profile (Spec.product spec) = prod ->
  linkable spec ->
  exists r references,
    link now spec = Some r
    /\ (2 <= length (invariantViolations (errors r)))%nat
    /\ errors r
       = references ++
         [ {| type := invariant_violation;
              message := "JournalLine must have both debit and credit fields for balance invariant";
              source := "entities.JournalLine"; target := None |};
           {| type := invariant_violation;
              message := "JournalEntry should be immutable in production for audit compliance";
              source := "entities.JournalEntry"; target := None |} ].
Proof.
  intros He Himm Hl Hd Hda Hc Hca Hprod Hok.
  assert (Hinv : checkInvariants spec
          = [ {| type := invariant_violation;
                 message := "JournalLine must have both debit and credit fields for balance invariant";
                 source := "entities.JournalLine"; target := None |};
              {| type := invariant_violation;
                 message := "JournalEntry should be immutable in production for audit compliance";
                 source := "entities.JournalEntry"; target := None |} ]).
  { unfold checkInvariants.
    rewrite (either_journalEntity _ _ _ _ He), (either_journalEntity _ _ _ _ Hl).
    rewrite !hasKey_false by done. rewrite Hprod.
    assert (Hf : Obj.isTrue (EntitySpec.immutable journalEntry) = false)
      by (by destruct (EntitySpec.immutable journalEntry) as [[|] |]).
    rewrite Hf. reflexivity. }
  destruct (link_returns now spec Hok) as [r Hr].
  destruct (link_Some _ _ _ Hr) as (entityErrors & _ & Herrs & _).
  exists r. eexists. split; [done |]. rewrite Herrs, Hinv. split; [| reflexivity].
  unfold invariantViolations. rewrite List.filter_app, length_app.
  match goal with
  | |- (2 <= _ + ?b)%nat => assert (Hb : b = 2%nat) by reflexivity; rewrite Hb; lia
  end.
Qed.

(** C1, as the code has it.  The hash of the bundle is the first 16
    hexadecimal digits of the SHA-256 digest of [JSON.stringify(spec)], the
    keys in enumeration order: two specs with the same serialization get the
    same hash, whatever the times of the two calls. *)
Theorem hash_depends_on_serialization (now1 now2 : string) (spec1 spec2 : Spec.t)
    (r1 r2 : LinkResult) (bundle1 bundle2 : SpecBundle.t) :
  Json.stringify (Spec.toValue spec1) = Json.stringify (Spec.toValue spec2) ->
  link now1 spec1 = Some r1 -> bundle r1 = Some bundle1 ->
  link now2 spec2 = Some r2 -> bundle r2 = Some bundle2 ->
  SpecBundle.hash (SpecBundle._meta bundle1) = SpecBundle.hash (SpecBundle._meta bundle2)
  /\ SpecBundle.hash (SpecBundle._meta bundle1)
     = JsString.take 16 (Sha256.sha256hex (Json.stringify (Spec.toValue spec1))).
Proof.
  intros Hser H1 Hb1 H2 Hb2.
  apply link_Some in H1 as (_ & _ & _ & _ & _ & H1).
  apply link_Some in H2 as (_ & _ & _ & _ & _ & H2).
  rewrite H1 in Hb1. rewrite H2 in Hb2.
  destruct (valid r1); [| done]. destruct (valid r2); [| done].
  apply (inj Some) in Hb1, Hb2. subst bundle1 bundle2.
  cbn [SpecBundle._meta SpecBundle.hash]. unfold computeHash.
  by rewrite Hser.
Qed.

End LinkerFacts.

Section ValidatorFacts.
Import JsValue Validator.



Lemma validateSchema_schemaPath this schemaName data prefix e :
  In e (validateSchema this schemaName data prefix) -> is_Some (schemaPath e).
Proof.
  unfold validateSchema. destruct (getSchema this schemaName) as [validate |]; [| done].
  destruct (validate data) as [[|] [errs |]]; try done.
  intros Hin. apply in_map_iff in Hin as (x & <- & _). by eexists.
Qed.

Lemma idempotency_errors (spec : Spec.t) :
  Linker.forEach (Spec.actions spec) (fun '(name, action) =>
    Linker.pushIf (bool_decide (ActionSpec.type action = command)
                   && negb (Obj.isTrue (ActionSpec.idempotent action)))
      {| path := "actions." +:+ name;
         message := "Commands must be idempotent in production profile";
         schemaPath := None |})
  = map (fun entry => notIdempotent (fst entry))
        (List.filter offending (Spec.actions spec)).
Proof.
  rewrite forEach_flat_map.
  induction (Spec.actions spec) as [| [name action] l IH]; [done |].
  cbn [flat_map List.filter]. rewrite IH. unfold offending at 2. cbn [snd fst].
  by destruct (_ && _).
Qed.

Lemma profileConfig_block (spec : Spec.t) (p : Profile) (cfg : ProfileConfig.t) :
  ProductSpec.profileConfig (Spec.product spec) p = Some cfg <-> block spec p cfg.
Proof.
  unfold ProductSpec.profileConfig, block. split.
  - destruct (ProductSpec.profiles (Spec.product spec)) as [ps |]; [| done].
    intros H. exists ps. split; [done |]. destruct p; [left | right]; done.
  - intros (ps & -> & [[-> H] | [-> H]]); done.
Qed.

Lemma inForce_effective (spec : Spec.t) (options : Options) (p : Profile) :
  inForce spec options p
  <-> default (ProductSpec.profile (Spec.product spec)) (opt_profile options) = p.
Proof.
  unfold inForce. destruct (opt_profile options) as [o |]; cbn.
  - split; [by intros [[= ->] | [[=] _]] | intros <-; by left].
  - split; [by intros [[=] | [_ ->]] | intros <-; by right].
Qed.

(** C9.  When the profile in force, the one of the options or else the one
    of the product, is [prod], or the product has a configuration block for
    the profile in force ([profiles.dev] or [profiles.prod]), and that block,
    if there is one, does not set [require_idempotency] to [false]: the
    errors of [validate] are those of the schemas (each with a [schemaPath])
    followed by one error at [actions.<name>], without [schemaPath], for each
    action of type [command] that is not idempotent, in the order of the
    actions; so the result is not valid when there is such an action.  And
    for every spec and every option, [valid] is true exactly when there is
    no error. *)
Theorem production_requires_idempotent_commands :
  (forall (this : SpecValidator) (spec : Spec.t) (options : Options) (p : Profile),
     inForce spec options p ->
     p = prod \/ (exists cfg, block spec p cfg) ->
     (forall cfg, block spec p cfg ->
                  ProfileConfig.require_idempotency cfg <> Some false) ->
     (exists schemaErrors,
        errors (validate this spec options)
        = schemaErrors
          ++ map (fun entry => notIdempotent (fst entry))
                 (List.filter offending (Spec.actions spec))
        /\ forall e, In e schemaErrors -> is_Some (schemaPath e))
     /\ (forall name action,
           In (name, action) (Spec.actions spec) ->
           ActionSpec.type action = command ->
           ActionSpec.idempotent action <> Some true ->
           (exists e, In e (errors (validate this spec options))
                      /\ path e = "actions." +:+ name
                      /\ message e = "Commands must be idempotent in production profile"
                      /\ schemaPath e = None)
           /\ valid (validate this spec options) = false))
  /\
  (forall (this : SpecValidator) (spec : Spec.t) (options : Options),
     valid (validate this spec options) = true
     <-> errors (validate this spec options) = []).
Proof.
  split.
  - intros this spec options p Hp Hprof Hreq.
    apply inForce_effective in Hp.
    set (profileConfig := ProductSpec.profileConfig (Spec.product spec) p).
    assert (Hgate : bool_decide (p = prod) || bool_decide (is_Some profileConfig) = true).
    { apply orb_true_iff. destruct Hprof as [H | [cfg H]]; [left | right];
        apply bool_decide_eq_true_2; [done |].
      apply profileConfig_block in H. by exists cfg. }
    assert (Hrule : negb (bool_decide
              (ProfileConfig.require_idempotency (default ProfileConfig.empty profileConfig)
               = Some false)) = true).
    { apply negb_true_iff. apply bool_decide_eq_false_2.
      destruct profileConfig as [cfg |] eqn:E; cbn [default]; [| done].
      apply Hreq. by apply profileConfig_block. }
    assert (Herrs : exists schemaErrors,
              errors (validate this spec options)
              = schemaErrors
                ++ map (fun entry => notIdempotent (fst entry))
                       (List.filter offending (Spec.actions spec))
              /\ forall e, In e schemaErrors -> is_Some (schemaPath e)).
    { unfold validate. rewrite Hp. fold profileConfig. rewrite Hgate.
      unfold validateProductionRules. rewrite Hrule. rewrite idempotency_errors.
      cbn [errors]. eexists. split; [reflexivity |].
      intros e He. rewrite !forEach_flat_map in He.
      repeat (apply in_app_or in He as [He | He]);
        try (apply in_flat_map in He as ([? ?] & _ & He));
        by eapply validateSchema_schemaPath. }
    split; [exact Herrs |].
    intros name action Hin Hcmd Hidem.
    destruct Herrs as (schemaErrors & Heq & _).
    assert (Hmem : In (notIdempotent name) (errors (validate this spec options))).
    { rewrite Heq. apply in_or_app. right.
      apply in_map_iff. exists (name, action). split; [done |].
      apply filter_In. split; [done |]. unfold offending. cbn [snd].
      rewrite bool_decide_eq_true_2 by done.
      by destruct (ActionSpec.idempotent action) as [[|] |]. }
    split; [by exists (notIdempotent name) |].
    unfold validate in *. cbn [valid errors] in *.
    destruct (if _ || _ then _ else _) as [errs ws]. cbn [valid errors] in *.
    by destruct errs.
  - intros this spec options. unfold validate.
    destruct (if _ || _ then _ else _) as [errs ws]. cbn [valid errors].
    destruct errs; cbn; split; done.
Qed.

End ValidatorFacts.

(* ===================================================================== *)
(** * Further properties of the code *)
(* ===================================================================== *)

(** ** conditions.ts *)

Section StringSplitFacts.
Import JsString.

Lemma append_nil_r (s : string) : s +:+ EmptyString = s.
Proof. induction s as [| c s IH]; [done |]. by rewrite append_cons, IH. Qed.

Lemma length_append (a b : string) :
  String.length (a +:+ b) = (String.length a + String.length b)%nat.
Proof. induction a as [| c a IH]; [done |]. rewrite append_cons. cbn. by rewrite IH. Qed.

Lemma rev_app_rev_app (a cur acc : string) :
  String.rev_app (String.rev_app a cur) acc = String.rev_app cur (a +:+ acc).
Proof.
  revert cur. induction a as [| c a IH]; intros cur; [done |].
  cbn [String.rev_app]. rewrite IH. cbn [String.rev_app]. by rewrite append_cons.
Qed.

Lemma rev_rev_app (a : string) : String.rev (String.rev_app a EmptyString) = a.
Proof. unfold String.rev. rewrite rev_app_rev_app. cbn. apply append_nil_r. Qed.

(** A prefix test looks at no more than the length of the prefix. *)
Lemma startsWith_take (p : string) : forall (n : nat) (y : string),
  (String.length p <= n)%nat -> startsWith p (take n y) = startsWith p y.
Proof.
  induction p as [| c p IH]; intros n y Hn; [done |].
  destruct n as [| n]; [cbn in Hn; lia |].
  destruct y as [| d y]; [done |]. cbn [take startsWith].
  rewrite IH; [done | cbn in Hn; lia].
Qed.

Lemma startsWith_app_take (p : string) : forall (x y : string) (n : nat),
  (String.length p <= String.length x + n)%nat ->
  startsWith p (x +:+ take n y) = startsWith p (x +:+ y).
Proof.
  induction p as [| c p IH]; intros x y n Hn; [done |].
  destruct x as [| d x].
  - cbn [String.length] in Hn. change (EmptyString +:+ ?s) with s.
    by apply startsWith_take.
  - rewrite !append_cons. cbn [startsWith]. rewrite IH; [done |]. cbn in Hn. lia.
Qed.

Lemma take_append (a b : string) : take (String.length a) (a +:+ b) = a.
Proof.
  induction a as [| c a IH]; [done |]. rewrite append_cons. cbn. by rewrite IH.
Qed.

Lemma take_take_append (n : nat) : forall (a b : string),
  (n <= String.length a)%nat -> take n (a +:+ b) = take n a.
Proof.
  induction n as [| n IH]; intros a b Hn; [done |].
  destruct a as [| c a]; [cbn in Hn; lia |].
  rewrite append_cons. cbn [take]. rewrite IH; [done | cbn in Hn; lia].
Qed.

Lemma split_go_skip (sep : string) (x : string) : forall (cur rest : string),
  split_go sep (String.length x) cur (x +:+ rest) = split_go sep O cur rest.
Proof.
  induction x as [| c x IH]; intros cur rest; [by destruct rest |].
  rewrite append_cons. cbn [String.length split_go]. apply IH.
Qed.

(** The first piece of a split, when the separator first occurs right after
    [a]. *)
Lemma split_go_first (sep a rest : string) : forall cur,
  sep <> EmptyString ->
  includes sep (a +:+ take (String.length sep - 1) sep) = false ->
  split_go sep O cur (a +:+ sep +:+ rest)
  = String.rev (String.rev_app a cur) :: split_go sep O EmptyString rest.
Proof.
  induction a as [| c a IH]; intros cur Hsep Hno.
  - change (EmptyString +:+ ?s) with s. cbn [String.rev_app].
    destruct sep as [| d sep]; [done |].
    rewrite append_cons. cbn [split_go].
    assert (Hs : startsWith (String d sep) (String d (sep +:+ rest)) = true).
    { rewrite <- append_cons. apply startsWith_append. }
    rewrite Hs. f_equal.
    assert (Hl : (String.length (String d sep) - 1 = String.length sep)%nat)
      by (cbn [String.length]; lia).
    rewrite Hl. apply split_go_skip.
  - rewrite append_cons in Hno. cbn [includes] in Hno.
    apply orb_false_iff in Hno as [Hhere Hlater].
    rewrite append_cons. cbn [split_go].
    assert (Hs : startsWith sep (String c (a +:+ sep +:+ rest)) = false).
    { rewrite <- Hhere. rewrite <- !append_cons.
      rewrite <- (take_take_append (String.length sep - 1) sep rest) by lia.
      apply eq_sym, startsWith_app_take. cbn [String.length]. lia. }
    rewrite Hs. cbn [String.rev_app]. by apply IH.
Qed.

Lemma split_first (sep a rest : string) :
  sep <> EmptyString ->
  includes sep (a +:+ take (String.length sep - 1) sep) = false ->
  split sep (a +:+ sep +:+ rest) = a :: split sep rest.
Proof.
  intros Hsep Hno. unfold split. rewrite split_go_first by done.
  by rewrite rev_rev_app.
Qed.

Lemma split_go_absent (sep s : string) : forall cur,
  includes sep s = false ->
  split_go sep O cur s = [String.rev (String.rev_app s cur)].
Proof.
  induction s as [| c s IH]; intros cur Hno; [done |].
  cbn [includes] in Hno. apply orb_false_iff in Hno as [Hhere Hlater].
  cbn [split_go]. rewrite Hhere. cbn [String.rev_app]. by apply IH.
Qed.

Lemma split_absent (sep s : string) : includes sep s = false -> split sep s = [s].
Proof.
  intros Hno. unfold split. rewrite split_go_absent by done. by rewrite rev_rev_app.
Qed.

Lemma includes_append (sep a rest : string) : includes sep (a +:+ sep +:+ rest) = true.
Proof.
  induction a as [| c a IH].
  - change (EmptyString +:+ ?s) with s.
    destruct (sep +:+ rest) eqn:E; cbn [includes];
      rewrite <- E, startsWith_append; done.
  - rewrite append_cons. cbn [includes]. rewrite IH. apply orb_true_r.
Qed.

Lemma includes_append_l (sep a b : string) :
  includes sep a = true -> includes sep (a +:+ b) = true.
Proof.
  induction a as [| c a IH]; intros H.
  - cbn [includes] in H. rewrite orb_false_r in H.
    destruct sep; [| done]. by destruct b.
  - rewrite append_cons. cbn [includes] in *. apply orb_true_iff in H as [H | H].
    + apply orb_true_iff. left. rewrite <- append_cons.
      rewrite <- (startsWith_app_take sep (String c a) b 0); [| ].
      * change (take 0 b) with EmptyString. by rewrite append_nil_r.
      * apply startsWith_length in H. lia.
    + rewrite IH by done. apply orb_true_r.
Qed.

Lemma includes_append_r (sep a b : string) :
  includes sep b = true -> includes sep (a +:+ b) = true.
Proof.
  intros H. induction a as [| c a IH]; [done |].
  rewrite append_cons. cbn [includes]. rewrite IH. apply orb_true_r.
Qed.

Lemma includes_absent_r (sep a b : string) :
  includes sep (a +:+ b) = false -> includes sep b = false.
Proof.
  intros H. destruct (includes sep b) eqn:E; [| done].
  by rewrite (includes_append_r sep a b E) in H.
Qed.

(** ** [trim] *)

Lemma trimEnd_append (x y : string) :
  y <> EmptyString -> trimEnd y = y -> trimEnd (x +:+ y) = x +:+ y.
Proof.
  intros Hne Hy. induction x as [| c x IH]; [done |].
  rewrite append_cons. cbn [trimEnd]. rewrite IH.
  assert (He : isEmpty (x +:+ y) = false).
  { destruct x; [by destruct y | done]. }
  by rewrite He, andb_false_r.
Qed.

Lemma trim_fixed (s : string) :
  trim s = s -> trimStart s = s /\ trimEnd s = s.
Proof.
  intros H.
  assert (Hs : trimStart s = s).
  { destruct s as [| c s]; [done |]. cbn [trimStart].
    destruct (isWhiteSpace c) eqn:E; [| done]. exfalso.
    assert (Hl : (String.length (trim (String c s)) <= String.length s)%nat).
    { unfold trim. cbn [trimStart]. rewrite E.
      etransitivity; [apply length_trimEnd | apply length_trimStart]. }
    rewrite H in Hl. cbn in Hl. lia. }
  split; [done |]. unfold trim in H. by rewrite Hs in H.
Qed.

Lemma trim_append (a mid b : string) :
  trim a = a -> a <> EmptyString -> trim b = b -> b <> EmptyString ->
  trim (a +:+ mid +:+ b) = a +:+ mid +:+ b.
Proof.
  intros Ha Hae Hb Hbe.
  destruct (trim_fixed a Ha) as [Hsa _]. destruct (trim_fixed b Hb) as [_ Heb].
  unfold trim.
  assert (Hs : trimStart (a +:+ mid +:+ b) = a +:+ mid +:+ b).
  { destruct a as [| c a]; [done |]. rewrite append_cons.
    cbn [trimStart] in *. destruct (isWhiteSpace c); [| done].
    exfalso. pose proof (length_trimStart a) as Hl. rewrite Hsa in Hl. cbn in Hl. lia. }
  rewrite Hs. rewrite <- append_assoc. by apply trimEnd_append.
Qed.

End StringSplitFacts.

Section ExpressionComposition.
Import JsString JsValue Conditions.

Context {engine : Engine}.

Lemma every_forallb {A : Type} (f : A -> option bool) (g : A -> bool) (l : list A) :
  (forall x, x ∈ l -> f x = Some (g x)) -> every f l = Some (forallb g l).
Proof.
  induction l as [| x l IH]; intros H; [done |]. cbn [every forallb].
  rewrite (H x) by left. destruct (g x); [| done].
  apply IH. intros y Hy. apply H. by right.
Qed.

Lemma some_existsb {A : Type} (f : A -> option bool) (g : A -> bool) (l : list A) :
  (forall x, x ∈ l -> f x = Some (g x)) -> some f l = Some (existsb g l).
Proof.
  induction l as [| x l IH]; intros H; [done |]. cbn [some existsb].
  rewrite (H x) by left. destruct (g x); [done |].
  apply IH. intros y Hy. apply H. by right.
Qed.

Lemma evaluateCondition_fuel_trim (fuel : nat) (e : string) ctx :
  evaluateCondition_fuel fuel (trim e) ctx = evaluateCondition_fuel fuel e ctx.
Proof. destruct fuel; [done |]. cbn [evaluateCondition_fuel]. by rewrite trim_idem. Qed.

(** Surrounding white space does not matter. *)
Lemma evaluateCondition_trim (e : string) ctx :
  evaluateCondition (trim e) ctx = evaluateCondition e ctx.
Proof.
  assert (H : evaluateCondition_fuel (S (String.length e)) (trim e) ctx
              = Some (evaluateCondition (trim e) ctx)).
  { apply evaluateCondition_fuel_enough. pose proof (length_trim e). lia. }
  rewrite evaluateCondition_fuel_trim in H.
  unfold evaluateCondition at 2. by rewrite H.
Qed.

(** An expression with [AND] is the conjunction of its parts. *)
Lemma evaluateCondition_and (e : string) ctx :
  includes " AND " (trim e) = true ->
  evaluateCondition e ctx
  = forallb (fun part => evaluateCondition part ctx) (split " AND " (trim e)).
Proof.
  intros Hand. unfold evaluateCondition at 1. cbn [evaluateCondition_fuel].
  rewrite Hand.
  rewrite (every_forallb _ (fun part => evaluateCondition part ctx)); [done |].
  intros part Hpart. rewrite evaluateCondition_fuel_trim.
  apply evaluateCondition_fuel_enough.
  pose proof (split_shorter " AND " (trim e) part ltac:(cbn; lia) Hand Hpart).
  pose proof (length_trim e). cbn in *. lia.
Qed.

(** Without [AND], an expression with [OR] is the disjunction of its parts. *)
Lemma evaluateCondition_or (e : string) ctx :
  includes " AND " (trim e) = false ->
  includes " OR " (trim e) = true ->
  evaluateCondition e ctx
  = existsb (fun part => evaluateCondition part ctx) (split " OR " (trim e)).
Proof.
  intros Hand Hor. unfold evaluateCondition at 1. cbn [evaluateCondition_fuel].
  rewrite Hand, Hor.
  rewrite (some_existsb _ (fun part => evaluateCondition part ctx)); [done |].
  intros part Hpart. rewrite evaluateCondition_fuel_trim.
  apply evaluateCondition_fuel_enough.
  pose proof (split_shorter " OR " (trim e) part ltac:(cbn; lia) Hor Hpart).
  pose proof (length_trim e). cbn in *. lia.
Qed.

(** Without [AND] and [OR], a leading [NOT] negates what follows it. *)
Lemma evaluateCondition_not (e : string) ctx :
  includes " AND " (trim e) = false ->
  includes " OR " (trim e) = false ->
  startsWith "NOT " (trim e) = true ->
  evaluateCondition e ctx = negb (evaluateCondition (drop 4 (trim e)) ctx).
Proof.
  intros Hand Hor Hnot. unfold evaluateCondition at 1. cbn [evaluateCondition_fuel].
  rewrite Hand, Hor, Hnot. rewrite evaluateCondition_fuel_trim.
  rewrite evaluateCondition_fuel_enough; [done |].
  apply startsWith_length in Hnot. rewrite length_drop.
  pose proof (length_trim e). cbn in *. lia.
Qed.

(** The parts of [e] at the separator [sep], seen as a conjunction or a
    disjunction: [e] alone when [sep] does not occur. *)
Lemma forallb_split_and (e : string) ctx :
  trim e = e ->
  forallb (fun part => evaluateCondition part ctx) (split " AND " e)
  = evaluateCondition e ctx.
Proof.
  intros He. destruct (includes " AND " e) eqn:Hand.
  - rewrite (evaluateCondition_and e), He by (by rewrite He). done.
  - rewrite split_absent by done. cbn [forallb]. apply andb_true_r.
Qed.

Lemma existsb_split_or (e : string) ctx :
  trim e = e -> includes " AND " e = false ->
  existsb (fun part => evaluateCondition part ctx) (split " OR " e)
  = evaluateCondition e ctx.
Proof.
  intros He Hand. destruct (includes " OR " e) eqn:Hor.
  - rewrite (evaluateCondition_or e), He by (by rewrite He). done.
  - rewrite split_absent by done. cbn [existsb]. apply orb_false_r.
Qed.

Lemma conjunction (a b : string) ctx :
  trim a = a -> a <> EmptyString -> trim b = b -> b <> EmptyString ->
  includes " AND " (a +:+ " AND") = false ->
  evaluateCondition (a +:+ " AND " +:+ b) ctx
  = evaluateCondition a ctx && evaluateCondition b ctx.
Proof.
  intros Ha Hae Hb Hbe Hfirst.
  assert (Ht : trim (a +:+ " AND " +:+ b) = a +:+ " AND " +:+ b)
    by (by apply trim_append).
  rewrite evaluateCondition_and; rewrite Ht; [| apply includes_append].
  rewrite split_first by done. cbn [forallb].
  by rewrite forallb_split_and.
Qed.

Lemma disjunction (a b : string) ctx :
  trim a = a -> a <> EmptyString -> trim b = b -> b <> EmptyString ->
  includes " OR " (a +:+ " OR") = false ->
  includes " AND " (a +:+ " OR " +:+ b) = false ->
  evaluateCondition (a +:+ " OR " +:+ b) ctx
  = evaluateCondition a ctx || evaluateCondition b ctx.
Proof.
  intros Ha Hae Hb Hbe Hfirst Hand.
  assert (Ht : trim (a +:+ " OR " +:+ b) = a +:+ " OR " +:+ b)
    by (by apply trim_append).
  rewrite evaluateCondition_or; rewrite Ht; [| done | apply includes_append].
  rewrite split_first by done. cbn [existsb].
  rewrite existsb_split_or; [done | done |].
  by apply (includes_absent_r _ (a +:+ " OR ")); rewrite append_assoc.
Qed.

Lemma includes_absent_l (sep a b : string) :
  includes sep (a +:+ b) = false -> includes sep a = false.
Proof.
  intros H. destruct (includes sep a) eqn:E; [| done].
  by rewrite (includes_append_l sep a b E) in H.
Qed.

Lemma negation (e : string) ctx :
  trim e = e -> e <> EmptyString ->
  includes " AND " ("NOT " +:+ e) = false ->
  includes " OR " ("NOT " +:+ e) = false ->
  evaluateCondition ("NOT " +:+ e) ctx = negb (evaluateCondition e ctx).
Proof.
  intros He Hne Hand Hor.
  assert (Ht : trim ("NOT " +:+ e) = "NOT " +:+ e).
  { change ("NOT " +:+ e) with ("NOT" +:+ " " +:+ e). by apply trim_append. }
  rewrite evaluateCondition_not; rewrite Ht; try done.
Qed.

(** X1.  [AND] and [OR] compose.  For two operands without surrounding white
    space and not empty: when the [AND] written between them is the first
    one of the expression, [a AND b] evaluates to the conjunction of [a] and
    [b]; when the [OR] written between them is the first one and the
    expression has no [AND], [a OR b] evaluates to the disjunction of [a]
    and [b]. *)
Theorem and_or_compose (a b : string) (ctx : ConditionContext) :
  trim a = a -> a <> EmptyString -> trim b = b -> b <> EmptyString ->
  (includes " AND " (a +:+ " AND") = false ->
   evaluateCondition (a +:+ " AND " +:+ b) ctx
   = evaluateCondition a ctx && evaluateCondition b ctx)
  /\ (includes " OR " (a +:+ " OR") = false ->
      includes " AND " (a +:+ " OR " +:+ b) = false ->
      evaluateCondition (a +:+ " OR " +:+ b) ctx
      = evaluateCondition a ctx || evaluateCondition b ctx).
Proof.
  intros Ha Hae Hb Hbe. split.
  - intros H. by apply conjunction.
  - intros H1 H2. by apply disjunction.
Qed.

(** X2.  [AND] binds weaker than [OR], because the expression is split at
    [AND] first: [a OR b AND c] is [(a OR b) AND c] and [a AND b OR c] is
    [a AND (b OR c)], for operands without surrounding white space, not
    empty, where the operators written are the first of their kind. *)
Theorem and_binds_weaker_than_or (a b c : string) (ctx : ConditionContext) :
  trim a = a -> a <> EmptyString ->
  trim b = b -> b <> EmptyString ->
  trim c = c -> c <> EmptyString ->
  (includes " OR " (a +:+ " OR") = false ->
   includes " AND " (a +:+ " OR " +:+ b +:+ " AND") = false ->
   evaluateCondition (a +:+ " OR " +:+ b +:+ " AND " +:+ c) ctx
   = (evaluateCondition a ctx || evaluateCondition b ctx) && evaluateCondition c ctx)
  /\ (includes " AND " (a +:+ " AND") = false ->
      includes " OR " (b +:+ " OR") = false ->
      includes " AND " (b +:+ " OR " +:+ c) = false ->
      evaluateCondition (a +:+ " AND " +:+ b +:+ " OR " +:+ c) ctx
      = evaluateCondition a ctx && (evaluateCondition b ctx || evaluateCondition c ctx)).
Proof.
  intros Ha Hae Hb Hbe Hc Hce. split.
  - intros Hor Hand.
    assert (Hab : trim (a +:+ " OR " +:+ b) = a +:+ " OR " +:+ b)
      by (by apply trim_append).
    assert (Habe : a +:+ " OR " +:+ b <> EmptyString) by (by destruct a).
    assert (Heq : a +:+ " OR " +:+ b +:+ " AND " +:+ c
                  = (a +:+ " OR " +:+ b) +:+ " AND " +:+ c)
      by (by rewrite !append_assoc).
    rewrite Heq, conjunction; try done.
    + rewrite disjunction; try done.
      apply (includes_absent_l _ _ " AND"). by rewrite !append_assoc.
    + by rewrite !append_assoc.
  - intros Hand Hor Hand'.
    assert (Hbc : trim (b +:+ " OR " +:+ c) = b +:+ " OR " +:+ c)
      by (by apply trim_append).
    assert (Hbce : b +:+ " OR " +:+ c <> EmptyString) by (by destruct b).
    rewrite conjunction; try done. by rewrite disjunction.
Qed.

(** X3.  A leading [NOT] negates the rest of an expression that has no
    [AND] and no [OR], and it binds tighter than [AND]: [NOT e AND b] is
    [(NOT e) AND b]. *)
Theorem not_negates (e b : string) (ctx : ConditionContext) :
  trim e = e -> e <> EmptyString ->
  (includes " AND " ("NOT " +:+ e) = false ->
   includes " OR " ("NOT " +:+ e) = false ->
   evaluateCondition ("NOT " +:+ e) ctx = negb (evaluateCondition e ctx))
  /\ (trim b = b -> b <> EmptyString ->
      includes " AND " ("NOT " +:+ e +:+ " AND") = false ->
      includes " OR " ("NOT " +:+ e) = false ->
      evaluateCondition ("NOT " +:+ e +:+ " AND " +:+ b) ctx
      = negb (evaluateCondition e ctx) && evaluateCondition b ctx).
Proof.
  intros He Hne. split.
  - intros Hand Hor. by apply negation.
  - intros Hb Hbe Hand Hor.
    assert (Ht : trim ("NOT " +:+ e) = "NOT " +:+ e).
    { change ("NOT " +:+ e) with ("NOT" +:+ " " +:+ e). by apply trim_append. }
    assert (Heq : "NOT " +:+ e +:+ " AND " +:+ b = ("NOT " +:+ e) +:+ " AND " +:+ b)
      by (by rewrite !append_assoc).
    rewrite Heq, conjunction; try done.
    rewrite negation; try done.
    by apply (includes_absent_l _ _ " AND").
Qed.

End ExpressionComposition.

(** ** rate-limit.ts *)

Section RateLimitInvariants.
Import RateLimit.

Lemma liveEntry_insert (this : RateLimiter) cfg now key key' e :
  liveEntry {| store := <[key := e]> (store this); config := cfg |} now key'
  = if decide (key = key')
    then (if now >? entry_resetAt e then None else Some e)
    else liveEntry this now key'.
Proof.
  unfold liveEntry. cbn [store]. destruct (decide (key = key')) as [-> | Hne].
  - by rewrite lookup_insert_eq.
  - by rewrite lookup_insert_ne.
Qed.

Lemma check_liveEntry (a b : RateLimiter) now key :
  config a = config b -> liveEntry a now key = liveEntry b now key ->
  check a now key = check b now key.
Proof. intros Hc Hl. unfold check. by rewrite Hc, Hl. Qed.

Lemma lessThan_ofZ_mono (a b : Z) (x : JsNumber.number) :
  a <= b ->
  JsNumber.lessThan (JsNumber.ofZ b) x = true ->
  JsNumber.lessThan (JsNumber.ofZ a) x = true.
Proof.
  intros Hab. unfold JsNumber.lessThan, JsNumber.ofZ, JsNumber.align.
  destruct x as [| n | m e]; [done | done |].
  rewrite !Z.ltb_lt. intros H.
  assert (0 < 10 ^ Z.of_nat e) by (apply Z.pow_pos_nonneg; lia). nia.
Qed.

(** When [count >= maxRequests] fails, [count < maxRequests] holds, unless
    the quota is [NaN]. *)
Lemma not_reached (c : Z) (x : JsNumber.number) :
  JsNumber.isNaN x = false ->
  JsNumber.lessEqual x (JsNumber.ofZ c) = false ->
  JsNumber.lessThan (JsNumber.ofZ c) x = true.
Proof.
  unfold JsNumber.lessEqual. intros ->. cbn [negb andb JsNumber.isNaN JsNumber.ofZ].
  by intros ->%negb_false_iff.
Qed.

(** X4.  The counts that the limiter stores stay within the quota,
    [requestsPerMinute + (burst || 0)], whatever numbers the configuration
    holds, [NaN] apart: every stored count is at least 1 and was reached
    from a count below the quota.  This holds for a new limiter and is kept
    by [consume] (when the clock does not go back between its two
    readings), by [reset] and by [cleanup].  For a configuration that asks
    for whole numbers the stored counts are at most the quota; for a quota
    that is not whole they go up to the next whole number.  With a quota
    that is [NaN] every call is allowed. *)
Theorem counts_stay_within_quota :
  (forall cfg, bounded (new cfg))
  /\ (forall this now1 now2 key,
        JsNumber.isNaN (maxRequests (config this)) = false ->
        bounded this -> now1 <= now2 ->
        bounded (snd (consume this now1 now2 key)))
  /\ (forall this key, bounded this -> bounded (reset this key))
  /\ (forall this now, bounded this -> bounded (cleanup this now))
  /\ (forall this quota key e,
        wholeQuota (config this) quota -> bounded this ->
        store this !! key = Some e ->
        1 <= count e <= quota)
  /\ (forall this now key,
        JsNumber.isNaN (maxRequests (config this)) = true ->
        allowed (check this now key) = true).
Proof.
  split; [| split; [| split; [| split; [| split]]]].
  - intros cfg. unfold bounded, new. cbn [store]. apply map_Forall_empty.
  - intros this now1 now2 key Hnan Hb Hle.
    assert (Hlive : forall t e, liveEntry this t key = Some e ->
              store this !! key = Some e /\ t <= entry_resetAt e).
    { intros t e. unfold liveEntry. destruct (store this !! key) as [e' |]; [| done].
      destruct (t >? entry_resetAt e') eqn:E; [done |]. intros [= ->]. split; [done | lia]. }
    unfold consume, check. cbv zeta.
    destruct (liveEntry this now1 key) as [e1 |] eqn:H1.
    + destruct (Hlive _ _ H1) as [Hs1 Ht1]. destruct (Hb _ _ Hs1) as [Hc1 Hq1].
      destruct (JsNumber.lessEqual _ _) eqn:E; cbn [allowed snd]; [done |].
      apply (not_reached _ _ Hnan) in E.
      unfold bounded. cbn [store config]. apply map_Forall_insert_2; [| done].
      destruct (liveEntry this now2 key) as [e2 |] eqn:H2; cbn [count].
      * destruct (Hlive _ _ H2) as [Hs2 _]. assert (e2 = e1) by congruence. subst.
        split; [lia |]. by replace (count e1 + 1 - 1) with (count e1) by lia.
      * split; [lia |]. apply (lessThan_ofZ_mono _ (count e1)); [lia | done].
    + cbn [count entry_resetAt].
      destruct (JsNumber.lessEqual _ _) eqn:E; cbn [allowed snd]; [done |].
      apply (not_reached _ _ Hnan) in E.
      unfold bounded. cbn [store config]. apply map_Forall_insert_2; [| done].
      destruct (liveEntry this now2 key) as [e2 |] eqn:H2; cbn [count]; [| by split].
      exfalso. destruct (Hlive _ _ H2) as [Hs2 Ht2].
      unfold liveEntry in H1. rewrite Hs2 in H1.
      destruct (now1 >? entry_resetAt e2) eqn:E1; [lia | done].
  - intros this key Hb. unfold bounded, reset. cbn [store config].
    by apply map_Forall_delete.
  - intros this now Hb. unfold bounded, cleanup. cbn [store config].
    intros k e He. apply map_lookup_filter_Some in He as [He _]. by apply (Hb k).
  - intros this quota key e Hq Hb Hs. destruct (Hb _ _ Hs) as [H1 H2].
    rewrite (maxRequests_whole _ _ Hq), lessThan_ofZ in H2.
    apply Z.ltb_lt in H2. lia.
  - intros this now key Hnan. unfold check. cbv zeta.
    destruct (maxRequests (config this)); try done.
Qed.

(** X5.  Keys do not interfere: a [consume] or a [reset] on one key changes
    no answer of [check] for another key, at any time. *)
Theorem keys_are_independent (this : RateLimiter) (key key' : string) :
  key <> key' ->
  (forall now1 now2 t,
     check (snd (consume this now1 now2 key)) t key' = check this t key')
  /\ (forall t, check (reset this key) t key' = check this t key').
Proof.
  intros Hne. split.
  - intros now1 now2 t. unfold consume.
    destruct (allowed (check this now1 key)); cbn [snd]; [| done].
    apply check_liveEntry; [done |].
    rewrite liveEntry_insert. by destruct (decide (key = key')).
  - intros t. apply check_liveEntry; [done |].
    unfold liveEntry, reset. cbn [store]. by rewrite lookup_delete_ne.
Qed.

(** X6.  After [reset(key)] the key is as in a limiter just constructed with
    the same configuration: [check] and [consume] answer the same, and
    [consume] stores the same entry. *)
Theorem reset_gives_a_fresh_window (this : RateLimiter) (key : string) :
  (forall now, check (reset this key) now key = check (new (config this)) now key)
  /\ (forall now1 now2,
        fst (consume (reset this key) now1 now2 key)
        = fst (consume (new (config this)) now1 now2 key)
        /\ store (snd (consume (reset this key) now1 now2 key)) !! key
           = store (snd (consume (new (config this)) now1 now2 key)) !! key).
Proof.
  assert (Hl : forall t, liveEntry (reset this key) t key
                         = liveEntry (new (config this)) t key).
  { intros t. unfold liveEntry, reset, new. cbn [store].
    by rewrite lookup_delete_eq, lookup_empty. }
  assert (Hc : forall t, check (reset this key) t key = check (new (config this)) t key).
  { intros t. by apply check_liveEntry. }
  split; [exact Hc |].
  intros now1 now2. unfold consume. rewrite Hc, Hl.
  destruct (allowed (check (new (config this)) now1 key)); cbn [fst snd store].
  - split; [done |]. by rewrite !lookup_insert_eq.
  - split; [done |]. unfold reset, new. cbn [store].
    by rewrite lookup_delete_eq, lookup_empty.
Qed.

(** X7.  [cleanup] at time [now] keeps exactly the entries whose window has
    not expired ([now <= resetAt]), and no later call can tell the difference:
    from [now] on, [check] and [consume] return the same results on the
    cleaned limiter as on the original, and this stays so after any number
    of calls of [consume]. *)
Theorem cleanup_is_invisible :
  (forall (this : RateLimiter) (now : Z) (key : string) (e : RateLimitEntry),
     store (cleanup this now) !! key = Some e
     <-> store this !! key = Some e /\ now <= entry_resetAt e)
  /\ (forall (this : RateLimiter) (now : Z), sameFrom now (cleanup this now) this)
  /\ (forall (a b : RateLimiter) (now t : Z) (key : string),
        sameFrom now a b -> now <= t -> check a t key = check b t key)
  /\ (forall (a b : RateLimiter) (now t1 t2 : Z) (key : string),
        sameFrom now a b -> now <= t1 -> now <= t2 ->
        fst (consume a t1 t2 key) = fst (consume b t1 t2 key)
        /\ sameFrom now (snd (consume a t1 t2 key)) (snd (consume b t1 t2 key))).
Proof.
  assert (Hstore : forall this now key e,
            store (cleanup this now) !! key = Some e
            <-> store this !! key = Some e /\ now <= entry_resetAt e).
  { intros this now key e. unfold cleanup. cbn [store].
    rewrite map_lookup_filter_Some. cbn [snd]. split; intros [H1 H2]; split; try done; lia. }
  assert (Hcheck : forall a b now t key,
            sameFrom now a b -> now <= t -> check a t key = check b t key).
  { intros a b now t key [Hc Hl] Ht. apply check_liveEntry; [done | by apply Hl]. }
  split; [exact Hstore |]. split; [| split; [exact Hcheck |]].
  - intros this now. split; [done |].
    intros t key Ht. unfold liveEntry.
    destruct (store (cleanup this now) !! key) as [e |] eqn:H1.
    + apply Hstore in H1 as [H1 _]. by rewrite H1.
    + destruct (store this !! key) as [e |] eqn:H2; [| done].
      destruct (t >? entry_resetAt e) eqn:E; [done |].
      assert (H3 : store (cleanup this now) !! key = Some e)
        by (apply Hstore; split; [done | lia]).
      congruence.
  - intros a b now t1 t2 key Hab H1 H2. unfold consume.
    rewrite (Hcheck a b now t1 key Hab H1).
    destruct Hab as [Hc Hl]. rewrite (Hl t2 key H2), Hc.
    destruct (allowed (check b t1 key)); cbn [fst snd]; [| done].
    split; [done |]. split; [done |].
    intros t key' Ht. rewrite !liveEntry_insert.
    destruct (decide (key = key')); [done | by apply Hl].
Qed.

Lemma orElse_given (x fallback : string) :
  x <> EmptyString -> orElse (Some x) fallback = x.
Proof. by destruct x. Qed.

(** X8.  [getKey]: keys of different scopes are different; within the
    scopes [user], [tenant] and [ip], two identifiers that are not empty get
    the same key only when they are equal; and a caller without a user id,
    or with the empty one, shares the key of the user id [anonymous]. *)
Theorem getKey_buckets :
  (forall (s1 s2 : Scope) (u1 t1 i1 u2 t2 i2 : option string),
     s1 <> s2 -> getKey s1 u1 t1 i1 <> getKey s2 u2 t2 i2)
  /\ (forall (a b : string) (t i t' i' : option string),
        a <> EmptyString -> b <> EmptyString ->
        getKey ScopeUser (Some a) t i = getKey ScopeUser (Some b) t' i' -> a = b)
  /\ (forall (a b : string) (u i u' i' : option string),
        a <> EmptyString -> b <> EmptyString ->
        getKey ScopeTenant u (Some a) i = getKey ScopeTenant u' (Some b) i' -> a = b)
  /\ (forall (a b : string) (u t u' t' : option string),
        a <> EmptyString -> b <> EmptyString ->
        getKey ScopeIp u t (Some a) = getKey ScopeIp u' t' (Some b) -> a = b)
  /\ (forall (t i : option string),
        getKey ScopeUser None t i = getKey ScopeUser (Some "anonymous") t i
        /\ getKey ScopeUser (Some EmptyString) t i
           = getKey ScopeUser (Some "anonymous") t i).
Proof.
  split; [| split; [| split; [| split]]].
  - intros s1 s2 u1 t1 i1 u2 t2 i2 Hne.
    destruct s1, s2; try congruence; unfold getKey;
      cbv [String.append]; discriminate.
  - intros a b t i t' i' Ha Hb. unfold getKey. rewrite !orElse_given by done.
    cbv [String.append]. intros H. by injection H.
  - intros a b u i u' i' Ha Hb. unfold getKey. rewrite !orElse_given by done.
    cbv [String.append]. intros H. by injection H.
  - intros a b u t u' t' Ha Hb. unfold getKey. rewrite !orElse_given by done.
    cbv [String.append]. intros H. by injection H.
  - intros t i. split; reflexivity.
Qed.

End RateLimitInvariants.

(** ** engine.ts *)

Section PolicyDecision.
Import JsValue Policy.

Context {engine : JsValue.Engine}.

Lemma stepCondition_outcome ctx p c s :
  explicitDeny s = false ->
  let s' := stepCondition ctx p c s in
  explicitDeny s' = denies ctx c
  /\ v_filters s' = v_filters s
  /\ explicitAllow s' = explicitAllow s
  /\ (denies ctx c = false ->
      conditionsPassed s' = conditionsPassed s && satisfied ctx c).
Proof.
  intros Hd. unfold stepCondition, denies, satisfied, holds.
  destruct (type c);
    destruct (Conditions.evaluateCondition (expression c) (conditionCtx ctx));
    cbn; rewrite ?Hd, ?andb_true_r, ?andb_false_r; auto.
Qed.

Lemma conditionLoop_outcome ctx p cs : forall s,
  explicitDeny s = false ->
  let s' := conditionLoop ctx p cs s in
  explicitDeny s' = existsb (denies ctx) cs
  /\ v_filters s' = v_filters s
  /\ explicitAllow s' = explicitAllow s
  /\ (existsb (denies ctx) cs = false ->
      conditionsPassed s' = conditionsPassed s && forallb (satisfied ctx) cs).
Proof.
  induction cs as [| c cs IH]; intros s Hd; cbn [conditionLoop existsb forallb].
  - cbv zeta. by rewrite andb_true_r.
  - destruct (stepCondition_outcome ctx p c s Hd) as (Hd' & Hf & Ha & Hp).
    cbv zeta. rewrite Hd'. destruct (denies ctx c) eqn:Hc.
    + cbn [orb]. by rewrite Hd'.
    + cbn [orb]. destruct (IH _ Hd') as (Hd2 & Hf2 & Ha2 & Hp2).
      rewrite Hd2, Hf2, Ha2, Hf, Ha. repeat split; try done.
      intros Hn. rewrite (Hp2 Hn), (Hp eq_refl). by rewrite andb_assoc.
Qed.

Lemma conditionLoop_denied ctx p cs s :
  explicitDeny s = true -> explicitDeny (conditionLoop ctx p cs s) = true.
Proof.
  intros Hd. destruct cs as [| c cs]; [done |]. cbn [conditionLoop].
  assert (H : explicitDeny (stepCondition ctx p c s) = true).
  { unfold stepCondition.
    destruct (type c);
      destruct (Conditions.evaluateCondition (expression c) (conditionCtx ctx)); done. }
  by rewrite H.
Qed.

Lemma policyLoop_denied ctx ps s :
  explicitDeny s = true -> explicitDeny (policyLoop ctx ps s) = true.
Proof.
  intros Hd. destruct ps as [| p ps]; [done |]. cbn [policyLoop].
  match goal with
  | |- context [conditionLoop ctx p ?cs ?s0] =>
      assert (H : explicitDeny (conditionLoop ctx p cs s0) = true)
        by (by apply conditionLoop_denied)
  end.
  by rewrite H.
Qed.

Lemma policyLoop_outcome ctx ps : forall s,
  explicitDeny s = false ->
  let s' := policyLoop ctx ps s in
  explicitDeny s' = existsb (vetoes ctx) ps
  /\ (existsb (vetoes ctx) ps = false ->
      explicitAllow s' = explicitAllow s || existsb (permits ctx) ps
      /\ v_filters s' = v_filters s ++ flat_map (contributed ctx) ps).
Proof.
  induction ps as [| p ps IH]; intros s Hd; cbn [policyLoop existsb flat_map].
  - cbv zeta. by rewrite orb_false_r, app_nil_r.
  - set (s0 := {| v_filters := _; conditionsPassed := true |}).
    destruct (conditionLoop_outcome ctx p (default [] (conditions p)) s0 Hd)
      as (Hd1 & Hf1 & Ha1 & Hp1).
    cbv zeta. unfold vetoes at 1 3. fold (vetoes ctx).
    set (s1 := conditionLoop ctx p (default [] (conditions p)) s0) in *.
    rewrite Hd1.
    destruct (existsb (denies ctx) (default [] (conditions p))) eqn:Hden.
    { cbn [orb]. by rewrite Hd1. }
    cbn [orb]. specialize (Hp1 eq_refl). cbn [conditionsPassed s0 andb] in Hp1.
    fold (passes ctx p) in Hp1.
    unfold applyEffect. rewrite Hp1.
    unfold contributed, permits.
    destruct (passes ctx p) eqn:Hpass.
    + destruct (effect p) eqn:He.
      * cbn [andb orb].
        match goal with
        | |- context [policyLoop ctx ps ?s2] =>
            destruct (IH s2 Hd1) as (Hd2 & H2)
        end.
        rewrite Hd2. split; [done |].
        intros Hn. destruct (H2 Hn) as (Ha2 & Hf2).
        cbn [explicitAllow v_filters] in Ha2, Hf2.
        rewrite Ha2, Hf2, Hf1. cbn [s0 v_filters]. rewrite orb_true_r.
        split; [done |].
        destruct (truthy (filter p)); cbn [app]; by rewrite <- ?app_assoc.
      * cbn [orb]. split; [| done].
        apply policyLoop_denied. reflexivity.
    + assert (Hm : match effect p with deny => false | allow => false end = false)
        by (by destruct (effect p)).
      rewrite Hm. cbn [orb andb app].
      destruct (IH s1 Hd1) as (Hd2 & H2).
      rewrite Hd2. split; [done |].
      intros Hn. destruct (H2 Hn) as (Ha2 & Hf2).
      rewrite Ha2, Hf2, Hf1, Ha1. done.
Qed.

Lemma existsb_filter {A : Type} (f g : A -> bool) (l : list A) :
  existsb f (List.filter g l) = existsb (fun x => g x && f x) l.
Proof.
  induction l as [| x l IH]; [done |]. cbn [List.filter existsb].
  destruct (g x); cbn [existsb andb orb]; by rewrite IH.
Qed.

Lemma filter_empty_existsb {A : Type} (g : A -> bool) (l : list A) :
  (length (List.filter g l) =? 0)%nat = negb (existsb g l).
Proof.
  induction l as [| x l IH]; [done |]. cbn [List.filter existsb].
  by destruct (g x).
Qed.

Lemma existsb_Permutation {A : Type} (f : A -> bool) (l l' : list A) :
  l ≡ₚ l' -> existsb f l = existsb f l'.
Proof.
  induction 1 as [| x l l' _ IH | x y l | l l' l'' _ IH1 _ IH2]; cbn [existsb].
  - done.
  - by rewrite IH.
  - by destruct (f x), (f y).
  - by rewrite IH1.
Qed.

Lemma forEach_ext {A S : Type} (f g : A -> S -> option S) (l : list A) :
  (forall x s, f x s = g x s) -> forall s, forEach f l s = forEach g l s.
Proof.
  intros Hfg. induction l as [| x l IH]; intros s; cbn [forEach]; [done |].
  rewrite Hfg. destruct (g x s); [apply IH | done].
Qed.

Lemma processRole_role_map (this this' : PolicyEngine) :
  role_map this' = role_map this ->
  forall fuel r st, processRole this' fuel r st = processRole this fuel r st.
Proof.
  intros Hm. induction fuel as [| fuel IH]; intros r st; [done |].
  cbn [processRole]. rewrite Hm.
  destruct (includes r (visited st)); [done |].
  destruct (role_map this !! r); [| done].
  apply forEach_ext. exact IH.
Qed.

Lemma getEffectivePermissions_role_map (this this' : PolicyEngine) roleNames :
  role_map this' = role_map this ->
  getEffectivePermissions this' roleNames = getEffectivePermissions this roleNames.
Proof.
  intros Hm. unfold getEffectivePermissions, traverse. rewrite Hm.
  by rewrite (forEach_ext _ _ _ (processRole_role_map this this' Hm _)).
Qed.

(** The decision past the two gates. *)
Lemma decision_pastGates (this : PolicyEngine) (ctx : PolicyContext) :
  let applicablePolicies := List.filter (applicable ctx) (policies this) in
  let s := policyLoop ctx applicablePolicies initialVars in
  (if explicitDeny s then false
   else explicitAllow s || (length applicablePolicies =? 0)%nat)
  = negb (existsb (vetoes ctx) applicablePolicies)
    && (existsb (permits ctx) applicablePolicies
        || (length applicablePolicies =? 0)%nat).
Proof.
  cbv zeta.
  destruct (policyLoop_outcome ctx (List.filter (applicable ctx) (policies this))
              initialVars eq_refl) as (Hd & H).
  rewrite Hd.
  destruct (existsb (vetoes ctx) _) eqn:Hv; [done |].
  destruct (H eq_refl) as (Ha & _). by rewrite Ha.
Qed.

(** X9.  The decision of [evaluate] past the admin bypass and the RBAC
    gate, whatever the order of the policies.  An applicable policy vetoes
    when one of its [deny_if] conditions holds, one of its [require]
    conditions does not, or its effect is [deny] and all its conditions are
    satisfied; it permits when its effect is [allow] and all its conditions
    are satisfied.  [evaluate] allows exactly when no applicable policy
    vetoes and either some applicable policy permits or no policy is
    applicable; the result then has no reason and its filters are the
    non-empty filters of the permitting policies, in the order of the
    policies. *)
Theorem decision_of_evaluate (this : PolicyEngine) (ctx : PolicyContext) :
  ~ In "admin" (roles ctx) ->
  ~ In "super_admin" (roles ctx) ->
  (forall a, action ctx = Some a ->
     In a (getEffectivePermissions this (roles ctx))
     \/ In "*" (getEffectivePermissions this (roles ctx))) ->
  let applicablePolicies := List.filter (applicable ctx) (policies this) in
  allowed (evaluate this ctx)
  = negb (existsb (vetoes ctx) applicablePolicies)
    && (existsb (permits ctx) applicablePolicies
        || (length applicablePolicies =? 0)%nat)
  /\ (allowed (evaluate this ctx) = true ->
      evaluate this ctx
      = {| allowed := true; reason := None;
           filters := Some (flat_map (contributed ctx) applicablePolicies) |}).
Proof.
  intros Ha Hs Hperm. cbv zeta. unfold evaluate.
  rewrite evaluate_log_pastGates by done. cbv zeta.
  rewrite <- decision_pastGates. cbv zeta.
  destruct (policyLoop_outcome ctx (List.filter (applicable ctx) (policies this))
              initialVars eq_refl) as (Hd & H).
  destruct (explicitDeny (policyLoop ctx _ initialVars)) eqn:Hden.
  { cbn [fst allowed]. split; [done | intros; discriminate]. }
  destruct (H (eq_sym Hd)) as (_ & Hf). cbn [v_filters initialVars app] in Hf.
  clear H.
  destruct (explicitAllow _ || _) eqn:Hal; cbn [fst allowed].
  - split; [done |]. intros _. by rewrite Hf.
  - split; [done | intros; discriminate].
Qed.

(** X10.  Priorities do not change the decision: two engines with the same
    roles whose policies are the same up to their order give results with
    the same [allowed].  (The order decides which reason is reported and
    the order of the filters.) *)
Theorem decision_ignores_priority (this this' : PolicyEngine) (ctx : PolicyContext) :
  role_map this' = role_map this ->
  policies this' ≡ₚ policies this ->
  allowed (evaluate this' ctx) = allowed (evaluate this ctx).
Proof.
  intros Hm Hp. unfold evaluate, evaluate_log.
  destruct (includes "admin" (roles ctx) || includes "super_admin" (roles ctx));
    [done |].
  unfold checkRolePermissions. cbv zeta.
  rewrite (getEffectivePermissions_role_map this this' _ Hm).
  destruct (truthy (action ctx) && _); [done |].
  pose proof (decision_pastGates this ctx) as H.
  pose proof (decision_pastGates this' ctx) as H'.
  cbv zeta in H, H'.
  transitivity (negb (existsb (vetoes ctx) (List.filter (applicable ctx) (policies this')))
    && (existsb (permits ctx) (List.filter (applicable ctx) (policies this'))
        || (length (List.filter (applicable ctx) (policies this')) =? 0)%nat)).
  { rewrite <- H'. clear H H'.
    destruct (explicitDeny _); [done |]. by destruct (explicitAllow _ || _). }
  transitivity (negb (existsb (vetoes ctx) (List.filter (applicable ctx) (policies this)))
    && (existsb (permits ctx) (List.filter (applicable ctx) (policies this))
        || (length (List.filter (applicable ctx) (policies this)) =? 0)%nat)).
  2: { rewrite <- H. clear H H'.
       destruct (explicitDeny _); [done |]. by destruct (explicitAllow _ || _). }
  rewrite !existsb_filter, !filter_empty_existsb.
  by rewrite !(existsb_Permutation _ _ _ Hp).
Qed.

Lemma ofPriority_below k l :
  Forall (fun q => prio q < k) l -> ofPriority k l = [].
Proof.
  induction 1 as [| q l Hq _ IH]; [done |].
  unfold ofPriority in *. cbn [List.filter].
  destruct (prio q =? k) eqn:E; [lia | done].
Qed.

Lemma insertByPriority_stable k p l :
  StronglySorted byPriority l ->
  ofPriority k (insertByPriority p l) = ofPriority k l ++ ofPriority k [p].
Proof.
  induction 1 as [| q l Hs IH Hq]; [done |].
  cbn [insertByPriority]. destruct (prio q >=? prio p) eqn:E.
  - unfold ofPriority in *. cbn [List.filter] in *.
    destruct (prio q =? k); [cbn [app]; by rewrite IH | exact IH].
  - assert (Hlow : ofPriority k (q :: l) = [] \/ prio p <> k).
    { destruct (Z.eq_dec (prio p) k) as [Ek | Ek]; [left | by right].
      apply ofPriority_below. constructor; [lia |].
      rewrite List.Forall_forall in *. intros x Hx. specialize (Hq x Hx).
      unfold byPriority in Hq. lia. }
    change (p :: q :: l) with ([p] ++ q :: l).
    unfold ofPriority at 1. rewrite List.filter_app.
    fold (ofPriority k [p]). fold (ofPriority k (q :: l)).
    destruct Hlow as [Hlow | Hne].
    + rewrite Hlow. by rewrite app_nil_r.
    + assert (Hp : ofPriority k [p] = []).
      { unfold ofPriority. cbn [List.filter].
        destruct (prio p =? k) eqn:E2; [lia | done]. }
      rewrite Hp. by rewrite app_nil_r.
Qed.

Lemma sortByPriority_stable k l :
  ofPriority k (sortByPriority l) = ofPriority k l.
Proof.
  unfold sortByPriority.
  assert (H : forall acc, StronglySorted byPriority acc ->
            ofPriority k (fold_left (fun sorted p => insertByPriority p sorted) l acc)
            = ofPriority k acc ++ ofPriority k l).
  { induction l as [| p l IH]; intros acc Hacc; cbn [fold_left].
    - unfold ofPriority at 3. cbn. by rewrite app_nil_r.
    - rewrite IH by (by apply insertByPriority_sorted).
      rewrite insertByPriority_stable by done.
      rewrite <- app_assoc. f_equal.
      change (p :: l) with ([p] ++ l). unfold ofPriority. by rewrite List.filter_app. }
  rewrite H by constructor. done.
Qed.

(** X11.  The constructor and [addPolicy] keep the policies sorted by
    decreasing priority, a missing priority counting as 0: the list is
    sorted, it holds exactly the policies given (after [addPolicy], the new
    one and the old ones), and policies of equal priority stay in the order
    in which they were given, a new policy coming after the old ones of its
    priority. *)
Theorem policies_kept_by_priority :
  (forall (ps : list PolicyRule) rs (k : Z),
     let this := new (Some ps) rs in
     StronglySorted byPriority (policies this)
     /\ policies this ≡ₚ ps
     /\ ofPriority k (policies this) = ofPriority k ps)
  /\ (forall (this : PolicyEngine) (p : PolicyRule) (k : Z),
        StronglySorted byPriority (policies (addPolicy this p))
        /\ policies (addPolicy this p) ≡ₚ p :: policies this
        /\ ofPriority k (policies (addPolicy this p))
           = ofPriority k (policies this) ++ ofPriority k [p]).
Proof.
  split.
  - intros ps rs k. cbv zeta. cbn [new policies].
    destruct (sortByPriority_spec ps). split; [done |]. split; [done |].
    apply sortByPriority_stable.
  - intros this p k. cbn [addPolicy policies].
    destruct (sortByPriority_spec (policies this ++ [p])) as [Hs Hp].
    split; [done |]. split.
    + rewrite Hp. by rewrite Permutation_app_comm.
    + rewrite sortByPriority_stable. unfold ofPriority. by rewrite List.filter_app.
Qed.

End PolicyDecision.

Section RolePermissions.
Import Policy.

Context {engine : JsValue.Engine}.
Variable this : PolicyEngine.

(** What [getEffectivePermissions] returns, as a set. *)
Lemma effective_permission_iff (roleNames : list string) (g : string) :
  g ∈ getEffectivePermissions this roleNames
  <-> exists r, reach this roleNames r /\ g ∈ grants this r.
Proof.
  destruct (traverse_traversed this roleNames)
    as (st & Hrun & (new & Hv & Hr & Hc & Hs & Hg & _)).
  cbn [visited collected app] in *. subst new.
  unfold getEffectivePermissions. rewrite Hrun. rewrite Hg. split.
  - intros [Hnil | (x & Hx & Hgx)]; [by apply elem_of_nil in Hnil |].
    exists x. split; [by apply Hs | done].
  - intros (x & Hx & Hgx). right. exists x. split; [| done].
    clear Hgx. induction Hx as [x Hx | x p Hx IH Hp]; [by apply Hr |].
    by apply (Hc x IH).
Qed.

(** X13.  [getEffectivePermissions] depends on the set of the requested
    roles only: whatever a list of roles grants is granted by every list that
    contains its roles, so neither the order nor a repetition matters.
    Names that are not in the role map grant nothing. *)
Theorem effective_permissions_monotone :
  (forall (l1 l2 : list string) (g : string),
     (forall r, r ∈ l1 -> r ∈ l2) ->
     g ∈ getEffectivePermissions this l1 -> g ∈ getEffectivePermissions this l2)
  /\ (forall l : list string,
        (forall r, r ∈ l -> role_map this !! r = None) ->
        getEffectivePermissions this l = []).
Proof.
  split.
  - intros l1 l2 g Hsub. rewrite !effective_permission_iff.
    intros (r & Hr & Hg). exists r. split; [| done].
    by apply (reach_weaken this l1).
  - intros l Hnone.
    assert (Hroots : forall r, reach this l r -> role_map this !! r = None).
    { intros r Hr. induction Hr as [r Hr | r p Hr IH Hp]; [by apply Hnone |].
      unfold parents in Hp. rewrite IH in Hp. by apply elem_of_nil in Hp. }
    destruct (getEffectivePermissions this l) as [| g rest] eqn:Hg; [done |].
    assert (Hin : g ∈ getEffectivePermissions this l) by (rewrite Hg; left).
    apply effective_permission_iff in Hin as (r & Hr & Hgr).
    unfold grants in Hgr. rewrite (Hroots r Hr) in Hgr. by apply elem_of_nil in Hgr.
Qed.

(** X12.  The RBAC gate.  [checkRolePermissions] holds exactly when some
    role reachable from the roles of the context along [inherits] lists the
    action, or the wildcard, among its [permissions] or [can].  A caller
    that is not an admin and asks for an action (not the empty string) that
    no reachable role grants is denied with the reason
    [No role permission for action: <action>], and no condition is
    evaluated.  Without an action, or with the empty one, the roles of the
    engine are not consulted at all. *)
Theorem rbac_gate :
  (forall (ctx : PolicyContext) (a : string),
     checkRolePermissions this ctx a = true
     <-> exists r, reach this (roles ctx) r
                   /\ (a ∈ grants this r \/ "*" ∈ grants this r))
  /\ (forall (ctx : PolicyContext) (a : string),
        ~ In "admin" (roles ctx) ->
        ~ In "super_admin" (roles ctx) ->
        action ctx = Some a -> a <> EmptyString ->
        (forall r, reach this (roles ctx) r -> (a ∉ grants this r) /\ ("*" ∉ grants this r)) ->
        evaluate_log this ctx
        = ({| allowed := false;
              reason := Some ("No role permission for action: " +:+ a);
              filters := None |}, []))
  /\ (forall (ctx : PolicyContext),
        truthy (action ctx) = false ->
        evaluate_log this ctx
        = evaluate_log {| policies := policies this; role_map := ∅ |} ctx).
Proof.
  assert (Hcheck : forall ctx a,
            checkRolePermissions this ctx a = true
            <-> exists r, reach this (roles ctx) r
                          /\ (a ∈ grants this r \/ "*" ∈ grants this r)).
  { intros ctx a. unfold checkRolePermissions. cbv zeta.
    rewrite orb_true_iff, !includes_elem_of, !effective_permission_iff. split.
    - intros [(r & Hr & Hg) | (r & Hr & Hg)]; exists r; tauto.
    - intros (r & Hr & [Hg | Hg]); [left | right]; by exists r. }
  split; [exact Hcheck | split].
  - intros ctx a Ha Hs Hact Hne Hnone. unfold evaluate_log.
    apply includes_not_In in Ha, Hs. rewrite Ha, Hs. cbn [orb].
    rewrite Hact. cbn [default]. unfold id.
    assert (Ht : truthy (Some a) = true) by (by destruct a).
    rewrite Ht.
    destruct (checkRolePermissions this ctx a) eqn:Hc; [| reflexivity].
    apply Hcheck in Hc as (r & Hr & Hg). destruct (Hnone r Hr). tauto.
  - intros ctx Ht. unfold evaluate_log. by rewrite Ht.
Qed.

End RolePermissions.

(** ** spec-linker.ts *)

Section LinkerSoundness.
Import JsValue Linker.

Lemma forEach_nil {A E : Type} (l : list A) (body : A -> list E) :
  forEach l body = [] <-> forall x, In x l -> body x = [].
Proof.
  rewrite forEach_flat_map. induction l as [| x l IH]; cbn [flat_map].
  - split; [by intros _ ? [] | done].
  - split.
    + intros H. apply app_eq_nil in H as [H1 H2]. intros y [<- | Hy]; [done |].
      by apply IH.
    + intros H. rewrite (H x (or_introl eq_refl)). cbn [app].
      apply IH. intros y Hy. apply H. by right.
Qed.

Lemma forEachOpt_nil {A E : Type} (l : option (list A)) (body : A -> list E) :
  forEachOpt l body = [] <-> forall x, In x (default [] l) -> body x = [].
Proof.
  destruct l as [l |]; cbn [forEachOpt default]; [apply forEach_nil |].
  split; [by intros _ ? [] | done].
Qed.

Lemma forEachTry_nil {A E : Type} (l : list A) (body : A -> option (list E)) :
  forEachTry l body = Some [] <-> forall x, In x l -> body x = Some [].
Proof.
  induction l as [| x l IH]; cbn [forEachTry].
  - split; [by intros _ ? [] | done].
  - split.
    + intros H. destruct (body x) as [pushed |] eqn:Hx; [| done]. cbn in H.
      destruct (forEachTry l body) as [later |]; [| done]. cbn in H.
      apply (inj Some), app_eq_nil in H as [-> ->].
      intros y [<- | Hy]; [done |]. by apply IH.
    + intros H. rewrite (H x (or_introl eq_refl)). cbn.
      rewrite (proj2 IH); [done |]. intros y Hy. apply H. by right.
Qed.

(** A loop throws exactly when one of its iterations does. *)
Lemma forEachTry_None {A E : Type} (l : list A) (body : A -> option (list E)) :
  forEachTry l body = None <-> exists x, In x l /\ body x = None.
Proof.
  induction l as [| x l IH]; cbn [forEachTry].
  - split; [done | by intros (? & [] & _)].
  - destruct (body x) as [pushed |] eqn:Hx; cbn.
    + destruct (forEachTry l body) as [later |]; cbn.
      * split; [done |]. intros (y & [<- | Hy] & Hn); [congruence |].
        destruct IH as [_ IH]. by discriminate IH; exists y.
      * split; [| done]. intros _. destruct IH as [(y & Hy & Hn) _]; [done |].
        exists y. split; [by right | done].
    + split; [| done]. intros _. exists x. split; [by left | done].
Qed.

Lemma pushIf_nil {E : Type} (c : bool) (e : E) : pushIf c e = [] <-> c = false.
Proof. by destruct c. Qed.

Lemma checkNamed_nil {E : Type} (x : option string) (exists_ : string -> bool)
    (e : string -> E) :
  checkNamed x exists_ e = []
  <-> forall n, x = Some n -> n <> EmptyString -> exists_ n = true.
Proof.
  destruct x as [n |]; cbn [checkNamed]; [| split; [by intros _ ? [=] | done]].
  rewrite pushIf_nil. split.
  - intros H m [= <-] Hne. destruct n; [done |]. cbn in H. by destruct (exists_ _).
  - intros H. destruct n; [done |]. cbn. rewrite H; done.
Qed.

Lemma hasKey_true {A : Type} (d : list (string * A)) (k : string) :
  hasKey d k = true <-> found d k.
Proof.
  unfold hasKey, found.
  by rewrite orb_true_iff, bool_decide_eq_true, isInherited_In.
Qed.

Lemma has_true {A : Type} (d : option (list (string * A))) (k : string) :
  has d k = true <-> foundIn d k.
Proof.
  unfold foundIn. destruct d as [d |]; cbn [has].
  - rewrite hasKey_true. split; [by exists d | by intros (? & [= <-] & ?)].
  - split; [done | by intros (? & [=] & _)].
Qed.

(** [link] throws exactly when a field refers to something that is not an
    entity of the spec and is a member of [Object.prototype]. *)
Lemma link_throws (now : string) (spec : Spec.t) :
  link now spec = None
  <-> exists E entity F field reference,
        In (E, entity) (Spec.entities spec)
        /\ In (F, field) (EntitySpec.fields entity)
        /\ FieldSpec.reference field = Some reference
        /\ lookup (Reference.entity reference) (Spec.entities spec) = None
        /\ In (Reference.entity reference) objectPrototype.
Proof.
  split.
  - intros H.
    assert (Hv : validateEntityReferences spec = None).
    { destruct (validateEntityReferences spec) as [entityErrors |] eqn:Hent; [| done].
      destruct (link_returns_after now spec entityErrors Hent) as [r Hr]. congruence. }
    unfold validateEntityReferences in Hv.
    apply forEachTry_None in Hv as ([E entity] & HE & Hb). cbn beta iota in Hb.
    destruct (forEachTry (EntitySpec.fields entity) _) as [fieldErrors |] eqn:Hf;
      [done |].
    apply forEachTry_None in Hf as ([F field] & HF & Hb'). cbn beta iota in Hb'.
    destruct (FieldSpec.reference field) as [reference |] eqn:Href; [| done].
    destruct (lookup _ _) eqn:Hl; [done |].
    destruct (isInherited _) eqn:Hi; [| done].
    exists E, entity, F, field, reference. by rewrite <- isInherited_In.
  - intros (E & entity & F & field & reference & HE & HF & Href & Hl & Hi).
    destruct (link now spec) as [r |] eqn:Hr; [| done]. exfalso.
    apply link_Some in Hr as (entityErrors & Hent & _).
    unfold validateEntityReferences in Hent.
    apply forEachTry_Some in Hent as [Hall _].
    destruct (Hall _ HE) as [pushed Hp]. cbn beta iota in Hp.
    destruct (forEachTry (EntitySpec.fields entity) _) as [fieldErrors |] eqn:Hf;
      [| done].
    apply forEachTry_Some in Hf as [Hall' _].
    destruct (Hall' _ HF) as [pushed' Hp']. cbn beta iota in Hp'.
    apply isInherited_In in Hi. by rewrite Href, Hl, Hi in Hp'.
Qed.

(** What the absence of errors means for each group of checks. *)
Lemma link_valid (now : string) (spec : Spec.t) (r : LinkResult) :
  link now spec = Some r ->
  valid r = true ->
  validateEntityReferences spec = Some []
  /\ validateActionReferences spec = []
  /\ validateFlowReferences spec = []
  /\ validatePolicyReferences spec = []
  /\ validateUiReferences spec = []
  /\ validateJobReferences spec = []
  /\ checkInvariants spec = [].
Proof.
  intros Hr Hv.
  destruct (link_Some _ _ _ Hr) as (entityErrors & Hent & He & _ & Hvalid & _).
  rewrite Hvalid in Hv. apply bool_decide_eq_true in Hv. rewrite Hv in He.
  symmetry in He.
  repeat (apply app_eq_nil in He as [? He] || apply app_eq_nil in He as [He ?]).
  repeat match goal with H : _ ++ _ = [] |- _ => apply app_eq_nil in H as [? ?] end.
  subst. done.
Qed.

Lemma negb_false {b : bool} : negb b = false <-> b = true.
Proof. by destruct b. Qed.

(** X14.  What a successful [link] guarantees about the entities.  Every
    field reference names an entity of the spec, a key of [spec.entities],
    and the referenced field ([id] when the reference names none, or names
    the empty string) is found in the fields of that entity: it is one of
    them or, failing that, the name of a member of [Object.prototype].
    Every relation has a target that is found in [spec.entities] in the same
    sense, and so is its [through] table when it names one. *)
Theorem linked_entities_resolve (now : string) (spec : Spec.t) (r : LinkResult) :
  link now spec = Some r ->
  valid r = true ->
  (forall E entity F field reference,
     In (E, entity) (Spec.entities spec) ->
     In (F, field) (EntitySpec.fields entity) ->
     FieldSpec.reference field = Some reference ->
     exists targetEntity,
       lookup (Reference.entity reference) (Spec.entities spec) = Some targetEntity
       /\ found (EntitySpec.fields targetEntity)
                (Obj.orElse (Reference.field reference) "id"))
  /\ (forall E entity R relation,
        In (E, entity) (Spec.entities spec) ->
        In (R, relation) (default [] (EntitySpec.relations entity)) ->
        found (Spec.entities spec) (RelationSpec.target relation)
        /\ forall through,
             RelationSpec.through relation = Some through ->
             through <> EmptyString ->
             found (Spec.entities spec) through).
Proof.
  intros Hr Hv. destruct (link_valid now spec r Hr Hv) as (He & _).
  unfold validateEntityReferences in He. rewrite forEachTry_nil in He.
  assert (Hent : forall E entity, In (E, entity) (Spec.entities spec) ->
            forEachTry (EntitySpec.fields entity) (fun '(fieldName, field) =>
              match FieldSpec.reference field with
              | Some reference =>
                  match lookup (Reference.entity reference) (Spec.entities spec) with
                  | Some targetEntity =>
                      let targetField := Obj.orElse (Reference.field reference) "id" in
                      Some (pushIf (negb (hasKey (EntitySpec.fields targetEntity) targetField))
                              (missing
                                 ("Field " +:+ q targetField +:+ " in entity "
                                  +:+ q (Reference.entity reference) +:+ " does not exist")
                                 ("entities." +:+ E +:+ ".fields." +:+ fieldName)
                                 ("entities." +:+ Reference.entity reference
                                  +:+ ".fields." +:+ targetField)))
                  | None =>
                      if isInherited (Reference.entity reference) then None
                      else
                        Some [missing
                                ("Entity " +:+ q (Reference.entity reference)
                                 +:+ " referenced by field " +:+ q fieldName
                                 +:+ " does not exist")
                                ("entities." +:+ E +:+ ".fields." +:+ fieldName)
                                ("entities." +:+ Reference.entity reference)]
                  end
              | None => Some []
              end) = Some []
            /\ forEachOpt (EntitySpec.relations entity) (fun '(relName, relation) =>
                 pushIf (negb (hasKey (Spec.entities spec) (RelationSpec.target relation)))
                   (missing
                      ("Relation target " +:+ q (RelationSpec.target relation)
                       +:+ " does not exist")
                      ("entities." +:+ E +:+ ".relations." +:+ relName)
                      ("entities." +:+ RelationSpec.target relation))
                 ++
                 match RelationSpec.through relation with
                 | Some through =>
                     pushIf (negb (JsString.isEmpty through)
                             && negb (hasKey (Spec.entities spec) through))
                       (missing
                          ("Through table " +:+ q through +:+ " does not exist")
                          ("entities." +:+ E +:+ ".relations." +:+ relName)
                          ("entities." +:+ through))
                 | None => []
                 end) = []).
  { intros E entity HE. specialize (He _ HE). cbn beta iota in He.
    destruct (forEachTry (EntitySpec.fields entity) _) as [fieldErrors |]; [| done].
    cbn [mbind option_bind] in He.
    apply (inj Some), app_eq_nil in He as [-> ->]. done. }
  split.
  - intros E entity F field reference HE HF Href.
    destruct (Hent _ _ HE) as [Hf _]. rewrite forEachTry_nil in Hf.
    specialize (Hf _ HF). cbn beta iota in Hf. rewrite Href in Hf.
    destruct (lookup (Reference.entity reference) (Spec.entities spec))
      as [targetEntity |]; [| by destruct (isInherited _)].
    exists targetEntity. split; [done |]. cbv zeta in Hf.
    apply (inj Some), pushIf_nil, negb_false in Hf. by apply hasKey_true.
  - intros E entity R relation HE HR.
    destruct (Hent _ _ HE) as [_ Hrel]. rewrite forEachOpt_nil in Hrel.
    specialize (Hrel _ HR). cbn beta iota in Hrel.
    apply app_eq_nil in Hrel as [H1 H2].
    apply pushIf_nil, negb_false, hasKey_true in H1. split; [done |].
    intros through Ht Hne. rewrite Ht in H2. apply pushIf_nil in H2.
    destruct through; [done |]. cbn [JsString.isEmpty negb andb] in H2.
    by apply negb_false, hasKey_true in H2.
Qed.

(** X15.  What a successful [link] guarantees about the flows: the initial
    step of a flow, when it names one, is found in the steps of that flow;
    every step shows a screen that is found in the screens of the UI; every
    transition leads to a step that is found in the same flow, and the
    action of a transition or of [on_enter], when there is one, is found in
    the actions of the spec.  A name is found in a dictionary when it is one
    of its keys or, failing that, the name of a member of
    [Object.prototype]; nothing is found in a dictionary that is absent. *)
Theorem linked_flows_resolve (now : string) (spec : Spec.t) (r : LinkResult) :
  link now spec = Some r ->
  valid r = true ->
  forall flowName flow,
    In (flowName, flow) (Spec.flows spec) ->
    (forall initial_step,
       FlowSpec.initial_step flow = Some initial_step ->
       initial_step <> EmptyString ->
       found (FlowSpec.steps flow) initial_step)
    /\ forall stepName step,
         In (stepName, step) (FlowSpec.steps flow) ->
         foundIn (UiSpec.screens (Spec.ui spec)) (StepSpec.screen step)
         /\ (forall transName transition,
               In (transName, transition) (default [] (StepSpec.transitions step)) ->
               found (FlowSpec.steps flow) (TransitionSpec.target transition)
               /\ forall action,
                    TransitionSpec.action transition = Some action ->
                    action <> EmptyString ->
                    found (Spec.actions spec) action)
         /\ (forall on_enter action,
               StepSpec.on_enter step = Some on_enter ->
               StepSpec.action on_enter = Some action ->
               action <> EmptyString ->
               found (Spec.actions spec) action).
Proof.
  intros Hr Hv flowName flow Hflow.
  destruct (link_valid now spec r Hr Hv) as (_ & _ & He & _).
  unfold validateFlowReferences in He. rewrite forEach_nil in He.
  specialize (He _ Hflow). cbn beta iota in He.
  apply app_eq_nil in He as [Hsteps Hinit]. split.
  - intros initial_step Hi Hne. rewrite checkNamed_nil in Hinit.
    by apply hasKey_true, Hinit.
  - intros stepName step Hstep. rewrite forEach_nil in Hsteps.
    specialize (Hsteps _ Hstep). cbn beta iota in Hsteps.
    apply app_eq_nil in Hsteps as [Hscreen Hrest].
    apply app_eq_nil in Hrest as [Htrans Henter].
    split; [| split].
    + by apply pushIf_nil, negb_false, has_true in Hscreen.
    + intros transName transition Ht. rewrite forEachOpt_nil in Htrans.
      specialize (Htrans _ Ht). cbn beta iota in Htrans.
      apply app_eq_nil in Htrans as [H1 H2].
      apply pushIf_nil, negb_false, hasKey_true in H1. split; [done |].
      intros action Ha Hne. rewrite checkNamed_nil in H2.
      by apply hasKey_true, H2.
    + intros on_enter action Ho Ha Hne. rewrite Ho in Henter.
      rewrite checkNamed_nil in Henter. by apply hasKey_true, Henter.
Qed.

(** X16.  What a successful [link] guarantees about the policies: every
    parent of a role is found in the roles, every action in a [can] list is
    found in the actions of the spec, every policy protects something that
    is found in the entities of the spec, and the AI rules name things found
    in the entities and in the actions of the spec.  A name is found in a
    dictionary when it is one of its keys or, failing that, the name of a
    member of [Object.prototype]. *)
Theorem linked_policies_resolve (now : string) (spec : Spec.t) (r : LinkResult) :
  link now spec = Some r ->
  valid r = true ->
  let roles := PoliciesSpec.roles (Spec.policies spec) in
  (forall roleName role,
     In (roleName, role) (default [] roles) ->
     (forall parent, In parent (default [] (RoleSpec.inherits role)) ->
                     foundIn roles parent)
     /\ (forall actionName, In actionName (default [] (RoleSpec.can role)) ->
                            found (Spec.actions spec) actionName))
  /\ (forall policyName policy,
        In (policyName, policy)
           (default [] (PoliciesSpec.policies (Spec.policies spec))) ->
        found (Spec.entities spec) (PolicySpec.resource policy))
  /\ (forall ai_rules,
        PoliciesSpec.ai_rules (Spec.policies spec) = Some ai_rules ->
        (forall entityName rules,
           In (entityName, rules) (default [] (PoliciesSpec.ai_entities ai_rules)) ->
           found (Spec.entities spec) entityName)
        /\ (forall actionName rules,
              In (actionName, rules) (default [] (PoliciesSpec.ai_actions ai_rules)) ->
              found (Spec.actions spec) actionName)).
Proof.
  intros Hr Hv. cbv zeta.
  destruct (link_valid now spec r Hr Hv) as (_ & _ & _ & He & _).
  unfold validatePolicyReferences in He. cbv zeta in He.
  apply app_eq_nil in He as [Hroles He].
  apply app_eq_nil in He as [Hpol Hai].
  split; [| split].
  - intros roleName role Hrole. rewrite forEachOpt_nil in Hroles.
    specialize (Hroles _ Hrole). cbn beta iota in Hroles.
    apply app_eq_nil in Hroles as [Hinh Hcan]. split.
    + intros parent Hp. rewrite forEachOpt_nil in Hinh.
      specialize (Hinh _ Hp). by apply pushIf_nil, negb_false, has_true in Hinh.
    + intros actionName Ha. rewrite forEachOpt_nil in Hcan.
      specialize (Hcan _ Ha). by apply pushIf_nil, negb_false, hasKey_true in Hcan.
  - intros policyName policy Hp. rewrite forEachOpt_nil in Hpol.
    specialize (Hpol _ Hp). cbn beta iota in Hpol.
    by apply pushIf_nil, negb_false, hasKey_true in Hpol.
  - intros ai_rules Hai_rules. rewrite Hai_rules in Hai.
    apply app_eq_nil in Hai as [H1 H2]. split.
    + intros entityName rules Hin. rewrite forEachOpt_nil in H1.
      specialize (H1 _ Hin). cbn beta iota in H1.
      by apply pushIf_nil, negb_false, hasKey_true in H1.
    + intros actionName rules Hin. rewrite forEachOpt_nil in H2.
      specialize (H2 _ Hin). cbn beta iota in H2.
      by apply pushIf_nil, negb_false, hasKey_true in H2.
Qed.

(** X17.  What a successful [link] guarantees about actions, screens and
    jobs: the entity, the triggered job and the required roles of an action
    are found; the entity and the load and submit actions of a screen are
    found; the triggers of a job are found in the actions of the spec, its
    queue is found in the queues unless it is [default], and its dead letter
    queue is found in the queues, [default] included.  A name is found in a
    dictionary when it is one of its keys or, failing that, the name of a
    member of [Object.prototype]; nothing is found in a dictionary that is
    absent. *)
Theorem linked_actions_screens_jobs_resolve (now : string) (spec : Spec.t)
    (r : LinkResult) :
  link now spec = Some r ->
  valid r = true ->
  (forall actionName action,
     In (actionName, action) (Spec.actions spec) ->
     (forall entity, ActionSpec.entity action = Some entity -> entity <> EmptyString ->
                     found (Spec.entities spec) entity)
     /\ (forall job, ActionSpec.triggers_job action = Some job -> job <> EmptyString ->
                     foundIn (JobsSpec.jobs (Spec.jobs spec)) job)
     /\ (forall auth role,
           ActionSpec.auth action = Some auth ->
           In role (default [] (ActionSpec.roles auth)) ->
           foundIn (PoliciesSpec.roles (Spec.policies spec)) role))
  /\ (forall screenName screen,
        In (screenName, screen) (default [] (UiSpec.screens (Spec.ui spec))) ->
        (forall entity, ScreenSpec.entity screen = Some entity -> entity <> EmptyString ->
                        found (Spec.entities spec) entity)
        /\ (forall action,
              ScreenSpec.load_action screen = Some action
              \/ ScreenSpec.submit_action screen = Some action ->
              action <> EmptyString ->
              found (Spec.actions spec) action))
  /\ (forall jobName job,
        In (jobName, job) (default [] (JobsSpec.jobs (Spec.jobs spec))) ->
        (forall queue, JobSpec.queue job = Some queue -> queue <> EmptyString ->
                       queue = "default"
                       \/ foundIn (JobsSpec.queues (Spec.jobs spec)) queue)
        /\ (forall queue, JobSpec.dead_letter_queue job = Some queue ->
                          queue <> EmptyString ->
                          foundIn (JobsSpec.queues (Spec.jobs spec)) queue)
        /\ (forall trigger, In trigger (default [] (JobSpec.triggers job)) ->
                            found (Spec.actions spec) trigger)).
Proof.
  intros Hr Hv.
  destruct (link_valid now spec r Hr Hv) as (_ & Hact & _ & _ & Hui & Hjobs & _).
  split; [| split].
  - intros actionName action Hin.
    unfold validateActionReferences in Hact. rewrite forEach_nil in Hact.
    specialize (Hact _ Hin). cbn beta iota in Hact.
    apply app_eq_nil in Hact as [H1 Hact]. apply app_eq_nil in Hact as [H2 H3].
    rewrite checkNamed_nil in H1, H2.
    split; [| split].
    + intros entity He Hne. by apply hasKey_true, H1.
    + intros job Hj Hne. by apply has_true, H2.
    + intros auth role Ha Hrole. rewrite Ha in H3. rewrite forEachOpt_nil in H3.
      specialize (H3 _ Hrole). cbn beta in H3.
      by apply pushIf_nil, negb_false, has_true in H3.
  - intros screenName screen Hin.
    unfold validateUiReferences in Hui. rewrite forEachOpt_nil in Hui.
    specialize (Hui _ Hin). cbn beta iota in Hui.
    apply app_eq_nil in Hui as [H1 Hui]. apply app_eq_nil in Hui as [H2 H3].
    rewrite checkNamed_nil in H1, H2, H3.
    split.
    + intros entity He Hne. by apply hasKey_true, H1.
    + intros action [Ha | Ha] Hne; apply hasKey_true; [by apply H2 | by apply H3].
  - intros jobName job Hin.
    unfold validateJobReferences in Hjobs. cbv zeta in Hjobs.
    rewrite forEachOpt_nil in Hjobs.
    specialize (Hjobs _ Hin). cbn beta iota in Hjobs.
    apply app_eq_nil in Hjobs as [H1 Hjobs]. apply app_eq_nil in Hjobs as [H2 H3].
    rewrite checkNamed_nil in H1, H2.
    split; [| split].
    + intros queue Hq Hne. specialize (H1 _ Hq Hne).
      apply orb_true_iff in H1 as [H1 | H1].
      * left. by apply String.eqb_eq.
      * right. by apply has_true.
    + intros queue Hq Hne. by apply has_true, H2.
    + intros trigger Ht. rewrite forEachOpt_nil in H3.
      specialize (H3 _ Ht). cbn beta in H3.
      by apply pushIf_nil, negb_false, hasKey_true in H3.
Qed.

Lemma Forall_forEach {A E : Type} (P : E -> Prop) (l : list A) (body : A -> list E) :
  (forall x, Forall P (body x)) -> Forall P (forEach l body).
Proof.
  intros H. rewrite forEach_flat_map.
  induction l as [| x l IH]; cbn [flat_map]; [constructor |].
  apply Forall_app. split; [apply H | exact IH].
Qed.

Lemma Forall_forEachOpt {A E : Type} (P : E -> Prop) (l : option (list A))
    (body : A -> list E) :
  (forall x, Forall P (body x)) -> Forall P (forEachOpt l body).
Proof. intros H. destruct l; [by apply Forall_forEach | constructor]. Qed.

Lemma Forall_forEachTry {A E : Type} (P : E -> Prop) (l : list A)
    (body : A -> option (list E)) (r : list E) :
  (forall x, Forall P (default [] (body x))) ->
  forEachTry l body = Some r -> Forall P r.
Proof.
  intros H Hr. apply forEachTry_Some in Hr as [_ ->].
  induction l as [| x l IH]; cbn [flat_map]; [constructor |].
  apply Forall_app. split; [apply H | exact IH].
Qed.

Lemma Forall_pushIf {E : Type} (P : E -> Prop) (c : bool) (e : E) :
  P e -> Forall P (pushIf c e).
Proof. intros H. destruct c; cbn; [by constructor | constructor]. Qed.

Lemma Forall_checkNamed {E : Type} (P : E -> Prop) x (exists_ : string -> bool)
    (e : string -> E) :
  (forall n, P (e n)) -> Forall P (checkNamed x exists_ e).
Proof. intros H. destruct x; cbn [checkNamed]; [by apply Forall_pushIf | constructor]. Qed.

Ltac missing_only :=
  repeat lazymatch goal with
  | |- Forall _ (_ ++ _) => apply Forall_app; split
  | |- Forall _ (forEach _ _) =>
      apply Forall_forEach; first [intros [? ?] | intros ?]; cbn beta iota
  | |- Forall _ (forEachOpt _ _) =>
      apply Forall_forEachOpt; first [intros [? ?] | intros ?]; cbn beta iota
  | |- Forall _ (checkNamed _ _ _) => apply Forall_checkNamed; intros ?
  | |- Forall _ (pushIf _ _) => apply Forall_pushIf
  | |- Forall _ [] => apply Forall_nil_2
  | |- Forall _ [_] => apply Forall_singleton
  | |- Forall _ (default [] (Some _)) => cbn [default]
  | |- Forall _ (default [] None) => apply Forall_nil_2
  | |- Forall _ (match ?x with _ => _ end) => destruct x
  | |- isMissing _ => split; [reflexivity | eexists; reflexivity]
  end.

Lemma entityErrors_missing (spec : Spec.t) (entityErrors : list LinkError) :
  validateEntityReferences spec = Some entityErrors -> Forall isMissing entityErrors.
Proof.
  unfold validateEntityReferences. apply Forall_forEachTry. intros [E entity].
  cbn beta iota.
  destruct (forEachTry (EntitySpec.fields entity) _) as [fieldErrors |] eqn:Hf;
    [| apply Forall_nil_2].
  cbn [mbind option_bind default]. apply Forall_app. split; [| missing_only].
  revert Hf. apply Forall_forEachTry. intros [F field]. cbn beta iota.
  destruct (FieldSpec.reference field) as [reference |]; [| apply Forall_nil_2].
  destruct (lookup _ _);
    [| destruct (isInherited (Reference.entity reference))];
    cbn [default]; unfold id; missing_only.
Qed.

(** X18.  The errors that [link] returns are of two kinds only: a
    [missing_reference] with a target, or an [invariant_violation] without
    one, and the latter only when the spec has both a journal entry and a
    journal line entity.  [link] never reports a [circular_reference] or an
    [invalid_relation]: neither a cycle of role inheritance nor the tenancy
    of an entity is an error. *)
Theorem link_error_kinds (now : string) (spec : Spec.t) (r : LinkResult)
    (e : LinkError) :
  link now spec = Some r ->
  In e (errors r) ->
  (type e = missing_reference /\ is_Some (target e))
  \/ (type e = invariant_violation /\ target e = None
      /\ is_Some (either (Spec.entities spec) "JournalEntry" "journal_entry")
      /\ is_Some (either (Spec.entities spec) "JournalLine" "journal_line")).
Proof.
  intros Hr. destruct (link_Some _ _ _ Hr) as (entityErrors & Hent & -> & _).
  intros Hin. apply in_app_or in Hin as [Hin | Hin].
  - left. revert e Hin. apply List.Forall_forall.
    change (Forall isMissing
              (entityErrors ++ validateActionReferences spec
               ++ validateFlowReferences spec ++ validatePolicyReferences spec
               ++ validateUiReferences spec ++ validateJobReferences spec)).
    apply Forall_app. split; [by apply (entityErrors_missing spec) |].
    unfold validateActionReferences,
      validateFlowReferences, validatePolicyReferences, validateUiReferences,
      validateJobReferences.
    cbv zeta. missing_only.
  - right. unfold checkInvariants in Hin.
    destruct (either (Spec.entities spec) "JournalEntry" "journal_entry");
      [| by destruct Hin].
    destruct (either (Spec.entities spec) "JournalLine" "journal_line");
      [| by destruct Hin].
    cbv zeta in Hin. apply in_app_or in Hin as [Hin | Hin];
      (destruct (_ : bool) in Hin; [| by destruct Hin]);
      destruct Hin as [<- | []]; cbn; eauto.
Qed.

Lemma existsb_eqb_In (x : string) (l : list string) :
  existsb (String.eqb x) l = true <-> In x l.
Proof.
  rewrite existsb_exists. split.
  - intros (y & Hy & He). apply String.eqb_eq in He. by subst.
  - intros H. exists x. split; [done | apply String.eqb_refl].
Qed.

Lemma setAdd_In (x y : string) (set : list string) :
  In y (setAdd x set) <-> In y set \/ y = x.
Proof.
  unfold setAdd. destruct (existsb (String.eqb x) set) eqn:E.
  - apply existsb_eqb_In in E. split; [tauto |]. intros [H | ->]; done.
  - rewrite in_app_iff. cbn [In]. split; [intros [H | [H | []]]; auto | ].
    intros [H | H]; auto.
Qed.

Lemma addTruthy_In (x : option string) (y : string) (set : list string) :
  In y (addTruthy x set) <-> In y set \/ (x = Some y /\ y <> EmptyString).
Proof.
  unfold addTruthy. destruct x as [s |]; cbn [Obj.truthy default].
  - destruct s as [| c s]; cbn [JsString.isEmpty negb].
    + split; [tauto |]. intros [H | [[= <-] H]]; done.
    + unfold id. rewrite setAdd_In. split.
      * intros [H | ->]; [by left | by right].
      * intros [H | [[= <-] _]]; [by left | by right].
  - split; [tauto |]. intros [H | [[=] _]]. done.
Qed.

Lemma fold_left_In {A : Type} (f : list string -> A -> list string)
    (Q : A -> string -> Prop) (l : list A) :
  (forall acc a y, In y (f acc a) <-> In y acc \/ Q a y) ->
  forall acc y, In y (fold_left f l acc) <-> In y acc \/ exists a, In a l /\ Q a y.
Proof.
  intros Hf. induction l as [| a l IH]; intros acc y; cbn [fold_left].
  - split; [tauto |]. intros [H | (a & [] & _)]. done.
  - rewrite IH, Hf. split.
    + intros [[H | H] | (b & Hb & HQ)]; [by left | |].
      * right. exists a. split; [by left | done].
      * right. exists b. split; [by right | done].
    + intros [H | (b & [<- | Hb] & HQ)]; [by left; left | by left; right |].
      right. by exists b.
Qed.

Lemma usedEntities_In (spec : Spec.t) (x : string) :
  In x (usedEntities spec) <-> referenced spec x.
Proof.
  unfold usedEntities. cbv zeta.
  rewrite (fold_left_In _ (fun kv y =>
    (exists fv reference,
       In fv (EntitySpec.fields (snd kv))
       /\ FieldSpec.reference (snd fv) = Some reference
       /\ Reference.entity reference = y)
    \/ (exists rv,
          In rv (default [] (EntitySpec.relations (snd kv)))
          /\ (RelationSpec.target (snd rv) = y
              \/ (RelationSpec.through (snd rv) = Some y /\ y <> EmptyString))))).
  2: { intros acc kv y.
       rewrite (fold_left_In _ (fun rv y =>
         RelationSpec.target (snd rv) = y
         \/ (RelationSpec.through (snd rv) = Some y /\ y <> EmptyString))).
       2: { intros acc' rv z. rewrite addTruthy_In, setAdd_In.
            split; [intros [[H | H] | H]; auto | intros [H | [H | H]]; auto]. }
       rewrite (fold_left_In _ (fun fv y =>
         exists reference, FieldSpec.reference (snd fv) = Some reference
                           /\ Reference.entity reference = y)).
       2: { intros acc' fv z. destruct (FieldSpec.reference (snd fv)) as [r |].
            - rewrite setAdd_In. split.
              + intros [H | ->]; [by left | right; by exists r].
              + intros [H | (r' & [= <-] & <-)]; [by left | by right].
            - split; [tauto |]. intros [H | (r' & [=] & _)]. done. }
       split.
       - intros [[H | (fv & Hfv & r & Hr & Hy)] | (rv & Hrv & H)];
           [by left | right; left; by exists fv, r | right; right; by exists rv].
       - intros [H | [(fv & r & Hfv & Hr & Hy) | (rv & Hrv & H)]];
           [by left; left | left; right; exists fv; split; [done | by exists r]
           | right; by exists rv]. }
  rewrite (fold_left_In _ (fun kv y =>
    ScreenSpec.entity (snd kv) = Some y /\ y <> EmptyString)).
  2: { intros acc kv y. apply addTruthy_In. }
  rewrite (fold_left_In _ (fun kv y =>
    ActionSpec.entity (snd kv) = Some y /\ y <> EmptyString)).
  2: { intros acc kv y. apply addTruthy_In. }
  unfold referenced. split.
  - intros [[[[] | ([n a] & Hin & He & Hne)] | ([n s] & Hin & He & Hne)]
           | ([E entity] & Hin & [([F field] & r & HF & Hr & Hy) | ([R rel] & HR & H)])].
    + left. by exists n, a.
    + right. left. by exists n, s.
    + right. right. left. by exists E, entity, F, field, r.
    + right. right. right. by exists E, entity, R, rel.
  - intros [(n & a & Hin & He & Hne) | [(n & s & Hin & He & Hne)
           | [(E & entity & F & field & r & HE & HF & Hr & Hy)
           | (E & entity & R & rel & HE & HR & H)]]].
    + left. left. right. by exists (n, a).
    + left. right. by exists (n, s).
    + right. exists (E, entity). split; [done |]. left. by exists (F, field), r.
    + right. exists (E, entity). split; [done |]. right. by exists (R, rel).
Qed.

(** The warnings of [checkUnused], entity by entity, in the order of the
    entities. *)
Lemma checkUnused_filter (spec : Spec.t) :
  checkUnused spec
  = map unusedEntity
      (List.filter (fun E => negb (existsb (String.eqb E) (usedEntities spec)))
                   (map fst (Spec.entities spec))).
Proof.
  unfold checkUnused. cbv zeta. rewrite forEach_flat_map.
  induction (Spec.entities spec) as [| [E entity] l IH]; [done |].
  cbn [flat_map map List.filter fst]. rewrite IH.
  by destruct (negb _).
Qed.

(** X19.  When [link] returns, its warnings are exactly the [unused]
    warnings of the entities that nothing uses, one for each such entity of
    [spec.entities], in the order of the entities; a use is the entity of an
    action or of a screen, the entity of a field reference, or the target or
    the [through] table of a relation, of any entity, itself included; a
    policy or a flow does not count.  Warnings do not block: [valid] is true
    exactly when there is no error. *)
Theorem unused_entities_warned (now : string) (spec : Spec.t) (r : LinkResult) :
  link now spec = Some r ->
  (exists unused_ : string -> bool,
     (forall E, unused_ E = true <-> ~ referenced spec E)
     /\ warnings r
        = map unusedEntity (List.filter unused_ (map fst (Spec.entities spec))))
  /\ (forall w, In w (warnings r)
                <-> exists E entity, In (E, entity) (Spec.entities spec)
                                     /\ ~ referenced spec E /\ w = unusedEntity E)
  /\ (valid r = true <-> errors r = []).
Proof.
  intros Hr. destruct (link_Some _ _ _ Hr) as (_ & _ & _ & Hw & Hv & _).
  assert (Hu : forall E, negb (existsb (String.eqb E) (usedEntities spec)) = true
                         <-> ~ referenced spec E).
  { intros E. rewrite <- usedEntities_In, <- existsb_eqb_In.
    by destruct (existsb _ _). }
  split; [| split].
  - exists (fun E => negb (existsb (String.eqb E) (usedEntities spec))).
    split; [exact Hu |]. by rewrite Hw, checkUnused_filter.
  - intros w. rewrite Hw, checkUnused_filter, in_map_iff. split.
    + intros (E & <- & Hin). apply filter_In in Hin as [Hin HE].
      apply in_map_iff in Hin as ([E' entity] & <- & Hin).
      exists E', entity. split; [done |]. split; [by apply Hu | done].
    + intros (E & entity & HE & Hn & ->). exists E. split; [done |].
      apply filter_In. split; [| by apply Hu].
      apply in_map_iff. by exists (E, entity).
  - rewrite Hv. apply bool_decide_eq_true.
Qed.

End LinkerSoundness.

(** ** spec-validator.ts *)

Section ValidatorRules.
Import JsValue Validator.

(** [validate], with the errors of the schemas set apart. *)
Lemma validate_eq (this : SpecValidator) (spec : Spec.t) (options : Options) :
  validate this spec options
  = let rules :=
      if bool_decide (effectiveProfile spec options = prod)
         || bool_decide (is_Some (effectiveConfig spec options))
      then validateProductionRules spec
             (default ProfileConfig.empty (effectiveConfig spec options))
      else ([], []) in
    let errors := schemaErrors this spec ++ fst rules in
    {| valid := (length errors =? 0)%nat;
       errors := errors;
       warnings := snd rules ++ (if Obj.isTrue (strict options)
                                 then validateStrictRules spec else []) |}.
Proof.
  unfold validate, effectiveConfig, effectiveProfile. cbv zeta.
  fold (schemaErrors this spec).
  destruct (bool_decide _ || bool_decide _).
  - destruct (validateProductionRules spec _) as [es ws]. cbn [fst snd].
    destruct (Obj.isTrue (strict options)); by rewrite ?app_nil_r.
  - cbn [fst snd app]. rewrite app_nil_r.
    by destruct (Obj.isTrue (strict options)).
Qed.

Lemma schemaErrors_schemaPath (this : SpecValidator) (spec : Spec.t) :
  Forall (fun e => is_Some (schemaPath e)) (schemaErrors this spec).
Proof.
  unfold schemaErrors.
  repeat (apply Forall_app; split);
    try (apply Forall_forEach; intros [? ?]);
    apply List.Forall_forall; intros e He;
    by apply validateSchema_schemaPath in He.
Qed.

Lemma schemaErrors_unloaded (this : SpecValidator) (spec : Spec.t) :
  (forall name, getSchema this name = None) -> schemaErrors this spec = [].
Proof.
  intros Hnone. unfold schemaErrors, validateSchema. rewrite !Hnone. cbn [app].
  assert (Hf : forall (A : Type) (l : list (string * A)),
            Linker.forEach l (fun '(_, _) => @nil ValidationError) = []).
  { intros A l. apply forEach_nil. by intros [? ?]. }
  by rewrite !Hf.
Qed.

(** X20.  The strict mode only adds warnings: the errors and [valid] do not
    depend on the [strict] option, and the warnings of a strict run are
    those of the run without it followed by the warnings of
    [validateStrictRules]. *)
Theorem strict_only_adds_warnings (this : SpecValidator) (spec : Spec.t)
    (profile : option Profile) (strict1 strict2 : option bool) :
  let options1 := {| strict := strict1; opt_profile := profile |} in
  let options2 := {| strict := strict2; opt_profile := profile |} in
  errors (validate this spec options1) = errors (validate this spec options2)
  /\ valid (validate this spec options1) = valid (validate this spec options2)
  /\ warnings (validate this spec {| strict := Some true; opt_profile := profile |})
     = warnings (validate this spec {| strict := None; opt_profile := profile |})
       ++ validateStrictRules spec.
Proof.
  cbv zeta. rewrite !validate_eq. cbv zeta.
  unfold effectiveConfig, effectiveProfile. cbn [opt_profile strict errors valid warnings].
  split; [done |]. split; [done |]. cbn [Obj.isTrue default]. by rewrite app_nil_r.
Qed.

(** X21.  When the profile in force ([options.profile], else the profile of
    the product) is [dev] and the product has no configuration block for
    it, the production rules are not applied: the errors are those of the
    schemas, each with its [schemaPath], and the warnings are those of the
    strict mode, if it is on.  A validator that found none of its schema
    files then accepts every spec. *)
Theorem dev_profile_checks_schemas_only (this : SpecValidator) (spec : Spec.t)
    (options : Options) :
  effectiveProfile spec options = dev ->
  effectiveConfig spec options = None ->
  errors (validate this spec options) = schemaErrors this spec
  /\ Forall (fun e => is_Some (schemaPath e)) (errors (validate this spec options))
  /\ warnings (validate this spec options)
     = (if Obj.isTrue (strict options) then validateStrictRules spec else [])
  /\ ((forall name, getSchema this name = None) ->
      valid (validate this spec options) = true
      /\ errors (validate this spec options) = []).
Proof.
  intros Hp Hc. rewrite validate_eq. cbv zeta. rewrite Hp, Hc.
  cbn [bool_decide orb fst snd errors warnings valid app].
  assert (Hb : bool_decide (dev = prod) || bool_decide (is_Some (@None ProfileConfig.t))
               = false) by reflexivity.
  rewrite Hb. cbn [fst snd app]. rewrite app_nil_r.
  split; [done |]. split; [apply schemaErrors_schemaPath |]. split; [done |].
  intros Hnone. by rewrite schemaErrors_unloaded.
Qed.

(** X22.  With [require_idempotency: false] in the configuration block of
    the profile in force, production included, no idempotency error is
    reported: the errors are those of the schemas, and a validator that found
    none of its schema files accepts the spec. *)
Theorem idempotency_rule_can_be_switched_off (this : SpecValidator) (spec : Spec.t)
    (options : Options) (profileConfig : ProfileConfig.t) :
  effectiveConfig spec options = Some profileConfig ->
  ProfileConfig.require_idempotency profileConfig = Some false ->
  errors (validate this spec options) = schemaErrors this spec
  /\ Forall (fun e => is_Some (schemaPath e)) (errors (validate this spec options))
  /\ ((forall name, getSchema this name = None) ->
      valid (validate this spec options) = true).
Proof.
  intros Hc Hi. rewrite validate_eq. cbv zeta. rewrite Hc.
  assert (Hb : bool_decide (effectiveProfile spec options = prod)
               || bool_decide (is_Some (Some profileConfig)) = true).
  { apply orb_true_iff. right. by apply bool_decide_eq_true. }
  rewrite Hb. cbn [default]. unfold id.
  unfold validateProductionRules. rewrite Hi. cbn [bool_decide negb fst errors valid].
  assert (Hd : negb (bool_decide (Some false = Some false)) = false)
    by (by rewrite bool_decide_eq_true_2).
  rewrite Hd. cbn [fst]. rewrite app_nil_r.
  split; [done |]. split; [apply schemaErrors_schemaPath |].
  intros Hnone. by rewrite schemaErrors_unloaded.
Qed.

Lemma referencedScreens_In (spec : Spec.t) (x : string) :
  In x (fold_left (fun set kv =>
                     fold_left (fun set sv => Linker.setAdd (StepSpec.screen (snd sv)) set)
                               (FlowSpec.steps (snd kv)) set)
                  (Spec.flows spec) [])
  <-> shown spec x.
Proof.
  rewrite (fold_left_In _ (fun kv y =>
             exists sv, In sv (FlowSpec.steps (snd kv)) /\ StepSpec.screen (snd sv) = y)).
  2: { intros acc kv y.
       rewrite (fold_left_In _ (fun sv y => StepSpec.screen (snd sv) = y)); [done |].
       intros acc' sv z. rewrite setAdd_In. split; intros [H | H]; auto. }
  unfold shown. split.
  - intros [[] | ([n flow] & Hf & ([s step] & Hs & Hx))]. by exists n, flow, s, step.
  - intros (n & flow & s & step & Hf & Hs & Hx). right.
    exists (n, flow). split; [done |]. by exists (s, step).
Qed.

(** X23.  The warnings of [validateStrictRules] are exactly: one for each
    entity and one for each action whose description is missing or empty,
    and one for each screen of the UI that no step of any flow shows. *)
Theorem strict_warnings (spec : Spec.t) (w : ValidationWarning) :
  In w (validateStrictRules spec)
  <-> (exists name entity,
         In (name, entity) (Spec.entities spec)
         /\ Obj.truthy (EntitySpec.description entity) = false
         /\ w = noDescription ("entities." +:+ name) "Entity")
      \/ (exists name action,
            In (name, action) (Spec.actions spec)
            /\ Obj.truthy (ActionSpec.description action) = false
            /\ w = noDescription ("actions." +:+ name) "Action")
      \/ (exists screenName screen,
            In (screenName, screen) (default [] (UiSpec.screens (Spec.ui spec)))
            /\ ~ shown spec screenName
            /\ w = orphanScreen screenName).
Proof.
  unfold validateStrictRules. rewrite !in_app_iff. cbv zeta.
  assert (Hpush : forall (c : bool) (e : ValidationWarning),
            In w (Linker.pushIf c e) <-> c = true /\ w = e).
  { intros [|] e; cbn.
    - split; [intros [<- | []]; done | intros [_ ->]; by left].
    - split; [done | by intros [? _]]. }
  assert (Hfe : forall (A : Type) (l : list (string * A)) body,
            In w (Linker.forEach l body) <-> exists x, In x l /\ In w (body x)).
  { intros A l body. rewrite forEach_flat_map. apply in_flat_map. }
  rewrite !Hfe.
  split.
  - intros [([n e] & Hin & Hw) | [([n a] & Hin & Hw) | ([n s] & Hin & Hw)]];
      cbn beta iota in Hw; apply Hpush in Hw as [Hc ->].
    + left. exists n, e. split; [done |]. split; [by destruct (Obj.truthy _) | done].
    + right. left. exists n, a. split; [done |].
      split; [by destruct (Obj.truthy _) | done].
    + right. right. exists n, s. split; [done |]. split; [| done].
      intros Hs. apply referencedScreens_In, existsb_eqb_In in Hs.
      rewrite Hs in Hc. done.
  - intros [(n & e & Hin & Hd & ->) | [(n & a & Hin & Hd & ->) | (n & s & Hin & Hs & ->)]].
    + left. exists (n, e). split; [done |]. cbn beta iota. apply Hpush. by rewrite Hd.
    + right. left. exists (n, a). split; [done |]. cbn beta iota. apply Hpush.
      by rewrite Hd.
    + right. right. exists (n, s). split; [done |]. cbn beta iota. apply Hpush.
      split; [| done]. apply negb_true_iff. apply not_true_is_false.
      intros Hc. apply Hs. by apply referencedScreens_In, existsb_eqb_In.
Qed.

End ValidatorRules.

Section ComparisonFacts.
Import JsString JsValue Conditions.

Context {engine : Engine}.

Lemma evalComparison_skip (ops rest : list operator) (expr : string) ctx :
  forallb (fun op => negb (includes (spaced op) expr)) ops = true ->
  evalComparison (ops ++ rest) expr ctx = evalComparison rest expr ctx.
Proof.
  induction ops as [| op ops IH]; intros H; [done |].
  cbn [forallb] in H. apply andb_true_iff in H as [H1 H2].
  apply negb_true_iff in H1. cbn [app evalComparison].
  unfold spaced in H1. rewrite H1. by apply IH.
Qed.

Lemma operators_split (op : operator) :
  exists later, operators = before op ++ op :: later.
Proof. destruct op; eexists; reflexivity. Qed.

Lemma drop_append (a b : string) : drop (String.length a) (a +:+ b) = b.
Proof. induction a as [| c a IH]; [done |]. rewrite append_cons. cbn. exact IH. Qed.

Lemma resolveValue_quoted (q s : string) ctx :
  q = singleQuote \/ q = doubleQuote ->
  resolveValue (q +:+ s +:+ q) ctx = Some (literal (VStr s)).
Proof.
  intros Hq.
  assert (Hlen : String.length q = 1%nat) by (destruct Hq; subst; reflexivity).
  assert (Htrim : trim (q +:+ s +:+ q) = q +:+ s +:+ q).
  { unfold trim.
    assert (Hs : trimStart (q +:+ s +:+ q) = q +:+ s +:+ q)
      by (destruct Hq; subst; reflexivity).
    rewrite Hs. rewrite <- append_assoc. apply trimEnd_append.
    - destruct Hq; subst; discriminate.
    - destruct Hq; subst; reflexivity. }
  unfold resolveValue. rewrite Htrim.
  assert (Hquoted : isQuoted q (q +:+ s +:+ q) = true).
  { unfold isQuoted. rewrite startsWith_append. cbn [andb].
    unfold endsWith. rewrite !length_append, Hlen.
    apply andb_true_iff. split; [apply Nat.leb_le; lia |].
    replace (1 + (String.length s + 1) - 1)%nat
      with (String.length (q +:+ s)) by (rewrite length_append; lia).
    rewrite <- append_assoc, drop_append. apply String.eqb_refl. }
  assert (Hslice : slice_1_m1 (q +:+ s +:+ q) = s).
  { unfold slice_1_m1. rewrite !length_append, Hlen.
    replace (drop 1 (q +:+ s +:+ q)) with (s +:+ q)
      by (destruct Hq; subst; reflexivity).
    replace (1 + (String.length s + 1) - 2)%nat with (String.length s) by lia.
    apply take_append. }
  rewrite Hslice.
  destruct Hq; subst q; rewrite Hquoted; by rewrite ?orb_true_r.
Qed.

(** X24.  A comparison [l op r], where [op] is one of [!=], [<=], [>=],
    [=], [<], [>] between blanks, evaluates to [compareValues] of the two
    resolved operands, and to false when resolving an operand or converting
    it to a number throws, provided that the operands are not empty and have
    no surrounding white space, that none of the earlier cases applies
    ([AND], [OR], a leading [NOT], [IS NULL], [IS NOT NULL], [IN], or an
    operator that is tried before [op]), and that the [op] written is the
    only one.  A text between two single quotes, or two double quotes,
    resolves to that text as it stands, whatever it contains. *)
Theorem comparison_evaluates :
  (forall (l r : string) (op : operator) (ctx : ConditionContext),
     let e := l +:+ spaced op +:+ r in
     trim l = l -> l <> EmptyString -> trim r = r -> r <> EmptyString ->
     noLogic e = true ->
     forallb (fun op' => negb (includes (spaced op') e)) (before op) = true ->
     includes (spaced op) (l +:+ take (String.length (spaced op) - 1) (spaced op))
     = false ->
     includes (spaced op) r = false ->
     evaluateCondition e ctx
     = caught (leftValue ← resolveValue l ctx;
               rightValue ← resolveValue r ctx;
               compareValues leftValue rightValue op))
  /\ (forall (s : string) (ctx : ConditionContext),
        resolveValue (singleQuote +:+ s +:+ singleQuote) ctx
        = Some (literal (VStr s))
        /\ resolveValue (doubleQuote +:+ s +:+ doubleQuote) ctx
           = Some (literal (VStr s))).
Proof.
  split.
  - intros l r op ctx e Hl Hle Hr Hre Hlogic Hbefore Hfirst Hlast.
    assert (Ht : trim e = e) by (by apply trim_append).
    unfold evaluateCondition. cbn [evaluateCondition_fuel]. rewrite Ht.
    unfold noLogic in Hlogic.
    repeat (apply andb_true_iff in Hlogic as [Hlogic ?]).
    repeat match goal with
           | H : negb _ = true |- _ => apply negb_true_iff in H; rewrite H; clear H
           end.
    destruct (operators_split op) as [later ->].
    rewrite evalComparison_skip by done.
    cbn [evalComparison]. fold (spaced op).
    assert (Hin : includes (spaced op) e = true) by apply includes_append.
    rewrite Hin. subst e.
    rewrite split_first; [| by destruct op | done].
    rewrite split_absent by done. cbn [map default].
    by rewrite Hl, Hr.
  - intros s ctx. split; apply resolveValue_quoted; auto.
Qed.

End ComparisonFacts.

(** ** commands/validate.ts and commands/generate.ts *)

Section CommandFacts.
Import JsValue Commands.

Lemma link_bundle (now : string) (spec : Spec.t) (r : Linker.LinkResult) :
  Linker.link now spec = Some r ->
  Linker.errors r = [] ->
  Linker.valid r = true
  /\ Linker.bundle r
     = Some {| SpecBundle.spec := spec;
               SpecBundle._meta :=
                 {| SpecBundle.version := ProductSpec.version (Spec.product spec);
                    SpecBundle.generated_at := now;
                    SpecBundle.hash := Linker.computeHash spec |} |}.
Proof.
  intros Hr He. apply link_Some in Hr as (_ & _ & _ & _ & Hv & Hb).
  rewrite Hb, Hv, He. by rewrite bool_decide_eq_true_2.
Qed.

Lemma link_refersToPrototype (now : string) (spec : Spec.t) :
  Linker.link now spec = None <-> Linker.refersToPrototype spec.
Proof. apply link_throws. Qed.

(** X25.  [validateCommand], once the spec is loaded, exits with status 1
    exactly when something throws (Ajv on a schema that does not compile,
    [link] on a field reference to a member of [Object.prototype] that is
    not an entity, or the file system on the write of the bundle), or the
    validator or the linker reports an error; and then it writes no bundle.
    Otherwise it returns normally, the validator found the spec valid, and
    the bundle written to the cache is the spec with the metadata of [link]
    (the version of the product, the time of the link and the hash of the
    spec): the bundle of the linker is never [null] at that point.  Warnings
    do not enter the decision.  [generateCommand] without a cache file then
    generates from this same bundle. *)
Theorem validate_command_gate (validator : Validator.SpecValidator) (now : string)
    (host : Host) (spec : Spec.t) (options : Validator.Options) :
  let run := validateCommand validator now host spec options in
  (exitCode run = Some 1
   <-> compiles host = false
       \/ Linker.refersToPrototype spec
       \/ Validator.errors (Validator.validate validator spec options) <> []
       \/ (exists r, Linker.link now spec = Some r /\ Linker.errors r <> [])
       \/ writable host = false)
  /\ (exitCode run = Some 1 -> written run = None)
  /\ (is_Some (reported run)
      <-> compiles host = false
          \/ Linker.refersToPrototype spec
          \/ (Validator.errors (Validator.validate validator spec options) = []
              /\ (exists r, Linker.link now spec = Some r /\ Linker.errors r = [])
              /\ writable host = false))
  /\ (exitCode run <> Some 1 ->
      exitCode run = None
      /\ Validator.valid (Validator.validate validator spec options) = true
      /\ written run
         = Some {| SpecBundle.spec := spec;
                   SpecBundle._meta :=
                     {| SpecBundle.version := ProductSpec.version (Spec.product spec);
                        SpecBundle.generated_at := now;
                        SpecBundle.hash := Linker.computeHash spec |} |}
      /\ bundleToGenerate None now spec
         = inl {| SpecBundle.spec := spec;
                  SpecBundle._meta :=
                    {| SpecBundle.version := ProductSpec.version (Spec.product spec);
                       SpecBundle.generated_at := now;
                       SpecBundle.hash := Linker.computeHash spec |} |}).
Proof.
  cbv zeta. unfold validateCommand.
  assert (Ho : {| Validator.strict := Validator.strict options;
                  Validator.opt_profile := Validator.opt_profile options |} = options)
    by (by destruct options).
  rewrite Ho. cbv zeta.
  pose proof (validate_eq validator spec options) as Heq. cbv zeta in Heq.
  assert (Hvalid : Validator.errors (Validator.validate validator spec options) = [] ->
                   Validator.valid (Validator.validate validator spec options) = true).
  { rewrite Heq. cbn [Validator.errors Validator.valid]. by intros ->. }
  clear Heq.
  pose proof (link_refersToPrototype now spec) as Hthrows.
  destruct (compiles host) eqn:Hc; cbn [negb].
  2: { cbn. split_and!; try done; split; try done; intros _; by left. }
  destruct (Linker.link now spec) as [r |] eqn:Hr.
  2: { assert (Hp : Linker.refersToPrototype spec) by (by apply Hthrows).
       cbn. split_and!; try done; split; try done; intros _; right; by left. }
  assert (Hnp : ~ Linker.refersToPrototype spec).
  { intros Hp. apply Hthrows in Hp. done. }
  pose proof (link_bundle now spec r Hr) as Hlink.
  destruct (Validator.errors (Validator.validate validator spec options)) as [| v ve];
    destruct (Linker.errors r) as [| l le] eqn:Hle;
    cbn [map app length Nat.ltb Nat.leb exitCode written reported].
  - destruct (Hlink eq_refl) as [Hv Hb]. rewrite Hb.
    rewrite bool_decide_eq_true_2 by done. cbn [andb].
    destruct (writable host) eqn:Hw; cbn [negb exitCode written reported validationCrashed].
    + split; [| split; [| split]].
      * split; [done |].
        intros [H | [H | [H | [(r' & [= <-] & H) | H]]]]; first [done | congruence].
      * done.
      * split; [by intros [? ?] |].
        intros [H | [H | (_ & _ & H)]]; done.
      * intros _. split; [done |]. split; [by apply Hvalid |]. split; [done |].
        unfold bundleToGenerate. by rewrite Hr, Hb, Hv.
    + split; [| split; [| split]].
      * split; [intros _; by do 4 right | done].
      * done.
      * split; [| by eexists]. intros _. right. right.
        split; [done |]. split; [| done]. by exists r.
      * done.
  - split; [| split; [| split]].
    + split; [| done]. intros _. do 3 right. left. exists r. by rewrite Hle.
    + done.
    + split; [by intros [? ?] |].
      intros [H | [H | (_ & (r' & [= <-] & H) & _)]]; first [done | congruence].
    + done.
  - split; [| split; [| split]].
    + split; [| done]. intros _. right. right. by left.
    + done.
    + split; [by intros [? ?] |]. intros [H | [H | (H & _)]]; done.
    + done.
  - split; [| split; [| split]].
    + split; [| done]. intros _. right. right. by left.
    + done.
    + split; [by intros [? ?] |]. intros [H | [H | (H & _)]]; done.
    + done.
Qed.

(** X26.  [generateCommand] does not validate.  Without a cache it hands the
    bundle of [link] to the generator, and it exits with status 1 exactly
    when [link] throws, on a field reference to a member of
    [Object.prototype] that is not an entity, or reports an error, whatever
    the validator would say: in the first case the spinner says
    [Generation failed], in the second [Spec validation failed].  With a
    cache it takes the cached bundle as it is and links nothing. *)
Theorem generate_gate :
  (forall (now : string) (spec : Spec.t),
     (forall bundle,
        bundleToGenerate None now spec = inl bundle
        <-> exists r, Linker.link now spec = Some r /\ Linker.bundle r = Some bundle)
     /\ (forall run,
           bundleToGenerate None now spec = inr run ->
           exitCode run = Some 1 /\ written run = None)
     /\ ((exists run, bundleToGenerate None now spec = inr run
                      /\ spinner run = "Generation failed")
         <-> Linker.refersToPrototype spec)
     /\ ((exists run, bundleToGenerate None now spec = inr run
                      /\ spinner run = "Spec validation failed")
         <-> exists r, Linker.link now spec = Some r /\ Linker.errors r <> []))
  /\ (forall (cached : SpecBundle.t) (now : string) (spec : Spec.t),
        bundleToGenerate (Some cached) now spec = inl cached)
  /\ (forall (validator : Validator.SpecValidator) (now : string) (host : Host)
             (spec : Spec.t) (options : Validator.Options) (r : Linker.LinkResult),
        compiles host = true ->
        Linker.link now spec = Some r ->
        Linker.errors r = [] ->
        Validator.errors (Validator.validate validator spec options) <> [] ->
        exitCode (validateCommand validator now host spec options) = Some 1
        /\ exists bundle, bundleToGenerate None now spec = inl bundle).
Proof.
  split; [| split; [done |]].
  - intros now spec. pose proof (link_refersToPrototype now spec) as Hthrows.
    unfold bundleToGenerate.
    destruct (Linker.link now spec) as [r |] eqn:Hr.
    + assert (Hnp : ~ Linker.refersToPrototype spec).
      { intros Hp. apply Hthrows in Hp. done. }
      destruct (Linker.errors r) as [| e es] eqn:He.
      * destruct (link_bundle now spec r Hr He) as [Hv Hb]. rewrite Hb, Hv.
        split_and!.
        -- intros bundle. split.
           ++ intros [= <-]. by exists r.
           ++ intros (r' & [= <-] & Hb'). congruence.
        -- done.
        -- split; [by intros (? & ? & _) | done].
        -- split; [by intros (? & ? & _) |]. intros (r' & [= <-] & H). congruence.
      * destruct (link_errors_block now spec r Hr) as [Hv Hb]; [by rewrite He |].
        rewrite Hb. split_and!.
        -- intros bundle. split; [done |]. intros (r' & [= <-] & Hb'). congruence.
        -- by intros run [= <-].
        -- split; [by intros (? & [= <-] & ?) | done].
        -- split; [| by eexists]. intros _. exists r. by rewrite He.
    + assert (Hp : Linker.refersToPrototype spec) by (by apply Hthrows).
      split_and!.
      * intros bundle. split; [done | by intros (? & ? & _)].
      * by intros run [= <-].
      * split; [done | by eexists].
      * split; [by intros (? & [= <-] & ?) | by intros (? & ? & _)].
  - intros validator now host spec options r Hc Hr Hl Hv. split.
    + unfold validateCommand. rewrite Hc, Hr. cbn [negb].
      assert (Ho : {| Validator.strict := Validator.strict options;
                      Validator.opt_profile := Validator.opt_profile options |} = options)
        by (by destruct options).
      rewrite Ho. cbv zeta.
      destruct (Validator.errors (Validator.validate validator spec options));
        [done | reflexivity].
    + destruct (link_bundle now spec r Hr Hl) as [Hvalid Hb].
      unfold bundleToGenerate. rewrite Hr, Hb, Hvalid. by eexists.
Qed.

End CommandFacts.

(** ** utils.ts *)

Section UtilsFacts.
Import JsString JsValue Utils.

(** Induction on a value and on the values inside it. *)
Lemma value_nested_ind (P : value -> Prop) :
  P VUndefined -> P VNull -> (forall b, P (VBool b)) -> (forall n, P (VNum n)) ->
  (forall s, P (VStr s)) ->
  (forall items, Forall P items -> P (VArr items)) ->
  (forall props, Forall (fun kv => P (snd kv)) props -> P (VObj props)) ->
  forall v, P v.
Proof.
  intros Hu Hn Hb Hnum Hs Ha Ho.
  fix IH 1. intros [| | b | n | s | items | props];
    [exact Hu | exact Hn | apply Hb | apply Hnum | apply Hs | |].
  - apply Ha. induction items as [| x items IHitems]; constructor;
      [apply IH | exact IHitems].
  - apply Ho. induction props as [| [k x] props IHprops]; constructor;
      [apply IH | exact IHprops].
Qed.

Lemma serialize_obj (K : list string) (props : list (string * value)) :
  serialize K (VObj props)
  = Some ("{" +:+
          join "," (omap (fun k => match lookup k (entriesOf K props) with
                                   | Some (Some text) =>
                                       Some (Json.quote k +:+ ":" +:+ text)
                                   | _ => None
                                   end) K)
          +:+ "}").
Proof.
  cbn [serialize].
  match goal with
  | |- context [omap (fun k => match lookup k (?f props) with _ => _ end)] =>
      assert (Hf : f props = entriesOf K props)
  end.
  { induction props as [| [k x] props IH]; [done |]. cbn [entriesOf map fst snd].
    by rewrite IH. }
  by rewrite Hf.
Qed.

Lemma prune_obj (K : list string) (props : list (string * value)) :
  prune K (VObj props) = VObj (pruned K props).
Proof.
  cbn [prune]. f_equal. unfold pruned.
  induction props as [| [k x] props IH]; [done |]. cbn [List.filter fst].
  destruct (existsb (String.eqb k) K); [cbn [map fst snd]; by rewrite IH | exact IH].
Qed.

Lemma lookup_entries_pruned (K : list string) (props : list (string * value)) (k : string) :
  Forall (fun kv => serialize K (prune K (snd kv)) = serialize K (snd kv)) props ->
  existsb (String.eqb k) K = true ->
  lookup k (entriesOf K (pruned K props)) = lookup k (entriesOf K props).
Proof.
  intros Hall Hk. induction Hall as [| [k' x] props Hx _ IH]; [done |].
  unfold pruned, entriesOf in *. cbn [List.filter map fst snd lookup] in *.
  destruct (String.eqb k k') eqn:E.
  - apply String.eqb_eq in E. subst k'. rewrite Hk. cbn [map fst snd lookup].
    rewrite String.eqb_refl. by rewrite Hx.
  - destruct (existsb (String.eqb k') K); [| exact IH].
    cbn [map fst snd lookup]. rewrite E. exact IH.
Qed.

Lemma omap_ext_in {A B : Type} (f g : A -> option B) (l : list A) :
  (forall x, In x l -> f x = g x) -> omap f l = omap g l.
Proof.
  induction l as [| x l IH]; intros H; [done |]. cbn.
  rewrite (H x) by (by left). rewrite IH; [done |]. intros y Hy. apply H. by right.
Qed.

(** Pruning to the names of the replacer does not change what is written. *)
Lemma serialize_prune (K : list string) (v : value) :
  serialize K (prune K v) = serialize K v.
Proof.
  induction v as [| | b | n | s | items IH | props IH] using value_nested_ind;
    try reflexivity.
  - cbn [prune serialize]. rewrite map_map.
    assert (Hm : map (fun x => default "null" (serialize K (prune K x))) items
                 = map (fun x => default "null" (serialize K x)) items).
    { induction IH as [| x items Hx _ IHitems]; [done |]. cbn [map].
      by rewrite Hx, IHitems. }
    by rewrite Hm.
  - rewrite prune_obj, !serialize_obj.
    rewrite (omap_ext_in _
               (fun k => match lookup k (entriesOf K props) with
                         | Some (Some text) => Some (Json.quote k +:+ ":" +:+ text)
                         | _ => None
                         end) K); [done |].
    intros k Hk.
    rewrite lookup_entries_pruned; [done | exact IH |].
    apply existsb_exists. exists k. split; [done | apply String.eqb_refl].
Qed.

(** X27.  [objectHash] sees only the properties named like a top-level key:
    the replacer array of [JSON.stringify] filters the objects at every
    depth.  Two values with the same top-level keys that are equal once
    pruned, at every depth, to these keys have the same hash; so the hash of
    [{ k: { x: v } }] does not depend on [v] when [x] is not [k], and the
    hash of an array of one object that has no property [0] does not depend
    on that object. *)
Theorem objectHash_ignores_unlisted_keys :
  (forall (a b : value) (names : list string),
     keys a = Some names -> sort <$> keys b = Some (sort names) ->
     prune (sort names) a = prune (sort names) b ->
     objectHash a = objectHash b)
  /\ (forall (k x : string) (v1 v2 : value),
        x <> k ->
        objectHash (VObj [(k, VObj [(x, v1)])])
        = objectHash (VObj [(k, VObj [(x, v2)])]))
  /\ (forall (ps qs : list (string * value)),
        lookup "0" ps = None -> lookup "0" qs = None ->
        objectHash (VArr [VObj ps]) = objectHash (VArr [VObj qs])).
Proof.
  assert (Hgen : forall (a b : value) (names : list string),
            keys a = Some names -> sort <$> keys b = Some (sort names) ->
            prune (sort names) a = prune (sort names) b ->
            objectHash a = objectHash b).
  { intros a b names Ha Hb Hp. unfold objectHash. rewrite Ha.
    destruct (keys b) as [names' |]; [| done]. cbn in Hb. injection Hb as Hb.
    rewrite Hb.
    rewrite <- (serialize_prune (sort names) a), <- (serialize_prune (sort names) b).
    by rewrite Hp. }
  split; [exact Hgen |]. split.
  - intros k x v1 v2 Hne. apply (Hgen _ _ [k]); [done | done |].
    cbn [sort fold_right insertSorted prune existsb].
    rewrite String.eqb_refl. cbn [orb].
    assert (E : String.eqb x k = false) by (by apply String.eqb_neq).
    by rewrite E.
  - intros ps qs Hp Hq. apply (Hgen _ _ ["0"]); [done | done |].
    assert (Hnone : forall rs : list (string * value),
              lookup "0" rs = None -> pruned ["0"] rs = []).
    { intros rs. unfold pruned. induction rs as [| [k x] rs IH]; [done |].
      cbn [lookup List.filter fst existsb]. rewrite (String.eqb_sym k "0").
      destruct (String.eqb "0" k); [done |]. cbn [orb]. exact IH. }
    assert (Harr : forall K x, prune K (VArr [x]) = VArr [prune K x]) by reflexivity.
    change (sort ["0"]) with ["0"].
    by rewrite !Harr, !prune_obj, !Hnone.
Qed.

Lemma ascii_compare_Lt_trans (a b c : ascii) :
  Ascii.compare a b = Lt -> Ascii.compare b c = Lt -> Ascii.compare a c = Lt.
Proof.
  unfold Ascii.compare. rewrite !N.compare_lt_iff. apply N.lt_trans.
Qed.

Lemma compare_Lt_trans (a : string) : forall b c,
  String.compare a b = Lt -> String.compare b c = Lt -> String.compare a c = Lt.
Proof.
  induction a as [| x a IH]; intros [| y b] [| z c]; cbn [String.compare]; try done.
  destruct (Ascii.compare x y) eqn:Exy; [| | done];
    destruct (Ascii.compare y z) eqn:Eyz; try done.
  - apply Ascii.compare_eq_iff in Exy, Eyz. subst.
    assert (E : Ascii.compare z z = Eq) by (unfold Ascii.compare; apply N.compare_refl).
    rewrite E. apply IH.
  - apply Ascii.compare_eq_iff in Exy. subst. by rewrite Eyz.
  - apply Ascii.compare_eq_iff in Eyz. subst. by rewrite Exy.
  - by rewrite (ascii_compare_Lt_trans x y z).
Qed.

Lemma nameLe_trans (a b c : string) : nameLe a b -> nameLe b c -> nameLe a c.
Proof.
  unfold nameLe, String.leb. intros Hab Hbc.
  destruct (String.compare a b) eqn:Eab; [| | done].
  - apply String.compare_eq_iff in Eab. by subst.
  - destruct (String.compare b c) eqn:Ebc; [| | done].
    + apply String.compare_eq_iff in Ebc. subst. by rewrite Eab.
    + by rewrite (compare_Lt_trans a b c).
Qed.

Lemma insertSorted_Permutation (x : string) (l : list string) :
  insertSorted x l ≡ₚ x :: l.
Proof.
  induction l as [| y l IH]; [done |]. cbn [insertSorted].
  destruct (String.leb x y); [done |]. rewrite IH. apply Permutation_swap.
Qed.

Lemma insertSorted_sorted (x : string) (l : list string) :
  StronglySorted nameLe l -> StronglySorted nameLe (insertSorted x l).
Proof.
  induction 1 as [| y l Hs IH Hy]; cbn [insertSorted].
  - repeat constructor.
  - destruct (String.leb x y) eqn:E.
    + constructor; [by constructor |]. constructor; [done |].
      rewrite List.Forall_forall in *. intros z Hz.
      apply (nameLe_trans x y z); [done | by apply Hy].
    + constructor; [done |].
      rewrite List.Forall_forall in *. intros z Hz.
      apply (Permutation_in _ (insertSorted_Permutation x l)) in Hz as [<- | Hz];
        [| by apply Hy].
      destruct (String.leb_total x y) as [H | H]; [congruence | done].
Qed.

Lemma sort_sorted (l : list string) :
  StronglySorted nameLe (sort l) /\ sort l ≡ₚ l.
Proof.
  induction l as [| x l [IH1 IH2]]; [split; [constructor | done] |].
  cbn [sort fold_right]. fold (sort l). split; [by apply insertSorted_sorted |].
  by rewrite insertSorted_Permutation, IH2.
Qed.

(** [sort] does not depend on the order of its input. *)
Lemma sort_Permutation (l1 l2 : list string) : l1 ≡ₚ l2 -> sort l1 = sort l2.
Proof.
  intros Hp. destruct (sort_sorted l1) as [Hs1 Hp1], (sort_sorted l2) as [Hs2 Hp2].
  apply (StronglySorted_unique_strong nameLe); [| done | done | by rewrite Hp1, Hp2, Hp].
  intros a b _ _ Hab Hba. by apply String.leb_antisym.
Qed.

Lemma lookup_Some_In {A : Type} (ps : list (string * A)) (k : string) (v : A) :
  NoDup (map fst ps) -> (lookup k ps = Some v <-> In (k, v) ps).
Proof.
  induction ps as [| [k' v'] ps IH]; intros Hnd; [done |].
  apply NoDup_cons in Hnd as [Hk' Hnd]. cbn [lookup In].
  destruct (String.eqb k k') eqn:E.
  - apply String.eqb_eq in E. subst k'. split.
    + intros [= ->]. by left.
    + intros [[= ->] | Hin]; [done |]. exfalso. apply Hk'.
      apply list_elem_of_In, in_map_iff. by exists (k, v).
  - apply String.eqb_neq in E. rewrite IH by done. split; [by right |].
    intros [[= -> ->] | Hin]; done.
Qed.

Lemma lookup_Permutation {A : Type} (ps qs : list (string * A)) (k : string) :
  NoDup (map fst ps) -> ps ≡ₚ qs -> lookup k ps = lookup k qs.
Proof.
  intros Hnd Hp.
  assert (Hnd' : NoDup (map fst qs)) by (by rewrite <- Hp).
  destruct (lookup k ps) as [v |] eqn:E1.
  - apply lookup_Some_In in E1; [| done]. symmetry. apply lookup_Some_In; [done |].
    by apply (Permutation_in _ Hp).
  - destruct (lookup k qs) as [v |] eqn:E2; [| done].
    apply lookup_Some_In in E2; [| done].
    apply (Permutation_in _ (Permutation_sym Hp)) in E2.
    apply lookup_Some_In in E2; [congruence | done].
Qed.

(** X28.  [objectHash] does not depend on the order of the keys of the
    object: two objects with the same properties, in any order, have the
    same hash. *)
Theorem objectHash_ignores_key_order (ps qs : list (string * value)) :
  NoDup (map fst ps) -> ps ≡ₚ qs ->
  objectHash (VObj ps) = objectHash (VObj qs).
Proof.
  intros Hnd Hp. unfold objectHash. cbn [keys].
  rewrite (sort_Permutation (map fst qs) (map fst ps)) by (by rewrite Hp).
  rewrite !serialize_obj.
  rewrite (omap_ext_in _
             (fun k => match lookup k (entriesOf (sort (map fst ps)) qs) with
                       | Some (Some text) => Some (Json.quote k +:+ ":" +:+ text)
                       | _ => None
                       end) (sort (map fst ps))); [done |].
  intros k _. rewrite (lookup_Permutation _ (entriesOf (sort (map fst ps)) qs)); [done | |].
  - unfold entriesOf. by rewrite map_map.
  - unfold entriesOf. by apply Permutation_map.
Qed.

End UtilsFacts.

(** ** conditions.ts: membership and null tests *)

Section MembershipFacts.
Import JsString JsValue Conditions.

Context {engine : Engine}.

Lemma removeFirst_first (pat a rest : string) :
  pat <> EmptyString ->
  includes pat (a +:+ take (String.length pat - 1) pat) = false ->
  removeFirst pat (a +:+ pat +:+ rest) = a +:+ rest.
Proof.
  intros Hpat. induction a as [| c a IH]; intros Hno.
  - change (EmptyString +:+ ?s) with s.
    assert (Hs : startsWith pat (pat +:+ rest) = true) by apply startsWith_append.
    destruct (pat +:+ rest) as [| d s] eqn:E.
    + destruct pat; [done | by rewrite append_cons in E].
    + cbn [removeFirst]. rewrite Hs. rewrite <- E. apply drop_append.
  - rewrite append_cons in Hno. cbn [includes] in Hno.
    apply orb_false_iff in Hno as [Hhere Hlater].
    rewrite !append_cons. cbn [removeFirst].
    assert (Hs : startsWith pat (String c (a +:+ pat +:+ rest)) = false).
    { rewrite <- Hhere. rewrite <- !append_cons.
      rewrite <- (take_take_append (String.length pat - 1) pat rest) by lia.
      apply eq_sym, startsWith_app_take. cbn [String.length]. lia. }
    rewrite Hs. by rewrite IH.
Qed.

Lemma rev_app_append (a b acc : string) :
  String.rev_app (a +:+ b) acc = String.rev_app b (String.rev_app a acc).
Proof.
  revert acc. induction a as [| c a IH]; intros acc; [done |].
  rewrite append_cons. cbn [String.rev_app]. apply IH.
Qed.

Lemma stripQuotes_quoted (item : string) : stripQuotes (quoted item) = item.
Proof.
  unfold quoted, stripQuotes, singleQuote. rewrite append_cons.
  change (EmptyString +:+ ?s) with s. cbn [isQuote nat_of_ascii].
  change (isQuote (ascii_of_nat 39)) with true. cbn iota.
  unfold String.rev at 1. rewrite rev_app_append. cbn [String.rev_app].
  change (isQuote (ascii_of_nat 39)) with true. cbn iota.
  apply rev_rev_app.
Qed.

Lemma trim_quoted (item : string) : trim (quoted item) = quoted item.
Proof.
  unfold quoted, trim.
  assert (Hs : trimStart (singleQuote +:+ item +:+ singleQuote)
               = singleQuote +:+ item +:+ singleQuote) by reflexivity.
  rewrite Hs, <- append_assoc. by apply trimEnd_append.
Qed.

Lemma includes_comma_quoted (item : string) :
  includes "," item = false -> includes "," (quoted item) = false.
Proof.
  intros H. unfold quoted, singleQuote. rewrite append_cons.
  change (EmptyString +:+ ?s) with s. cbn [includes startsWith].
  change (Ascii.eqb "," (ascii_of_nat 39)) with false. cbn [andb orb].
  induction item as [| c item IH]; [reflexivity |].
  rewrite append_cons. cbn [includes startsWith] in *.
  apply orb_false_iff in H as [H1 H2]. rewrite andb_true_r in H1.
  rewrite andb_true_r, H1. cbn [orb]. by apply IH.
Qed.

(** Splitting a list literal gives back its items. *)
Lemma split_join_comma (items : list string) :
  items <> [] ->
  Forall (fun item => includes "," item = false) items ->
  split "," (join "," items) = items.
Proof.
  intros Hne Hall. induction Hall as [| item items Hitem Hall IH]; [done |].
  destruct items as [| item' items].
  - cbn [join]. by apply split_absent.
  - change (join "," (item :: item' :: items))
      with (item +:+ "," +:+ join "," (item' :: items)).
    rewrite split_first; [| done | by rewrite append_nil_r].
    f_equal. by apply IH.
Qed.

Lemma slice_list (body : string) : slice_1_m1 ("(" +:+ body +:+ ")") = body.
Proof.
  unfold slice_1_m1. rewrite append_cons. change (EmptyString +:+ ?s) with s.
  cbn [String.length drop]. rewrite length_append. cbn [String.length].
  replace (S (String.length body + 1) - 2)%nat with (String.length body) by lia.
  apply take_append.
Qed.

Lemma evalIn_listLiteral (leftValue : operand) (items : list string) (path : list string) :
  items <> [] ->
  Forall (fun item => includes "," item = false) items ->
  evalIn leftValue (Data (Located (VStr (listLiteral items)) path))
  = (t ← textOf leftValue; Some (existsb (String.eqb t) items)).
Proof.
  intros Hne Hall. unfold evalIn, listLiteral.
  rewrite append_cons. cbn [startsWith Ascii.eqb Bool.eqb andb].
  change (String "(" (EmptyString +:+ ?s)) with ("(" +:+ s).
  rewrite slice_list.
  rewrite split_join_comma.
  - rewrite map_map.
    replace (map (fun x => stripQuotes (trim (quoted x))) items) with items; [done |].
    rewrite <- (map_id items) at 1. apply map_ext. intros item.
    by rewrite trim_quoted, stripQuotes_quoted.
  - by destruct items.
  - clear Hne. induction Hall; constructor; [by apply includes_comma_quoted | done].
Qed.

Lemma trim_listLiteral (items : list string) :
  trim (listLiteral items) = listLiteral items.
Proof.
  unfold listLiteral, trim.
  set (body := join "," (map quoted items)).
  assert (Hs : trimStart ("(" +:+ body +:+ ")") = "(" +:+ body +:+ ")") by reflexivity.
  rewrite Hs, <- append_assoc. by apply trimEnd_append.
Qed.

Lemma resolveValue_listLiteral (items : list string) ctx :
  resolveValue (listLiteral items) ctx = Some (literal (VStr (listLiteral items))).
Proof.
  unfold resolveValue. rewrite trim_listLiteral. unfold listLiteral.
  set (body := join "," (map quoted items)).
  assert (Hq : forall q, q = singleQuote \/ q = doubleQuote ->
                         isQuoted q ("(" +:+ body +:+ ")") = false)
    by (intros q [-> | ->]; reflexivity).
  rewrite !Hq by auto. cbn [orb].
  assert (Hn : isNumberLiteral ("(" +:+ body +:+ ")") = false).
  { unfold isNumberLiteral. rewrite append_cons.
    cbn [startsWith Ascii.eqb Bool.eqb andb indexWhere isDot].
    change (Ascii.eqb "(" ".") with false. cbn iota.
    destruct (indexWhere isDot (EmptyString +:+ body +:+ ")")) as [i |]; cbn [fmap option_fmap option_map].
    - unfold isDigits. destruct i; cbn [take isEmpty negb andb]; try reflexivity.
    - reflexivity. }
  rewrite Hn.
  assert (Hb : forall w, w = "true" \/ w = "false" \/ w = "null" ->
                         String.eqb ("(" +:+ body +:+ ")") w = false)
    by (intros w [-> | [-> | ->]]; reflexivity).
  rewrite !Hb by auto.
  assert (Hp : startsWith "(" ("(" +:+ body +:+ ")") && endsWith ")" ("(" +:+ body +:+ ")")
               = true).
  { rewrite startsWith_append. cbn [andb]. unfold endsWith.
    rewrite !length_append. cbn [String.length].
    apply andb_true_iff. split; [apply Nat.leb_le; lia |].
    replace (1 + (String.length body + 1) - 1)%nat
      with (String.length ("(" +:+ body)) by (rewrite length_append; cbn; lia).
    rewrite <- append_assoc, drop_append. reflexivity. }
  by rewrite Hp.
Qed.

(** The [IN] case of [evaluateCondition]. *)
Lemma membership (l r : string) ctx :
  trim l = l -> l <> EmptyString -> trim r = r -> r <> EmptyString ->
  beforeIn (l +:+ " IN " +:+ r) = true ->
  includes " IN " (l +:+ " IN") = false ->
  includes " IN " r = false ->
  evaluateCondition (l +:+ " IN " +:+ r) ctx
  = caught (leftValue ← resolveValue l ctx;
            rightValue ← resolveValue r ctx;
            evalIn leftValue rightValue).
Proof.
  intros Hl Hle Hr Hre Hbefore Hfirst Hlast.
  assert (Ht : trim (l +:+ " IN " +:+ r) = l +:+ " IN " +:+ r) by (by apply trim_append).
  unfold evaluateCondition. cbn [evaluateCondition_fuel]. rewrite Ht.
  unfold beforeIn in Hbefore.
  repeat (apply andb_true_iff in Hbefore as [Hbefore ?]).
  repeat match goal with
         | H : negb _ = true |- _ => apply negb_true_iff in H; rewrite H; clear H
         end.
  rewrite includes_append.
  rewrite split_first by done. rewrite split_absent by done.
  cbn [map default]. by rewrite Hl, Hr.
Qed.

(** The [IS NULL] and [IS NOT NULL] cases of [evaluateCondition]. *)
Lemma is_null (f : string) ctx :
  trim f = f -> f <> EmptyString ->
  includes " AND " (f +:+ " IS NULL") = false ->
  includes " OR " (f +:+ " IS NULL") = false ->
  startsWith "NOT " (f +:+ " IS NULL") = false ->
  includes " IS NOT NULL" (f +:+ " IS NULL") = false ->
  includes " IS NULL" (f +:+ " IS NUL") = false ->
  evaluateCondition (f +:+ " IS NULL") ctx
  = caught (value ← resolveValue f ctx; Some (nullish value)).
Proof.
  intros Hf Hfe Hand Hor Hnot Hnn Hfirst.
  assert (Ht : trim (f +:+ " IS NULL") = f +:+ " IS NULL").
  { change (f +:+ " IS NULL") with (f +:+ " IS " +:+ "NULL"). by apply trim_append. }
  unfold evaluateCondition. cbn [evaluateCondition_fuel]. rewrite Ht.
  rewrite Hand, Hor, Hnot, Hnn.
  assert (Hin : includes " IS NULL" (f +:+ " IS NULL") = true).
  { rewrite <- (append_nil_r (f +:+ " IS NULL")), append_assoc.
    apply includes_append. }
  rewrite Hin.
  rewrite <- (append_nil_r (f +:+ " IS NULL")), append_assoc.
  rewrite removeFirst_first; [| done | done].
  by rewrite append_nil_r, Hf.
Qed.

Lemma is_not_null (f : string) ctx :
  trim f = f -> f <> EmptyString ->
  includes " AND " (f +:+ " IS NOT NULL") = false ->
  includes " OR " (f +:+ " IS NOT NULL") = false ->
  startsWith "NOT " (f +:+ " IS NOT NULL") = false ->
  includes " IS NOT NULL" (f +:+ " IS NOT NUL") = false ->
  evaluateCondition (f +:+ " IS NOT NULL") ctx
  = caught (value ← resolveValue f ctx; Some (negb (nullish value))).
Proof.
  intros Hf Hfe Hand Hor Hnot Hfirst.
  assert (Ht : trim (f +:+ " IS NOT NULL") = f +:+ " IS NOT NULL").
  { change (f +:+ " IS NOT NULL") with (f +:+ " IS NOT " +:+ "NULL").
    by apply trim_append. }
  unfold evaluateCondition. cbn [evaluateCondition_fuel]. rewrite Ht.
  rewrite Hand, Hor, Hnot.
  assert (Hin : includes " IS NOT NULL" (f +:+ " IS NOT NULL") = true).
  { rewrite <- (append_nil_r (f +:+ " IS NOT NULL")), append_assoc.
    apply includes_append. }
  rewrite Hin.
  rewrite <- (append_nil_r (f +:+ " IS NOT NULL")), append_assoc.
  rewrite removeFirst_first; [| done | done].
  by rewrite append_nil_r, Hf.
Qed.

(** X29.  [IN], [IS NULL] and [IS NOT NULL].  For operands that are not
    empty and have no surrounding white space, when no earlier case applies
    and the operator written is the only one.  [l IN r], with [r] resolving
    to an array of the context, is the membership of the value of [l] in the
    array (as [Array.prototype.includes] compares).  [l IN ('a','b',...)],
    for a list that is not empty and whose items contain no comma, holds
    exactly when the text [String] of the value of [l] is one of the items;
    it is false when that conversion throws, as it does for an object that
    has a property [toString] of its own.  [f IS NULL] holds exactly when
    [f] resolves to [null] or [undefined], as it does for a path with a
    property that is neither an own property nor an inherited one, and
    [f IS NOT NULL] is its negation.  All of them are false when resolving
    an operand throws. *)
Theorem membership_and_null_tests :
  (forall (l r : string) (ctx : ConditionContext),
     trim l = l -> l <> EmptyString -> trim r = r -> r <> EmptyString ->
     beforeIn (l +:+ " IN " +:+ r) = true ->
     includes " IN " (l +:+ " IN") = false ->
     includes " IN " r = false ->
     (forall leftValue items path,
        resolveValue l ctx = Some leftValue ->
        resolveValue r ctx = Some (Data (Located (VArr items) path)) ->
        evaluateCondition (l +:+ " IN " +:+ r) ctx
        = existsb (fun x => sameValueZero x leftValue) (elements path items))
     /\ (resolveValue l ctx = None \/ resolveValue r ctx = None ->
         evaluateCondition (l +:+ " IN " +:+ r) ctx = false))
  /\ (forall (l : string) (items : list string) (ctx : ConditionContext),
        trim l = l -> l <> EmptyString ->
        items <> [] -> Forall (fun item => includes "," item = false) items ->
        beforeIn (l +:+ " IN " +:+ listLiteral items) = true ->
        includes " IN " (l +:+ " IN") = false ->
        includes " IN " (listLiteral items) = false ->
        (forall leftValue text,
           resolveValue l ctx = Some leftValue -> textOf leftValue = Some text ->
           evaluateCondition (l +:+ " IN " +:+ listLiteral items) ctx = true
           <-> In text items)
        /\ (forall leftValue,
              resolveValue l ctx = Some leftValue -> textOf leftValue = None ->
              evaluateCondition (l +:+ " IN " +:+ listLiteral items) ctx = false)
        /\ (forall props path x,
              resolveValue l ctx = Some (Data (Located (VObj props) path)) ->
              lookup "toString" props = Some x ->
              evaluateCondition (l +:+ " IN " +:+ listLiteral items) ctx = false)
        /\ (resolveValue l ctx = None ->
            evaluateCondition (l +:+ " IN " +:+ listLiteral items) ctx = false))
  /\ (forall (f : string) (ctx : ConditionContext),
        trim f = f -> f <> EmptyString ->
        includes " AND " (f +:+ " IS NULL") = false ->
        includes " OR " (f +:+ " IS NULL") = false ->
        startsWith "NOT " (f +:+ " IS NULL") = false ->
        includes " IS NOT NULL" (f +:+ " IS NULL") = false ->
        includes " IS NULL" (f +:+ " IS NUL") = false ->
        (forall value,
           resolveValue f ctx = Some value ->
           evaluateCondition (f +:+ " IS NULL") ctx = true
           <-> value = Data (Located VNull (the_path_of value))
               \/ value = Data (Located VUndefined (the_path_of value)))
        /\ (forall prefix k rest x,
              isPath f = true ->
              split "." f = prefix ++ k :: rest ->
              reaches (literal (ctxObject ctx)) prefix x -> lacks x k ->
              evaluateCondition (f +:+ " IS NULL") ctx = true)
        /\ (resolveValue f ctx = None ->
            evaluateCondition (f +:+ " IS NULL") ctx = false))
  /\ (forall (f : string) (ctx : ConditionContext),
        trim f = f -> f <> EmptyString ->
        includes " AND " (f +:+ " IS NOT NULL") = false ->
        includes " OR " (f +:+ " IS NOT NULL") = false ->
        startsWith "NOT " (f +:+ " IS NOT NULL") = false ->
        includes " IS NOT NULL" (f +:+ " IS NOT NUL") = false ->
        (forall value,
           resolveValue f ctx = Some value ->
           evaluateCondition (f +:+ " IS NOT NULL") ctx = false
           <-> value = Data (Located VNull (the_path_of value))
               \/ value = Data (Located VUndefined (the_path_of value)))
        /\ (resolveValue f ctx = None ->
            evaluateCondition (f +:+ " IS NOT NULL") ctx = false)).
Proof.
  assert (Hnull : forall value,
            nullish value = true
            <-> value = Data (Located VNull (the_path_of value))
                \/ value = Data (Located VUndefined (the_path_of value))).
  { intros [[v p] | b]; cbn [nullish the_value the_path_of the_path].
    - destruct v; cbn [isNullish]; split; try done; auto;
        intros [[=] | [=]].
    - split; [done | by intros [[=] | [=]]]. }
  split; [| split; [| split]].
  - intros l r ctx Hl Hle Hr Hre Hbefore Hfirst Hlast.
    rewrite membership by done. split.
    + intros leftValue items path -> ->. done.
    + intros [-> | ->]; [done |]. by destruct (resolveValue l ctx).
  - intros l items ctx Hl Hle Hne Hall Hbefore Hfirst Hlast.
    rewrite membership; [| done | done | apply trim_listLiteral | by destruct items
                          | done | done | done].
    rewrite resolveValue_listLiteral.
    assert (Hin : forall leftValue,
              resolveValue l ctx = Some leftValue ->
              caught (leftValue ← resolveValue l ctx;
                      rightValue ← Some (literal (VStr (listLiteral items)));
                      evalIn leftValue rightValue)
              = caught (t ← textOf leftValue; Some (existsb (String.eqb t) items))).
    { intros leftValue ->. cbn [mbind option_bind]. unfold literal.
      by rewrite evalIn_listLiteral. }
    split; [| split; [| split]].
    + intros leftValue text Hv Ht. rewrite (Hin _ Hv), Ht. cbn.
      rewrite existsb_exists. split.
      * intros (y & Hy & E). apply String.eqb_eq in E. by subst.
      * intros Hy. exists text. split; [done | apply String.eqb_refl].
    + intros leftValue Hv Ht. by rewrite (Hin _ Hv), Ht.
    + intros props path x Hv Hx. rewrite (Hin _ Hv).
      cbn [textOf the_value toString]. by rewrite Hx.
    + by intros ->.
  - intros f ctx Hf Hfe Hand Hor Hnot Hnn Hfirst. rewrite is_null by done.
    split; [| split].
    + intros value ->. cbn. apply Hnull.
    + intros prefix k rest x Hpath Hsplit Hreach Hlacks.
      rewrite (resolveValue_missing f ctx prefix rest k x); by rewrite ?Hf.
    + by intros ->.
  - intros f ctx Hf Hfe Hand Hor Hnot Hfirst. rewrite is_not_null by done. split.
    + intros value ->. cbn. rewrite <- Hnull. by destruct (nullish value).
    + by intros ->.
Qed.

End MembershipFacts.

(** ** audit/logger.ts *)

Section AuditFacts.
Import JsValue Audit.

Lemma assign_keys (field : string) (result : list (string * value)) :
  map fst (assign field result) = map fst result.
Proof.
  induction result as [| [k x] result IH]; [done |]. cbn [assign].
  destruct (String.eqb field k); cbn [map fst]; [done | by rewrite IH].
Qed.

Lemma assign_lookup (field k : string) (result : list (string * value)) :
  lookup k (assign field result)
  = if String.eqb k field
    then (fun _ => VStr "[REDACTED]") <$> lookup k result
    else lookup k result.
Proof.
  induction result as [| [k' x] result IH]; [by destruct (String.eqb k field) |].
  cbn [assign]. destruct (String.eqb field k') eqn:E.
  - apply String.eqb_eq in E. subst k'. cbn [lookup].
    destruct (String.eqb k field) eqn:E'; [done | done].
  - cbn [lookup]. rewrite IH.
    destruct (String.eqb k k') eqn:E'; [| done].
    apply String.eqb_eq in E'. subst k'.
    rewrite String.eqb_sym, E. done.
Qed.

Lemma lookup_snoc (k field : string) (x : value) (result : list (string * value)) :
  lookup k (result ++ [(field, x)])
  = match lookup k result with
    | Some y => Some y
    | None => if String.eqb k field then Some x else None
    end.
Proof.
  induction result as [| [k' y] result IH]; [done |].
  cbn [app lookup]. by destruct (String.eqb k k').
Qed.

(** One turn of the loop of [redactFields], seen from a key. *)
Lemma redactField_lookup (field k : string) (result : list (string * value)) :
  lookup k (if hasProperty field result then setRedacted field result else result)
  = if String.eqb k field
    then match lookup k result with
         | Some _ => Some (VStr "[REDACTED]")
         | None => if added k then Some (VStr "[REDACTED]") else None
         end
    else lookup k result.
Proof.
  unfold hasProperty, setRedacted, added.
  destruct (String.eqb k field) eqn:E.
  - apply String.eqb_eq in E. subst field.
    destruct (lookup k result) eqn:L.
    + by rewrite assign_lookup, String.eqb_refl, L.
    + destruct (existsb (String.eqb k) objectPrototype); cbn [andb]; [| done].
      destruct (String.eqb k "__proto__"); cbn [negb]; [done |].
      by rewrite lookup_snoc, L, String.eqb_refl.
  - destruct (lookup field result) eqn:L.
    + by rewrite assign_lookup, E.
    + destruct (existsb (String.eqb field) objectPrototype); [| done].
      destruct (String.eqb field "__proto__"); [done |].
      rewrite lookup_snoc, E. by destruct (lookup k result).
Qed.

Lemma redact_lookup (fields : list string) (k : string) :
  forall result : list (string * value),
    lookup k (fold_left (fun result field =>
                           if hasProperty field result then setRedacted field result
                           else result) fields result)
    = if existsb (String.eqb k) fields
      then match lookup k result with
           | Some _ => Some (VStr "[REDACTED]")
           | None => if added k then Some (VStr "[REDACTED]") else None
           end
      else lookup k result.
Proof.
  induction fields as [| field fields IH]; intros result; [done |].
  cbn [fold_left existsb]. rewrite IH, redactField_lookup.
  destruct (String.eqb k field), (existsb (String.eqb k) fields),
    (lookup k result), (added k); done.
Qed.

Lemma redact_keys (fields : list string) :
  Forall (fun field => existsb (String.eqb field) objectPrototype = false) fields ->
  forall result : list (string * value),
    map fst (fold_left (fun result field =>
                          if hasProperty field result then setRedacted field result
                          else result) fields result)
    = map fst result.
Proof.
  induction 1 as [| field fields Hf _ IH]; intros result; [done |].
  cbn [fold_left]. rewrite IH. unfold hasProperty, setRedacted.
  destruct (lookup field result); [apply assign_keys |]. by rewrite Hf.
Qed.

(** X30.  The redaction of the audit log is shallow.  In the object that
    [redactFields] returns, a property named in [fields] holds [[REDACTED]]
    if the object given had it, is created with that value if its name is
    one that every object inherits ([toString], [constructor], ...;
    [__proto__] apart), and is absent otherwise; every other property keeps
    its value, whatever that value contains.  When no field bears an
    inherited name, the keys and their order are those of the object given.
    The buffer of the logger stays below 100 entries, because [log] empties
    it when the 100th entry arrives: these entries are dropped, [log]
    keeping nothing of what [flush] returns. *)
Theorem redaction_is_shallow :
  (forall (props redacted : list (string * value)) (fields : list string),
     redactFields (VObj props) fields = VObj redacted ->
     (forall k : string,
        lookup k redacted
        = if existsb (String.eqb k) fields
          then match lookup k props with
               | Some _ => Some (VStr "[REDACTED]")
               | None => if added k then Some (VStr "[REDACTED]") else None
               end
          else lookup k props)
     /\ (Forall (fun field => existsb (String.eqb field) objectPrototype = false) fields ->
         map fst redacted = map fst props))
  /\ (forall (this : AuditLogger) (freshId now : string) (entry : AuditEntry),
        (length (buffer this) < bufferSize)%nat ->
        (length (buffer (snd (log this freshId now entry))) < bufferSize)%nat)
  /\ (forall (this : AuditLogger) (freshId now : string) (entry : AuditEntry),
        enabled (config this) = true ->
        onLog (config this) = false ->
        existsb (String.eqb (action entry)) (default [] (excludeActions (config this)))
        = false ->
        length (buffer this) = 99%nat ->
        log this freshId now entry
        = (None, {| config := config this; buffer := [] |})).
Proof.
  split; [| split].
  - intros props redacted fields H. unfold redactFields in H.
    injection H as <-. cbn [spread]. split.
    + intros k. apply redact_lookup.
    + intros Hf. by apply redact_keys.
  - intros this freshId now entry Hlen. unfold log.
    destruct (negb (enabled (config this))); [done |].
    destruct (existsb _ _); [done |].
    destruct (onLog (config this)); [done |]. cbv zeta. cbn [buffer].
    destruct (bufferSize <=? _)%nat eqn:E.
    + unfold flush, bufferSize. cbn [snd buffer length]. lia.
    + apply Nat.leb_gt in E. exact E.
  - intros this freshId now entry He Ho Hx Hlen. unfold log.
    rewrite He, Ho, Hx. cbn [negb]. cbv zeta. cbn [buffer].
    rewrite length_app, Hlen. reflexivity.
Qed.

End AuditFacts.


(* ===================================================================== *)
(** * The properties on the sample data *)
(* ===================================================================== *)

Section OnSamples.
Import JsValue Examples.

#[local] Existing Instance node.

(** What a call that returned has returned. *)
Lemma returned {A B : Type} (o : option A) (f : A -> B) (b : B) :
  f <$> o = Some b -> exists a, o = Some a /\ f a = b.
Proof.
  destruct o as [a |]; [| discriminate]. intros H. exists a.
  split; [reflexivity | by injection H].
Defined.

(** ** conditions.ts *)

(** C3 fails as stated: a property path with a missing segment resolves to
    [undefined] without any failure, and [!=], [NOT], [IS NULL] and [=] turn
    that into [true]; so does [NOT] in front of the malformed expression. *)
Lemma missing_segment_evaluates_true :
  Conditions.resolveValue "resource.owner.id" draftOfU1 = Some (literal VUndefined)
  /\ Conditions.evaluateCondition "resource.owner.id != user.id" draftOfU1 = true
  /\ Conditions.evaluateCondition "user.nickname = resource.nickname" draftOfU1 = true
  /\ Conditions.evaluateCondition "NOT resource.owner.id" draftOfU1 = true
  /\ Conditions.evaluateCondition "resource.owner.id IS NULL" draftOfU1 = true
  /\ Conditions.evaluateCondition "NOT not.a.valid>>expr" draftOfU1 = true.
Proof. repeat split; reflexivity. Qed.

Lemma evaluateCondition_total_and_fail_closed_witness :
  (String.length "resource.owner.id" < 18)%nat
  /\ Conditions.evaluateCondition_fuel 18 "resource.owner.id" draftOfU1
     = Some (Conditions.evaluateCondition "resource.owner.id" draftOfU1)
  /\ JsString.split "." "resource.toString.caller"
     = ["resource"; "toString"] ++ "caller" :: []
  /\ Conditions.reaches (literal (Conditions.ctxObject draftOfU1))
       ["resource"; "toString"] (Native "Object.prototype.toString")
  /\ Conditions.raises (Native "Object.prototype.toString") "caller"
  /\ Conditions.evaluateCondition "resource.toString.caller" draftOfU1 = false
  /\ inherited KObject "not" = Absent
  /\ Conditions.evaluateCondition "not.a.valid>>expr" draftOfU1 = false
  /\ JsString.split "." "resource.owner.id" = ["resource"] ++ "owner" :: ["id"]
  /\ Conditions.reaches (literal (Conditions.ctxObject draftOfU1)) ["resource"]
       (Data (Located (VObj [("status", VStr "draft")]) ["resource"]))
  /\ Conditions.lacks (Data (Located (VObj [("status", VStr "draft")]) ["resource"]))
       "owner"
  /\ Conditions.resolveValue "resource.owner.id" draftOfU1 = Some (literal VUndefined)
  /\ Conditions.evaluateCondition "resource.owner.id" draftOfU1 = false.
Proof.
  assert (Hlen : (String.length "resource.owner.id" < 18)%nat) by (vm_compute; lia).
  assert (Hcaller : JsString.split "." (JsString.trim "resource.toString.caller")
                    = ["resource"; "toString"] ++ "caller" :: []) by reflexivity.
  assert (Hresource : Conditions.reaches (literal (Conditions.ctxObject draftOfU1))
                        ["resource"]
                        (Data (Located (VObj [("status", VStr "draft")]) ["resource"]))).
  { apply (Conditions.reaches_further _ "resource"
             (Data (Located (VObj [("status", VStr "draft")]) ["resource"])));
      [reflexivity | reflexivity | apply Conditions.reaches_here]. }
  assert (HtoString : Conditions.reaches (literal (Conditions.ctxObject draftOfU1))
                        ["resource"; "toString"] (Native "Object.prototype.toString")).
  { apply (Conditions.reaches_further _ "resource"
             (Data (Located (VObj [("status", VStr "draft")]) ["resource"])));
      [reflexivity | reflexivity |].
    apply (Conditions.reaches_further _ "toString" (Native "Object.prototype.toString"));
      [reflexivity | reflexivity | apply Conditions.reaches_here]. }
  assert (Hraises : Conditions.raises (Native "Object.prototype.toString") "caller")
    by (split; reflexivity).
  assert (Hnot : inherited KObject "not" = Absent) by reflexivity.
  assert (Hsplit : JsString.split "." (JsString.trim "resource.owner.id")
                   = ["resource"] ++ "owner" :: ["id"]) by reflexivity.
  assert (Hlacks : Conditions.lacks
                     (Data (Located (VObj [("status", VStr "draft")]) ["resource"]))
                     "owner") by (split; reflexivity).
  split; [exact Hlen |].
  split; [exact (proj1 evaluateCondition_total_and_fail_closed
                   "resource.owner.id" draftOfU1 18%nat Hlen) |].
  split; [exact Hcaller |]. split; [exact HtoString |]. split; [exact Hraises |].
  split; [exact (proj1 (proj2 evaluateCondition_total_and_fail_closed)
                   "resource.toString.caller" draftOfU1 ["resource"; "toString"] []
                   "caller" _ eq_refl eq_refl Hcaller HtoString Hraises) |].
  split; [exact Hnot |].
  split; [exact (proj1 (proj2 (proj2 evaluateCondition_total_and_fail_closed))
                   draftOfU1 Hnot) |].
  split; [exact Hsplit |]. split; [exact Hresource |]. split; [exact Hlacks |].
  exact (proj2 (proj2 (proj2 evaluateCondition_total_and_fail_closed))
           "resource.owner.id" draftOfU1 ["resource"] ["id"] "owner" _
           eq_refl eq_refl Hsplit Hresource Hlacks).
Defined.

(** The examples of the expression language. *)
Example in_list_literal :
  Conditions.evaluateCondition "resource.status IN ('draft','pending')" draftOfU1 = true
  /\ Conditions.evaluateCondition "resource.status IN ('posted')" draftOfU1 = false
  /\ Conditions.evaluateCondition "'viewer' IN user.roles" draftOfU1 = true
  /\ Conditions.evaluateCondition "user.id = 'u1' AND NOT resource.status = 'posted'"
       draftOfU1 = true.
Proof. repeat split; reflexivity. Qed.

(** What the prototype chain and the [catch] block do to an expression: an
    inherited member is there and truthy, an accessor that throws and a
    conversion that throws give [false], also under a comparison. *)
Example inherited_members :
  Conditions.evaluateCondition "resource.constructor" draftOfU1 = true
  /\ Conditions.evaluateCondition "resource.toString IS NULL" shadowed = false
  /\ Conditions.evaluateCondition "resource.toString.caller" draftOfU1 = false
  /\ Conditions.evaluateCondition "NOT resource.toString.caller" draftOfU1 = true
  /\ Conditions.evaluateCondition "resource.label IN ('[object Object]')" shadowed = false
  /\ Conditions.evaluateCondition "resource.label < 5" shadowed = false.
Proof. repeat split; reflexivity. Qed.

(** ** engine.ts *)

Lemma admin_bypass_witness :
  (In "admin" (Policy.roles adminDeletes) \/ In "super_admin" (Policy.roles adminDeletes))
  /\ Policy.evaluate_log invoicing adminDeletes
     = ({| Policy.allowed := true; Policy.reason := Some "Admin role";
           Policy.filters := None |}, []).
Proof.
  assert (H : In "admin" (Policy.roles adminDeletes)
              \/ In "super_admin" (Policy.roles adminDeletes))
    by (left; simpl; auto).
  split; [exact H | exact (admin_bypass invoicing adminDeletes H)].
Defined.

Lemma default_permit_when_unconfigured_witness :
  ~ In "admin" (Policy.roles readOrder)
  /\ ~ In "super_admin" (Policy.roles readOrder)
  /\ In "read_invoice" (Policy.getEffectivePermissions invoicing (Policy.roles readOrder))
  /\ (forall p, In p (Policy.policies invoicing) -> Policy.applicable readOrder p = false)
  /\ Policy.evaluate invoicing readOrder
     = {| Policy.allowed := true; Policy.reason := None; Policy.filters := Some [] |}.
Proof.
  assert (Ha : ~ In "admin" (Policy.roles readOrder))
    by (simpl; intros [H | []]; discriminate H).
  assert (Hs : ~ In "super_admin" (Policy.roles readOrder))
    by (simpl; intros [H | []]; discriminate H).
  assert (Hp : In "read_invoice"
                  (Policy.getEffectivePermissions invoicing (Policy.roles readOrder)))
    by (vm_compute; auto).
  assert (Hn : forall p, In p (Policy.policies invoicing)
                         -> Policy.applicable readOrder p = false)
    by (intros p [<- | [<- | [<- | []]]]; reflexivity).
  repeat (split; [assumption |]).
  apply (default_permit_when_unconfigured invoicing readOrder Ha Hs); [| exact Hn].
  intros a Hact. injection Hact as <-. left. exact Hp.
Defined.

Lemma deny_precedence_witness :
  In (lockPosted, postedIsLocked, true) (snd (Policy.evaluate_log invoicing updatePosted))
  /\ Policy.type postedIsLocked = Policy.deny_if
  /\ Policy.evaluate invoicing updatePosted
     = {| Policy.allowed := false;
          Policy.reason := Some "Posted invoices are locked";
          Policy.filters := None |}.
Proof.
  assert (Hin : In (lockPosted, postedIsLocked, true)
                   (snd (Policy.evaluate_log invoicing updatePosted)))
    by (vm_compute; auto).
  assert (Ht : Policy.type postedIsLocked = Policy.deny_if) by reflexivity.
  split; [exact Hin |]. split; [exact Ht |].
  exact (proj1 (deny_precedence invoicing updatePosted lockPosted postedIsLocked Hin Ht)).
Defined.

(** The higher policy [read-all] had allowed, and [allow-rest] would. *)
Example draft_is_allowed :
  Policy.evaluate invoicing
    (request ["clerk"] "Invoice" "update_invoice" [("status", VStr "draft")])
  = {| Policy.allowed := true; Policy.reason := None;
       Policy.filters := Some ["tenant_id = :tenant_id"] |}.
Proof. reflexivity. Qed.

Lemma effective_permissions_terminate_witness :
  (size (Policy.role_map invoicing) < 3)%nat
  /\ Policy.traverse invoicing 3 ["clerk"]
     = Some {| Policy.visited := ["clerk"; "staff"];
               Policy.collected := ["update_invoice"; "read_invoice"] |}
  /\ exists st,
       Policy.traverse invoicing 3 ["clerk"] = Some st
       /\ Policy.getEffectivePermissions invoicing ["clerk"] = Policy.collected st
       /\ NoDup (Policy.visited st)
       /\ (forall r, r ∈ Policy.visited st <-> Policy.reach invoicing ["clerk"] r)
       /\ NoDup (Policy.getEffectivePermissions invoicing ["clerk"])
       /\ (forall g, g ∈ Policy.getEffectivePermissions invoicing ["clerk"]
                     <-> exists r, Policy.reach invoicing ["clerk"] r
                                   /\ g ∈ Policy.grants invoicing r).
Proof.
  assert (Hfuel : (size (Policy.role_map invoicing) < 3)%nat) by (vm_compute; lia).
  split; [exact Hfuel |]. split; [reflexivity |].
  exact (effective_permissions_terminate invoicing ["clerk"] 3%nat Hfuel).
Defined.

(** ** spec-linker.ts *)

(** The model of SHA-256 on the test vector of FIPS 180-4. *)
Example sha256_abc :
  Sha256.sha256hex "abc"
  = "ba7816bf8f01cfea414140de5dae2223b00361a396177a9cb410ff61f20015ad".
Proof. vm_compute. reflexivity. Qed.

(** C1 fails as stated: the two specs have the same content and differ in
    the order in which the two entities were inserted; both link, and the
    hashes of the two bundles differ. *)
Lemma hash_changes_with_key_order :
  Json.deepEqual 10 (Spec.toValue shopCustomerFirst) (Spec.toValue shopOrderFirst) = true
  /\ Linker.link "2026-01-01T00:00:00.000Z" shopCustomerFirst ≫= Linker.hashOf
     = Some "817cdacb3daf647a"
  /\ Linker.link "2026-01-01T00:00:00.000Z" shopOrderFirst ≫= Linker.hashOf
     = Some "4201864a416ef636"
  /\ Linker.link "2026-01-01T00:00:00.000Z" shopCustomerFirst ≫= Linker.hashOf
     <> Linker.link "2026-01-01T00:00:00.000Z" shopOrderFirst ≫= Linker.hashOf.
Proof.
  split; [vm_compute; reflexivity |].
  split; [vm_compute; reflexivity |].
  split; [vm_compute; reflexivity |].
  vm_compute. discriminate.
Qed.

Lemma hash_depends_on_serialization_witness :
  let bundleAt now :=
    {| SpecBundle.spec := shopCustomerFirst;
       SpecBundle._meta :=
         {| SpecBundle.version := "1.0.0"; SpecBundle.generated_at := now;
            SpecBundle.hash := "817cdacb3daf647a" |} |} in
  Linker.bundle <$> Linker.link "2026-01-01T00:00:00.000Z" shopCustomerFirst
  = Some (Some (bundleAt "2026-01-01T00:00:00.000Z"))
  /\ Linker.bundle <$> Linker.link "2026-06-30T12:00:00.000Z" shopCustomerFirst
     = Some (Some (bundleAt "2026-06-30T12:00:00.000Z"))
  /\ SpecBundle.hash (SpecBundle._meta (bundleAt "2026-01-01T00:00:00.000Z"))
     = SpecBundle.hash (SpecBundle._meta (bundleAt "2026-06-30T12:00:00.000Z"))
  /\ SpecBundle.hash (SpecBundle._meta (bundleAt "2026-01-01T00:00:00.000Z"))
     = JsString.take 16 (Sha256.sha256hex (Json.stringify (Spec.toValue shopCustomerFirst))).
Proof.
  intros bundleAt.
  assert (H1 : Linker.bundle <$> Linker.link "2026-01-01T00:00:00.000Z" shopCustomerFirst
               = Some (Some (bundleAt "2026-01-01T00:00:00.000Z")))
    by (vm_compute; reflexivity).
  assert (H2 : Linker.bundle <$> Linker.link "2026-06-30T12:00:00.000Z" shopCustomerFirst
               = Some (Some (bundleAt "2026-06-30T12:00:00.000Z")))
    by (vm_compute; reflexivity).
  split; [exact H1 |]. split; [exact H2 |].
  destruct (returned _ _ _ H1) as (r1 & Hr1 & Hb1).
  destruct (returned _ _ _ H2) as (r2 & Hr2 & Hb2).
  exact (hash_depends_on_serialization _ _ shopCustomerFirst shopCustomerFirst
           r1 r2 _ _ eq_refl Hr1 Hb1 Hr2 Hb2).
Defined.

(** C7 fails on the code for the names of the members of
    [Object.prototype]: [Order.maker] refers to [constructor], which is no
    entity of the spec; [spec.entities["constructor"]] is then the inherited
    function [Object], which is truthy, so no [missing_reference] is pushed,
    and reading a field of its [fields], which is [undefined], throws:
    [link] returns nothing. *)
Lemma reference_to_constructor_throws :
  In ("Order", orderByMaker) (Spec.entities shopWithMaker)
  /\ In ("maker", field "string" (refTo "constructor")) (EntitySpec.fields orderByMaker)
  /\ lookup "constructor" (Spec.entities shopWithMaker) = None
  /\ Linker.validateEntityReferences shopWithMaker = None
  /\ Linker.link "2026-01-01T00:00:00.000Z" shopWithMaker = None.
Proof.
  split; [simpl; auto |]. split; [simpl; auto |].
  split; [reflexivity |]. split; reflexivity.
Qed.

Lemma missing_entity_reference_reported_witness :
  In ("Order", order) (Spec.entities shopWithoutCustomer)
  /\ In ("customer_id", field "uuid" (refTo "Customer")) (EntitySpec.fields order)
  /\ lookup "Customer" (Spec.entities shopWithoutCustomer) = None
  /\ Linker.linkable shopWithoutCustomer
  /\ exists r,
       Linker.link "2026-01-01T00:00:00.000Z" shopWithoutCustomer = Some r
       /\ (exists e, In e (Linker.errors r)
                     /\ Linker.type e = Linker.missing_reference
                     /\ Linker.source e = "entities.Order.fields.customer_id"
                     /\ JsString.startsWith "entities.Order" (Linker.source e) = true
                     /\ Linker.target e = Some "entities.Customer")
       /\ Linker.valid r = false
       /\ Linker.bundle r = None.
Proof.
  assert (HE : In ("Order", order) (Spec.entities shopWithoutCustomer))
    by (simpl; auto).
  assert (HF : In ("customer_id", field "uuid" (refTo "Customer")) (EntitySpec.fields order))
    by (simpl; auto).
  assert (HX : lookup "Customer" (Spec.entities shopWithoutCustomer) = None)
    by reflexivity.
  assert (Hok : Linker.linkable shopWithoutCustomer).
  { intros E entity F field reference HE' HF' Href _.
    destruct HE' as [[= <- <-] | []].
    destruct HF' as [[= <- <-] | [[= <- <-] | []]]; [discriminate Href |].
    injection Href as <-. cbn [Reference.entity].
    intros Hin. repeat (destruct Hin as [Hin | Hin]; [discriminate Hin |]).
    destruct Hin. }
  split; [exact HE |]. split; [exact HF |]. split; [exact HX |]. split; [exact Hok |].
  exact (proj1 missing_entity_reference_reported "2026-01-01T00:00:00.000Z"
           shopWithoutCustomer "Order" "customer_id" order
           (field "uuid" (refTo "Customer"))
           {| Reference.entity := "Customer"; Reference.field := None;
              Reference.rest := [] |}
           HE HF eq_refl HX Hok).
Defined.

(** C8 fails as stated: the spec has an entity named [journal_entry] that is
    not flagged immutable and a [JournalLine] without debit and credit
    fields, in production; but it also has a [JournalEntry], which is
    immutable, and that is the one [checkInvariants] looks at: [link] reports
    one [invariant_violation], not two. *)
Lemma shadowed_journal_entry_passes :
  lookup "journal_entry" (Spec.entities ledgerTwice) = Some journalEntry
  /\ EntitySpec.immutable journalEntry = None
  /\ lookup "JournalLine" (Spec.entities ledgerTwice) = Some journalLine
  /\ map fst (EntitySpec.fields journalLine) = ["id"; "entry_id"]
  /\ ProductSpec.profile (Spec.product ledgerTwice) = prod
  /\ (fun r => Linker.invariantViolations (Linker.errors r))
       <$> Linker.link "2026-01-01T00:00:00.000Z" ledgerTwice
     = Some [ {| Linker.type := Linker.invariant_violation;
                 Linker.message := "JournalLine must have both debit and credit fields for balance invariant";
                 Linker.source := "entities.JournalLine"; Linker.target := None |} ].
Proof. repeat split; reflexivity. Qed.

Lemma journal_invariants_violated_witness :
  lookup "JournalEntry" (Spec.entities ledgerLower) = None
  /\ lookup "journal_entry" (Spec.entities ledgerLower) = Some journalEntry
  /\ EntitySpec.immutable journalEntry <> Some true
  /\ lookup "JournalLine" (Spec.entities ledgerLower) = None
  /\ lookup "journal_line" (Spec.entities ledgerLower) = Some journalLineLower
  /\ map fst (EntitySpec.fields journalLineLower) = ["id"; "entry_id"]
  /\ ProductSpec.profile (Spec.product ledgerLower) = prod
  /\ Linker.linkable ledgerLower
  /\ (fun r => Linker.invariantViolations (Linker.errors r))
       <$> Linker.link "2026-01-01T00:00:00.000Z" ledgerLower
     = Some [ {| Linker.type := Linker.invariant_violation;
                 Linker.message := "JournalLine must have both debit and credit fields for balance invariant";
                 Linker.source := "entities.JournalLine"; Linker.target := None |};
              {| Linker.type := Linker.invariant_violation;
                 Linker.message := "JournalEntry should be immutable in production for audit compliance";
                 Linker.source := "entities.JournalEntry"; Linker.target := None |} ]
  /\ exists r references,
       Linker.link "2026-01-01T00:00:00.000Z" ledgerLower = Some r
       /\ (2 <= length (Linker.invariantViolations (Linker.errors r)))%nat
       /\ Linker.errors r
          = references ++
            [ {| Linker.type := Linker.invariant_violation;
                 Linker.message := "JournalLine must have both debit and credit fields for balance invariant";
                 Linker.source := "entities.JournalLine"; Linker.target := None |};
              {| Linker.type := Linker.invariant_violation;
                 Linker.message := "JournalEntry should be immutable in production for audit compliance";
                 Linker.source := "entities.JournalEntry"; Linker.target := None |} ].
Proof.
  assert (Himm : EntitySpec.immutable journalEntry <> Some true)
    by (simpl; discriminate).
  assert (Hok : Linker.linkable ledgerLower).
  { intros E entity F field reference HE HF Href Hl.
    destruct HE as [[= <- <-] | [[= <- <-] | []]].
    - destruct HF as [[= <- <-] | []]. discriminate Href.
    - destruct HF as [[= <- <-] | [[= <- <-] | []]]; [discriminate Href |].
      injection Href as <-. discriminate Hl. }
  split; [reflexivity |]. split; [reflexivity |]. split; [exact Himm |].
  split; [reflexivity |]. split; [reflexivity |]. split; [reflexivity |].
  split; [reflexivity |]. split; [exact Hok |]. split; [vm_compute; reflexivity |].
  exact (journal_invariants_violated "2026-01-01T00:00:00.000Z" ledgerLower
           journalEntry journalLineLower
           (or_intror (conj eq_refl eq_refl)) Himm
           (or_intror (conj eq_refl eq_refl))
           eq_refl eq_refl eq_refl eq_refl eq_refl Hok).
Defined.

(** A name that [Object.prototype] carries passes every other reference
    check: the relation [Order.text] has the target [toString], which is no
    entity, and the spec links. *)
Example prototype_names_are_found :
  lookup "toString" (Spec.entities shopToString) = None
  /\ (fun r => (Linker.valid r, Linker.errors r))
       <$> Linker.link "2026-01-01T00:00:00.000Z" shopToString
     = Some (true, []).
Proof. split; [reflexivity | vm_compute; reflexivity]. Qed.

(** ** spec-validator.ts *)

Lemma production_requires_idempotent_commands_witness :
  Validator.opt_profile defaults = None
  /\ ProductSpec.profile (Spec.product cautiousShop) = dev
  /\ ProductSpec.profiles (Spec.product cautiousShop)
     = Some {| ProductSpec.profiles_dev := Some cautious;
               ProductSpec.profiles_prod := None |}
  /\ ProfileConfig.require_idempotency cautious = None
  /\ In ("create_order", action command None) (Spec.actions cautiousShop)
  /\ Validator.errors (Validator.validate noSchemas cautiousShop defaults)
     = [ {| Validator.path := "actions.create_order";
            Validator.message := "Commands must be idempotent in production profile";
            Validator.schemaPath := None |} ]
  /\ (exists e, In e (Validator.errors (Validator.validate noSchemas cautiousShop defaults))
                /\ Validator.path e = "actions." +:+ "create_order"
                /\ Validator.message e = "Commands must be idempotent in production profile"
                /\ Validator.schemaPath e = None)
  /\ Validator.valid (Validator.validate noSchemas cautiousShop defaults) = false.
Proof.
  assert (Hin : In ("create_order", action command None) (Spec.actions cautiousShop))
    by (simpl; auto).
  assert (Hforce : Validator.inForce cautiousShop defaults dev)
    by (right; split; reflexivity).
  assert (Hblock : Validator.block cautiousShop dev cautious).
  { eexists. split; [reflexivity |]. left. split; reflexivity. }
  assert (Hreq : forall cfg, Validator.block cautiousShop dev cfg ->
                             ProfileConfig.require_idempotency cfg <> Some false).
  { intros cfg (ps & Hps & [[_ Hd] | [Hp _]]); [| discriminate Hp].
    injection Hps as <-. injection Hd as <-. discriminate. }
  split; [reflexivity |]. split; [reflexivity |]. split; [reflexivity |].
  split; [reflexivity |]. split; [exact Hin |]. split; [vm_compute; reflexivity |].
  exact (proj2 (proj1 production_requires_idempotent_commands
                  noSchemas cautiousShop defaults dev Hforce
                  (or_intror (ex_intro _ cautious Hblock)) Hreq)
           "create_order" (action command None) Hin eq_refl
           ltac:(simpl; discriminate)).
Defined.

(** The same rule under the profile [prod] without any block. *)
Example production_without_block :
  ProductSpec.profiles (Spec.product shopInProduction) = None
  /\ Validator.errors (Validator.validate noSchemas shopInProduction defaults)
     = [Validator.notIdempotent "create_order"].
Proof. split; [reflexivity | vm_compute; reflexivity]. Qed.

(** ** rate-limit.ts *)

(** C6 fails as stated at the end of the window: a third call made at the
    very millisecond of [resetAt] still falls into the window, so it is
    denied, and its [retryAfter] is 0, not greater than 0.  And the quota is
    not always [requestsPerMinute + burst]: with [requestsPerMinute = 2.5]
    three calls of a window are allowed. *)
Lemma retry_after_at_reset :
  fst (RateLimit.consumeAll twoPerMinute "k" [(0, 0); (1000, 1000); (60000, 60000)])
  = [ {| RateLimit.allowed := true; RateLimit.remaining := JsNumber.Dec 1 0;
         RateLimit.resetAt := 60000; RateLimit.retryAfter := None |};
      {| RateLimit.allowed := true; RateLimit.remaining := JsNumber.Dec 0 0;
         RateLimit.resetAt := 60000; RateLimit.retryAfter := None |};
      {| RateLimit.allowed := false; RateLimit.remaining := JsNumber.Dec 0 0;
         RateLimit.resetAt := 60000; RateLimit.retryAfter := Some 0 |} ]
  /\ map RateLimit.allowed
       (fst (RateLimit.consumeAll fivePerTwoMinutes "k" [(0, 0); (1, 1); (2, 2); (3, 3)]))
     = [true; true; true; false].
Proof. split; vm_compute; reflexivity. Qed.

Lemma rate_limiter_windowing_witness :
  RateLimit.requestsPerMinute (RateLimit.config twoPerMinute) = JsNumber.ofZ 2
  /\ RateLimit.burst (RateLimit.config twoPerMinute) = Some (JsNumber.ofZ 0)
  /\ fst (RateLimit.consumeAll twoPerMinute "k"
            [(0, 5); (1000, 1000); (59001, 59001); (60006, 60010)])
     = [ {| RateLimit.allowed := true; RateLimit.remaining := JsNumber.Dec 1 0;
            RateLimit.resetAt := 60000; RateLimit.retryAfter := None |};
         {| RateLimit.allowed := true; RateLimit.remaining := JsNumber.Dec 0 0;
            RateLimit.resetAt := 60005; RateLimit.retryAfter := None |};
         {| RateLimit.allowed := false; RateLimit.remaining := JsNumber.Dec 0 0;
            RateLimit.resetAt := 60005; RateLimit.retryAfter := Some 2 |};
         {| RateLimit.allowed := true; RateLimit.remaining := JsNumber.Dec 1 0;
            RateLimit.resetAt := 120006; RateLimit.retryAfter := None |} ]
  /\ (exists r1 r2 r3 r4 final n,
        RateLimit.consumeAll twoPerMinute "k"
          [(0, 5); (1000, 1000); (59001, 59001); (60006, 60010)]
        = ([r1; r2; r3; r4], final)
        /\ RateLimit.allowed r1 = true /\ RateLimit.allowed r2 = true
        /\ RateLimit.allowed r3 = false
        /\ RateLimit.retryAfter r3 = Some n
        /\ RateLimit.roundedUp (5 + 60000 - 59001) n
        /\ 0 <= n <= 60
        /\ (0 < n <-> 59001 < 5 + 60000)
        /\ RateLimit.allowed r4 = true
        /\ RateLimit.resetAt r4 = 60006 + 60000
        /\ RateLimit.store final !! "k"
           = Some {| RateLimit.count := 1; RateLimit.entry_resetAt := 60010 + 60000 |})
  /\ RateLimit.wholeQuota (RateLimit.config twoPerMinute) 2
  /\ RateLimit.allowed
       <$> fst (RateLimit.consumeAll twoPerMinute "k" [(0, 5); (1000, 1000); (59001, 59001)])
           !! 2%nat
     = Some (bool_decide (Z.of_nat 2 < 2)).
Proof.
  assert (Hw : RateLimit.wholeQuota (RateLimit.config twoPerMinute) 2).
  { exists 2, 0. split; [reflexivity |]. split; [right; reflexivity | reflexivity]. }
  split; [reflexivity |]. split; [reflexivity |]. split; [vm_compute; reflexivity |].
  split.
  - apply (proj1 rate_limiter_windowing twoPerMinute "k" 0 5 1000 1000 59001 59001
             60006 60010); try reflexivity; lia.
  - split; [exact Hw |].
    destruct (fst (RateLimit.consumeAll twoPerMinute "k"
                     [(0, 5); (1000, 1000); (59001, 59001)]) !! 2%nat)
      as [r |] eqn:Hr; [| vm_compute in Hr; discriminate Hr].
    cbn [fmap option_fmap option_map]. f_equal.
    apply (proj2 rate_limiter_windowing twoPerMinute "k" 2 0 5
             [(1000, 1000); (59001, 59001)] 2%nat r Hw); [reflexivity | | exact Hr].
    repeat constructor; cbn; lia.
Defined.

(** ** The further properties *)

Lemma and_or_compose_witness :
  JsString.trim "user.id = 'u1'" = "user.id = 'u1'"
  /\ JsString.trim "resource.status = 'draft'" = "resource.status = 'draft'"
  /\ Conditions.evaluateCondition "user.id = 'u1' AND resource.status = 'draft'" draftOfU1
     = Conditions.evaluateCondition "user.id = 'u1'" draftOfU1
       && Conditions.evaluateCondition "resource.status = 'draft'" draftOfU1
  /\ Conditions.evaluateCondition "user.id = 'u1' OR resource.status = 'draft'" draftOfU1
     = Conditions.evaluateCondition "user.id = 'u1'" draftOfU1
       || Conditions.evaluateCondition "resource.status = 'draft'" draftOfU1.
Proof.
  assert (Ha : JsString.trim "user.id = 'u1'" = "user.id = 'u1'") by reflexivity.
  assert (Hb : JsString.trim "resource.status = 'draft'" = "resource.status = 'draft'")
    by reflexivity.
  split; [exact Ha |]. split; [exact Hb |].
  pose proof (and_or_compose "user.id = 'u1'" "resource.status = 'draft'" draftOfU1
                Ha ltac:(discriminate) Hb ltac:(discriminate)) as [Hand Hor].
  split; [apply Hand; reflexivity | apply Hor; reflexivity].
Defined.

Lemma and_binds_weaker_than_or_witness :
  Conditions.evaluateCondition
    "user.id = 'u1' OR resource.status = 'posted' AND user.id = 'zz'" draftOfU1
  = (Conditions.evaluateCondition "user.id = 'u1'" draftOfU1
     || Conditions.evaluateCondition "resource.status = 'posted'" draftOfU1)
    && Conditions.evaluateCondition "user.id = 'zz'" draftOfU1
  /\ Conditions.evaluateCondition
       "user.id = 'u1' OR resource.status = 'posted' AND user.id = 'zz'" draftOfU1
     = false.
Proof.
  split; [| reflexivity].
  apply (proj1 (and_binds_weaker_than_or
                  "user.id = 'u1'" "resource.status = 'posted'" "user.id = 'zz'"
                  draftOfU1 eq_refl ltac:(discriminate) eq_refl ltac:(discriminate)
                  eq_refl ltac:(discriminate)));
    reflexivity.
Defined.

Lemma not_negates_witness :
  Conditions.evaluateCondition "NOT resource.status = 'posted'" draftOfU1
  = negb (Conditions.evaluateCondition "resource.status = 'posted'" draftOfU1)
  /\ Conditions.evaluateCondition "NOT resource.status = 'posted' AND user.id = 'u1'"
       draftOfU1
     = negb (Conditions.evaluateCondition "resource.status = 'posted'" draftOfU1)
       && Conditions.evaluateCondition "user.id = 'u1'" draftOfU1.
Proof.
  pose proof (not_negates "resource.status = 'posted'" "user.id = 'u1'" draftOfU1
                eq_refl ltac:(discriminate)) as [Hnot Hand].
  split; [apply Hnot; reflexivity |].
  apply Hand; [reflexivity | discriminate | reflexivity | reflexivity].
Defined.

Lemma counts_stay_within_quota_witness :
  let used := snd (RateLimit.consumeAll fivePerTwoMinutes "k" [(0, 0); (1, 1)]) in
  RateLimit.store used !! "k"
  = Some {| RateLimit.count := 2; RateLimit.entry_resetAt := 60000 |}
  /\ JsNumber.isNaN (RateLimit.maxRequests (RateLimit.config used)) = false
  /\ RateLimit.bounded used
  /\ 2 <= 2
  /\ RateLimit.store (snd (RateLimit.consume used 2 2 "k")) !! "k"
     = Some {| RateLimit.count := 3; RateLimit.entry_resetAt := 60000 |}
  /\ RateLimit.bounded (snd (RateLimit.consume used 2 2 "k"))
  /\ RateLimit.wholeQuota (RateLimit.config twoPerMinute) 2
  /\ RateLimit.store (snd (RateLimit.consumeAll twoPerMinute "k" [(0, 0); (1, 1); (2, 2)]))
       !! "k"
     = Some {| RateLimit.count := 2; RateLimit.entry_resetAt := 60000 |}
  /\ 1 <= 2 <= 2.
Proof.
  intros used.
  assert (Hnan : JsNumber.isNaN (RateLimit.maxRequests (RateLimit.config used)) = false)
    by reflexivity.
  assert (Hb : RateLimit.bounded used).
  { apply (proj1 (proj2 counts_stay_within_quota)
             (snd (RateLimit.consume fivePerTwoMinutes 0 0 "k")) 1 1 "k");
      [reflexivity | | lia].
    apply (proj1 (proj2 counts_stay_within_quota) fivePerTwoMinutes 0 0 "k");
      [reflexivity | | lia].
    apply (proj1 counts_stay_within_quota). }
  assert (Hw : RateLimit.wholeQuota (RateLimit.config twoPerMinute) 2).
  { exists 2, 0. split; [reflexivity |]. split; [right; reflexivity | reflexivity]. }
  assert (Hb2 : RateLimit.bounded
                  (snd (RateLimit.consumeAll twoPerMinute "k" [(0, 0); (1, 1); (2, 2)]))).
  { apply (proj1 (proj2 counts_stay_within_quota)
             (snd (RateLimit.consumeAll twoPerMinute "k" [(0, 0); (1, 1)])) 2 2 "k");
      [reflexivity | | lia].
    apply (proj1 (proj2 counts_stay_within_quota)
             (snd (RateLimit.consume twoPerMinute 0 0 "k")) 1 1 "k");
      [reflexivity | | lia].
    apply (proj1 (proj2 counts_stay_within_quota) twoPerMinute 0 0 "k");
      [reflexivity | | lia].
    apply (proj1 counts_stay_within_quota). }
  assert (Hs2 : RateLimit.store
                  (snd (RateLimit.consumeAll twoPerMinute "k" [(0, 0); (1, 1); (2, 2)]))
                  !! "k"
                = Some {| RateLimit.count := 2; RateLimit.entry_resetAt := 60000 |})
    by (vm_compute; reflexivity).
  split; [vm_compute; reflexivity |]. split; [exact Hnan |]. split; [exact Hb |].
  split; [lia |]. split; [vm_compute; reflexivity |].
  split; [exact (proj1 (proj2 counts_stay_within_quota) used 2 2 "k" Hnan Hb
                   ltac:(lia)) |].
  split; [exact Hw |]. split; [exact Hs2 |].
  exact (proj1 (proj2 (proj2 (proj2 (proj2 counts_stay_within_quota))))
           (snd (RateLimit.consumeAll twoPerMinute "k" [(0, 0); (1, 1); (2, 2)]))
           2 "k" _ Hw Hb2 Hs2).
Defined.

Lemma keys_are_independent_witness :
  "user:1" <> "user:2"
  /\ RateLimit.check (snd (RateLimit.consume twoPerMinute 0 0 "user:1")) 1 "user:2"
     = RateLimit.check twoPerMinute 1 "user:2".
Proof.
  assert (Hne : "user:1" <> "user:2") by discriminate.
  split; [exact Hne |].
  apply (proj1 (keys_are_independent twoPerMinute "user:1" "user:2" Hne)).
Defined.

Lemma cleanup_is_invisible_witness :
  let used := snd (RateLimit.consume twoPerMinute 0 0 "k") in
  RateLimit.store (RateLimit.cleanup used 70000) !! "k" = None
  /\ RateLimit.check (RateLimit.cleanup used 70000) 80000 "k"
     = RateLimit.check used 80000 "k".
Proof.
  intros used. split; [reflexivity |].
  apply (proj1 (proj2 (proj2 cleanup_is_invisible))
           (RateLimit.cleanup used 70000) used 70000 80000 "k");
    [apply (proj1 (proj2 cleanup_is_invisible)) | lia].
Defined.

Lemma getKey_buckets_witness :
  RateLimit.getKey RateLimit.ScopeUser (Some "t1") (Some "t1") None
  <> RateLimit.getKey RateLimit.ScopeTenant (Some "t1") (Some "t1") None.
Proof. apply (proj1 getKey_buckets). discriminate. Defined.

Lemma decision_of_evaluate_witness :
  ~ In "admin" (Policy.roles updateDraft)
  /\ ~ In "super_admin" (Policy.roles updateDraft)
  /\ In "update_invoice"
        (Policy.getEffectivePermissions invoicing (Policy.roles updateDraft))
  /\ Policy.evaluate invoicing updateDraft
     = {| Policy.allowed := true; Policy.reason := None;
          Policy.filters :=
            Some (flat_map (Policy.contributed updateDraft)
                    (List.filter (Policy.applicable updateDraft)
                       (Policy.policies invoicing))) |}.
Proof.
  assert (Ha : ~ In "admin" (Policy.roles updateDraft))
    by (simpl; intros [H | []]; discriminate H).
  assert (Hs : ~ In "super_admin" (Policy.roles updateDraft))
    by (simpl; intros [H | []]; discriminate H).
  assert (Hp : In "update_invoice"
                  (Policy.getEffectivePermissions invoicing (Policy.roles updateDraft)))
    by (vm_compute; auto).
  repeat (split; [assumption |]).
  apply (proj2 (decision_of_evaluate invoicing updateDraft Ha Hs
                  ltac:(intros a Hact; injection Hact as <-; left; exact Hp))).
  reflexivity.
Defined.

Lemma decision_ignores_priority_witness :
  Policy.policies invoicingReversed = [allowRest; lockPosted; readAll]
  /\ Policy.policies invoicing = [readAll; lockPosted; allowRest]
  /\ Policy.allowed (Policy.evaluate invoicingReversed updatePosted)
     = Policy.allowed (Policy.evaluate invoicing updatePosted).
Proof.
  split; [reflexivity |]. split; [reflexivity |].
  apply decision_ignores_priority; [reflexivity |].
  apply Permutation_sym, Permutation_rev.
Defined.

Lemma rbac_gate_witness :
  Policy.roles clerkDeletes = ["clerk"]
  /\ Policy.action clerkDeletes = Some "delete_invoice"
  /\ Policy.grants invoicing "clerk" = ["update_invoice"]
  /\ Policy.grants invoicing "staff" = ["read_invoice"; "update_invoice"]
  /\ Policy.checkRolePermissions invoicing clerkDeletes "delete_invoice" = false
  /\ Policy.checkRolePermissions invoicing clerkDeletes "read_invoice" = true
  /\ (exists r, Policy.reach invoicing (Policy.roles clerkDeletes) r
                /\ ("read_invoice" ∈ Policy.grants invoicing r
                    \/ "*" ∈ Policy.grants invoicing r))
  /\ Policy.evaluate_log invoicing clerkDeletes
     = ({| Policy.allowed := false;
           Policy.reason := Some "No role permission for action: delete_invoice";
           Policy.filters := None |}, []).
Proof.
  assert (Hc : Policy.checkRolePermissions invoicing clerkDeletes "delete_invoice" = false)
    by reflexivity.
  assert (Hr : Policy.checkRolePermissions invoicing clerkDeletes "read_invoice" = true)
    by reflexivity.
  split; [reflexivity |]. split; [reflexivity |]. split; [reflexivity |].
  split; [reflexivity |]. split; [exact Hc |]. split; [exact Hr |].
  split; [exact (proj1 (proj1 (rbac_gate invoicing) clerkDeletes "read_invoice") Hr) |].
  apply (proj1 (proj2 (rbac_gate invoicing)) clerkDeletes "delete_invoice").
  - simpl. intros [H | []]. discriminate H.
  - simpl. intros [H | []]. discriminate H.
  - reflexivity.
  - discriminate.
  - intros r Hreach.
    assert (Hno : ~ ("delete_invoice" ∈ Policy.grants invoicing r
                     \/ "*" ∈ Policy.grants invoicing r)).
    { intros Hg.
      assert (Ht : Policy.checkRolePermissions invoicing clerkDeletes "delete_invoice"
                   = true)
        by (apply (proj1 (rbac_gate invoicing)); exists r; split; assumption).
      rewrite Hc in Ht. discriminate Ht. }
    split; intros Hg; apply Hno; [left | right]; exact Hg.
Defined.

Lemma effective_permissions_monotone_witness :
  "read_invoice" ∈ Policy.getEffectivePermissions invoicing ["staff"]
  /\ "read_invoice" ∈ Policy.getEffectivePermissions invoicing ["clerk"; "staff"].
Proof.
  assert (H : "read_invoice" ∈ Policy.getEffectivePermissions invoicing ["staff"])
    by (vm_compute; constructor).
  split; [exact H |].
  apply (proj1 (effective_permissions_monotone invoicing) ["staff"] ["clerk"; "staff"]);
    [| exact H].
  intros r Hr. apply list_elem_of_singleton in Hr. subst r.
  constructor. constructor.
Defined.

Lemma linked_entities_resolve_witness :
  Linker.valid <$> Linker.link "2026-01-01T00:00:00.000Z" portal = Some true
  /\ (exists targetEntity,
        lookup "Customer" (Spec.entities portal) = Some targetEntity
        /\ Linker.found (EntitySpec.fields targetEntity) (Obj.orElse None "id"))
  /\ Linker.valid <$> Linker.link "2026-01-01T00:00:00.000Z" shopToString = Some true
  /\ lookup "toString" (Spec.entities shopToString) = None
  /\ Linker.found (Spec.entities shopToString) "toString".
Proof.
  assert (Hv : Linker.valid <$> Linker.link "2026-01-01T00:00:00.000Z" portal = Some true)
    by (vm_compute; reflexivity).
  assert (Hv' : Linker.valid <$> Linker.link "2026-01-01T00:00:00.000Z" shopToString
                = Some true)
    by (vm_compute; reflexivity).
  split; [exact Hv |].
  destruct (returned _ _ _ Hv) as (r & Hr & Hvalid).
  destruct (returned _ _ _ Hv') as (r' & Hr' & Hvalid').
  split.
  - apply (proj1 (linked_entities_resolve _ portal r Hr Hvalid)
             "Order" orderWithCustomer "customer_id" (field "uuid" (refTo "Customer"))
             {| Reference.entity := "Customer"; Reference.field := None;
                Reference.rest := [] |});
      [simpl; auto | simpl; auto | reflexivity].
  - split; [exact Hv' |]. split; [reflexivity |].
    exact (proj1 (proj2 (linked_entities_resolve _ shopToString r' Hr' Hvalid')
                    "Order" orderToString "text"
                    {| RelationSpec.target := "toString"; RelationSpec.through := None;
                       RelationSpec.rest := [] |}
                    (or_introl eq_refl) (or_introl eq_refl))).
Defined.

Lemma linked_flows_resolve_witness :
  Linker.valid <$> Linker.link "2026-01-01T00:00:00.000Z" portal = Some true
  /\ Linker.found (FlowSpec.steps checkout) "pay"
  /\ Linker.foundIn (UiSpec.screens (Spec.ui portal)) "cart".
Proof.
  assert (Hv : Linker.valid <$> Linker.link "2026-01-01T00:00:00.000Z" portal = Some true)
    by (vm_compute; reflexivity).
  split; [exact Hv |].
  destruct (returned _ _ _ Hv) as (r & Hr & Hvalid).
  destruct (linked_flows_resolve _ portal r Hr Hvalid "checkout" checkout
              ltac:(simpl; auto)) as [_ Hsteps].
  destruct (Hsteps "cart" cartStep ltac:(simpl; auto)) as (Hscreen & Htrans & _).
  split; [| exact Hscreen].
  apply (Htrans "next" {| TransitionSpec.target := "pay";
                          TransitionSpec.action := Some "create_order";
                          TransitionSpec.rest := [] |}).
  simpl. auto.
Defined.

Lemma linked_policies_resolve_witness :
  Linker.valid <$> Linker.link "2026-01-01T00:00:00.000Z" portal = Some true
  /\ Linker.foundIn (PoliciesSpec.roles (Spec.policies portal)) "staff"
  /\ Linker.found (Spec.actions portal) "create_order".
Proof.
  assert (Hv : Linker.valid <$> Linker.link "2026-01-01T00:00:00.000Z" portal = Some true)
    by (vm_compute; reflexivity).
  split; [exact Hv |].
  destruct (returned _ _ _ Hv) as (r & Hr & Hvalid).
  destruct (linked_policies_resolve _ portal r Hr Hvalid) as [Hroles _].
  destruct (Hroles "clerk" clerkRole ltac:(simpl; auto)) as [Hparents Hcan].
  split; [apply Hparents | apply Hcan]; simpl; auto.
Defined.

Lemma linked_actions_screens_jobs_resolve_witness :
  Linker.valid <$> Linker.link "2026-01-01T00:00:00.000Z" portal = Some true
  /\ Linker.foundIn (JobsSpec.queues (Spec.jobs portal)) "dead"
  /\ Linker.foundIn (JobsSpec.jobs (Spec.jobs portal)) "notify".
Proof.
  assert (Hv : Linker.valid <$> Linker.link "2026-01-01T00:00:00.000Z" portal = Some true)
    by (vm_compute; reflexivity).
  split; [exact Hv |].
  destruct (returned _ _ _ Hv) as (r & Hr & Hvalid).
  destruct (linked_actions_screens_jobs_resolve _ portal r Hr Hvalid)
    as (Hact & _ & Hjobs).
  split.
  - destruct (Hjobs "notify" notify ltac:(simpl; auto)) as (_ & Hdead & _).
    apply Hdead; [reflexivity | discriminate].
  - destruct (Hact "create_order" createOrder ltac:(simpl; auto)) as (_ & Hjob & _).
    apply Hjob; [reflexivity | discriminate].
Defined.

Lemma link_error_kinds_witness :
  let e := Linker.missing
             ("Entity " +:+ Linker.q "Customer" +:+ " referenced by field "
              +:+ Linker.q "customer_id" +:+ " does not exist")
             "entities.Order.fields.customer_id" "entities.Customer" in
  Linker.errors <$> Linker.link "2026-01-01T00:00:00.000Z" shopWithoutCustomer
  = Some [e]
  /\ ((Linker.type e = Linker.missing_reference /\ is_Some (Linker.target e))
      \/ (Linker.type e = Linker.invariant_violation /\ Linker.target e = None
          /\ is_Some (Linker.either (Spec.entities shopWithoutCustomer)
                        "JournalEntry" "journal_entry")
          /\ is_Some (Linker.either (Spec.entities shopWithoutCustomer)
                        "JournalLine" "journal_line"))).
Proof.
  intros e.
  assert (He : Linker.errors
                 <$> Linker.link "2026-01-01T00:00:00.000Z" shopWithoutCustomer
               = Some [e])
    by (vm_compute; reflexivity).
  split; [exact He |].
  destruct (returned _ _ _ He) as (r & Hr & Herrs).
  apply (link_error_kinds _ shopWithoutCustomer r e Hr).
  rewrite Herrs. left. reflexivity.
Defined.

Lemma unused_entities_warned_witness :
  Linker.warnings <$> Linker.link "2026-01-01T00:00:00.000Z" shopOrderFirst
  = Some [Linker.unusedEntity "Order"]
  /\ map fst (Spec.entities shopOrderFirst) = ["Order"; "Customer"]
  /\ exists r,
       Linker.link "2026-01-01T00:00:00.000Z" shopOrderFirst = Some r
       /\ (exists unused_ : string -> bool,
             (forall E, unused_ E = true <-> ~ Linker.referenced shopOrderFirst E)
             /\ Linker.warnings r
                = map Linker.unusedEntity
                    (List.filter unused_ (map fst (Spec.entities shopOrderFirst))))
       /\ (exists E entity,
             In (E, entity) (Spec.entities shopOrderFirst)
             /\ ~ Linker.referenced shopOrderFirst E
             /\ Linker.unusedEntity "Order" = Linker.unusedEntity E).
Proof.
  assert (Hw : Linker.warnings <$> Linker.link "2026-01-01T00:00:00.000Z" shopOrderFirst
               = Some [Linker.unusedEntity "Order"])
    by (vm_compute; reflexivity).
  split; [exact Hw |]. split; [reflexivity |].
  destruct (returned _ _ _ Hw) as (r & Hr & Hwarn).
  exists r. split; [exact Hr |].
  destruct (unused_entities_warned _ shopOrderFirst r Hr) as (Hexact & Hiff & _).
  split; [exact Hexact |].
  apply (proj1 (Hiff _)). rewrite Hwarn. left. reflexivity.
Defined.

Lemma dev_profile_checks_schemas_only_witness :
  Validator.effectiveProfile shopCustomerFirst defaults = dev
  /\ Validator.effectiveConfig shopCustomerFirst defaults = None
  /\ Validator.valid (Validator.validate noSchemas shopCustomerFirst defaults) = true
  /\ Validator.errors (Validator.validate noSchemas shopCustomerFirst defaults) = [].
Proof.
  split; [reflexivity |]. split; [reflexivity |].
  apply (dev_profile_checks_schemas_only noSchemas shopCustomerFirst defaults
           eq_refl eq_refl).
  reflexivity.
Defined.

Lemma idempotency_rule_can_be_switched_off_witness :
  Validator.effectiveConfig relaxedShop defaults = Some relaxed
  /\ In ("create_order", action command None) (Spec.actions relaxedShop)
  /\ Validator.errors (Validator.validate noSchemas relaxedShop defaults)
     = Validator.schemaErrors noSchemas relaxedShop
  /\ Validator.valid (Validator.validate noSchemas relaxedShop defaults) = true.
Proof.
  split; [reflexivity |]. split; [simpl; auto |].
  destruct (idempotency_rule_can_be_switched_off noSchemas relaxedShop defaults relaxed
              eq_refl eq_refl) as (He & _ & Hv).
  split; [exact He |]. apply Hv. reflexivity.
Defined.

Lemma strict_warnings_witness :
  In (Validator.noDescription "entities.Customer" "Entity")
     (Validator.validateStrictRules portal).
Proof.
  apply (strict_warnings portal). left. exists "Customer", customer.
  split; [simpl; auto |]. split; reflexivity.
Defined.

Lemma comparison_evaluates_witness :
  JsString.trim "resource.status" = "resource.status"
  /\ Conditions.noLogic "resource.status = 'draft'" = true
  /\ Conditions.resolveValue "resource.status" draftOfU1
     = Some (Data (Located (VStr "draft") ["resource"; "status"]))
  /\ Conditions.resolveValue "'draft'" draftOfU1 = Some (literal (VStr "draft"))
  /\ Conditions.evaluateCondition "resource.status = 'draft'" draftOfU1 = true
  /\ Conditions.evaluateCondition "resource.status = 'draft'" draftOfU1
     = Conditions.caught
         (leftValue ← Conditions.resolveValue "resource.status" draftOfU1;
          rightValue ← Conditions.resolveValue "'draft'" draftOfU1;
          Conditions.compareValues leftValue rightValue Conditions.OpEq).
Proof.
  split; [reflexivity |]. split; [reflexivity |]. split; [reflexivity |].
  split; [apply (proj2 comparison_evaluates "draft" draftOfU1) |].
  split; [reflexivity |].
  apply (proj1 comparison_evaluates "resource.status" "'draft'" Conditions.OpEq
           draftOfU1);
    try reflexivity; discriminate.
Defined.

Lemma validate_command_gate_witness :
  Validator.errors (Validator.validate noSchemas shopInProduction defaults)
  = [Validator.notIdempotent "create_order"]
  /\ Commands.exitCode
       (Commands.validateCommand noSchemas "2026-01-01T00:00:00.000Z" healthy
          shopInProduction defaults) = Some 1
  /\ Commands.written
       (Commands.validateCommand noSchemas "2026-01-01T00:00:00.000Z" healthy
          shopInProduction defaults) = None
  /\ Linker.refersToPrototype shopWithMaker
  /\ Commands.exitCode
       (Commands.validateCommand noSchemas "2026-01-01T00:00:00.000Z" healthy
          shopWithMaker defaults) = Some 1
  /\ Commands.reported
       (Commands.validateCommand noSchemas "2026-01-01T00:00:00.000Z" healthy
          shopWithMaker defaults) = Some Commands.LinkTypeError
  /\ Commands.exitCode
       (Commands.validateCommand noSchemas "2026-01-01T00:00:00.000Z" readOnly
          shopCustomerFirst defaults) = Some 1
  /\ Commands.exitCode
       (Commands.validateCommand noSchemas "2026-01-01T00:00:00.000Z" healthy
          shopCustomerFirst defaults) = None.
Proof.
  assert (He : Validator.errors (Validator.validate noSchemas shopInProduction defaults)
               = [Validator.notIdempotent "create_order"]) by (vm_compute; reflexivity).
  assert (Hp : Linker.refersToPrototype shopWithMaker).
  { exists "Order", orderByMaker, "maker", (field "string" (refTo "constructor")),
      {| Reference.entity := "constructor"; Reference.field := None;
         Reference.rest := [] |}.
    split; [simpl; auto |]. split; [simpl; auto |]. split; [reflexivity |].
    split; [reflexivity | simpl; auto]. }
  destruct (validate_command_gate noSchemas "2026-01-01T00:00:00.000Z" healthy
              shopInProduction defaults) as (Hexit & Hwritten & _).
  destruct (validate_command_gate noSchemas "2026-01-01T00:00:00.000Z" healthy
              shopWithMaker defaults) as (Hexit' & _).
  destruct (validate_command_gate noSchemas "2026-01-01T00:00:00.000Z" readOnly
              shopCustomerFirst defaults) as (Hexit'' & _).
  assert (H1 : Commands.exitCode
                 (Commands.validateCommand noSchemas "2026-01-01T00:00:00.000Z" healthy
                    shopInProduction defaults) = Some 1).
  { apply Hexit. right. right. left. rewrite He. discriminate. }
  split; [exact He |]. split; [exact H1 |]. split; [exact (Hwritten H1) |].
  split; [exact Hp |].
  split; [apply Hexit'; right; left; exact Hp |].
  split; [reflexivity |].
  split; [apply Hexit''; do 4 right; reflexivity |].
  vm_compute. reflexivity.
Defined.

Lemma generate_gate_witness :
  Linker.errors <$> Linker.link "2026-01-01T00:00:00.000Z" shopInProduction = Some []
  /\ Validator.errors (Validator.validate noSchemas shopInProduction defaults)
     = [Validator.notIdempotent "create_order"]
  /\ Commands.exitCode
       (Commands.validateCommand noSchemas "2026-01-01T00:00:00.000Z" healthy
          shopInProduction defaults) = Some 1
  /\ (exists bundle,
        Commands.bundleToGenerate None "2026-01-01T00:00:00.000Z" shopInProduction
        = inl bundle)
  /\ Linker.refersToPrototype shopWithMaker
  /\ (exists run,
        Commands.bundleToGenerate None "2026-01-01T00:00:00.000Z" shopWithMaker = inr run
        /\ Commands.spinner run = "Generation failed").
Proof.
  assert (Hl : Linker.errors <$> Linker.link "2026-01-01T00:00:00.000Z" shopInProduction
               = Some []) by (vm_compute; reflexivity).
  assert (He : Validator.errors (Validator.validate noSchemas shopInProduction defaults)
               = [Validator.notIdempotent "create_order"]) by (vm_compute; reflexivity).
  assert (Hp : Linker.refersToPrototype shopWithMaker).
  { exists "Order", orderByMaker, "maker", (field "string" (refTo "constructor")),
      {| Reference.entity := "constructor"; Reference.field := None;
         Reference.rest := [] |}.
    split; [simpl; auto |]. split; [simpl; auto |]. split; [reflexivity |].
    split; [reflexivity | simpl; auto]. }
  split; [exact Hl |]. split; [exact He |].
  destruct (returned _ _ _ Hl) as (r & Hr & Herrs).
  destruct (proj2 (proj2 generate_gate) noSchemas "2026-01-01T00:00:00.000Z" healthy
              shopInProduction defaults r eq_refl Hr Herrs
              ltac:(rewrite He; discriminate)) as [Hexit Hbundle].
  split; [exact Hexit |]. split; [exact Hbundle |]. split; [exact Hp |].
  destruct (proj1 generate_gate "2026-01-01T00:00:00.000Z" shopWithMaker)
    as (_ & _ & Hfail & _).
  apply Hfail. exact Hp.
Defined.

Lemma objectHash_ignores_unlisted_keys_witness :
  "amount" <> "payment"
  /\ Utils.objectHash (VObj [("payment", VObj [("amount", VNum (JsNumber.Dec 10 0))])])
     = Utils.objectHash (VObj [("payment", VObj [("amount", VNum (JsNumber.Dec 99 0))])])
  /\ Utils.objectHash (VObj [("payment", VObj [("amount", VNum (JsNumber.Dec 10 0))])])
     = Some "ee4f7a75336bfa72".
Proof.
  assert (Hne : "amount" <> "payment") by discriminate.
  split; [exact Hne |]. split; [| vm_compute; reflexivity].
  apply (proj1 (proj2 objectHash_ignores_unlisted_keys) "payment" "amount" _ _ Hne).
Defined.

Lemma objectHash_ignores_key_order_witness :
  let one := VNum (JsNumber.Dec 1 0) in
  let two := VNum (JsNumber.Dec 2 0) in
  NoDup (map fst [("b", two); ("a", one)])
  /\ Utils.objectHash (VObj [("b", two); ("a", one)])
     = Utils.objectHash (VObj [("a", one); ("b", two)]).
Proof.
  intros one two.
  assert (Hnd : NoDup (map fst [("b", two); ("a", one)])).
  { cbn [map fst]. apply NoDup_cons. split; [| apply NoDup_singleton].
    intros H. apply list_elem_of_singleton in H. discriminate. }
  split; [exact Hnd |].
  apply (objectHash_ignores_key_order _ _ Hnd). apply Permutation_swap.
Defined.

Lemma membership_and_null_tests_witness :
  Conditions.resolveValue "resource.status" draftOfU1
  = Some (Data (Located (VStr "draft") ["resource"; "status"]))
  /\ In "draft" ["draft"; "pending"]
  /\ Conditions.evaluateCondition "resource.status IN ('draft','pending')" draftOfU1
     = true
  /\ Conditions.resolveValue "resource.label" shadowed
     = Some (Data (Located (VObj [("toString", VNum (JsNumber.Dec 1 0))])
                     ["resource"; "label"]))
  /\ Conditions.evaluateCondition "resource.label IN ('[object Object]')" shadowed
     = false
  /\ Conditions.resolveValue "resource.owner" shadowed
     = Some (Data (Located VNull ["resource"; "owner"]))
  /\ Conditions.evaluateCondition "resource.owner IS NULL" shadowed = true
  /\ Conditions.lacks (Data (Located (VObj (Conditions.resource shadowed)) ["resource"]))
       "missing"
  /\ Conditions.evaluateCondition "resource.missing IS NULL" shadowed = true
  /\ Conditions.resolveValue "resource.toString.caller" shadowed = None
  /\ Conditions.evaluateCondition "resource.toString.caller IS NOT NULL" shadowed
     = false.
Proof.
  assert (Hstatus : Conditions.resolveValue "resource.status" draftOfU1
                    = Some (Data (Located (VStr "draft") ["resource"; "status"])))
    by reflexivity.
  assert (Hlabel : Conditions.resolveValue "resource.label" shadowed
                   = Some (Data (Located (VObj [("toString", VNum (JsNumber.Dec 1 0))])
                                   ["resource"; "label"])))
    by reflexivity.
  assert (Howner : Conditions.resolveValue "resource.owner" shadowed
                   = Some (Data (Located VNull ["resource"; "owner"])))
    by reflexivity.
  assert (Hlacks : Conditions.lacks
                     (Data (Located (VObj (Conditions.resource shadowed)) ["resource"]))
                     "missing") by (split; reflexivity).
  assert (Hthrows : Conditions.resolveValue "resource.toString.caller" shadowed = None)
    by reflexivity.
  split; [exact Hstatus |]. split; [simpl; auto |].
  split.
  { apply (proj2 (proj1 (proj1 (proj2 membership_and_null_tests)
             "resource.status" ["draft"; "pending"] draftOfU1
             eq_refl ltac:(discriminate) ltac:(discriminate)
             ltac:(repeat constructor) eq_refl eq_refl eq_refl)
             _ "draft" Hstatus eq_refl)).
    simpl. auto. }
  split; [exact Hlabel |].
  split.
  { exact (proj1 (proj2 (proj2 (proj1 (proj2 membership_and_null_tests)
             "resource.label" ["[object Object]"] shadowed
             eq_refl ltac:(discriminate) ltac:(discriminate)
             ltac:(repeat constructor) eq_refl eq_refl eq_refl)))
             _ _ (VNum (JsNumber.Dec 1 0)) Hlabel eq_refl). }
  split; [exact Howner |].
  split.
  { apply (proj2 (proj1 (proj1 (proj2 (proj2 membership_and_null_tests))
             "resource.owner" shadowed eq_refl ltac:(discriminate)
             eq_refl eq_refl eq_refl eq_refl eq_refl) _ Howner)).
    left. reflexivity. }
  split; [exact Hlacks |].
  split.
  { apply (proj1 (proj2 (proj1 (proj2 (proj2 membership_and_null_tests))
             "resource.missing" shadowed eq_refl ltac:(discriminate)
             eq_refl eq_refl eq_refl eq_refl eq_refl))
             ["resource"] "missing" []
             (Data (Located (VObj (Conditions.resource shadowed)) ["resource"])));
      [reflexivity | reflexivity | | exact Hlacks].
    apply (Conditions.reaches_further _ "resource"
             (Data (Located (VObj (Conditions.resource shadowed)) ["resource"])));
      [reflexivity | reflexivity | apply Conditions.reaches_here]. }
  split; [exact Hthrows |].
  exact (proj2 (proj2 (proj2 (proj2 membership_and_null_tests))
           "resource.toString.caller" shadowed eq_refl ltac:(discriminate)
           eq_refl eq_refl eq_refl eq_refl) Hthrows).
Defined.

Lemma redaction_is_shallow_witness :
  length (Audit.buffer almostFull) = 99%nat
  /\ Audit.log almostFull "aud_1" "2026-01-01T00:00:01.000Z" signup
     = (None, {| Audit.config := buffering; Audit.buffer := [] |})
  /\ JsValue.lookup "profile"
       [("email", VStr "a@b.c"); ("password", VStr "[REDACTED]");
        ("profile", VObj [("password", VStr "hunter2")])]
     = Some (VObj [("password", VStr "hunter2")])
  /\ Forall (fun field => existsb (String.eqb field) JsValue.objectPrototype = false)
       ["password"].
Proof.
  assert (Hlen : length (Audit.buffer almostFull) = 99%nat) by reflexivity.
  assert (Hown : Forall (fun field => existsb (String.eqb field) JsValue.objectPrototype
                                      = false) ["password"])
    by (repeat constructor).
  assert (Hred : Audit.redactFields
                   (VObj [("email", VStr "a@b.c"); ("password", VStr "hunter2");
                          ("profile", VObj [("password", VStr "hunter2")])])
                   ["password"]
                 = VObj [("email", VStr "a@b.c"); ("password", VStr "[REDACTED]");
                         ("profile", VObj [("password", VStr "hunter2")])])
    by reflexivity.
  split; [exact Hlen |]. split; [| split; [| exact Hown]].
  - apply (proj2 (proj2 redaction_is_shallow) almostFull); reflexivity.
  - pose proof (proj2 (proj1 redaction_is_shallow _ _ _ Hred) Hown) as _.
    exact (proj1 (proj1 redaction_is_shallow _ _ _ Hred) "profile").
Defined.

End OnSamples.
